(* ===== verification/_CoqProject ===== *)
-Q . S2P
Prelude.v
Keeping.v
SerialProtocol.v
FrameCodec.v
VecQueue.v
StateChart.v
RootChart.v
Config.v
TimeService.v
MasterScheduler.v
MasterState.v
DynamicHandler.v
MasterFSM.v
Master.v
MasterInvariant.v
MasterSafety.v
MasterEvents.v
MasterRuns.v
MasterProps.v
MasterFrame.v
Polling.v
TokenRound.v
Interfaces.v
TxQueue.v
AddressCache.v
MsgToByteAdapter.v
PacketTypeCodec.v
Node.v
Client.v
ClientProps.v
NodeMaster.v
Handshake.v
Posix.v
SerialDriver.v
SerialProps.v
FolderManager.v
DriverHost.v
TunTapDriver.v
TapDriver.v
TapProps.v
TunDriver.v
TunProps.v
RawDrivers.v
RawProps.v
SNConfig.v
EventLoop.v
EventLoopProps.v
EventRuns.v
TimerRefinement.v
UtilityTimer.v
Text.v
WSDump.v
Log.v
SerialNet.v
ProgramRules.v
SerialNetProps.v
MasterProgram.v
HwTests.v
MQTTDriver.v
