(* ===== verification/Prelude.v ===== *)
(** * SerialNet: a verification library

    SerialNet lets several hosts share one serial line. Each host runs a node; one
    of the nodes is also the master, which polls the others with tokens and gives
    out addresses. A node is a stack: a host driver at the top (TAP or TUN
    interface, pseudo terminal, standard streams), the transmit queue and the packet
    layer below it, then the byte adapter with the frame codec, and the serial port
    at the bottom. The master sits beside the packet layer: it is handed every
    packet, sends through the same queue, and runs on timers. Everything runs in one
    event loop, one callback at a time; the model is sequential for that reason.

    HOW CODE BECOMES DEFINITIONS

    A class is a Record, and its methods are definitions of a Module of their own in
    the state and failure monad [M S A] below. [S] is any state that contains the
    object, given by a [Lens]: a method that calls another object, or calls back into
    the driver or the master above it, works on the state that contains them all.
    A pointer that may be null is an option, or a bool where only its being set
    matters. A failed assert, an exception (the program catches none), undefined
    behaviour and lack of fuel are four distinct failures. Memory that the code reads
    uninitialised is a parameter named [garbage]. Integers are in Z, with the casts of
    the code written out where they can matter; a double of seconds is a number of
    microseconds. What the parts write to the log is left out. Virtual classes are
    type classes over [S] (ByteEtherIf, MsgEtherIf, MsgHostIf, HostCallbacks,
    PosixFileIf and so on); what is relied on beyond the signature is in a class of
    laws, and each such class has a concrete instance on which the theorems are tried.

    THE FILES

    - Prelude: bytes, failures, the monad and its weakest preconditions, lenses,
      record update, simulations, exclusive or.
    - Keeping: relations between states that a computation keeps, with tactics that go
      through a definition operation by operation.
    - SerialProtocol (interfaces/SerialProtocol.h): message and channel types,
      addresses, and the packed headers as a class [Header] with its round trips.
    - FrameCodec (core/FrameCodec): framing and the decoder, byte by byte. Frames
      come out again as they went in; the invariant of the decoder; a frame with one
      byte changed is dropped; the length field 0 is an overrun.
    - VecQueue (utility/VecQueue.h): refines a list, and bounds its storage.
    - StateChart, RootChart (statechart/): the hierarchical machine, and machines
      without nested states, which the first refines. Every loop has fuel. Posting an
      event refines a specification without loops; state objects nest; a transition
      to a state that is not registered never ends.
    - Config, TimeService, MasterScheduler, MasterState, DynamicHandler, MasterFSM,
      Master (utility/Config, hal/TimeServiceEv, master/): the master, its constructor
      and its inputs: a packet, one of three timers, time that passes.
    - MasterInvariant, MasterSafety, MasterEvents, MasterRuns, MasterProps: the
      invariant of the address table, the actions and the timers, preserved by every
      input; from it what holds of every reachable master: it survives every input
      but one, there is one token action for each address and one query, addresses
      are unique, one timer is always armed unless the machine is stuck in the one
      way that is shown; and what single inputs do.
    - MasterFrame: a class of relations that all of the master's code keeps because the
      few operations it calls do. It is used for what the master does to the clock and
      the node; to the order of its queue (Polling: a token that is due is begun after
      at most 21 other actions); and to an address that has had its turn (TokenRound:
      a token from its confirmation to the time it is queued for again).
    - Interfaces, TxQueue, AddressCache, MsgToByteAdapter, PacketTypeCodec, Node
      (interfaces/, core/, mains/serialnet/SerialNet.cpp): the core of a node and its
      wiring. The address cache refines a finite map.
    - Client, ClientProps: a node without a master refines an abstract client with
      one step per packet, whatever the chunks the bytes come in; a client speaks only
      when it is asked; messages reach the hosts they are for, in order, unchanged.
    - NodeMaster, Handshake: the node is an environment of the master; a frame that is
      cut short stalls the master; the negotiation of an address from both sides.
    - Posix (hal/PosixIf.h, PosixFd), SerialDriver, SerialProps (drivers/serial/): the
      port implements the byte layer that Node relies on; the RTS line.
    - FolderManager (core/FolderManager): links to terminals over a file system.
    - DriverHost: a host driver on top of the parts of a node that it works on, the
      state of the theorems on drivers.
    - TunTapDriver, TapDriver, TapProps (drivers/tap/): the interface is up exactly
      while the node has an address; Ethernet frames from interface to interface, and
      which of them are dropped.
    - TunDriver, TunProps (drivers/tun/): streams of IP packets are split and joined;
      what a packet with a wrong length does.
    - RawDrivers, RawProps (drivers/pty/, drivers/stdstream/): data from terminal to
      terminal; a terminal that is gone; the standard streams that get nothing.
    - SNConfig (mains/serialnet/SNConfig): modes and options, and which of the
      addresses it accepts are ever polled.
    - EventLoop, EventLoopProps, EventRuns (eventwrapper/, hal/TimeServiceEv,
      interfaces/TimeServiceIf.h): watchers as objects on a heap, owned by shared
      pointers and by themselves while libev has them; libev is a class with laws.
      The invariant of the watchers, kept by every operation and callback; callbacks
      find live objects of their class, who is called again, who is not called any
      more; a timer that is dropped in its own handler is used after it is freed, one
      that is cancelled before leaks.
    - TimerRefinement: the timers of TimeServiceEv implement the TimeService that the
      master is modelled over, up to that use after free, which is in no theorem on
      the master.
    - UtilityTimer (utility/Timer): timers that may be gone when their timeout expires.
    - Text: numbers, words and lines, and that they read back. WSDump (core/WSDump,
      utility/Utility): the text of the dump, and that the packets can be read back
      from it. Log (utility/Log): the lines of the log and the time in them.
    - SerialNet, ProgramRules, SerialNetProps (mains/serialnet/SerialNet.cpp, main.cpp,
      factories/RealPosixFactory): the program: [main] from the parsed command line on,
      what [start] makes and wires for a configuration, and the main loop, in which libev
      calls the closures of the drivers, the master's time-out and the signal. A state
      contains all parts, so that every driver and the core run in it by their
      instances. The master's own timers are those of TimeService there, not watchers,
      and fire as steps of the program. ProgramRules has the relation of Keeping for what
      any part may do to the whole. No callback touches a freed watcher; the signal
      ends the loop.
    - MasterProgram: what the program may do to the node and the master; so the master
      of the running program is always a reachable one, and the theorems on those are
      about the program.
    - MQTTDriver (drivers/mqtt/): a client of an MQTT broker, over a library as a class
      with laws; no other part uses it yet.
    - HwTests (mains/hw_tests/): the program that sets the RTS line for a measurement.

    FUEL

    [master_fuel] is 40 iterations for every loop of the state machine, per input: an
    input makes at most 21 actions due (19 addresses, the query, the start), each of
    which takes at most one event before the machine waits again; that it is enough
    is part of the theorems on reachable masters, which name no lack of fuel. The
    theorems on state charts hold for any fuel at least the one they name. The loop
    of deliverRxQueue has as much fuel as packets wait, which is exact as long as no
    driver makes the node receive while it is given a packet; no driver does. The
    dump has as much fuel as the packet has bytes, one or more of which every line
    takes. The main loop is a relation and has no fuel.

    NOT MODELLED

    libev, which is the class LibEv, and the parser of the command line with its
    table of options and help text, which main gets the result of; the system call
    wrappers and their test double; ProgramVersion; master/DynamicAddress, of which
    no object is made; TimeServiceSim, a stub; of the MQTT drivers the classes
    that have no code yet; tests and vendored code. A factory's function is the
    constructor call in it. Of errors that end the process the model keeps the failure,
    not the clean-up of the objects that are destroyed on the way. *)

From stdpp Require Export base tactics decidable option list numbers relations strings.
From Stdlib Require Export ZArith Lia.

(** ** Options of the development *)

#[export] Set Default Goal Selector "!".
#[export] Set Default Proof Using "Type".

Declare Scope serialnet_scope.
Delimit Scope serialnet_scope with sn.
#[global] Open Scope Z_scope.

(** ** Bytes

    [gsl::byte] is an enumeration over [unsigned char]; a byte is an integer
    with the predicate [is_byte], and a byte vector a list of them. *)

Abbreviation byte := Z (only parsing).
Abbreviation ByteVec := (list Z) (only parsing).

Definition is_byte (b : byte) : Prop := 0 <= b < 256.
Definition bytes (l : ByteVec) : Prop := Forall is_byte l.

#[export] Instance is_byte_dec b : Decision (is_byte b).
Proof. unfold is_byte. apply _. Defined.
#[export] Instance bytes_dec l : Decision (bytes l).
Proof. unfold bytes. apply _. Defined.

(** [static_cast<uint8_t>] and [size_t] arithmetic. *)
Definition to_uint8 (x : Z) : byte := x mod 256.
Definition size_t_modulus : Z := 2 ^ 64.
Definition to_size_t (x : Z) : Z := x mod size_t_modulus.

(** ** Failures

    How a C++ computation stops without returning: a failed [assert], an
    exception (no [catch] exists in the program, so one ends the process),
    undefined behaviour, and, for the definitions whose recursion is bounded by
    fuel, running out of it. *)

Inductive Failure : Type :=
  | AssertFailed
  | Exception (what : string)
  | Undefined (why : string)
  | OutOfFuel.

#[export] Instance Failure_eq_dec : EqDecision Failure.
Proof. solve_decision. Defined.

Inductive result (A : Type) : Type :=
  | Ok (a : A)
  | Fail (e : Failure).
Arguments Ok {A} a.
Arguments Fail {A} e.

#[export] Instance result_eq_dec `{EqDecision A} : EqDecision (result A).
Proof. solve_decision. Defined.

Definition is_ok {A} (r : result A) : bool :=
  match r with Ok _ => true | Fail _ => false end.

Definition result_map {A B} (f : A → B) (r : result A) : result B :=
  match r with Ok a => Ok (f a) | Fail e => Fail e end.

(** ** The state and failure monad *)

Definition M (S A : Type) : Type := S → result (A * S).

#[export] Instance M_ret {S} : MRet (M S) := λ A a s, Ok (a, s).
#[export] Instance M_bind {S} : MBind (M S) := λ A B f m s,
  match m s with Ok (a, s') => f a s' | Fail e => Fail e end.

Definition fail {S A} (e : Failure) : M S A := λ _, Fail e.
Definition get {S} : M S S := λ s, Ok (s, s).
Definition put {S} (s : S) : M S () := λ _, Ok ((), s).
Definition gets {S A} (f : S → A) : M S A := λ s, Ok (f s, s).
Definition modify {S} (f : S → S) : M S () := λ s, Ok ((), f s).
Definition skip {S} : M S () := λ s, Ok ((), s).
Definition assert {S} (b : bool) : M S () := if b then skip else fail AssertFailed.

(** Dereference what may be a null pointer. *)
Definition deref {S A} (why : string) (o : option A) : M S A :=
  match o with Some a => mret a | None => fail (Undefined why) end.

#[global] Arguments deref : simpl never.

Definition lift_result {S A} (r : result A) : M S A :=
  λ s, match r with Ok a => Ok (a, s) | Fail e => Fail e end.

(** Running the first half of a sequence. *)
Lemma bind_ok {S A B} (m : M S A) (f : A → M S B) s a s' :
  m s = Ok (a, s') → (m ≫= f) s = f a s'.
Proof. unfold mbind, M_bind. by intros ->. Qed.

Lemma bind_step {S A B} (m : M S A) (f : A → M S B) s a s' r :
  m s = Ok (a, s') → f a s' = r → (m ≫= f) s = r.
Proof. intros Hm Hf. by rewrite (bind_ok _ _ _ _ _ Hm). Qed.

Lemma bind_fail {S A B} (m : M S A) (f : A → M S B) s e :
  m s = Fail e → (m ≫= f) s = Fail e.
Proof. unfold mbind, M_bind. by intros ->. Qed.

Lemma bind_inv {S A B} (m : M S A) (f : A → M S B) s b s'' :
  (m ≫= f) s = Ok (b, s'') → ∃ a s', m s = Ok (a, s') ∧ f a s' = Ok (b, s'').
Proof. unfold mbind, M_bind. destruct (m s) as [[a s']|e]; [eauto|done]. Qed.

Lemma bind_assoc {S A B C} (m : M S A) (f : A → M S B) (g : B → M S C) s :
  ((m ≫= f) ≫= g) s = (m ≫= (λ a, f a ≫= g)) s.
Proof. unfold mbind, M_bind. by destruct (m s) as [[a s']|e]. Qed.

(** Sequential loop over a vector, [for (auto x : l) f(x)]. *)
Fixpoint for_each {S A} (f : A → M S ()) (l : list A) : M S () :=
  match l with
  | [] => skip
  | x :: l' => f x ;; for_each f l'
  end.

Lemma for_each_app {S A} (f : A → M S ()) l1 l2 s :
  for_each f (l1 ++ l2) s = (for_each f l1 ;; for_each f l2) s.
Proof.
  revert s. induction l1 as [|x l1 IH]; intros s; simpl; [done|].
  unfold mbind, M_bind. destruct (f x s) as [[[] s']|e]; [|done]. apply IH.
Qed.

Lemma for_each_fmap {S A B} (f : B → M S ()) (g : A → B) l :
  for_each f (g <$> l) = for_each (λ x, f (g x)) l.
Proof. induction l as [|x l IH]; [done|]. cbn. by rewrite IH. Qed.

(** [while (cond) body], for at most [fuel] iterations. *)
Fixpoint while_ {S} (fuel : nat) (cond : M S bool) (body : M S ()) : M S () :=
  b ← cond;
  if b : bool then
    match fuel with
    | O => fail OutOfFuel
    | Datatypes.S n => body ;; while_ n cond body
    end
  else skip.

(** ** Lenses

    A component's operation works on any state that contains the component's
    state; [Lens S T] says where. *)

Class Lens (S T : Type) := {
  view : S → T;
  set_view : T → S → S;
  view_set t s : view (set_view t s) = t;
  set_set t t' s : set_view t' (set_view t s) = set_view t' s;
  set_get s : set_view (view s) s = s
}.
#[export] Hint Mode Lens ! ! : typeclass_instances.

#[export] Program Instance Lens_id {S} : Lens S S := {
  view s := s;
  set_view t _ := t
}.
Solve Obligations with done.

#[export] Program Instance Lens_fst {S T} : Lens (S * T) S | 10 := {
  view := fst;
  set_view t p := (t, p.2)
}.
Solve Obligations with (by intros; repeat match goal with p : _ * _ |- _ => destruct p end).

#[export] Program Instance Lens_snd {S T} : Lens (S * T) T | 10 := {
  view := snd;
  set_view t p := (p.1, t)
}.
Solve Obligations with (by intros; repeat match goal with p : _ * _ |- _ => destruct p end).

Create Rewrite HintDb lens.
#[export] Hint Rewrite @view_set @set_set @set_get : lens.

(** Read and overwrite the component. *)
Definition load {S T} `{!Lens S T} : M S T := gets view.
Definition store {S T} `{!Lens S T} (t : T) : M S () := modify (set_view t).

Lemma load_store {S T A} `{!Lens S T} (f : T → T) (g : () → M S A) s :
  (v ← load; store (f v) ≫= g) s = g () (set_view (f (view s)) s).
Proof. done. Qed.

(** Run a component's own computation. *)
Definition zoom {S T A} `{!Lens S T} (m : M T A) : M S A := λ s,
  match m (view s) with
  | Ok (a, t) => Ok (a, set_view t s)
  | Fail e => Fail e
  end.

(** What is done to the whole state by what is done to a part of it. *)
Section zoom.
Context {S T : Type} `{!Lens S T}.

Lemma zoom_ok {A} (m : M T A) (s : S) a t :
  m (view s) = Ok (a, t) → zoom m s = Ok (a, set_view t s).
Proof. unfold zoom. by intros ->. Qed.

Lemma zoom_bind {A B} (m : M T A) (f : A → M T B) (s : S) :
  zoom (m ≫= f) s = (zoom m ≫= λ a, zoom (f a)) s.
Proof.
  unfold zoom, mbind, M_bind. destruct (m (view s)) as [[a t]|e]; [|done].
  rewrite view_set. destruct (f a t) as [[b t']|e]; [|done]. by rewrite set_set.
Qed.

Lemma zoom_skip (s : S) : zoom (skip : M T ()) s = skip s.
Proof. unfold zoom, skip. by rewrite set_get. Qed.
End zoom.

Lemma bind_ext {S A B} (m m' : M S A) (f f' : A → M S B) s :
  m s = m' s → (∀ a s', f a s' = f' a s') → (m ≫= f) s = (m' ≫= f') s.
Proof. intros Hm Hf. unfold mbind, M_bind. rewrite Hm. by destruct (m' s) as [[]|]. Qed.

(** A computation of a part whose calls are all its own, done call by call. *)
Ltac lift_calls :=
  repeat first
    [ reflexivity
    | apply zoom_skip
    | rewrite zoom_bind; apply bind_ext; [|intros ? ?]
    | match goal with |- context [match ?b with _ => _ end] => destruct b end ].

(** Run a computation of a part of the state, given its getter and setter. *)
Definition on_part {S T A} (get_part : S → T) (set_part : T → S → S)
    (m : M T A) : M S A := λ s,
  match m (get_part s) with
  | Ok (a, t) => Ok (a, set_part t s)
  | Fail e => Fail e
  end.

(** ** Record update

    [r <| field := v |>] rebuilds the record [r] with one field replaced. The
    class [Eta] gives a record's constructor applied to its projections, and the
    setter of a field is read off it. *)

Class Eta (R : Type) := eta : R → R.
Class Setter {R T : Type} (proj : R → T) := update : (T → T) → R → R.
Arguments update {R T} proj {Setter} f r.

Ltac solve_setter :=
  lazymatch goal with
  | |- @Setter ?R ?T ?proj =>
      let inst := constr:(ltac:(typeclasses eauto) : Eta R) in
      let inst := eval hnf in inst in
      exact (fun (f : T -> T) (r : R) =>
        ltac:(let body := eval cbv beta in (inst r) in
              let x := constr:(proj r) in
              lazymatch eval pattern x in body with
              | ?F _ => let res := eval cbv beta in (F (f x)) in exact res
              end))
  end.
#[export] Hint Extern 0 (Setter _) => solve_setter : typeclass_instances.

Notation "r <| field := v |>" := (update field (λ _, v) r)
  (at level 1, left associativity, format "r  <| field  :=  v |>").
Notation "r <| field ::= f |>" := (update field f r)
  (at level 1, left associativity, format "r  <| field  ::=  f |>").

(** Reading a field of an updated record: the new value, or the field of the
    record before the update. One layer at a time, so that the size of the goal
    does not grow with the number of updates. *)
Ltac read_field :=
  match goal with
  | |- context [?p (@update ?R ?T ?q ?S ?f ?r)] =>
      first
        [ constr_eq p q; change (p (@update R T q S f r)) with (f (p r))
        | change (p (@update R T q S f r)) with (p r) ]
  end; cbv beta.
Ltac simpl_rec := repeat read_field; cbn.

(** Both sides of an equation between records, constructor against
    constructor; meant for a few updates only. *)
Ltac unfold_rec := unfold update; cbn.

(** The same for a record that can be taken apart first, whatever the number of
    updates: the innermost update is computed first. *)
Ltac head_of t := lazymatch t with ?f _ => head_of f | _ => t end.
Ltac compute_update :=
  match goal with
  | |- context [@update ?R ?T ?q ?S ?f ?r] =>
      let h := head_of r in
      is_constructor h;
      let v := eval hnf in (@update R T q S f r) in
      let v := eval cbn in v in
      change (@update R T q S f r) with v
  end.
Ltac record_eq r := destruct r; repeat compute_update; cbn.

(** ** Weakest preconditions

    [wp m E Q s]: run in [s], the computation [m] either returns a value and a
    state that satisfy [Q], or stops with a failure that satisfies [E]. *)

Definition wp {S A} (m : M S A) (E : Failure → Prop) (Q : A → S → Prop)
    (s : S) : Prop :=
  match m s with
  | Ok (a, s') => Q a s'
  | Fail e => E e
  end.

(** Failures a specification rules out altogether. *)
Definition never : Failure → Prop := λ _, False.

Section wp_rules.
Context {S : Type}.
Implicit Types (E : Failure → Prop) (s : S).

Lemma wp_ret {A} (a : A) E Q s : Q a s → wp (mret a) E Q s.
Proof. done. Qed.

Lemma wp_bind {A B} (m : M S A) (f : A → M S B) E Q s :
  wp m E (λ a, wp (f a) E Q) s → wp (m ≫= f) E Q s.
Proof.
  unfold wp, mbind, M_bind. by destruct (m s) as [[a s']|e].
Qed.

(** Regrouping a sequence of two commands and a rest. *)
Lemma wp_bind_assoc {A B C} (m : M S A) (f : A → M S B) (g : B → M S C) E Q s :
  wp ((m ≫= f) ≫= g) E Q s → wp (m ≫= λ a, f a ≫= g) E Q s.
Proof. unfold wp. by rewrite bind_assoc. Qed.

Lemma wp_mono {A} (m : M S A) E E' (Q Q' : A → S → Prop) s :
  wp m E Q s → (∀ e, E e → E' e) → (∀ a s', Q a s' → Q' a s') →
  wp m E' Q' s.
Proof. unfold wp. destruct (m s) as [[a s']|e]; auto. Qed.

Lemma wp_skip E Q s : Q () s → wp skip E Q s.
Proof. done. Qed.
Lemma wp_get E Q s : Q s s → wp get E Q s.
Proof. done. Qed.
Lemma wp_put E Q s s' : Q () s' → wp (put s') E Q s.
Proof. done. Qed.
Lemma wp_gets {A} (f : S → A) E Q s : Q (f s) s → wp (gets f) E Q s.
Proof. done. Qed.
Lemma wp_modify f E Q s : Q () (f s) → wp (modify f) E Q s.
Proof. done. Qed.
Lemma wp_fail {A} e E (Q : A → S → Prop) s : E e → wp (fail e) E Q s.
Proof. done. Qed.
Lemma wp_assert b E Q s : b = true → Q () s → wp (assert b) E Q s.
Proof. by intros ->. Qed.
Lemma wp_deref {A} why (a : A) E Q s : Q a s → wp (deref why (Some a)) E Q s.
Proof. done. Qed.

Lemma wp_zoom {T A} `{!Lens S T} (m : M T A) E Q s :
  wp m E (λ a t, Q a (set_view t s)) (view s) → wp (zoom m) E Q s.
Proof. unfold wp, zoom. by destruct (m (view s)) as [[a t]|e]. Qed.

Lemma wp_on_part {T A} (get_part : S → T) set_part (m : M T A) E Q s :
  wp m E (λ a t, Q a (set_part t s)) (get_part s) →
  wp (on_part get_part set_part m) E Q s.
Proof. unfold wp, on_part. by destruct (m (get_part s)) as [[a t]|e]. Qed.

(** A computation whose result is known. *)
Lemma wp_eq {A} (m : M S A) E (Q : A → S → Prop) s a s' :
  m s = Ok (a, s') → Q a s' → wp m E Q s.
Proof. unfold wp. by intros ->. Qed.

Lemma wp_for_each {A} (f : A → M S ()) (I : list A → S → Prop) E l s :
  I l s →
  (∀ x l' s', I (x :: l') s' → wp (f x) E (λ _, I l') s') →
  wp (for_each f l) E (λ _, I []) s.
Proof.
  intros HI Hstep. revert s HI. induction l as [|x l IH]; intros s HI; simpl.
  - by apply wp_skip.
  - apply wp_bind. eapply wp_mono; [apply (Hstep x l s HI)|done|].
    intros [] s' HI'. by apply IH.
Qed.

Lemma wp_ok {A} (m : M S A) Q s :
  wp m never Q s → ∃ a s', m s = Ok (a, s') ∧ Q a s'.
Proof. unfold wp, never. destruct (m s) as [[a s']|e]; naive_solver. Qed.

Lemma wp_run {A} (m : M S A) E Q s a s' :
  wp m E Q s → m s = Ok (a, s') → Q a s'.
Proof. unfold wp. intros H Hm. by rewrite Hm in H. Qed.
End wp_rules.

(** A loop with a measure that decreases at each iteration, and fuel for it. *)
Lemma wp_while {S} fuel (cond : M S bool) (body : M S ()) E
    (I : S → Prop) (m : S → nat) (Q : S → Prop) s :
  I s → (m s ≤ fuel)%nat →
  (∀ s, I s → wp cond E (λ b s',
     if b : bool
     then (0 < m s)%nat ∧ wp body E (λ _ s'', I s'' ∧ (m s'' < m s)%nat) s'
     else Q s') s) →
  wp (while_ fuel cond body) E (λ _, Q) s.
Proof.
  intros HI Hm Hstep. revert s HI Hm.
  induction fuel as [|fuel IH]; intros s HI Hm; simpl;
    apply wp_bind; (eapply wp_mono; [by apply Hstep|done|]);
    intros [] s' Hb; [|by apply wp_skip| |by apply wp_skip].
  - destruct Hb. lia.
  - destruct Hb as [_ Hb]. apply wp_bind. eapply wp_mono; [exact Hb|done|].
    intros [] s'' [HI' Hlt]. apply IH; [done|lia].
Qed.

(** Symbolic execution: one monadic operation, or all leading ones. *)
Ltac wp_step :=
  lazymatch goal with
  | |- wp (mbind _ _) _ _ _ => apply wp_bind
  | |- wp (mret _) _ _ _ => apply wp_ret
  | |- wp skip _ _ _ => apply wp_skip
  | |- wp get _ _ _ => apply wp_get
  | |- wp (put _) _ _ _ => apply wp_put
  | |- wp (gets _) _ _ _ => apply wp_gets
  | |- wp (modify _) _ _ _ => apply wp_modify
  | |- wp (deref _ (Some _)) _ _ _ => apply wp_deref
  | |- wp (zoom _) _ _ _ => apply wp_zoom
  | |- wp (on_part _ _ _) _ _ _ => apply wp_on_part
  | |- wp (match ?x with _ => _ end) _ _ _ => destruct x eqn:?
  end; cbv beta.
Ltac wp_steps := repeat (wp_step; []).

(** Split the first [match] or [if] on which the goal is stuck. *)
Ltac split_match :=
  match goal with
  | |- context [match ?x with _ => _ end] => destruct x eqn:?
  end.

(** ** Simulation

    [psim R R' m m']: from states related by [R], [m] does what [m'] does, and
    the states end related by [R']. [m'] is the abstract one; nothing is claimed
    where it runs out of fuel. [sim R] keeps the relation. *)

Definition psim {S T A} (R R' : S → T → Prop) (m : M S A) (m' : M T A) : Prop :=
  ∀ s t, R s t →
    match m' t with
    | Ok (a, t') => ∃ s', m s = Ok (a, s') ∧ R' s' t'
    | Fail OutOfFuel => True
    | Fail e => m s = Fail e
    end.

Abbreviation sim R := (psim R R).

Section psim_rules.
Context {S T : Type}.
Implicit Types R : S → T → Prop.

Lemma psim_bind {A B} R R1 R' (m : M S A) (m' : M T A) (f : A → M S B) (f' : A → M T B) :
  psim R R1 m m' → (∀ a, psim R1 R' (f a) (f' a)) → psim R R' (m ≫= f) (m' ≫= f').
Proof.
  intros Hm Hf s t HR. unfold mbind, M_bind. specialize (Hm s t HR).
  destruct (m' t) as [[a t']|e]; [|by destruct e; rewrite ?Hm].
  destruct Hm as (s' & -> & HR'). by apply Hf.
Qed.

(** The concrete side goes on alone after a common command. *)
Lemma psim_tail {A} R R1 R' (m : M S A) (m' : M T ()) (f : A → M S ()) :
  psim R R1 (m ;; skip) m' → (∀ a, psim R1 R' (f a) skip) →
  psim R R' (m ≫= f) m'.
Proof.
  intros Hm Hf s t HR. specialize (Hm s t HR). revert Hm. unfold mbind, M_bind.
  destruct (m' t) as [[[] t']|e]; [|destruct e, (m s) as [[]|]; naive_solver].
  intros (s' & Hms & HR'). destruct (m s) as [[a s1]|]; [|done].
  injection Hms as <-. by apply (Hf a s1 t').
Qed.

Lemma psim_bind_skip R R' (m : M S ()) (m' : M T ()) :
  psim R R' m m' → psim R R' (m ;; skip) m'.
Proof.
  intros Hm s t HR. specialize (Hm s t HR). revert Hm. unfold mbind, M_bind, skip.
  destruct (m' t) as [[[] t']|e]; [|by destruct e; try intros ->].
  intros (s' & -> & HR'). by exists s'.
Qed.

Lemma psim_assoc {A B C} R R' (m : M S A) (f : A → M S B) (g : B → M S C) (m' : M T C) :
  psim R R' (m ≫= λ a, f a ≫= g) m' → psim R R' ((m ≫= f) ≫= g) m'.
Proof.
  intros H s t HR. specialize (H s t HR). by rewrite bind_assoc.
Qed.

(** A step that only the concrete side takes. *)
Lemma psim_left {A B} R R1 R' (m : M S A) a (f : A → M S B) (m' : M T B) :
  (∀ s t, R s t → ∃ s1, m s = Ok (a, s1) ∧ R1 s1 t) →
  psim R1 R' (f a) m' → psim R R' (m ≫= f) m'.
Proof.
  intros Hm Hf s t HR. destruct (Hm s t HR) as (s1 & Hs1 & HR1).
  rewrite (bind_ok _ _ _ _ _ Hs1). by apply Hf.
Qed.

(** A step that only the abstract side takes. *)
Lemma psim_right {A B} R R1 R' (m : M S B) a (m' : M T A) (f : A → M T B) :
  (∀ s t, R s t → ∃ t1, m' t = Ok (a, t1) ∧ R1 s t1) →
  psim R1 R' m (f a) → psim R R' m (m' ≫= f).
Proof.
  intros Hm Hf s t HR. destruct (Hm s t HR) as (t1 & Ht1 & HR1).
  rewrite (bind_ok _ _ _ _ _ Ht1). by apply Hf.
Qed.

(** The abstract side reads its state. *)
Lemma psim_gets_r {A B} R R' (m : M S B) (f : T → A) (g : A → M T B) :
  (∀ a, psim (λ s t, R s t ∧ f t = a) R' m (g a)) → psim R R' m (gets f ≫= g).
Proof. intros H s t HR. by apply (H (f t) s t). Qed.

(** A fact that the relation implies about neither state. *)
Lemma psim_pure {A} (P : Prop) R R' (m : M S A) (m' : M T A) :
  (∀ s t, R s t → P) → (P → psim R R' m m') → psim R R' m m'.
Proof. intros HP H s t HR. exact (H (HP s t HR) s t HR). Qed.

Lemma psim_conseq {A} R1 R1' R R' (m : M S A) (m' : M T A) :
  psim R1 R1' m m' → (∀ s t, R s t → R1 s t) → (∀ s t, R1' s t → R' s t) →
  psim R R' m m'.
Proof.
  intros Hm Hpre Hpost s t HR. specialize (Hm s t (Hpre s t HR)).
  destruct (m' t) as [[a t']|e]; [|done]. destruct Hm as (s' & ? & ?). eauto.
Qed.
End psim_rules.

Section sim_rules.
Context {S T : Type} (R : S → T → Prop).

Lemma sim_ret {A} (a : A) : sim R (mret a) (mret a).
Proof. intros s t HR. by exists s. Qed.

Lemma sim_skip : sim R skip skip.
Proof. intros s t HR. by exists s. Qed.

Lemma sim_fail {A} e : sim R (fail e : M S A) (fail e).
Proof. by destruct e. Qed.

Lemma sim_out_of_fuel {A} (m : M S A) : sim R m (fail OutOfFuel).
Proof. done. Qed.

Lemma sim_assert b : sim R (assert b) (assert b).
Proof. destruct b; [apply sim_skip|apply sim_fail]. Qed.

Lemma sim_deref {A} why (o : option A) : sim R (deref why o) (deref why o).
Proof. destruct o; [apply sim_ret|apply sim_fail]. Qed.

Lemma sim_bind {A B} (m : M S A) (m' : M T A) (f : A → M S B) (f' : A → M T B) :
  sim R m m' → (∀ a, sim R (f a) (f' a)) → sim R (m ≫= f) (m' ≫= f').
Proof.
  apply psim_bind.
Qed.

Lemma sim_for_each {A} (f : A → M S ()) (f' : A → M T ()) l :
  (∀ a, sim R (f a) (f' a)) → sim R (for_each f l) (for_each f' l).
Proof.
  intros Hf. induction l as [|a l IH]; simpl; [apply sim_skip|].
  by apply sim_bind.
Qed.

(** A relation that agrees on a component. *)
Class SameView (V : Type) `{!Lens S V} `{!Lens T V} : Prop := {
  same_view s t : R s t → view s = view t :> V;
  same_set s t (v : V) : R s t → R (set_view v s) (set_view v t)
}.

Lemma sim_zoom {V A} `{SV : SameView V} (m : M V A) : sim R (zoom m) (zoom m).
Proof.
  intros s t HR. unfold zoom. rewrite (same_view s t HR).
  destruct (m (view t)) as [[a v]|e]; [|by destruct e].
  eexists. split; [done|]. by apply same_set.
Qed.
End sim_rules.

(** The rules, applied by the shape of the computation. *)
Ltac sim_step :=
  lazymatch goal with
  | |- psim ?R ?R (mbind _ _) _ => apply sim_bind; [|intros ?]
  | |- psim ?R ?R (mret _) _ => apply sim_ret
  | |- psim ?R ?R skip _ => apply sim_skip
  | |- psim ?R ?R (fail _) _ => apply sim_fail
  | |- psim ?R ?R (assert _) _ => apply sim_assert
  | |- psim ?R ?R (deref _ _) _ => apply sim_deref
  | |- psim ?R ?R (zoom _) _ => apply sim_zoom
  | |- psim ?R ?R (for_each _ _) _ => apply sim_for_each; intros ?
  | |- psim ?R ?R (match ?x with _ => _ end) _ => destruct x
  end.
Ltac sim_steps := repeat (sim_step || solve [eauto]).

(** ** Exclusive or of bytes *)

Definition xor_all (l : ByteVec) : byte := fold_left Z.lxor l 0.
#[global] Arguments xor_all : simpl never.

Lemma xor_all_nil : xor_all [] = 0.
Proof. done. Qed.

Lemma lxor_byte a b : is_byte a → is_byte b → is_byte (Z.lxor a b).
Proof.
  unfold is_byte. intros [Ha Ha'] [Hb Hb']. split.
  - apply Z.lxor_nonneg. lia.
  - destruct (decide (Z.lxor a b = 0)) as [->|Hne]; [lia|].
    assert (0 ≤ Z.lxor a b) by (apply Z.lxor_nonneg; lia).
    change 256 with (2 ^ 8). apply Z.log2_lt_pow2; [lia|].
    eapply Z.le_lt_trans; [by apply Z.log2_lxor|].
    apply Z.max_lub_lt.
    + destruct (decide (a = 0)) as [->|]; [done|].
      apply Z.log2_lt_pow2; lia.
    + destruct (decide (b = 0)) as [->|]; [done|].
      apply Z.log2_lt_pow2; lia.
Qed.

Lemma fold_lxor_acc l a : fold_left Z.lxor l a = Z.lxor a (xor_all l).
Proof.
  unfold xor_all. revert a. induction l as [|x l IH]; intros a; simpl.
  - by rewrite Z.lxor_0_r.
  - rewrite IH, (IH (Z.lxor 0 x)). by rewrite Z.lxor_0_l, Z.lxor_assoc.
Qed.

Lemma xor_all_cons x l : xor_all (x :: l) = Z.lxor x (xor_all l).
Proof. unfold xor_all at 1. simpl. by rewrite fold_lxor_acc. Qed.

Lemma xor_all_app l1 l2 : xor_all (l1 ++ l2) = Z.lxor (xor_all l1) (xor_all l2).
Proof.
  unfold xor_all at 1. rewrite fold_left_app. apply fold_lxor_acc.
Qed.

Lemma xor_all_byte l : bytes l → is_byte (xor_all l).
Proof.
  induction 1 as [|x l Hx Hl IH]; [done|].
  rewrite xor_all_cons. by apply lxor_byte.
Qed.

Lemma to_uint8_byte x : is_byte (to_uint8 x).
Proof. unfold is_byte, to_uint8. apply Z.mod_pos_bound. lia. Qed.

Lemma to_uint8_small x : is_byte x → to_uint8 x = x.
Proof. apply Z.mod_small. Qed.

(** A decidable property of bytes holds if it holds for the 256 of them. *)
Lemma byte_forall (P : Z → Prop) `{!∀ b, Decision (P b)} :
  bool_decide (Forall P (seqZ 0 256)) = true → ∀ b, is_byte b → P b.
Proof.
  intros Hall b Hb. apply bool_decide_eq_true_1 in Hall.
  rewrite Forall_forall in Hall. apply Hall, elem_of_seqZ. unfold is_byte in Hb. lia.
Qed.

Lemma land_high_bit b : is_byte b → (Z.land b 0x80 =? 0) = (b <? 128).
Proof.
  apply (byte_forall (λ b, (Z.land b 0x80 =? 0) = (b <? 128))). by vm_compute.
Qed.

Create HintDb bytes.
#[export] Hint Resolve lxor_byte xor_all_byte to_uint8_byte : bytes.
#[export] Hint Extern 1 (is_byte _) => (unfold is_byte; lia) : bytes.
#[export] Hint Extern 1 (bytes []) => apply Forall_nil_2 : bytes.
#[export] Hint Extern 1 (bytes (_ :: _)) => apply Forall_cons_2 : bytes.
#[export] Hint Extern 1 (bytes (_ ++ _)) => apply Forall_app_2 : bytes.

(** The low [n] bits, and putting two disjoint bit ranges together. *)
Lemma land_127 x : Z.land x 127 = x mod 128.
Proof. change 127 with (Z.ones 7). by rewrite Z.land_ones by lia. Qed.

Lemma lor_disjoint_add a b n :
  0 ≤ n → 0 ≤ b < 2 ^ n → Z.lor (Z.shiftl a n) b = a * 2 ^ n + b.
Proof.
  intros Hn Hb.
  assert (Z.land (Z.shiftl a n) b = 0) as Hland.
  { apply Z.bits_inj'. intros i Hi.
    rewrite Z.land_spec, Z.bits_0.
    destruct (decide (i < n)).
    - by rewrite Z.shiftl_spec_low by lia.
    - rewrite <-(Z.mod_small b (2 ^ n)) by lia.
      rewrite Z.mod_pow2_bits_high by lia. by rewrite andb_false_r. }
  rewrite <-Z.lxor_lor by done. rewrite <-Z.add_nocarry_lxor by done.
  by rewrite Z.shiftl_mul_pow2.
Qed.
