(* ===== verification/Keeping.v ===== *)
(** * What a computation may do to its state

    Relations between states that every part of a program keeps, whatever it does:
    the rules of the monad for them, and tactics that go through a definition
    operation by operation. A development that has a relation of its own says with
    [rule], [leaf] and [class_step] what the tactics are to do for it. *)

From S2P Require Import Prelude.

Section keeping.
Context {S : Type} (R : S → S → Prop) `{!PreOrder R}.
#[local] Set Default Proof Using "Type PreOrder0".

(** Whenever the computation returns, it has changed the state by the relation only. *)
Definition keeping {A} (m : M S A) : Prop := ∀ s, wp m (λ _, True) (λ _ s', R s s') s.

Lemma keeping_run {A} (m : M S A) a s s' : keeping m → m s = Ok (a, s') → R s s'.
Proof using. intros Hm Hr. exact (wp_run _ _ _ _ _ _ (Hm s) Hr). Qed.

Lemma keeping_ret {A} (a : A) : keeping (mret a).
Proof. intros s. by apply wp_ret. Qed.

Lemma keeping_bind {A B} (m : M S A) (f : A → M S B) :
  keeping m → (∀ a, keeping (f a)) → keeping (m ≫= f).
Proof.
  intros Hm Hf s. apply wp_bind. eapply wp_mono; [apply Hm|done|].
  intros a s' Hr. eapply wp_mono; [apply Hf|done|]. intros b s'' Hr'. exact (transitivity Hr Hr').
Qed.

Lemma keeping_fail {A} e : keeping (fail e : M S A).
Proof using. done. Qed.

Lemma keeping_gets {A} (f : S → A) : keeping (gets f).
Proof. intros s. by wp_step. Qed.

Lemma keeping_modify f : (∀ s, R s (f s)) → keeping (modify f).
Proof using. intros Hf s. by wp_step. Qed.

Lemma keeping_zoom {T A} `{LT : !Lens S T} (m : M T A) :
  (∀ (t : T) s, R s (set_view t s)) → keeping (zoom m).
Proof using. intros Hl s. unfold wp, zoom. by destruct (m (view s)) as [[a t]|e]. Qed.

Lemma keeping_zoom_modify {T} `{LT : !Lens S T} (f : T → T) :
  (∀ s, R s (set_view (f (view s)) s)) → keeping (zoom (modify f)).
Proof using. intros Hf s. apply Hf. Qed.

Lemma keeping_lift {A} (r : result A) : keeping (lift_result r).
Proof. intros s. unfold wp, lift_result. by destruct r. Qed.

Lemma keeping_for_each {A} (f : A → M S ()) l : (∀ a, keeping (f a)) → keeping (for_each f l).
Proof.
  intros Hf. induction l as [|a l IH]; cbn [for_each]; [apply keeping_ret|]. by apply keeping_bind.
Qed.

Lemma keeping_while fuel (cond : M S bool) (body : M S ()) :
  keeping cond → keeping body → keeping (while_ fuel cond body).
Proof.
  intros Hc Hb. induction fuel as [|fuel IH]; cbn [while_]; apply keeping_bind; try done;
    intros []; [apply keeping_fail|apply keeping_ret|by apply keeping_bind|apply keeping_ret].
Qed.
End keeping.

(** ** Tactics *)

(** What a relation has its own rules for, what it keeps by computation, and the
    functions of interfaces. *)
Ltac rule := fail.
Ltac leaf := intros; reflexivity.
Ltac class_step := fail.
(** One operation of a computation at a time. *)
Ltac calm_step :=
  lazymatch goal with
  | |- keeping _ (mbind _ _) => apply (keeping_bind _); [|intros ?]
  | |- keeping _ (mret _) => apply (keeping_ret _)
  | |- keeping _ skip => apply (keeping_ret _ ())
  | |- keeping _ (fail _) => apply keeping_fail
  | |- keeping _ (assert ?b) => destruct b; unfold assert
  | |- keeping _ (deref _ ?o) => destruct o; unfold deref
  | |- keeping _ (lift_result _) => apply (keeping_lift _)
  | |- keeping _ get => apply (keeping_gets _ (λ s, s))
  | |- keeping _ (gets _) => apply (keeping_gets _)
  | |- keeping _ load => apply (keeping_gets _)
  | |- keeping _ (store _) => apply keeping_modify; leaf
  | |- keeping _ (modify _) => apply keeping_modify; leaf
  | |- keeping _ (zoom (modify _)) => apply keeping_zoom_modify; leaf
  | |- keeping _ (zoom _) => apply keeping_zoom; leaf
  | |- keeping _ (for_each _ _) => apply (keeping_for_each _); intros ?
  | |- keeping _ (while_ _ _ _) => apply (keeping_while _)
  | |- keeping _ (match ?x with _ => _ end) => destruct x
  end.
(** An operation of a part: what it is defined as. *)
Ltac unfold_step :=
  match goal with
  | |- keeping _ ?m => let h := head_of m in unfold h; cbn beta iota zeta
  end.
Ltac calm := repeat first
  [ rule
  | calm_step
  | class_step
  | unfold_step ].
