(* ===== verification/SerialProtocol.v ===== *)
(** * The serial protocol

    Models [src/src/interfaces/SerialProtocol.h]: message types, local addresses,
    channel types, and the packed packet headers with the casts
    [packet::fromHeader] and [packet::toHeader]. A header struct is a record;
    the class [Header] holds its size and the two casts together with the law
    that makes them a serializer. *)

From S2P Require Import Prelude.

(** ** Message types

    [MessageType] has a fixed underlying type, so [byte2MessageType] can produce
    a value that is none of the enumerators: [other_type]. *)

Inductive MessageType : Type :=
  | grant_token
  | return_token
  | master_started
  | master_ended
  | send_packet
  | mac_update
  | address_discovery
  | address_request
  | address_reply
  | other_type (b : byte).

#[export] Instance MessageType_eq_dec : EqDecision MessageType.
Proof. solve_decision. Defined.

Definition messageType2Byte (msgType : MessageType) : byte :=
  match msgType with
  | grant_token => 0
  | return_token => 1
  | master_started => 2
  | master_ended => 3
  | send_packet => 4
  | mac_update => 5
  | address_discovery => 6
  | address_request => 7
  | address_reply => 8
  | other_type b => b
  end.

Definition byte2MessageType (b : byte) : MessageType :=
  match b with
  | 0 => grant_token
  | 1 => return_token
  | 2 => master_started
  | 3 => master_ended
  | 4 => send_packet
  | 5 => mac_update
  | 6 => address_discovery
  | 7 => address_request
  | 8 => address_reply
  | _ => other_type b
  end.

Definition MessageType_toString (mt : MessageType) : string :=
  match mt with
  | grant_token => "grant_token"
  | return_token => "return_token"
  | master_started => "master_started"
  | master_ended => "master_ended"
  | send_packet => "send_packet"
  | mac_update => "mac_update"
  | address_discovery => "address_discovery"
  | address_request => "address_request"
  | address_reply => "address_reply"
  | other_type _ => ""
  end%string.

(** ** Local addresses *)

Abbreviation LocalAddress := Z (only parsing).

Definition null_addr : LocalAddress := 0.
Definition broadcast : LocalAddress := 255.

Definition localAddress2Byte (local : LocalAddress) : byte := to_uint8 local.
Definition toLocalAddress (b : Z) : LocalAddress := to_uint8 b.

(** ** Channel types *)

Inductive ChannelType : Type :=
  | illegal_type
  | raw_stream
  | tun_format
  | tap_format
  | other_channel (b : byte).

#[export] Instance ChannelType_eq_dec : EqDecision ChannelType.
Proof. solve_decision. Defined.

Definition channelType2Byte (ct : ChannelType) : byte :=
  match ct with
  | illegal_type => 0
  | raw_stream => 1
  | tun_format => 2
  | tap_format => 3
  | other_channel b => b
  end.

Definition byte2ChannelType (b : byte) : ChannelType :=
  match b with
  | 0 => illegal_type
  | 1 => raw_stream
  | 2 => tun_format
  | 3 => tap_format
  | _ => other_channel b
  end.

Definition ChannelType_toString (mt : ChannelType) : string :=
  match mt with
  | illegal_type => "illegal_type"
  | raw_stream => "raw_stream"
  | tun_format => "tun_format"
  | tap_format => "tap_format"
  | other_channel _ => ""
  end%string.

(** ** Packet headers *)

Abbreviation UniqueId := (list Z) (only parsing).
Abbreviation Crc32 := (list Z) (only parsing).
Abbreviation MacAddr := (list Z) (only parsing).

(** The byte at an offset, and the array of [n] bytes there. *)
Definition byte_at (i : nat) (p : ByteVec) : byte := default 0 (p !! i).
Definition array_at (i n : nat) (p : ByteVec) : ByteVec := take n (drop i p).

(** An array field: [n] bytes. *)
Definition is_array (n : nat) (a : ByteVec) : Prop := length a = n ∧ bytes a.

(** What the casts promise: a header is laid out on [sizeof] bytes, and reading
    a buffer that starts with that layout gives the header back. *)
Class Header (H : Type) := {
  sizeof : nat;
  wf_header : H → Prop;
  fromHeader : H → ByteVec;
  readHeader : ByteVec → H;
  length_fromHeader h : wf_header h → length (fromHeader h) = sizeof;
  bytes_fromHeader h : wf_header h → bytes (fromHeader h);
  readHeader_fromHeader h rest :
    wf_header h → readHeader (fromHeader h ++ rest) = h;
  fromHeader_readHeader p :
    bytes p → (sizeof ≤ length p)%nat → fromHeader (readHeader p) = take sizeof p
}.
Arguments sizeof H {_}.

(** [packet::toHeader<H>(const EtherPkt&)] asserts the length first. *)
Definition toHeader {H} `{!Header H} (p : ByteVec) : result H :=
  if decide (sizeof H ≤ length p)%nat then Ok (readHeader p)
  else Fail AssertFailed.

(** An enumerator, or a byte outside the enumerators' range. *)
Definition wf_MessageType (m : MessageType) : Prop :=
  match m with other_type b => 9 ≤ b < 256 | _ => True end.
Definition wf_ChannelType (c : ChannelType) : Prop :=
  match c with other_channel b => 4 ≤ b < 256 | _ => True end.

Lemma messageType2Byte2MessageType b :
  messageType2Byte (byte2MessageType b) = b.
Proof. unfold byte2MessageType. by repeat case_match. Qed.

Lemma byte2MessageType2Byte m :
  wf_MessageType m → byte2MessageType (messageType2Byte m) = m.
Proof.
  destruct m as [| | | | | | | | |b]; try done. simpl. intros Hb.
  unfold byte2MessageType. repeat case_match; (done || lia).
Qed.

Lemma channelType2Byte2ChannelType b :
  channelType2Byte (byte2ChannelType b) = b.
Proof. unfold byte2ChannelType. by repeat case_match. Qed.

Lemma byte2ChannelType2Byte c :
  wf_ChannelType c → byte2ChannelType (channelType2Byte c) = c.
Proof.
  destruct c as [| | | |b]; try done. simpl. intros Hb.
  unfold byte2ChannelType. repeat case_match; (done || lia).
Qed.

Lemma wf_byte2MessageType b : is_byte b → wf_MessageType (byte2MessageType b).
Proof.
  unfold byte2MessageType, is_byte. intros Hb.
  repeat case_match; simpl; (done || lia).
Qed.

Lemma wf_byte2ChannelType b : is_byte b → wf_ChannelType (byte2ChannelType b).
Proof.
  unfold byte2ChannelType, is_byte. intros Hb.
  repeat case_match; simpl; (done || lia).
Qed.

Lemma messageType2Byte_byte m : wf_MessageType m → is_byte (messageType2Byte m).
Proof. unfold is_byte. destruct m; simpl; lia. Qed.
Lemma channelType2Byte_byte c : wf_ChannelType c → is_byte (channelType2Byte c).
Proof. unfold is_byte. destruct c; simpl; lia. Qed.

#[export] Hint Resolve messageType2Byte_byte channelType2Byte_byte
  wf_byte2MessageType wf_byte2ChannelType : bytes.
Create Rewrite HintDb protocol.
#[export] Hint Rewrite messageType2Byte2MessageType byte2MessageType2Byte
  channelType2Byte2ChannelType byte2ChannelType2Byte using done : protocol.

(** ** Layout of the header records *)

(** Make the first bytes of a long enough buffer visible. *)
Ltac expose_bytes :=
  repeat match goal with
  | H : (S ?n ≤ length ?p)%nat |- _ =>
      is_var p; let b := fresh "b" in
      destruct p as [|b p]; simpl in H; [lia|]; apply le_S_n in H
  | H : bytes (_ :: _) |- _ => apply Forall_cons in H as [? ?]
  | H : Forall is_byte (_ :: _) |- _ => apply Forall_cons in H as [? ?]
  end.
Module packet.

Record GrantToken := mkGrantToken {
  gt_type : MessageType;
  gt_tokenReceiver : LocalAddress
}.
(** The constructor [GrantToken(LocalAddress tr)] of the struct. *)
Definition newGrantToken (tr : LocalAddress) : GrantToken :=
  mkGrantToken grant_token tr.

Record ReturnToken := mkReturnToken {
  rt_type : MessageType;
  rt_src : LocalAddress
}.

Record MasterStarted := mkMasterStarted { ms_type : MessageType }.

Record MasterEnded := mkMasterEnded { me_type : MessageType }.

Record SendPacket := mkSendPacket {
  sp_type : MessageType;
  sp_chType : ChannelType;
  sp_destAddr : LocalAddress;
  sp_srcAddr : LocalAddress
}.

Record MacUpdate := mkMacUpdate {
  mu_type : MessageType;
  mu_destAddr : LocalAddress;
  mu_srcAddr : LocalAddress;
  mu_hintAddr : LocalAddress;
  mu_mac : MacAddr
}.

Record AddressDiscovery := mkAddressDiscovery {
  ad_type : MessageType;
  ad_randomDelay : byte;
  ad_randomHoldOff : byte
}.

Record AddressRequest := mkAddressRequest {
  arq_type : MessageType;
  arq_uniqueId : UniqueId;
  arq_channelType : ChannelType;
  arq_crc32 : Crc32
}.

Record AddressReply := mkAddressReply {
  arp_type : MessageType;
  arp_assigned : LocalAddress;
  arp_uniqueId : UniqueId
}.

(** Every law of a header is the same computation on the fields' bytes. *)
Ltac solve_header :=
  intros; simpl in *; unfold is_array in *; destruct_and?;
  repeat match goal with
  | h : GrantToken |- _ => destruct h
  | h : ReturnToken |- _ => destruct h
  | h : MasterStarted |- _ => destruct h
  | h : MasterEnded |- _ => destruct h
  | h : SendPacket |- _ => destruct h
  | h : MacUpdate |- _ => destruct h
  | h : AddressDiscovery |- _ => destruct h
  | h : AddressRequest |- _ => destruct h
  | h : AddressReply |- _ => destruct h
  end; simpl in *; destruct_and?;
  repeat match goal with
  | a : list Z, H : length ?a = _ |- _ =>
      is_var a; repeat (destruct a as [|? a]; simpl in H; try lia); clear H
  end;
  expose_bytes; unfold byte_at, array_at; simpl; autorewrite with protocol;
  repeat match goal with
  | |- bytes (_ :: _) => apply Forall_cons; split
  | |- Forall _ (_ :: _) => apply Forall_cons; split
  end;
  auto with bytes.

#[global] Program Instance Header_GrantToken : Header GrantToken := {
  sizeof := 2;
  wf_header h := wf_MessageType (gt_type h) ∧ is_byte (gt_tokenReceiver h);
  fromHeader h := [messageType2Byte (gt_type h); gt_tokenReceiver h];
  readHeader p := mkGrantToken (byte2MessageType (byte_at 0 p)) (byte_at 1 p)
}.
Solve Obligations with solve_header.

#[global] Program Instance Header_ReturnToken : Header ReturnToken := {
  sizeof := 2;
  wf_header h := wf_MessageType (rt_type h) ∧ is_byte (rt_src h);
  fromHeader h := [messageType2Byte (rt_type h); rt_src h];
  readHeader p := mkReturnToken (byte2MessageType (byte_at 0 p)) (byte_at 1 p)
}.
Solve Obligations with solve_header.

#[global] Program Instance Header_MasterStarted : Header MasterStarted := {
  sizeof := 1;
  wf_header h := wf_MessageType (ms_type h);
  fromHeader h := [messageType2Byte (ms_type h)];
  readHeader p := mkMasterStarted (byte2MessageType (byte_at 0 p))
}.
Solve Obligations with solve_header.

#[global] Program Instance Header_MasterEnded : Header MasterEnded := {
  sizeof := 1;
  wf_header h := wf_MessageType (me_type h);
  fromHeader h := [messageType2Byte (me_type h)];
  readHeader p := mkMasterEnded (byte2MessageType (byte_at 0 p))
}.
Solve Obligations with solve_header.

#[global] Program Instance Header_SendPacket : Header SendPacket := {
  sizeof := 4;
  wf_header h := wf_MessageType (sp_type h) ∧ wf_ChannelType (sp_chType h)
    ∧ is_byte (sp_destAddr h) ∧ is_byte (sp_srcAddr h);
  fromHeader h := [messageType2Byte (sp_type h); channelType2Byte (sp_chType h);
    sp_destAddr h; sp_srcAddr h];
  readHeader p := mkSendPacket (byte2MessageType (byte_at 0 p))
    (byte2ChannelType (byte_at 1 p)) (byte_at 2 p) (byte_at 3 p)
}.
Solve Obligations with solve_header.

#[global] Program Instance Header_MacUpdate : Header MacUpdate := {
  sizeof := 10;
  wf_header h := wf_MessageType (mu_type h) ∧ is_byte (mu_destAddr h)
    ∧ is_byte (mu_srcAddr h) ∧ is_byte (mu_hintAddr h) ∧ is_array 6 (mu_mac h);
  fromHeader h := [messageType2Byte (mu_type h); mu_destAddr h; mu_srcAddr h;
    mu_hintAddr h] ++ mu_mac h;
  readHeader p := mkMacUpdate (byte2MessageType (byte_at 0 p)) (byte_at 1 p)
    (byte_at 2 p) (byte_at 3 p) (array_at 4 6 p)
}.
Solve Obligations with solve_header.

#[global] Program Instance Header_AddressDiscovery : Header AddressDiscovery := {
  sizeof := 3;
  wf_header h := wf_MessageType (ad_type h) ∧ is_byte (ad_randomDelay h)
    ∧ is_byte (ad_randomHoldOff h);
  fromHeader h := [messageType2Byte (ad_type h); ad_randomDelay h;
    ad_randomHoldOff h];
  readHeader p := mkAddressDiscovery (byte2MessageType (byte_at 0 p))
    (byte_at 1 p) (byte_at 2 p)
}.
Solve Obligations with solve_header.

#[global] Program Instance Header_AddressRequest : Header AddressRequest := {
  sizeof := 14;
  wf_header h := wf_MessageType (arq_type h) ∧ is_array 8 (arq_uniqueId h)
    ∧ wf_ChannelType (arq_channelType h) ∧ is_array 4 (arq_crc32 h);
  fromHeader h := [messageType2Byte (arq_type h)] ++ arq_uniqueId h
    ++ [channelType2Byte (arq_channelType h)] ++ arq_crc32 h;
  readHeader p := mkAddressRequest (byte2MessageType (byte_at 0 p))
    (array_at 1 8 p) (byte2ChannelType (byte_at 9 p)) (array_at 10 4 p)
}.
Solve Obligations with solve_header.

#[global] Program Instance Header_AddressReply : Header AddressReply := {
  sizeof := 10;
  wf_header h := wf_MessageType (arp_type h) ∧ is_byte (arp_assigned h)
    ∧ is_array 8 (arp_uniqueId h);
  fromHeader h := [messageType2Byte (arp_type h); arp_assigned h]
    ++ arp_uniqueId h;
  readHeader p := mkAddressReply (byte2MessageType (byte_at 0 p)) (byte_at 1 p)
    (array_at 2 8 p)
}.
Solve Obligations with solve_header.

End packet.

Lemma toHeader_fromHeader {H} `{!Header H} (h : H) rest :
  wf_header h → toHeader (fromHeader h ++ rest) = Ok h.
Proof.
  intros Hwf. unfold toHeader. rewrite decide_True.
  - by rewrite readHeader_fromHeader.
  - rewrite length_app, length_fromHeader by done. lia.
Qed.
