(* ===== verification/FrameCodec.v ===== *)
(** * The frame codec

    Models [src/src/core/FrameCodec.h] and [FrameCodec.cpp]: the framing of a
    packet as keyword, length, payload, checksum and filler byte, and the byte
    by byte decoder with its five states. The decoder reports a packet through a
    callback; it is an operation on any state that contains the codec. *)

From S2P Require Import Prelude.

(** ** Vector operations with C++'s behaviour out of range *)

Definition vec_read (i : nat) : M ByteVec byte :=
  v ← get; deref "vector read out of range" (v !! i).

Definition vec_write (i : nat) (x : byte) : M ByteVec () :=
  v ← get;
  if decide (i < length v)%nat then put (<[i:=x]> v)
  else fail (Undefined "vector write out of range").

Definition vec_resize (n : nat) : M ByteVec () := modify (resize n 0).

(** [std::copy(data.begin(), data.end(), v.begin() + offset)] *)
Definition vec_copy (data : ByteVec) (offset : nat) : M ByteVec () :=
  v ← get;
  if decide (offset + length data ≤ length v)%nat
  then put (take offset v ++ data ++ drop (offset + length data) v)
  else fail (Undefined "copy out of range").

(** The largest [n] for which [std::vector<gsl::byte>::resize(n)] does not throw
    [std::length_error]. *)
Definition vector_max_size : Z := 2 ^ 63 - 1.

(** ** The codec *)

Definition keyword : byte := 0xfd.

Inductive DecodeState : Type :=
  | getKW
  | getLen
  | getData
  | getChecksum
  | getFiller.

#[export] Instance DecodeState_eq_dec : EqDecision DecodeState.
Proof. solve_decision. Defined.

(** [fc_decodeCB] records whether the callback pointer is set. *)
Record FrameCodec : Type := mkFrameCodec {
  fc_decodeCB : bool;
  fc_decodePacket : ByteVec;
  fc_state : DecodeState;
  fc_length : Z;
  fc_index : Z;
  fc_checksum : byte
}.
#[export] Instance Eta_FrameCodec : Eta FrameCodec := λ c,
  mkFrameCodec (fc_decodeCB c) (fc_decodePacket c) (fc_state c) (fc_length c)
    (fc_index c) (fc_checksum c).

Definition newFrameCodec (decodeCB : bool) : FrameCodec :=
  mkFrameCodec decodeCB [] getKW 0 0 0.

Definition setRxCB (rxCB : bool) (c : FrameCodec) : FrameCodec :=
  c <| fc_decodeCB := rxCB |>.

Definition rxInProgress (c : FrameCodec) : bool :=
  bool_decide (fc_state c ≠ getKW).

Definition reset (c : FrameCodec) : FrameCodec := c <| fc_state := getKW |>.

(** [encodePacket] works on the caller's result vector. *)
Definition encodePacket (data : ByteVec) : M ByteVec () :=
  let dataLen := length data in
  let checksum := 0 in
  vec_resize (dataLen + 5) ;;
  vec_write 0 keyword ;;
  r0 ← vec_read 0;
  let checksum := Z.lxor checksum r0 in
  '(offset, checksum) ←
    (if Z.of_nat dataLen <? 0x80 then
       vec_resize (dataLen + 4) ;;
       vec_write 1 (to_uint8 (Z.of_nat dataLen)) ;;
       r1 ← vec_read 1;
       mret (2%nat, Z.lxor checksum r1)
     else
       vec_write 1
         (to_uint8 (Z.lor (Z.land (Z.shiftr (Z.of_nat dataLen) 7) 0x7f) 0x80)) ;;
       r1 ← vec_read 1;
       let checksum := Z.lxor checksum r1 in
       vec_write 2 (to_uint8 (Z.land (Z.of_nat dataLen) 0x7f)) ;;
       r2 ← vec_read 2;
       mret (3%nat, Z.lxor checksum r2));
  vec_copy data offset ;;
  let checksum := fold_left Z.lxor data checksum in
  vec_write (dataLen + offset) checksum ;;
  vec_write (dataLen + offset + 1) 0xff.

Section decoder.
Context {S : Type} `{!Lens S FrameCodec}.
(** [m_decodeCB->msgEtherRx_newMsg] *)
Context (decodeCB : ByteVec → M S ()).

Definition decodeByte (curByte : byte) : M S () :=
  c ← load;
  match fc_state c with
  | getKW =>
      if curByte =? keyword then
        store (c <| fc_checksum := keyword |> <| fc_state := getLen |>
                 <| fc_length := 0 |>)
      else skip
  | getLen =>
      let c := c <| fc_checksum ::= λ x, Z.lxor x curByte |> in
      let len := Z.lor (fc_length c) (Z.land curByte 0x7f) in
      if negb (Z.land curByte 0x80 =? 0) then
        store (c <| fc_length := to_size_t (Z.shiftl len 7) |>)
      else if len <=? vector_max_size then
        store (c <| fc_length := len |> <| fc_index := 0 |>
                 <| fc_state := getData |>
                 <| fc_decodePacket ::= resize (Z.to_nat len) 0 |>)
      else fail (Exception "length_error")
  | getData =>
      let c := c <| fc_checksum ::= λ x, Z.lxor x curByte |> in
      if fc_index c <? Z.of_nat (length (fc_decodePacket c)) then
        let c := c <| fc_decodePacket ::= <[Z.to_nat (fc_index c) := curByte]> |>
                   <| fc_index ::= λ i, to_size_t (i + 1) |> in
        store (if fc_index c =? fc_length c
               then c <| fc_state := getChecksum |> else c)
      else fail (Undefined "write past the end of m_decodePacket")
  | getChecksum =>
      store (c <| fc_checksum ::= λ x, Z.lxor x curByte |>
               <| fc_state := getFiller |>)
  | getFiller =>
      (if (fc_checksum c =? 0) && fc_decodeCB c
       then decodeCB (take (Z.to_nat (fc_length c)) (fc_decodePacket c))
       else skip) ;;
      c ← load;
      store (c <| fc_state := getKW |>)
  end.

Definition receiveData (data : ByteVec) : M S () := for_each decodeByte data.
End decoder.

(** ** Reference definition of the frame format *)

Definition length_field (n : Z) : ByteVec :=
  if n <? 128 then [n]
  else [Z.lor ((n / 128) mod 128) 128; n mod 128].

Definition frame (p : ByteVec) : ByteVec :=
  let body := keyword :: length_field (Z.of_nat (length p)) ++ p in
  body ++ [xor_all body; 0xff].

(** The number the decoder reads from a length field. *)
Definition decoded_length (n : Z) : Z := n mod 2 ^ 14.

(** ** Encoding *)

Lemma length_length_field n :
  length (length_field n) = if n <? 128 then 1%nat else 2%nat.
Proof. unfold length_field. by case_match. Qed.

Lemma length_frame p :
  length (frame p)
  = (length p + (if (Z.of_nat (length p) <? 128)%Z then 4 else 5))%nat.
Proof.
  unfold frame. simpl. rewrite !length_app, length_length_field. simpl.
  case_match; lia.
Qed.

(** Writing at the junction of two lists replaces the head of the second. *)
Lemma vec_write_app (l1 l2 : ByteVec) x y i :
  i = length l1 → vec_write i x (l1 ++ y :: l2) = Ok ((), l1 ++ x :: l2).
Proof.
  intros ->. unfold vec_write, mbind, M_bind, get. simpl.
  rewrite decide_True by (rewrite length_app; simpl; lia).
  unfold put. by rewrite insert_app_r_alt, Nat.sub_diag by lia.
Qed.

Lemma vec_copy_app (l1 l2 data : ByteVec) offset :
  offset = length l1 → (length data ≤ length l2)%nat →
  vec_copy data offset (l1 ++ l2)
  = Ok ((), l1 ++ data ++ drop (length data) l2).
Proof.
  intros -> Hlen. unfold vec_copy, mbind, M_bind, get. simpl.
  rewrite decide_True by (rewrite length_app; lia).
  unfold put. rewrite take_app_length, drop_app.
  rewrite drop_ge by lia. simpl. by rewrite Nat.add_sub'.
Qed.

(** The two ends of a vector of known length. *)
Lemma length_cons_inv {A} (l : list A) n :
  length l = S n → ∃ x l', l = x :: l' ∧ length l' = n.
Proof. destruct l; naive_solver. Qed.

Lemma length_two_inv {A} (l : list A) n :
  length l = (n + 2)%nat → ∃ x y, drop n l = [x; y].
Proof.
  intros Hl. assert (length (drop n l) = 2%nat) as Hd
    by (rewrite length_drop; lia).
  destruct (drop n l) as [|x [|y [|z l']]]; naive_solver.
Qed.

Lemma length_hi_spec n :
  0 ≤ n →
  to_uint8 (Z.lor (Z.land (Z.shiftr n 7) 0x7f) 0x80)
  = Z.lor ((n / 128) mod 128) 128.
Proof.
  intros Hn. rewrite Z.shiftr_div_pow2, land_127 by lia. change (2 ^ 7) with 128.
  apply to_uint8_small. pose proof (Z.mod_pos_bound (n / 128) 128 ltac:(lia)).
  replace (Z.lor _ 128) with (Z.lor (Z.shiftl 1 7) ((n / 128) mod 128))
    by (rewrite Z.lor_comm; done).
  rewrite lor_disjoint_add by (simpl; lia). unfold is_byte. lia.
Qed.

Lemma length_lo_spec n : to_uint8 (Z.land n 0x7f) = n mod 128.
Proof.
  rewrite land_127. apply to_uint8_small.
  pose proof (Z.mod_pos_bound n 128 ltac:(lia)). unfold is_byte. lia.
Qed.

Lemma vec_read_app (l1 l2 : ByteVec) x i :
  i = length l1 → vec_read i (l1 ++ x :: l2) = Ok (x, l1 ++ x :: l2).
Proof.
  intros ->. unfold vec_read. rewrite (bind_ok _ _ _ _ _ eq_refl).
  by rewrite list_lookup_middle by done.
Qed.

Tactic Notation "vec_run" uconstr(lem) :=
  eapply bind_step; [by apply lem|cbn [app]].

(** The tail of [encodePacket], after the header of [offset] bytes is written. *)
Lemma encode_tail (hdr data l : ByteVec) checksum :
  length l = (length data + 2)%nat →
  (vec_copy data (length hdr) ;;
   vec_write (length data + length hdr) checksum ;;
   vec_write (length data + length hdr + 1) 0xff) (hdr ++ l)
  = Ok ((), hdr ++ data ++ [checksum; 0xff]).
Proof.
  intros Hl. destruct (length_two_inv l (length data) Hl) as (x & y & Hd).
  eapply bind_step; [apply vec_copy_app; [done|lia]|]. rewrite Hd, app_assoc.
  eapply bind_step; [apply vec_write_app; rewrite length_app; lia|].
  replace (_ ++ checksum :: [y]) with (((hdr ++ data) ++ [checksum]) ++ [y])
    by (by rewrite <-!app_assoc).
  rewrite vec_write_app by (rewrite !length_app; simpl; lia).
  by rewrite <-!app_assoc.
Qed.

Lemma xor_body hdr data a :
  a = xor_all hdr → fold_left Z.lxor data a = xor_all (hdr ++ data).
Proof. intros ->. by rewrite fold_lxor_acc, xor_all_app. Qed.

Lemma encodePacket_frame (data result : ByteVec) :
  encodePacket data result = Ok ((), frame data).
Proof.
  unfold encodePacket, frame. set (n := length data).
  set (w := resize (n + 5) 0 result).
  assert (length w = (n + 5)%nat) as Hw by apply length_resize.
  destruct (length_cons_inv w (n + 4) ltac:(lia)) as (a & w' & Ew & Hw').
  destruct (length_cons_inv w' (n + 3) ltac:(lia)) as (b & w2 & -> & Hw2).
  destruct (length_cons_inv w2 (n + 2) ltac:(lia)) as (c & w3 & -> & Hw3).
  eapply bind_step; [done|]. fold w. rewrite Ew.
  vec_run (vec_write_app [] _ keyword a 0 eq_refl).
  vec_run (vec_read_app [] _ keyword 0 eq_refl).
  unfold length_field. destruct (Z.ltb_spec (Z.of_nat n) 128) as [Hn|Hn].
  - rewrite to_uint8_small by (unfold is_byte; lia).
    set (l := resize (n + 2) 0 (c :: w3)).
    assert (resize (n + 4) 0 (keyword :: b :: c :: w3) = keyword :: b :: l) as El
      by (by rewrite Nat.add_succ_r, Nat.add_succ_r).
    eapply bind_step.
    { eapply bind_step; [done|]. rewrite El.
      vec_run (vec_write_app [keyword] _ (Z.of_nat n) b 1 eq_refl).
      vec_run (vec_read_app [keyword] _ (Z.of_nat n) 1 eq_refl). done. }
    cbv beta iota zeta. rewrite (xor_body [keyword; Z.of_nat n]) by done.
    apply (encode_tail [keyword; Z.of_nat n] data l). apply length_resize.
  - rewrite length_hi_spec, length_lo_spec by lia.
    set (hi := Z.lor _ 128). set (lo := _ mod 128).
    eapply bind_step.
    { vec_run (vec_write_app [keyword] _ hi b 1 eq_refl).
      vec_run (vec_read_app [keyword] _ hi 1 eq_refl).
      vec_run (vec_write_app [keyword; hi] _ lo c 2 eq_refl).
      vec_run (vec_read_app [keyword; hi] _ lo 2 eq_refl). done. }
    cbv beta iota zeta. rewrite (xor_body [keyword; hi; lo]) by done.
    by apply (encode_tail [keyword; hi; lo] data w3).
Qed.

(** ** Decoding *)

Section decoder_proofs.
Context {S : Type} `{!Lens S FrameCodec}.
Context (decodeCB : ByteVec → M S ()).
Implicit Types (s : S) (c : FrameCodec).

Abbreviation decodeByte := (decodeByte decodeCB).
Abbreviation receiveData := (receiveData decodeCB).

Lemma receive_cons b l s s' :
  decodeByte b s = Ok ((), s') → receiveData (b :: l) s = receiveData l s'.
Proof. intros Hb. by eapply bind_step. Qed.

Lemma receive_app l1 l2 s s' :
  receiveData l1 s = Ok ((), s') →
  receiveData (l1 ++ l2) s = receiveData l2 s'.
Proof.
  intros H1. unfold FrameCodec.receiveData. rewrite for_each_app.
  by rewrite (bind_ok _ _ _ _ _ H1).
Qed.

Ltac step_with Hst :=
  unfold FrameCodec.decodeByte, load, store, modify, gets, mbind, M_bind;
  cbv beta; try rewrite Hst.

(** The decoder after the keyword. *)
Definition started (c : FrameCodec) : FrameCodec :=
  c <| fc_checksum := keyword |> <| fc_state := getLen |> <| fc_length := 0 |>.

Lemma decode_keyword s :
  fc_state (view s) = getKW →
  decodeByte keyword s = Ok ((), set_view (started (view s)) s).
Proof. intros Hst. by step_with Hst. Qed.

Lemma decode_noise b s :
  fc_state (view s) = getKW → b ≠ keyword → decodeByte b s = Ok ((), s).
Proof.
  intros Hst Hb. step_with Hst.
  destruct (Z.eqb_spec b keyword); [done|]. done.
Qed.

(** The decoder after the length field of a packet of [n] bytes. *)
Definition sized (n : Z) (c : FrameCodec) : FrameCodec :=
  c <| fc_checksum := xor_all (keyword :: length_field n) |>
    <| fc_length := decoded_length n |> <| fc_index := 0 |>
    <| fc_state := getData |>
    <| fc_decodePacket ::= resize (Z.to_nat (decoded_length n)) 0 |>.

Lemma land_lor_128 x : 0 ≤ x < 128 → Z.land (Z.lor x 128) 127 = x.
Proof.
  intros Hx. rewrite Z.land_lor_distr_l. change (Z.land 128 127) with 0.
  rewrite Z.lor_0_r, land_127. by apply Z.mod_small.
Qed.

Lemma lor_128_byte x : 0 ≤ x < 128 → is_byte (Z.lor x 128) ∧ 128 ≤ Z.lor x 128.
Proof.
  intros Hx. assert (is_byte x) as Hb by (unfold is_byte; lia).
  revert Hx. apply (byte_forall (λ x, 0 ≤ x < 128 →
    is_byte (Z.lor x 128) ∧ 128 ≤ Z.lor x 128)); [by vm_compute|done].
Qed.

Lemma decoded_length_split n :
  0 ≤ n → ((n / 128) mod 128) * 128 + n mod 128 = decoded_length n.
Proof.
  intros Hn. unfold decoded_length. change (2 ^ 14) with (128 * 128).
  rewrite Z.rem_mul_r by lia. ring.
Qed.

Lemma decoded_length_bound n : 0 ≤ decoded_length n < 16384.
Proof. apply (Z.mod_pos_bound n (2 ^ 14)). lia. Qed.

(** One more length byte: with the high bit set the length shifts, without it
    the payload buffer is sized. *)
Lemma decode_len_more b s c :
  view s = c → fc_state c = getLen → is_byte b → 128 ≤ b →
  decodeByte b s = Ok ((), set_view
    (c <| fc_checksum ::= λ x, Z.lxor x b |>
       <| fc_length := to_size_t (Z.shiftl (Z.lor (fc_length c) (Z.land b 127)) 7) |>) s).
Proof.
  intros Hv Hst Hb Hb'. step_with Hv. rewrite Hst, land_high_bit by done.
  destruct (Z.ltb_spec b 128); [lia|]. done.
Qed.

Lemma decode_len_last b s c :
  view s = c → fc_state c = getLen → 0 ≤ b < 128 →
  Z.lor (fc_length c) b ≤ vector_max_size →
  decodeByte b s = Ok ((), set_view
    (c <| fc_checksum ::= λ x, Z.lxor x b |>
       <| fc_length := Z.lor (fc_length c) b |> <| fc_index := 0 |>
       <| fc_state := getData |>
       <| fc_decodePacket ::= resize (Z.to_nat (Z.lor (fc_length c) b)) 0 |>) s).
Proof.
  intros Hv Hst Hb Hle. step_with Hv.
  rewrite Hst, land_high_bit by (unfold is_byte; lia).
  destruct (Z.ltb_spec b 128); [|lia]. cbn [negb].
  rewrite land_127, (Z.mod_small b) by lia.
  cbn. destruct (Z.leb_spec (Z.lor (fc_length c) b) vector_max_size); [done|lia].
Qed.

Lemma decode_length_field n s c :
  view s = started c → 0 ≤ n →
  receiveData (length_field n) s = Ok ((), set_view (sized n c) s).
Proof.
  intros Hv Hn. unfold sized, length_field. rewrite xor_all_cons.
  destruct (Z.ltb_spec n 128) as [Hlt|Hge].
  - eapply bind_step; [apply (decode_len_last n s _ Hv); [done|lia|]|].
    { change (fc_length (started c)) with 0. rewrite Z.lor_0_l.
      unfold vector_max_size. lia. }
    cbn. unfold skip, decoded_length. rewrite Z.mod_small by lia.
    by rewrite Z.lor_0_l, xor_all_cons, xor_all_nil, Z.lxor_0_r.
  - set (hi := Z.lor _ 128). set (lo := n mod 128).
    pose proof (Z.mod_pos_bound (n / 128) 128 ltac:(lia)) as Hhi.
    destruct (lor_128_byte _ Hhi) as [Hb1 Hb2].
    eapply bind_step; [by apply (decode_len_more hi s _ Hv)|].
    assert (Z.lor (to_size_t (Z.shiftl (Z.land hi 127) 7)) lo
      = decoded_length n) as Hlen.
    { unfold hi. rewrite land_lor_128 by done.
      rewrite <-decoded_length_split by done. unfold to_size_t.
      rewrite Z.mod_small.
      - apply lor_disjoint_add; [lia|]. apply Z.mod_pos_bound. lia.
      - rewrite Z.shiftl_mul_pow2 by lia. unfold size_t_modulus. lia. }
    eapply bind_step.
    { apply decode_len_last; [apply view_set|done| |].
      - apply Z.mod_pos_bound. lia.
      - cbn. rewrite Z.lor_0_l, Hlen. pose proof (decoded_length_bound n).
        unfold vector_max_size. lia. }
    unfold skip. rewrite set_set. cbn. rewrite Z.lor_0_l, Hlen.
    rewrite !xor_all_cons, xor_all_nil, Z.lxor_0_r. unfold_rec.
    by rewrite Z.lxor_assoc.
Qed.

(** The decoder after [l] more payload bytes. *)
Definition filled (l : ByteVec) (c : FrameCodec) : FrameCodec :=
  c <| fc_checksum := Z.lxor (fc_checksum c) (xor_all l) |>
    <| fc_decodePacket := take (Z.to_nat (fc_index c)) (fc_decodePacket c) ++ l
         ++ drop (Z.to_nat (fc_index c) + length l) (fc_decodePacket c) |>
    <| fc_index ::= λ i, i + Z.of_nat (length l) |>
    <| fc_state := if decide (fc_index c + Z.of_nat (length l) = fc_length c)
         then getChecksum else getData |>.

(** The payload buffer has the announced size, and bytes are missing. *)
Definition receiving (c : FrameCodec) : Prop :=
  fc_state c = getData ∧ 0 ≤ fc_index c < fc_length c ∧
  Z.of_nat (length (fc_decodePacket c)) = fc_length c ∧
  fc_length c ≤ vector_max_size.

Lemma decode_payload_byte b s c :
  view s = c → receiving c →
  decodeByte b s = Ok ((), set_view (filled [b] c) s).
Proof.
  intros Hv (Hst & Hi & Hlen & Hmax). step_with Hv. rewrite Hst. unfold_rec.
  destruct (Z.ltb_spec (fc_index c) (Z.of_nat (length (fc_decodePacket c))));
    [|lia].
  unfold filled, to_size_t. unfold_rec.
  rewrite xor_all_cons, xor_all_nil, Z.lxor_0_r.
  rewrite Z.mod_small by (unfold size_t_modulus, vector_max_size in *; lia).
  rewrite insert_take_drop by lia. rewrite Nat.add_1_r.
  change (Z.of_nat 1) with 1.
  destruct (Z.eqb_spec (fc_index c + 1) (fc_length c)); case_decide;
    [done|lia|lia|]. by rewrite <-Hst.
Qed.

Lemma filled_filled l1 l2 c :
  receiving c → fc_index c + Z.of_nat (length l1) < fc_length c →
  fc_index c + Z.of_nat (length l1 + length l2) ≤ fc_length c →
  filled l2 (filled l1 c) = filled (l1 ++ l2) c.
Proof.
  intros (Hst & Hi & Hlen & Hmax) H1 H2. unfold filled. destruct c as [cb d st n i cs].
  unfold receiving in *. repeat compute_update. cbn in *.
  rewrite length_app, xor_all_app, Z.lxor_assoc.
  replace (Z.to_nat (i + Z.of_nat (length l1)))
    with (length (take (Z.to_nat i) d ++ l1))
    by (rewrite length_app, length_take; lia).
  set (p := take (Z.to_nat i) d).
  set (q := drop (Z.to_nat i + length l1) d).
  rewrite (app_assoc p l1 q).
  f_equal; [|do 2 case_decide; (done || lia)|lia].
  rewrite take_app_length, drop_app_add. unfold q. rewrite drop_drop.
  rewrite <-!app_assoc. do 4 f_equal. lia.
Qed.

Lemma receiving_filled l c :
  receiving c → fc_index c + Z.of_nat (length l) < fc_length c →
  receiving (filled l c).
Proof.
  intros (Hst & Hi & Hlen & Hmax) Hl. unfold receiving, filled. unfold_rec.
  rewrite decide_False by lia. split_and!; [done|lia|lia| |done].
  rewrite !length_app, length_take, length_drop. lia.
Qed.

Lemma decode_payload l s c :
  view s = c → receiving c → l ≠ [] →
  fc_index c + Z.of_nat (length l) ≤ fc_length c →
  receiveData l s = Ok ((), set_view (filled l c) s).
Proof.
  revert s c. induction l as [|b l IH]; intros s c Hv Hr Hne Hl; [done|].
  simpl in Hl. eapply bind_step; [by apply decode_payload_byte|].
  destruct l as [|b' l']; [done|].
  change (receiveData (b' :: l') (set_view (filled [b] c) s)
    = Ok ((), set_view (filled ([b] ++ b' :: l') c) s)).
  rewrite (IH _ (filled [b] c)).
  - by rewrite set_set, filled_filled by (done || simpl in *; lia).
  - apply view_set.
  - apply receiving_filled; [done|]. simpl in *. lia.
  - done.
  - simpl in *. lia.
Qed.

(** The decoder at the filler byte of a packet [p], with checksum [x]. *)
Definition complete (p : ByteVec) (x : byte) (c : FrameCodec) : FrameCodec :=
  c <| fc_checksum := x |> <| fc_decodePacket := p |>
    <| fc_index := Z.of_nat (length p) |>
    <| fc_length := Z.of_nat (length p) |> <| fc_state := getFiller |>.

(** What the filler byte triggers. *)
Definition deliver (p : ByteVec) (good : bool) : M S () :=
  (if good then decodeCB p else skip) ;;
  c ← load;
  store (c <| fc_state := getKW |>).

Definition small_packet (p : ByteVec) : Prop :=
  p ≠ [] ∧ Z.of_nat (length p) < 2 ^ 14.

Lemma decoded_length_small p :
  small_packet p → decoded_length (Z.of_nat (length p)) = Z.of_nat (length p).
Proof. intros [_ Hp]. apply Z.mod_small. lia. Qed.

Lemma filled_sized p c :
  small_packet p →
  let n := Z.of_nat (length p) in
  filled p (sized n c)
  = (complete p (xor_all (keyword :: length_field n ++ p)) c)
      <| fc_state := getChecksum |>.
Proof.
  intros Hp n. subst n. unfold filled, sized, complete. record_eq c.
  rewrite (decoded_length_small p Hp), Z.add_0_l.
  rewrite decide_True by done. simpl.
  rewrite drop_ge by (rewrite length_resize; lia).
  by rewrite app_nil_r, !xor_all_cons, xor_all_app, Z.lxor_assoc.
Qed.

Lemma receiving_sized p c :
  small_packet p → receiving (sized (Z.of_nat (length p)) c).
Proof.
  intros Hp. unfold receiving, sized. unfold_rec.
  rewrite (decoded_length_small p Hp), length_resize.
  destruct Hp as [Hne Hp]. unfold vector_max_size.
  assert (length p ≠ 0)%nat by (by destruct p).
  split_and!; (done || lia).
Qed.

Lemma decode_checksum_byte cs s c :
  view s = c → fc_state c = getChecksum →
  decodeByte cs s = Ok ((), set_view
    (c <| fc_checksum ::= λ x, Z.lxor x cs |> <| fc_state := getFiller |>) s).
Proof. intros Hv Hst. step_with Hv. by rewrite Hst. Qed.

Lemma decode_filler_byte f p x s c :
  view s = complete p x c →
  decodeByte f s = deliver p ((x =? 0) && fc_decodeCB c) s.
Proof.
  intros Hv. unfold FrameCodec.decodeByte.
  eapply bind_step; [done|]. rewrite Hv. clear Hv. unfold complete. record_eq c.
  by rewrite Nat2Z.id, take_ge by lia.
Qed.

(** A keyword, the length of [p], the bytes of [p], a checksum byte and any
    last byte: [p] is delivered exactly when the exclusive or of everything up
    to the checksum byte is zero and a callback is set. *)
Lemma decode_frame_bytes p cs f s :
  fc_state (view s) = getKW → small_packet p →
  let body := keyword :: length_field (Z.of_nat (length p)) ++ p in
  let x := Z.lxor (xor_all body) cs in
  receiveData (body ++ [cs; f]) s
  = deliver p ((x =? 0) && fc_decodeCB (view s))
      (set_view (complete p x (view s)) s).
Proof.
  intros Hst Hp body x. set (n := Z.of_nat (length p)). set (c := view s).
  unfold body. cbn [app]. rewrite (receive_cons _ _ _ _ (decode_keyword s Hst)).
  fold c n. rewrite <-app_assoc.
  rewrite (receive_app _ _ _ _
    (decode_length_field n _ c (view_set _ _) (Nat2Z.is_nonneg _))).
  rewrite set_set.
  erewrite receive_app; [|apply decode_payload;
    [apply view_set|by apply receiving_sized|by destruct Hp|]].
  2:{ unfold sized. unfold_rec. fold n. unfold n at 2.
      rewrite (decoded_length_small p Hp). fold n. lia. }
  rewrite set_set. fold n. unfold n at 1. rewrite (filled_sized p c Hp).
  erewrite receive_cons; [|by apply decode_checksum_byte; [apply view_set|]].
  rewrite set_set. unfold FrameCodec.receiveData, for_each.
  transitivity (decodeByte f (set_view (complete p x c) s)).
  - unfold mbind, M_bind, skip.
    clearbody c. record_eq c. fold n body x.
    by destruct (decodeByte _ _) as [[[] s']|e].
  - apply decode_filler_byte. by rewrite view_set.
Qed.

(** A frame delivers its packet, once, and leaves the decoder idle. *)
Lemma decode_frame p s :
  fc_state (view s) = getKW → fc_decodeCB (view s) = true → small_packet p →
  receiveData (frame p) s
  = deliver p true (set_view (complete p 0 (view s)) s).
Proof.
  intros Hst Hcb Hp. unfold frame.
  rewrite (decode_frame_bytes p _ 0xff s Hst Hp).
  by rewrite Z.lxor_nilpotent, Hcb.
Qed.
End decoder_proofs.

(** ** A decoder that records the packets it reports *)

Abbreviation codec_log := (FrameCodec * list ByteVec)%type (only parsing).

Definition log_packet (p : ByteVec) : M codec_log () :=
  modify (λ cl, (cl.1, cl.2 ++ [p])).

(** Idle, with a callback set. *)
Definition listening (c : FrameCodec) : Prop :=
  fc_state c = getKW ∧ fc_decodeCB c = true.

Lemma log_frame p c l :
  listening c → small_packet p →
  ∃ c', receiveData log_packet (frame p) (c, l) = Ok ((), (c', l ++ [p]))
        ∧ listening c'.
Proof.
  intros [Hst Hcb] Hp. eexists. split.
  - by rewrite decode_frame.
  - done.
Qed.

Lemma log_noise n c l :
  listening c → keyword ∉ n → receiveData log_packet n (c, l) = Ok ((), (c, l)).
Proof.
  intros [Hst Hcb] Hn. induction n as [|b n IH]; [done|].
  rewrite not_elem_of_cons in Hn. destruct Hn as [Hb Hn].
  rewrite (receive_cons _ _ _ _ (c, l)); [by apply IH|].
  by apply decode_noise.
Qed.

Lemma log_stream noise ps c l :
  listening c → Forall small_packet ps → length noise = length ps →
  Forall (λ n, keyword ∉ n) noise →
  ∃ c', receiveData log_packet
          (concat (zip_with (λ n p, n ++ frame p) noise ps)) (c, l)
        = Ok ((), (c', l ++ ps)) ∧ listening c'.
Proof.
  revert noise c l. induction ps as [|p ps IH]; intros noise c l Hc Hps Hl Hn.
  { destruct noise; [|done]. exists c. by rewrite app_nil_r. }
  destruct noise as [|n noise]; [done|]. injection Hl as Hl.
  apply Forall_cons in Hps as [Hp Hps]. apply Forall_cons in Hn as [Hn1 Hn].
  destruct (log_frame p c l Hc Hp) as (c1 & H1 & Hc1).
  destruct (IH noise c1 (l ++ [p]) Hc1 Hps Hl Hn) as (c2 & H2 & Hc2).
  exists c2. split; [|done]. simpl. rewrite <-app_assoc.
  rewrite (receive_app _ _ _ _ _ (log_noise n c l Hc Hn1)).
  rewrite (receive_app _ _ _ _ _ H1), H2. by rewrite <-app_assoc.
Qed.

(** ** Corrupted frames *)

Lemma xor_all_insert (q : ByteVec) j b b' :
  q !! j = Some b → xor_all (<[j:=b']> q) = Z.lxor (xor_all q) (Z.lxor b b').
Proof.
  intros Hj. rewrite (insert_take_drop q j b') by (by eapply lookup_lt_Some).
  rewrite <-(take_drop_middle q j b Hj) at 3.
  rewrite !xor_all_app, !xor_all_cons.
  apply Z.bits_inj'. intros i Hi. rewrite !Z.lxor_spec.
  by repeat destruct (Z.testbit _ i).
Qed.

Lemma frame_split p :
  let hdr := keyword :: length_field (Z.of_nat (length p)) in
  frame p = hdr ++ (p ++ [xor_all (hdr ++ p)]) ++ [0xff]
  ∧ xor_all (hdr ++ p ++ [xor_all (hdr ++ p)]) = 0.
Proof.
  intros hdr. split.
  - unfold frame. cbn [app]. by rewrite <-!app_assoc.
  - by rewrite app_assoc, xor_all_app, xor_all_cons, xor_all_nil, Z.lxor_0_r,
      Z.lxor_nilpotent.
Qed.

(** A frame in which a payload or checksum byte differs is silently dropped. *)
Lemma log_corrupted p j b b' c l :
  listening c → small_packet p →
  frame p !! j = Some b → b ≠ b' →
  (1 + length (length_field (Z.of_nat (length p))) ≤ j < length (frame p) - 1)%nat →
  ∃ c', receiveData log_packet (<[j:=b']> (frame p)) (c, l) = Ok ((), (c', l))
        ∧ listening c'.
Proof.
  intros [Hst Hcb] Hp Hj Hne [Hlo Hhi].
  destruct (frame_split p) as [Hf Hx].
  set (hdr := keyword :: length_field (Z.of_nat (length p))) in *.
  set (q := p ++ [xor_all (hdr ++ p)]) in *.
  assert (length hdr ≤ j)%nat as Hlo' by (unfold hdr; simpl; lia).
  rewrite Hf in *. rewrite !length_app in Hhi.
  change (length [0xff]) with 1%nat in Hhi.
  rewrite lookup_app_r in Hj by done.
  rewrite lookup_app_l in Hj by lia.
  rewrite insert_app_r_alt by done. rewrite insert_app_l by lia.
  set (k := (j - length hdr)%nat) in *.
  assert (length (<[k:=b']> q) = S (length p)) as Hlen
    by (rewrite length_insert; unfold q; rewrite length_app; simpl; lia).
  destruct (exists_last (l:=<[k:=b']> q)) as (p' & cs' & Hq);
    [by intros E; rewrite E in Hlen|].
  rewrite Hq, length_app in Hlen. simpl in Hlen.
  assert (length p' = length p) as Hp' by lia.
  assert (small_packet p') as Hsp.
  { destruct Hp as [Hpne Hp]. unfold small_packet. rewrite Hp'. split; [|done].
    intros ->. by destruct p. }
  assert (Z.lxor (xor_all (hdr ++ p')) cs' ≠ 0) as Hbad.
  { assert (Z.lxor (xor_all (hdr ++ p')) cs' = xor_all (hdr ++ <[k:=b']> q)) as ->
      by (by rewrite Hq, app_assoc, (xor_all_app _ [cs']), xor_all_cons,
            xor_all_nil, Z.lxor_0_r).
    rewrite xor_all_app, (xor_all_insert q k b b' Hj), <-Z.lxor_assoc.
    rewrite <-xor_all_app, Hx, Z.lxor_0_l. by rewrite Z.lxor_eq_0_iff. }
  eexists. split.
  - rewrite Hq, <-(app_assoc p'), app_assoc. unfold hdr. rewrite <-Hp'.
    etransitivity; [by apply (decode_frame_bytes log_packet p' cs' 0xff)|].
    rewrite Hp'. fold (hdr ++ p'). change (keyword :: _ ++ p') with (hdr ++ p').
    by rewrite (proj2 (Z.eqb_neq _ _) Hbad).
  - done.
Qed.

(** ** The decoder's invariant *)

Definition codec_ok (c : FrameCodec) : Prop :=
  match fc_state c with
  | getKW => True
  | getLen => 0 ≤ fc_length c < size_t_modulus
  | getData => receiving c
  | getChecksum | getFiller =>
      Z.of_nat (length (fc_decodePacket c)) = fc_length c
      ∧ fc_length c ≤ vector_max_size
  end.

(** The byte [b] ends a length field that announces [n] payload bytes. *)
Definition announces (c : FrameCodec) (b : byte) (n : Z) : Prop :=
  fc_state c = getLen ∧ b < 128 ∧ n = Z.lor (fc_length c) b.

Lemma lor_size_t a b :
  0 ≤ a < size_t_modulus → 0 ≤ b < 128 → 0 ≤ Z.lor a b < size_t_modulus.
Proof.
  unfold size_t_modulus. intros Ha Hb. split; [apply Z.lor_nonneg; lia|].
  destruct (decide (Z.lor a b = 0)) as [->|Hne]; [lia|].
  assert (0 ≤ Z.lor a b) by (apply Z.lor_nonneg; lia).
  apply Z.log2_lt_pow2; [lia|]. rewrite Z.log2_lor by lia.
  apply Z.max_lub_lt.
  - destruct (decide (a = 0)) as [->|]; [done|]. apply Z.log2_lt_pow2; lia.
  - destruct (decide (b = 0)) as [->|]; [done|].
    apply Z.log2_lt_pow2; [lia|]. eapply Z.lt_trans; [apply Hb|]. lia.
Qed.

Section safety.
Context {S : Type} `{!Lens S FrameCodec}.
Context (decodeCB : ByteVec → M S ()).
Implicit Types (s : S) (c : FrameCodec).

Lemma codec_ok_store c E s :
  codec_ok c → wp (store c) E (λ _ s', codec_ok (view s')) s.
Proof. intros Hc. apply wp_modify. by rewrite view_set. Qed.

Lemma codec_ok_filled b c : receiving c → codec_ok (filled [b] c).
Proof.
  intros Hr. destruct (decide (fc_index c + 1 = fc_length c)) as [He|Hne].
  - destruct Hr as (Hst & Hi & Hlen & Hmax). unfold codec_ok, filled. unfold_rec.
    rewrite decide_True by done. split; [|done].
    rewrite length_app, length_take. cbn. rewrite length_drop. lia.
  - assert (receiving (filled [b] c)) as Hf.
    { apply receiving_filled; [done|]. cbn. destruct Hr as (_ & ? & _). lia. }
    unfold codec_ok. by rewrite (proj1 Hf).
Qed.

Lemma codec_ok_len b c E s :
  view s = c → codec_ok c → is_byte b → fc_state c = getLen →
  (∀ n, announces c b n → 1 ≤ n ≤ vector_max_size) →
  wp (decodeByte decodeCB b) E (λ _ s', codec_ok (view s')) s.
Proof.
  intros Hv Hok Hb Hst Hann. unfold codec_ok in Hok. rewrite Hst in Hok.
  assert (∀ s', decodeByte decodeCB b s = Ok ((), s') → codec_ok (view s') →
    wp (decodeByte decodeCB b) E (λ _ s', codec_ok (view s')) s) as Hrun
    by (unfold wp; by intros s' ->).
  destruct (decide (b < 128)) as [Hlt|Hge].
  - destruct (Hann (Z.lor (fc_length c) b)) as [H1 H2]; [done|].
    unfold is_byte in Hb.
    eapply Hrun; [apply decode_len_last; [done|done|lia|done]|].
    rewrite view_set. unfold codec_ok, receiving. unfold_rec.
    rewrite length_resize. split_and!; (done || lia).
  - eapply Hrun; [by apply decode_len_more; [..|lia]|].
    rewrite view_set. unfold codec_ok. unfold_rec. rewrite Hst.
    apply Z.mod_pos_bound. unfold size_t_modulus. lia.
Qed.

(** One byte: no undefined behaviour and no exception of the decoder's own, as
    long as no frame announces zero bytes (or more than a vector can hold).
    Whatever fails is the callback's failure. *)
Lemma decodeByte_ok b s E :
  codec_ok (view s) → is_byte b →
  (∀ n, announces (view s) b n → 1 ≤ n ≤ vector_max_size) →
  (∀ p s, wp (decodeCB p) E (λ _ s', view s' = view s :> FrameCodec) s) →
  wp (decodeByte decodeCB b) E (λ _ s', codec_ok (view s')) s.
Proof.
  intros Hok Hb Hann Hcb. destruct (fc_state (view s)) eqn:Hst.
  - unfold decodeByte, load. wp_steps. rewrite Hst.
    case_match; [|by apply wp_skip].
    apply codec_ok_store. unfold codec_ok. unfold_rec. unfold size_t_modulus. lia.
  - by eapply codec_ok_len.
  - unfold codec_ok in Hok. rewrite Hst in Hok. unfold wp.
    rewrite (decode_payload_byte decodeCB b s _ eq_refl Hok), view_set.
    by apply codec_ok_filled.
  - unfold wp. erewrite decode_checksum_byte by done. rewrite view_set.
    unfold codec_ok in *. rewrite Hst in Hok. by unfold_rec.
  - unfold decodeByte, load. wp_steps. rewrite Hst. apply wp_bind.
    apply (wp_mono _ E E (λ _ s', view s' = view s :> FrameCodec)); [|done|].
    + case_match; [apply Hcb|by apply wp_skip].
    + intros [] s' Hv. wp_steps. by apply codec_ok_store.
Qed.
End safety.

(** ** Properties *)

(** C4. Round trip through the wire. Packets of 1 to 16383 bytes are encoded
    with [encodePacket] and sent one after the other, each preceded by line noise
    without a keyword byte; an idle decoder that receives the whole byte stream
    reports exactly these packets, in order, and is idle again. *)
Theorem encode_decode_stream noise ps c l :
  listening c → Forall small_packet ps → length noise = length ps →
  Forall (λ n, keyword ∉ n) noise →
  ∃ frames c',
    Forall2 (λ p f, ∀ r, encodePacket p r = Ok ((), f)) ps frames
    ∧ receiveData log_packet (concat (zip_with (++) noise frames)) (c, l)
      = Ok ((), (c', l ++ ps))
    ∧ listening c'.
Proof.
  intros Hc Hps Hl Hn.
  destruct (log_stream noise ps c l Hc Hps Hl Hn) as (c' & Hrun & Hc').
  exists (frame <$> ps), c'. split_and!; [|by rewrite zip_with_fmap_r|done].
  apply Forall2_fmap_r, Forall_Forall2_diag, Forall_true. intros p r.
  apply encodePacket_frame.
Qed.

Lemma encode_decode_stream_witness :
  ∃ frames c', Forall2 (λ p f, ∀ r, encodePacket p r = Ok ((), f))
      [[1; 2; 3]; [0xfd]] frames
    ∧ receiveData log_packet (concat (zip_with (++) [[7]; []] frames))
        (newFrameCodec true, []) = Ok ((), (c', [[1; 2; 3]; [0xfd]]))
    ∧ listening c'.
Proof.
  apply (encode_decode_stream [[7]; []] [[1; 2; 3]; [0xfd]] (newFrameCodec true) []).
  - done.
  - by repeat constructor.
  - done.
  - apply Forall_cons; split; [|apply Forall_cons; split; [|done]].
    + apply not_elem_of_cons; split; [done|apply not_elem_of_nil].
    + apply not_elem_of_nil.
Defined.

(** C31. Single byte errors are detected. When one payload or checksum byte of an
    encoded packet is replaced by another value, the decoder reports nothing and
    is idle again, ready for the next frame. *)
Theorem corrupted_frame_dropped p r f j b b' c l :
  listening c → small_packet p → encodePacket p r = Ok ((), f) →
  f !! j = Some b → b ≠ b' →
  (1 + length (length_field (Z.of_nat (length p))) ≤ j < length f - 1)%nat →
  ∃ c', receiveData log_packet (<[j:=b']> f) (c, l) = Ok ((), (c', l))
        ∧ listening c'.
Proof.
  intros Hc Hp Hf. rewrite encodePacket_frame in Hf. injection Hf as <-.
  by apply log_corrupted.
Qed.

Lemma corrupted_frame_dropped_witness :
  ∃ c', receiveData log_packet (<[3%nat:=9]> (frame [1; 2; 3]))
          (newFrameCodec true, []) = Ok ((), (c', [])) ∧ listening c'.
Proof.
  apply (corrupted_frame_dropped [1; 2; 3] [] (frame [1; 2; 3]) 3 2 9
    (newFrameCodec true) []); try done.
  vm_compute. lia.
Defined.

(** C32. The decoder never writes out of bounds and throws nothing of its own on
    any byte in any state satisfying its invariant, and preserves the invariant,
    provided the byte does not announce an empty payload or one larger than a
    vector; only the callback can fail. *)
Theorem decodeByte_safe (decodeCB : ByteVec → M codec_log ()) b s E :
  codec_ok (view s) → is_byte b →
  (∀ n, announces (view s) b n → 1 ≤ n ≤ vector_max_size) →
  (∀ p s, wp (decodeCB p) E (λ _ s', view s' = view s :> FrameCodec) s) →
  wp (decodeByte decodeCB b) E (λ _ s', codec_ok (view s')) s.
Proof. apply decodeByte_ok. Qed.

Lemma decodeByte_safe_witness :
  wp (decodeByte log_packet 0xfd) never (λ _ s', codec_ok (view s'))
    ((newFrameCodec true, []) : codec_log).
Proof.
  apply (decodeByte_safe log_packet 0xfd (newFrameCodec true, []) never).
  - done.
  - unfold is_byte. lia.
  - intros n [Hst _]. done.
  - done.
Defined.

(** A frame whose length field is zero drives the decoder into undefined
    behaviour: the byte after the length is written to [m_decodePacket[0]] of an
    empty vector, whatever that byte is. *)
Theorem zero_length_frame_undefined (decodeCB : ByteVec → M codec_log ()) b s rest :
  fc_state (view s) = getKW →
  receiveData decodeCB ([0xfd; 0x00; b] ++ rest) s
  = Fail (Undefined "write past the end of m_decodePacket").
Proof.
  intros Hst. cbn [app].
  rewrite (receive_cons _ _ _ _ _ (decode_keyword decodeCB s Hst)).
  eapply bind_step.
  { apply decode_len_last; [apply view_set|done|lia|].
    change (Z.lor 0 0 ≤ vector_max_size). by vm_compute. }
  eapply bind_fail.
  unfold decodeByte, load. eapply bind_step; [done|].
  rewrite view_set. generalize (view s : FrameCodec). intros c.
  unfold started. record_eq c. by rewrite length_resize.
Qed.

Lemma zero_length_frame_undefined_witness :
  receiveData log_packet ([0xfd; 0x00; 0x00] ++ [0xff]) (newFrameCodec true, [])
  = Fail (Undefined "write past the end of m_decodePacket").
Proof.
  apply (zero_length_frame_undefined log_packet 0 (newFrameCodec true, []) [0xff]).
  reflexivity.
Defined.
