(* ===== verification/VecQueue.v ===== *)
(** * A queue in a vector (utility/VecQueue.h)

    The vector [m_store] keeps popped elements in front of the index
    [m_headPos] until the queue drains or [push] renormalises it. The operations
    refine those of a list ([contents]), and a push bounds the storage by twice
    the queued elements. *)

From S2P Require Import Prelude.

Record VecQueue (El : Type) : Type := mkVecQueue {
  m_store : list El;
  m_headPos : nat
}.
Arguments mkVecQueue {El} m_store m_headPos.
Arguments m_store {El} v.
Arguments m_headPos {El} v.

Module vec_queue.
Section operations.
Context {El : Type}.
Implicit Types (q : VecQueue El) (el : El).

Definition newVecQueue : VecQueue El := mkVecQueue [] 0.

Definition check_empty q : VecQueue El :=
  if decide (m_headPos q = length (m_store q)) then mkVecQueue [] 0 else q.

(** [erase(b, b + m_headPos)] past the end is undefined. *)
Definition checkRenormalization : M (VecQueue El) () :=
  q ← get;
  if decide (length (m_store q) / 2 < m_headPos q)%nat then
    if decide (m_headPos q ≤ length (m_store q))%nat then
      put (mkVecQueue (drop (m_headPos q) (m_store q)) 0)
    else fail (Undefined "erase past the end of m_store")
  else skip.

(** [normLimit] is a template parameter, 20 unless given. *)
Definition push (normLimit : nat) el : M (VecQueue El) () :=
  q ← get;
  (if decide (normLimit < length (m_store q))%nat
   then checkRenormalization else skip) ;;
  modify (λ q, mkVecQueue (m_store q ++ [el]) (m_headPos q)).

Definition pop : M (VecQueue El) () :=
  modify (λ q, check_empty (mkVecQueue (m_store q) (m_headPos q + 1))).

Definition pop_back : M (VecQueue El) () :=
  q ← get;
  if decide (m_store q = []) then fail (Undefined "pop_back of an empty vector")
  else put (check_empty
         (mkVecQueue (take (length (m_store q) - 1) (m_store q)) (m_headPos q))).

Definition front : M (VecQueue El) El :=
  q ← get; deref "front of an empty queue" (m_store q !! m_headPos q).

(** The difference of two [std::size_t]. *)
Definition size q : Z :=
  to_size_t (Z.of_nat (length (m_store q)) - Z.of_nat (m_headPos q)).

Definition empty q : bool := bool_decide (length (m_store q) = 0)%nat.
End operations.
End vec_queue.
Import vec_queue.

Section refinement.
Context {El : Type}.
Implicit Types (q : VecQueue El) (el : El).

(** ** Refinement of a list *)

Definition contents q : list El := drop (m_headPos q) (m_store q).

(** The comment on [m_headPos]: it points to the head element, or is 0 and the
    store is empty. *)
Definition queue_inv q : Prop :=
  (m_headPos q < length (m_store q))%nat ∨ (m_headPos q = 0%nat ∧ m_store q = []).

Lemma new_queue_inv : queue_inv newVecQueue.
Proof. by right. Qed.

Lemma contents_new : contents newVecQueue = [].
Proof. done. Qed.

Lemma length_contents q : length (contents q) = (length (m_store q) - m_headPos q)%nat.
Proof. apply length_drop. Qed.

Lemma empty_contents q : queue_inv q → empty q = bool_decide (contents q = []).
Proof.
  intros Hinv. unfold empty. apply bool_decide_ext.
  rewrite <-length_zero_iff_nil, length_contents.
  destruct Hinv as [?|[-> ->]]; simpl; lia.
Qed.

Lemma size_contents q :
  queue_inv q → Z.of_nat (length (m_store q)) < size_t_modulus →
  size q = Z.of_nat (length (contents q)).
Proof.
  intros Hinv Hsz. unfold size, to_size_t. rewrite length_contents.
  rewrite Z.mod_small; destruct Hinv as [?|[-> ->]]; simpl; lia.
Qed.

Lemma check_empty_spec st h :
  (h ≤ length st)%nat →
  queue_inv (check_empty (mkVecQueue st h))
  ∧ contents (check_empty (mkVecQueue st h)) = drop h st.
Proof.
  intros Hle. unfold check_empty. simpl. case_decide as Heq.
  - split; [by right|]. unfold contents. simpl. by rewrite drop_ge by lia.
  - split; [left; simpl; lia|done].
Qed.

(** Each operation on a queue that satisfies the invariant, through [contents]. *)
Lemma push_spec n el q :
  queue_inv q →
  ∃ q', push n el q = Ok ((), q') ∧ queue_inv q' ∧ contents q' = contents q ++ [el].
Proof.
  intros Hinv.
  assert (∃ q1, (if decide (n < length (m_store q))%nat
      then checkRenormalization else skip) q = Ok ((), q1)
      ∧ (m_headPos q1 ≤ length (m_store q1))%nat ∧ contents q1 = contents q)
    as (q1 & Hq1 & Hle & Hc).
  { assert (m_headPos q ≤ length (m_store q))%nat
      by (destruct Hinv as [?|[-> ->]]; simpl; lia).
    case_decide; [|by exists q].
    unfold checkRenormalization, mbind, M_bind, get.
    case_decide; [|by exists q]. rewrite decide_True by done.
    eexists. split; [done|]. split; [simpl; lia|done]. }
  eexists. split.
  { unfold push. eapply bind_step; [done|]. by eapply bind_step. }
  split.
  - left. simpl. rewrite length_app. simpl. lia.
  - unfold contents in *. simpl. rewrite drop_app_le by done. by rewrite Hc.
Qed.

Lemma front_spec el l q :
  contents q = el :: l → front q = Ok (el, q).
Proof.
  intros Hc. unfold front, mbind, M_bind, get.
  assert (m_store q !! m_headPos q = Some el) as ->; [|done].
  rewrite <-(Nat.add_0_r (m_headPos q)), <-lookup_drop.
  change (drop (m_headPos q) (m_store q)) with (contents q). by rewrite Hc.
Qed.

Lemma pop_spec el l q :
  contents q = el :: l →
  ∃ q', pop q = Ok ((), q') ∧ queue_inv q' ∧ contents q' = l.
Proof.
  intros Hc. eexists. split; [done|].
  assert (m_headPos q + 1 ≤ length (m_store q))%nat as Hle.
  { apply (f_equal length) in Hc. rewrite length_contents in Hc. simpl in Hc. lia. }
  destruct (check_empty_spec _ _ Hle) as [Hinv Heq]. split; [done|].
  rewrite Heq, <-drop_drop.
  change (drop (m_headPos q) (m_store q)) with (contents q). by rewrite Hc.
Qed.

Lemma pop_back_spec el l q :
  contents q = l ++ [el] →
  ∃ q', pop_back q = Ok ((), q') ∧ queue_inv q' ∧ contents q' = l.
Proof.
  intros Hc.
  assert (m_headPos q < length (m_store q))%nat as Hlt.
  { apply (f_equal length) in Hc. rewrite length_contents, length_app in Hc.
    simpl in Hc. lia. }
  unfold pop_back, mbind, M_bind, get.
  rewrite decide_False by (intros Hnil; rewrite Hnil in Hlt; simpl in Hlt; lia).
  eexists. split; [done|].
  destruct (check_empty_spec (take (length (m_store q) - 1) (m_store q))
    (m_headPos q)) as [Hinv Heq]; [rewrite length_take; lia|].
  split; [done|]. rewrite Heq.
  replace (length (m_store q) - 1)%nat
    with (m_headPos q + (length (m_store q) - 1 - m_headPos q))%nat by lia.
  rewrite <-take_drop_commute.
  rewrite <-(take_app_length l [el]), <-Hc. unfold contents. f_equal.
  apply (f_equal length) in Hc. rewrite length_contents, length_app in Hc.
  simpl in Hc. lia.
Qed.

(** Histories of operations, on the vector and on a list. [pop] and the readers
    are only called on a non-empty queue. *)
Inductive Op : Type := Push (el : El) | Front | Pop | PopBack.

Definition run_op (n : nat) (o : Op) : M (VecQueue El) (list El) :=
  match o with
  | Push el => push n el ;; mret []
  | Front => el ← front; mret [el]
  | Pop => pop ;; mret []
  | PopBack => pop_back ;; mret []
  end.

Fixpoint run_ops (n : nat) (os : list Op) : M (VecQueue El) (list El) :=
  match os with
  | [] => mret []
  | o :: os' => l ← run_op n o; l' ← run_ops n os'; mret (l ++ l')
  end.

Definition spec_op (o : Op) (l : list El) : option (list El * list El) :=
  match o, l with
  | Push el, _ => Some ([], l ++ [el])
  | Front, el :: _ => Some ([el], l)
  | Pop, _ :: l' => Some ([], l')
  | PopBack, _ :: _ => Some ([], removelast l)
  | _, [] => None
  end.

Fixpoint spec_ops (os : list Op) (l : list El) : option (list El * list El) :=
  match os with
  | [] => Some ([], l)
  | o :: os' =>
      '(out, l1) ← spec_op o l; '(out', l2) ← spec_ops os' l1;
      Some (out ++ out', l2)
  end.

Lemma run_op_refines n o q out l :
  queue_inv q → spec_op o (contents q) = Some (out, l) →
  ∃ q', run_op n o q = Ok (out, q') ∧ queue_inv q' ∧ contents q' = l.
Proof.
  intros Hinv Hspec. destruct o as [el| | |]; simpl in *.
  - injection Hspec as <- <-.
    destruct (push_spec n el q Hinv) as (q' & Hq & ? & ?).
    exists q'. by rewrite (bind_ok _ _ _ _ _ Hq).
  - destruct (contents q) as [|el l0] eqn:Hc; [done|]. injection Hspec as <- <-.
    exists q. by rewrite (bind_ok _ _ _ _ _ (front_spec _ _ _ Hc)).
  - destruct (contents q) as [|el l0] eqn:Hc; [done|]. injection Hspec as <- <-.
    destruct (pop_spec _ _ _ Hc) as (q' & Hq & ? & ?).
    exists q'. by rewrite (bind_ok _ _ _ _ _ Hq).
  - assert (contents q ≠ []) as Hne by (by intros Hnil; rewrite Hnil in Hspec).
    destruct (exists_last Hne) as (l0 & el & Hc). rewrite Hc in Hspec.
    assert (Some ([], l0) = Some (out, l)) as [= <- <-].
    { rewrite <-Hspec, <-(removelast_last l0 el) at 1. by destruct l0. }
    destruct (pop_back_spec _ _ _ Hc) as (q' & Hq & ? & ?).
    exists q'. by rewrite (bind_ok _ _ _ _ _ Hq).
Qed.

Lemma run_ops_refines n os q out l :
  queue_inv q → spec_ops os (contents q) = Some (out, l) →
  ∃ q', run_ops n os q = Ok (out, q') ∧ queue_inv q' ∧ contents q' = l.
Proof.
  revert q out. induction os as [|o os IH]; intros q out Hinv Hspec.
  { injection Hspec as <- <-. by exists q. }
  simpl in Hspec. destruct (spec_op o (contents q)) as [[out1 l1]|] eqn:Ho; [|done].
  simpl in Hspec. destruct (spec_ops os l1) as [[out2 l2]|] eqn:Hos; [|done].
  injection Hspec as <- <-.
  destruct (run_op_refines n _ _ _ _ Hinv Ho) as (q1 & Hq1 & Hinv1 & <-).
  destruct (IH q1 out2 Hinv1 Hos) as (q2 & Hq2 & ? & ?).
  exists q2. simpl. rewrite (bind_ok _ _ _ _ _ Hq1). by rewrite (bind_ok _ _ _ _ _ Hq2).
Qed.
End refinement.

(** ** Properties *)

(** C37. Any history of pushes, reads of the front, pops from either end, that
    never pops or reads an empty queue, gives on the vector queue the results it
    gives on a list, leaves the list's elements in it, in order, and reports
    them empty exactly when they are; it never reads outside the vector, whatever
    the limit at which a push renormalises the storage. *)
Theorem vec_queue_refines_list {El} (n : nat) (os : list (Op (El := El))) out l :
  spec_ops os [] = Some (out, l) →
  ∃ q, run_ops n os newVecQueue = Ok (out, q) ∧ contents q = l
    ∧ empty q = bool_decide (l = []).
Proof.
  intros Hspec.
  destruct (run_ops_refines n os newVecQueue out l new_queue_inv Hspec)
    as (q & Hq & Hinv & <-).
  exists q. split_and!; [done|done|]. by apply empty_contents.
Qed.

Lemma vec_queue_refines_list_witness :
  ∃ q, run_ops 1 [Push 1; Push 2; Front; Pop; Push 3; Front; Pop; Push 4; Push 5;
                  PopBack; Front] newVecQueue = Ok ([1; 2; 3], q)
    ∧ contents q = [3; 4] ∧ empty q = bool_decide ([3; 4] = []).
Proof.
  apply (vec_queue_refines_list 1
    [Push 1; Push 2; Front; Pop; Push 3; Front; Pop; Push 4; Push 5; PopBack; Front]
    [1; 2; 3] [3; 4]).
  reflexivity.
Defined.

(** Protection against storage that grows without bound: right after a push
    the vector holds at most [normLimit + 1] elements or at most twice the
    queued ones. *)
Theorem push_storage_bound {El} (n : nat) (el : El) q q' :
  queue_inv q → push n el q = Ok ((), q') →
  (length (m_store q') ≤ Nat.max (n + 1) (2 * length (contents q')))%nat.
Proof.
  intros Hinv Hpush. unfold push, mbind, M_bind, get in Hpush.
  destruct (decide (n < length (m_store q))%nat) as [Hlt|Hge].
  - unfold checkRenormalization, mbind, M_bind, get in Hpush.
    destruct (decide (length (m_store q) / 2 < m_headPos q)%nat) as [Hh|Hh].
    + destruct (decide (m_headPos q ≤ length (m_store q))%nat); [|done].
      injection Hpush as <-. unfold contents. simpl. rewrite drop_0.
      rewrite !length_app. lia.
    + injection Hpush as <-. rewrite length_contents. simpl.
      rewrite length_app. simpl.
      pose proof (Nat.div_mod_eq (length (m_store q)) 2).
      pose proof (Nat.mod_upper_bound (length (m_store q)) 2). lia.
  - injection Hpush as <-. rewrite length_contents. simpl.
    rewrite length_app. simpl. lia.
Qed.

Lemma push_storage_bound_witness :
  (length (m_store (mkVecQueue [2; 3] 0))
   ≤ Nat.max (1 + 1) (2 * length (contents (mkVecQueue [2; 3] 0))))%nat.
Proof.
  apply (push_storage_bound 1 3 (mkVecQueue [1; 1; 2] 2) (mkVecQueue [2; 3] 0)); [left; simpl; lia|].
  reflexivity.
Defined.
