(* ===== verification/StateChart.v ===== *)
(** * Hierarchical state machines (statechart/StateChart.h, StateChart.cpp)

    A machine is a table of states with parents, a stack of active state objects
    (one per level), and a queue of events. A state's class is an element [K] of
    a type of the client, with the client's constructor, destructor and event
    handler given by [StateCode]; they receive the machine's [postEvent], which
    they may call. The second half is an abstract machine, whose steps are a leaf
    state, a queue and a trace, and the proof that the code refines it. *)

From S2P Require Import Prelude VecQueue.

(** ** Data *)

(** A registered state. [m_maker] is the state's class. *)
Record StateInfo (K : Type) : Type := mkStateInfo {
  si_id : Z;
  si_parentId : Z;
  si_level : nat;
  si_stateSize : nat;
  si_name : string;
  si_maker : K
}.
Arguments mkStateInfo {K}.
Arguments si_id {K} _.
Arguments si_parentId {K} _.
Arguments si_level {K} _.
Arguments si_stateSize {K} _.
Arguments si_name {K} _.
Arguments si_maker {K} _.

Record FsmSetupBase (K : Type) : Type := mkFsmSetupBase {
  su_states : list (StateInfo K);
  su_maxLevel : nat
}.
Arguments mkFsmSetupBase {K}.
Arguments su_states {K} _.
Arguments su_maxLevel {K} _.

(** One level: the active state object, and the size of its storage. *)
Record LevelData (K : Type) : Type := mkLevelData {
  ld_activeState : option K;
  ld_stateStorage : nat
}.
Arguments mkLevelData {K}.
Arguments ld_activeState {K} _.
Arguments ld_stateStorage {K} _.

(** [FsmBaseSupport] and the event queue of [FsmBaseEvent]. A
    [const StateInfo*] is an index into [su_states]; [m_nextInfos] is filled with
    null pointers when it grows. [m_hsm] is the machine itself. *)
Record Fsm (K Ev : Type) : Type := mkFsm {
  fs_setup : FsmSetupBase K;
  fs_stackFrames : list (LevelData K);
  fs_currentInfos : list nat;
  fs_nextInfos : list (option nat);
  fs_stateUpdate : bool;
  fs_nextState : Z;
  fs_eventQueue : VecQueue Ev
}.
Arguments mkFsm {K Ev}.
Arguments fs_setup {K Ev} _.
Arguments fs_stackFrames {K Ev} _.
Arguments fs_currentInfos {K Ev} _.
Arguments fs_nextInfos {K Ev} _.
Arguments fs_stateUpdate {K Ev} _.
Arguments fs_nextState {K Ev} _.
Arguments fs_eventQueue {K Ev} _.
#[export] Instance Eta_Fsm {K Ev} : Eta (Fsm K Ev) := λ c,
  mkFsm (fs_setup c) (fs_stackFrames c) (fs_currentInfos c) (fs_nextInfos c)
    (fs_stateUpdate c) (fs_nextState c) (fs_eventQueue c).

Definition newFsm {K Ev} : Fsm K Ev :=
  mkFsm (mkFsmSetupBase [] 0) [] [] [] false 0 vec_queue.newVecQueue.

(** ** Registration of states *)

Section setup.
Context {K : Type}.

(** The first state with the id, as [std::find_if] returns it. *)
Definition findState (su : FsmSetupBase K) (id : Z) : option nat :=
  fst <$> list_find (λ i, si_id i = id) (su_states su).

Definition addStateBase (stateId parentId : Z) (stateSize : nat) (fkn : K)
    (name : string) : M (FsmSetupBase K) () :=
  su ← get;
  level ← (if decide (stateId ≠ parentId) then
             parent ← deref "parent state not registered" (findState su parentId);
             info ← deref "parent state not registered" (su_states su !! parent);
             mret (si_level info + 1)%nat
           else mret 0%nat);
  put (mkFsmSetupBase
         (su_states su ++ [mkStateInfo stateId parentId level stateSize name fkn])
         (if decide (su_maxLevel su < level)%nat then level else su_maxLevel su)).
End setup.

(** ** The code of the states

    The constructor, the destructor and [event] of a state class, in a program
    whose state is [S]. The first argument is [postEvent]. *)

Class StateCode (S K Ev : Type) := {
  makeState : (Ev → M S ()) → K → M S ();
  destroyState : (Ev → M S ()) → K → M S ();
  emitEvent : (Ev → M S ()) → K → Ev → M S bool
}.
#[export] Hint Mode StateCode ! ! ! : typeclass_instances.

(** ** Transitions and events *)

Section support.
Context {S K Ev : Type} `{!Lens S (Fsm K Ev)} `{!StateCode S K Ev}.
Implicit Types (c : Fsm K Ev).

Definition fsm_gets {A} (f : Fsm K Ev → A) : M S A := gets (f ∘ view).
Definition fsm_modify (f : Fsm K Ev → Fsm K Ev) : M S () :=
  modify (λ s, set_view (f (view s)) s).

(** [m_activeState.reset(k)] of one level: the pointer changes, then the old
    object is destroyed. *)
Definition resetActive (post : Ev → M S ()) (level : nat) (k : option K) : M S () :=
  frames ← fsm_gets fs_stackFrames;
  frame ← deref "level past the end of m_stackFrames" (frames !! level);
  fsm_modify (λ c, c <| fs_stackFrames ::=
                     <[level := mkLevelData k (ld_stateStorage frame)]> |>) ;;
  match ld_activeState frame with
  | Some old => destroyState post old
  | None => skip
  end.

Definition transition (id : Z) : M S () :=
  fsm_modify (λ c, c <| fs_nextState := id |> <| fs_stateUpdate := true |>).

Fixpoint populateLoop (fuel : nat) (si : StateInfo K) (level : nat) : M S () :=
  match level, fuel with
  | O, _ => skip
  | _, O => fail OutOfFuel
  | _, Datatypes.S n =>
      setup ← fsm_gets fs_setup;
      p ← deref "parent state not registered" (findState setup (si_parentId si));
      parent ← deref "parent state not registered" (su_states setup !! p);
      let level' := si_level parent in
      next ← fsm_gets fs_nextInfos;
      if decide (level' < length next)%nat then
        fsm_modify (λ c, c <| fs_nextInfos ::= <[level' := Some p]> |>) ;;
        populateLoop n parent level'
      else fail (Undefined "level past the end of m_nextInfos")
  end.

Definition populateNextInfos (fuel : nat) (i : nat) : M S () :=
  setup ← fsm_gets fs_setup;
  info ← deref "no such state" (su_states setup !! i);
  let level := si_level info in
  fsm_modify (λ c, c <| fs_nextInfos ::= resize (level + 1) None |>
                     <| fs_nextInfos ::= <[level := Some i]> |>) ;;
  populateLoop fuel info level.

Fixpoint commonPrefix (src : list nat) (dst : list (option nat)) : nat :=
  match src, dst with
  | x :: src', Some y :: dst' =>
      if decide (x = y) then Datatypes.S (commonPrefix src' dst') else 0%nat
  | _, _ => 0%nat
  end.

Definition findFirstThatDiffer : M S nat :=
  c ← fsm_gets id;
  cur ← deref "m_currentInfos is empty" (last (fs_currentInfos c));
  next ← deref "m_nextInfos is empty" (last (fs_nextInfos c));
  if decide (Some cur = next) then
    info ← deref "no such state" (su_states (fs_setup c) !! cur);
    mret (si_level info)
  else mret (commonPrefix (fs_currentInfos c) (fs_nextInfos c)).

Definition doExit (post : Ev → M S ()) (fuel bl : nat) : M S () :=
  while_ fuel
    (cur ← fsm_gets fs_currentInfos; mret (bool_decide (bl < length cur)%nat))
    (cur ← fsm_gets fs_currentInfos;
     resetActive post (length cur - 1) None ;;
     cur ← fsm_gets fs_currentInfos;
     if decide (cur = []) then fail (Undefined "pop_back of an empty vector")
     else fsm_modify (λ c, c <| fs_currentInfos ::= λ l, take (length l - 1) l |>)).

Definition doEntry (post : Ev → M S ()) (fuel : nat) : M S () :=
  dst ← fsm_gets fs_nextInfos;
  let dstLevel := length dst in
  while_ fuel
    (cur ← fsm_gets fs_currentInfos; mret (bool_decide (length cur ≠ dstLevel)))
    (cur ← fsm_gets fs_currentInfos;
     let level := length cur in
     next ← fsm_gets fs_nextInfos;
     ptr ← deref "level past the end of m_nextInfos" (next !! level);
     i ← deref "null entry of m_nextInfos" ptr;
     setup ← fsm_gets fs_setup;
     newState ← deref "no such state" (su_states setup !! i);
     frames ← fsm_gets fs_stackFrames;
     frame ← deref "level past the end of m_stackFrames" (frames !! level);
     fsm_modify (λ c, c <| fs_stackFrames ::= <[level := mkLevelData
         (ld_activeState frame)
         (if decide (ld_stateStorage frame < si_stateSize newState)%nat
          then si_stateSize newState else ld_stateStorage frame)]> |>) ;;
     fsm_modify (λ c, c <| fs_currentInfos ::= (.++ [i]) |>) ;;
     makeState post (si_maker newState) ;;
     resetActive post level (Some (si_maker newState))).

Definition doTransition (post : Ev → M S ()) (fuel : nat) (i : nat) : M S () :=
  populateNextInfos fuel i ;;
  next ← fsm_gets fs_nextInfos;
  assert (bool_decide (next ≠ [])) ;;
  cur ← fsm_gets fs_currentInfos;
  bottomLevel ← (if decide (cur ≠ []) then findFirstThatDiffer else mret 0%nat);
  doExit post fuel bottomLevel ;;
  doEntry post fuel.

(** The loop does not end when the requested state is not registered. *)
Definition prepareTransition (post : Ev → M S ()) (fuel : nat) : M S () :=
  while_ fuel (fsm_gets fs_stateUpdate)
    (c ← fsm_gets id;
     match findState (fs_setup c) (fs_nextState c) with
     | Some i =>
         fsm_modify (λ c, c <| fs_stateUpdate := false |>) ;;
         doTransition post fuel i
     | None => skip
     end).

(** The levels below [level], from the innermost, until one handles the event. *)
Fixpoint offerEvent (post : Ev → M S ()) (level : nat) (ev : Ev) : M S () :=
  match level with
  | O => skip
  | Datatypes.S l =>
      frames ← fsm_gets fs_stackFrames;
      frame ← deref "level past the end of m_stackFrames" (frames !! l);
      k ← deref "event for a level without a state" (ld_activeState frame);
      eventHandled ← emitEvent post k ev;
      if eventHandled : bool then skip else offerEvent post l ev
  end.

Definition processEvent (post : Ev → M S ()) (fuel : nat) (ev : Ev) : M S () :=
  cur ← fsm_gets fs_currentInfos;
  if decide (cur = []) then skip
  else offerEvent post (length cur) ev ;; prepareTransition post fuel.

Definition on_queue {A} (m : M (VecQueue Ev) A) : M S A :=
  on_part (λ s : S, fs_eventQueue (view s : Fsm K Ev))
    (λ q s, set_view ((view s : Fsm K Ev) <| fs_eventQueue := q |>) s) m.

(** [postEvent], given what processes the queue when it was empty. *)
Definition postEvent_with (process : M S ()) (ev : Ev) : M S () :=
  q ← fsm_gets fs_eventQueue;
  on_queue (vec_queue.push 20 ev) ;;
  if vec_queue.empty q then process else skip.

(** The loop of [postEvent]. One unit of fuel per event, each event's own loops
    having the rest of it. *)
Fixpoint processQueue (fuel : nat) : M S () :=
  q ← fsm_gets fs_eventQueue;
  if vec_queue.empty q then skip
  else
    match fuel with
    | O => fail OutOfFuel
    | Datatypes.S n =>
        ev ← on_queue vec_queue.front;
        processEvent (postEvent_with (processQueue n)) n ev ;;
        on_queue vec_queue.pop ;;
        processQueue n
    end.

Definition postEvent (fuel : nat) (ev : Ev) : M S () :=
  postEvent_with (processQueue fuel) ev.

Definition setStartState (fuel : nat) (id : Z) : M S () :=
  fsm_modify (λ c, c <| fs_stackFrames ::=
      resize (su_maxLevel (fs_setup c) + 1) (mkLevelData None 0) |>
    <| fs_nextState := id |> <| fs_stateUpdate := true |>) ;;
  prepareTransition (postEvent fuel) fuel.

Definition cleanup (fuel : nat) : M S () :=
  doExit (postEvent fuel) fuel 0 ;;
  while_ fuel
    (frames ← fsm_gets fs_stackFrames; mret (bool_decide (frames ≠ [])))
    (frames ← fsm_gets fs_stackFrames;
     resetActive (postEvent fuel) (length frames - 1) None ;;
     fsm_modify (λ c, c <| fs_stackFrames ::= λ l, take (length l - 1) l |>)).
End support.

(** [addState<State, stateId, parentId>()] on a machine. *)
Definition addState {K Ev} (stateId parentId : Z) (stateSize : nat) (k : K)
    (name : string) : M (Fsm K Ev) () :=
  on_part fs_setup (λ su c, c <| fs_setup := su |>)
    (addStateBase stateId parentId stateSize k name).

(** ** Well-formed tables

    What [addStateBase] maintains: a root is at level 0, any other state one
    level below its parent, the parent being the first state with its id. *)

Section tables.
Context {K : Type}.
Implicit Types (su : FsmSetupBase K) (info : StateInfo K).

Definition wf_info su info : Prop :=
  (si_level info ≤ su_maxLevel su)%nat ∧
  match si_level info with
  | O => si_parentId info = si_id info
  | Datatypes.S l => ∃ p parent, findState su (si_parentId info) = Some p ∧
      su_states su !! p = Some parent ∧ si_level parent = l
  end.

Definition wf_setup su : Prop := Forall (wf_info su) (su_states su).

Lemma findState_lookup su id i :
  findState su id = Some i → ∃ info, su_states su !! i = Some info ∧ si_id info = id.
Proof.
  unfold findState. intros H. apply fmap_Some in H as ([j info] & Hf & ->).
  apply list_find_Some in Hf as (Hl & Hid & _). by exists info.
Qed.

Lemma findState_app su l m id i :
  findState su id = Some i →
  findState (mkFsmSetupBase (su_states su ++ l) m) id = Some i.
Proof.
  unfold findState. intros H. apply fmap_Some in H as ([j info] & Hf & ->).
  simpl. by rewrite (list_find_app_l _ _ _ _ _ Hf).
Qed.

Lemma wf_setup_lookup su i info :
  wf_setup su → su_states su !! i = Some info → wf_info su info.
Proof. intros Hwf Hi. by eapply Forall_lookup_1 in Hwf. Qed.

Lemma wf_setup_new : wf_setup (mkFsmSetupBase [] 0 : FsmSetupBase K).
Proof. constructor. Qed.

(** A larger table and maximum keep the states that were well formed so. *)
Lemma wf_info_app su l m info :
  (su_maxLevel su ≤ m)%nat → wf_info su info →
  wf_info (mkFsmSetupBase (su_states su ++ l) m) info.
Proof.
  intros Hm [Hle Hwf]. split; [simpl; lia|].
  destruct (si_level info); [done|]. destruct Hwf as (p & parent & Hp & Hl & Hlev).
  exists p, parent. split_and!; [by apply findState_app| |done].
  simpl. by apply lookup_app_l_Some.
Qed.

Lemma addStateBase_wf su su' id pid sz k name :
  wf_setup su → addStateBase id pid sz k name su = Ok ((), su') →
  wf_setup su'.
Proof.
  intros Hwf H. unfold addStateBase, mbind, M_bind, get, put in H.
  case_decide as Hne.
  - destruct (findState su pid) as [p|] eqn:Hp; [|done]. simpl in H.
    destruct (su_states su !! p) as [parent|] eqn:Hl; [|done]. simpl in H.
    injection H as <-. apply Forall_app. split.
    + eapply Forall_impl; [done|]. intros info. apply wf_info_app.
      try destruct (decide _); lia.
    + apply Forall_singleton. split; simpl; [try destruct (decide _); lia|].
      destruct (si_level parent + 1)%nat as [|l] eqn:Hlev; [lia|]. simpl.
      exists p, parent. split_and!; [by apply findState_app| |lia].
      simpl. by apply lookup_app_l_Some.
  - injection H as <-. apply Forall_app. split.
    + eapply Forall_impl; [done|]. intros info. apply wf_info_app.
      try destruct (decide _); lia.
    + apply Forall_singleton. split; simpl; [try destruct (decide _); lia|].
      lia.
Qed.

(** The chain of states from the root to a state. *)
Fixpoint path_at su (level i : nat) : list nat :=
  match level with
  | O => [i]
  | Datatypes.S l =>
      match su_states su !! i with
      | Some info =>
          match findState su (si_parentId info) with
          | Some p => path_at su l p ++ [i]
          | None => [i]
          end
      | None => [i]
      end
  end.

Definition path su (i : nat) : list nat :=
  match su_states su !! i with
  | Some info => path_at su (si_level info) i
  | None => []
  end.

Lemma last_path_at su l i : last (path_at su l i) = Some i.
Proof.
  destruct l as [|l]; [done|]. simpl. repeat case_match; try done.
  by rewrite last_snoc.
Qed.

Lemma path_at_child su i info p parent :
  su_states su !! i = Some info → findState su (si_parentId info) = Some p →
  su_states su !! p = Some parent → si_level info = Datatypes.S (si_level parent) →
  path_at su (si_level info) i = path_at su (si_level parent) p ++ [i].
Proof. intros Hi Hp Hl Hlev. by rewrite Hlev; simpl; rewrite Hi, Hp. Qed.

Lemma length_path_at su i info :
  wf_setup su → su_states su !! i = Some info →
  length (path_at su (si_level info) i) = Datatypes.S (si_level info).
Proof.
  intros Hwf. remember (si_level info) as l eqn:Hl. revert i info Hl.
  induction l as [|l IH]; intros i info Hl Hi; [done|].
  destruct (wf_setup_lookup _ _ _ Hwf Hi) as [_ Hinfo].
  rewrite <-Hl in Hinfo. destruct Hinfo as (p & parent & Hp & Hlp & Hlev).
  simpl. rewrite Hi, Hp, length_app, (IH p parent); [simpl; lia|done|done].
Qed.

Lemma path_at_valid su i info :
  wf_setup su → su_states su !! i = Some info →
  Forall (λ j, is_Some (su_states su !! j)) (path_at su (si_level info) i).
Proof.
  intros Hwf. remember (si_level info) as l eqn:Hl. revert i info Hl.
  induction l as [|l IH]; intros i info Hl Hi.
  { apply Forall_singleton. by rewrite Hi. }
  destruct (wf_setup_lookup _ _ _ Hwf Hi) as [_ Hinfo].
  rewrite <-Hl in Hinfo. destruct Hinfo as (p & parent & Hp & Hlp & Hlev).
  simpl. rewrite Hi, Hp. apply Forall_app. split; [by eapply IH|].
  apply Forall_singleton. by rewrite Hi.
Qed.
End tables.

(** ** The abstract machine

    States that log what happens to them, with the code of [Behaviour]: which
    events a state handles, what its handler, constructor and destructor post
    and which transition the handler asks for. *)

Inductive Obs (K Ev : Type) : Type :=
  | Enter (k : K)
  | Leave (k : K)
  | Offer (k : K) (ev : Ev).
Arguments Enter {K Ev} k.
Arguments Leave {K Ev} k.
Arguments Offer {K Ev} k ev.

Record Behaviour (K Ev : Type) : Type := mkBehaviour {
  bh_handles : K → Ev → bool;
  bh_posts : K → Ev → list Ev;
  bh_target : K → Ev → option Z;
  bh_entry_posts : K → list Ev;
  bh_exit_posts : K → list Ev
}.
Arguments mkBehaviour {K Ev}.
Arguments bh_handles {K Ev} _.
Arguments bh_posts {K Ev} _.
Arguments bh_target {K Ev} _.
Arguments bh_entry_posts {K Ev} _.
Arguments bh_exit_posts {K Ev} _.

Abbreviation logged K Ev := (Fsm K Ev * list (Obs K Ev))%type (only parsing).

Section abstract_machine.
Context {K Ev : Type} (bh : Behaviour K Ev) (su : FsmSetupBase K).

Definition log_obs (o : Obs K Ev) : M (logged K Ev) () := modify (λ s, (s.1, s.2 ++ [o])).

#[local] Instance logging_code : StateCode (logged K Ev) K Ev := {
  makeState post k := log_obs (Enter k) ;; for_each post (bh_entry_posts bh k);
  destroyState post k := log_obs (Leave k) ;; for_each post (bh_exit_posts bh k);
  emitEvent post k ev :=
    log_obs (Offer k ev) ;;
    for_each post (bh_posts bh k ev) ;;
    match bh_target bh k ev with Some id => transition id | None => skip end ;;
    mret (bh_handles bh k ev)
}.

Definition makers (l : list nat) : list K :=
  omap (λ i, si_maker <$> su_states su !! i) l.

Record Machine : Type := mkMachine {
  mc_leaf : nat;
  mc_queue : list Ev;
  mc_trace : list (Obs K Ev)
}.

(** Innermost state first: what is seen, what is posted, the last transition
    asked for. *)
Fixpoint dispatch (ks : list K) (ev : Ev) : list (Obs K Ev) * list Ev * option Z :=
  match ks with
  | [] => ([], [], None)
  | k :: ks' =>
      if bh_handles bh k ev then ([Offer k ev], bh_posts bh k ev, bh_target bh k ev)
      else
        let '(obs, posts, target) := dispatch ks' ev in
        (Offer k ev :: obs, bh_posts bh k ev ++ posts,
         match target with Some _ => target | None => bh_target bh k ev end)
  end.

(** The lowest level that a transition leaves: that of the first difference
    between the two chains, or the state itself on a transition to itself. *)
Definition divergence (i j : nat) : nat :=
  if decide (i = j) then (length (path su i) - 1)%nat
  else commonPrefix (path su i) (Some <$> path su j).

Definition leaving (i j : nat) : list K :=
  reverse (makers (drop (divergence i j) (path su i))).
Definition entering (i j : nat) : list K :=
  makers (drop (divergence i j) (path su j)).

(** One event. No step is possible when the queue is empty, or when a state that
    is not registered is asked for. *)
Definition machine_step (m : Machine) : option Machine :=
  match mc_queue m with
  | [] => None
  | ev :: rest =>
      let i := mc_leaf m in
      let '(obs, posts, target) := dispatch (reverse (makers (path su i))) ev in
      match target with
      | None => Some (mkMachine i (rest ++ posts) (mc_trace m ++ obs))
      | Some id =>
          j ← findState su id;
          Some (mkMachine j
            (rest ++ posts ++ concat (bh_exit_posts bh <$> leaving i j)
                  ++ concat (bh_entry_posts bh <$> entering i j))
            (mc_trace m ++ obs ++ (Leave <$> leaving i j) ++ (Enter <$> entering i j)))
      end
  end.

(** Until the queue is empty. *)
Fixpoint machine_run (n : nat) (m : Machine) : option Machine :=
  match mc_queue m with
  | [] => Some m
  | _ =>
      match n with
      | O => None
      | S n' => m' ← machine_step m; machine_run n' m'
      end
  end.
End abstract_machine.

(** ** Refinement *)

Section refinement.
Context {K Ev : Type} (bh : Behaviour K Ev) (su : FsmSetupBase K).
Context (Hwf : wf_setup su).
#[local] Existing Instance logging_code.
#[local] Instance code : StateCode (logged K Ev) K Ev := logging_code bh.

(** The active object of each level is the one that the chain [l] has there. *)
Definition frames_for (l : list nat) (frames : list (LevelData K)) : Prop :=
  length frames = (su_maxLevel su + 1)%nat ∧
  ∀ lv frame, frames !! lv = Some frame →
    ld_activeState frame = (i ← l !! lv; si_maker <$> su_states su !! i).

(** The concrete state: chain of active objects [fl], of current states [l],
    queue, trace, transition asked for, contents of [m_nextInfos]. *)
Record Conf (fl l : list nat) (q : list Ev) (log : list (Obs K Ev))
    (u : option Z) (nx : list (option nat)) (s : logged K Ev) : Prop := {
  cf_setup : fs_setup s.1 = su;
  cf_frames : frames_for fl (fs_stackFrames s.1);
  cf_current : fs_currentInfos s.1 = l;
  cf_inv : queue_inv (fs_eventQueue s.1);
  cf_queue : contents (fs_eventQueue s.1) = q;
  cf_log : s.2 = log;
  cf_update : fs_stateUpdate s.1 = bool_decide (is_Some u);
  cf_target : from_option (λ id, fs_nextState s.1 = id) True u;
  cf_next : fs_nextInfos s.1 = nx
}.

Lemma wp_fsm_gets {A} (f : Fsm K Ev → A) E (Q : A → logged K Ev → Prop) s :
  Q (f s.1) s → wp (fsm_gets f) E Q s.
Proof. done. Qed.

Lemma wp_fsm_modify (f : Fsm K Ev → Fsm K Ev) E (Q : () → logged K Ev → Prop) s :
  Q () (f s.1, s.2) → wp (fsm_modify f) E Q s.
Proof. done. Qed.

Lemma wp_push fl l q log u nx ev s :
  Conf fl l q log u nx s →
  wp (on_queue (vec_queue.push 20 ev)) never
    (λ _, Conf fl l (q ++ [ev]) log u nx) s.
Proof.
  intros []. destruct s as [c lg]. simpl in *.
  destruct (push_spec 20 ev _ cf_inv0) as (q' & Hq & Hinv & Hc).
  unfold wp, on_queue, on_part. simpl. rewrite Hq. simpl.
  constructor; simpl; simpl_rec; try done. by rewrite Hc, cf_queue0.
Qed.

(** Posting while an event is processed only queues. *)
Lemma wp_post proc fl l q log u nx ev s :
  q ≠ [] → Conf fl l q log u nx s →
  wp (postEvent_with proc ev) never (λ _, Conf fl l (q ++ [ev]) log u nx) s.
Proof.
  intros Hne HC. unfold postEvent_with. wp_step. apply wp_fsm_gets.
  wp_step. eapply wp_mono; [by apply wp_push|done|]. intros [] s' HC'.
  assert (vec_queue.empty (fs_eventQueue s.1) = false) as ->.
  { destruct HC. rewrite empty_contents by done.
    apply bool_decide_eq_false_2. by rewrite cf_queue0. }
  by apply wp_skip.
Qed.

Lemma wp_posts proc fl l q log u nx evs s :
  q ≠ [] ∨ evs = [] → Conf fl l q log u nx s →
  wp (for_each (postEvent_with proc) evs) never
    (λ _, Conf fl l (q ++ evs) log u nx) s.
Proof.
  revert q s. induction evs as [|ev evs IH]; intros q s Hne HC; simpl.
  - apply wp_skip. by rewrite app_nil_r.
  - destruct Hne as [Hne|]; [|done].
    wp_step. eapply wp_mono; [by apply wp_post|done|]. intros [] s' HC'.
    rewrite cons_middle, app_assoc. apply IH; [left; by destruct q|done].
Qed.

Lemma wp_log fl l q log u nx o s :
  Conf fl l q log u nx s →
  wp (log_obs o) never (λ _, Conf fl l q (log ++ [o]) u nx) s.
Proof.
  intros []. apply wp_modify. constructor; simpl; try done. by rewrite cf_log0.
Qed.

Lemma wp_log_posts proc fl l q log u nx o evs s :
  q ≠ [] ∨ evs = [] → Conf fl l q log u nx s →
  wp (log_obs o ;; for_each (postEvent_with proc) evs) never
    (λ _, Conf fl l (q ++ evs) (log ++ [o]) u nx) s.
Proof.
  intros Hne HC. wp_step. eapply wp_mono; [by apply wp_log|done|].
  intros [] s' HC'. by apply wp_posts.
Qed.

(** The later request for a transition replaces the earlier one. *)
Definition newer (t u : option Z) : option Z :=
  match t with Some _ => t | None => u end.

Lemma wp_emit proc fl l q log u nx k ev s :
  q ≠ [] → Conf fl l q log u nx s →
  wp (emitEvent (postEvent_with proc) k ev) never
    (λ h s', h = bh_handles bh k ev ∧
       Conf fl l (q ++ bh_posts bh k ev) (log ++ [Offer k ev])
         (newer (bh_target bh k ev) u) nx s') s.
Proof.
  intros Hne HC. simpl. wp_step. eapply wp_mono; [by apply wp_log|done|].
  intros [] s1 HC1. wp_step.
  eapply wp_mono; [apply wp_posts; [by left|exact HC1]|done|].
  intros [] s2 HC2. wp_step. destruct (bh_target bh k ev) as [id|]; simpl.
  - apply wp_modify. apply wp_ret. split; [done|].
    destruct HC2. destruct s2. constructor; simpl in *; by simpl_rec.
  - apply wp_skip, wp_ret. done.
Qed.

Lemma makers_snoc l i info :
  su_states su !! i = Some info → makers su (l ++ [i]) = makers su l ++ [si_maker info].
Proof. intros Hi. unfold makers. rewrite omap_app. simpl. by rewrite Hi. Qed.

Lemma makers_cons l i info :
  su_states su !! i = Some info → makers su (i :: l) = si_maker info :: makers su l.
Proof. intros Hi. unfold makers. simpl. by rewrite Hi. Qed.

Abbreviation valid l := (Forall (λ j, is_Some (su_states su !! j)) l).

Lemma wp_offer proc l ev n q log u nx s :
  q ≠ [] → valid l → (n ≤ length l)%nat → (length l ≤ su_maxLevel su + 1)%nat →
  Conf l l q log u nx s →
  let '(obs, posts, target) := dispatch bh (reverse (makers su (take n l))) ev in
  wp (offerEvent (postEvent_with proc) n ev) never
    (λ _, Conf l l (q ++ posts) (log ++ obs) (newer target u) nx) s.
Proof.
  intros Hne Hvalid Hn Hmax. revert q log u s Hne.
  induction n as [|n IH]; intros q log u s Hne HC.
  { simpl. apply wp_skip. by rewrite !app_nil_r. }
  destruct (lookup_lt_is_Some_2 l n) as [i Hi]; [lia|].
  destruct (Forall_lookup_1 _ _ _ _ Hvalid Hi) as [info Hinfo].
  rewrite (take_S_r _ _ _ Hi), (makers_snoc _ _ _ Hinfo), reverse_snoc.
  specialize (IH ltac:(lia)).
  destruct (cf_frames _ _ _ _ _ _ _ HC) as [Hlen Hfr].
  destruct (lookup_lt_is_Some_2 (fs_stackFrames s.1) n) as [frame Hframe]; [lia|].
  assert (ld_activeState frame = Some (si_maker info)) as Hact.
  { rewrite (Hfr _ _ Hframe), Hi. simpl. by rewrite Hinfo. }
  cbn [dispatch]. destruct (dispatch bh (reverse (makers su (take n l))) ev)
    as [[obs posts] target] eqn:Hd.
  enough (wp (offerEvent (postEvent_with proc) (S n) ev) never
    (λ _, if bh_handles bh (si_maker info) ev
       then Conf l l (q ++ bh_posts bh (si_maker info) ev)
              (log ++ [Offer (si_maker info) ev])
              (newer (bh_target bh (si_maker info) ev) u) nx
       else Conf l l (q ++ bh_posts bh (si_maker info) ev ++ posts)
              (log ++ Offer (si_maker info) ev :: obs)
              (newer (newer target (bh_target bh (si_maker info) ev)) u) nx) s) as Hwp
    by (destruct (bh_handles bh (si_maker info) ev); [|destruct target]; exact Hwp).
  cbn [offerEvent]. wp_step. apply wp_fsm_gets.
  wp_step. rewrite Hframe. apply wp_deref.
  wp_step. rewrite Hact. apply wp_deref.
  wp_step. eapply wp_mono; [by apply wp_emit|done|]. intros h s' [-> HC'].
  destruct (bh_handles bh (si_maker info) ev); [by apply wp_skip|].
  assert (q ++ bh_posts bh (si_maker info) ev ≠ []) as Hne' by (by destruct q).
  eapply wp_mono; [exact (IH _ _ _ _ Hne' HC')|done|].
  intros [] s'' HC''. rewrite <-!app_assoc in HC''. destruct target; exact HC''.
Qed.

(** Exit and entry of one level. *)
Lemma frames_for_snoc l i info frames (k : option K) sz :
  frames_for (l ++ [i]) frames ∨ frames_for l frames →
  su_states su !! i = Some info → k = Some (si_maker info) →
  frames_for (l ++ [i]) (<[length l := mkLevelData k sz]> frames).
Proof.
  intros Hor Hi ->. unfold frames_for. rewrite length_insert.
  split; [by destruct Hor as [[]|[]]|]. intros lv frame Hlv.
  apply list_lookup_insert_Some in Hlv as [(<- & <- & _)|[Hne Hlv]].
  - simpl. rewrite lookup_app_r, Nat.sub_diag by lia. simpl. by rewrite Hi.
  - destruct Hor as [[_ Hfr]|[_ Hfr]]; rewrite (Hfr _ _ Hlv); [done|].
    destruct (decide (lv < length l)%nat).
    + by rewrite lookup_app_l by lia.
    + rewrite !(lookup_ge_None_2); [done|rewrite length_app; simpl; lia|lia].
Qed.

Lemma frames_for_drop l i frames sz :
  frames_for (l ++ [i]) frames →
  frames_for l (<[length l := mkLevelData None sz]> frames).
Proof.
  intros [Hlen Hfr]. unfold frames_for. rewrite length_insert. split; [done|].
  intros lv frame Hlv.
  apply list_lookup_insert_Some in Hlv as [(<- & <- & _)|[Hne Hlv]].
  - simpl. by rewrite lookup_ge_None_2.
  - rewrite (Hfr _ _ Hlv). destruct (decide (lv < length l)%nat).
    + by rewrite lookup_app_l by lia.
    + rewrite !(lookup_ge_None_2); [done|lia|rewrite length_app; simpl; lia].
Qed.

Lemma wp_leave proc l i info q log u nx s :
  q ≠ [] → su_states su !! i = Some info → (length l ≤ su_maxLevel su)%nat →
  Conf (l ++ [i]) (l ++ [i]) q log u nx s →
  wp (resetActive (postEvent_with proc) (length l) None) never
    (λ _, Conf l (l ++ [i]) (q ++ bh_exit_posts bh (si_maker info))
            (log ++ [Leave (si_maker info)]) u nx) s.
Proof.
  intros Hne Hi Hmax HC. unfold resetActive. wp_step. apply wp_fsm_gets.
  destruct (cf_frames _ _ _ _ _ _ _ HC) as [Hlen Hfr].
  destruct (lookup_lt_is_Some_2 (fs_stackFrames s.1) (length l)) as [frame Hframe];
    [lia|].
  wp_step. rewrite Hframe. apply wp_deref. wp_step. apply wp_fsm_modify.
  rewrite (Hfr _ _ Hframe), lookup_app_r, Nat.sub_diag by lia. simpl.
  rewrite Hi. simpl. apply wp_log_posts; [by left|].
  destruct HC. constructor; simpl; simpl_rec; try done.
  by apply (frames_for_drop l i).
Qed.

Lemma wp_enter proc l i info q log u nx s :
  q ≠ [] ∨ bh_entry_posts bh (si_maker info) = [] → su_states su !! i = Some info → (length l ≤ su_maxLevel su)%nat →
  Conf l (l ++ [i]) q log u nx s →
  wp (makeState (postEvent_with proc) (si_maker info) ;;
      resetActive (postEvent_with proc) (length l) (Some (si_maker info))) never
    (λ _, Conf (l ++ [i]) (l ++ [i]) (q ++ bh_entry_posts bh (si_maker info))
            (log ++ [Enter (si_maker info)]) u nx) s.
Proof.
  intros Hne Hi Hmax HC. wp_step.
  eapply wp_mono; [by apply wp_log_posts|done|]. clear s HC. intros [] s HC.
  unfold resetActive. wp_step. apply wp_fsm_gets.
  destruct (cf_frames _ _ _ _ _ _ _ HC) as [Hlen Hfr].
  destruct (lookup_lt_is_Some_2 (fs_stackFrames s.1) (length l)) as [frame Hframe];
    [lia|].
  wp_step. rewrite Hframe. apply wp_deref. wp_step. apply wp_fsm_modify.
  rewrite (Hfr _ _ Hframe), lookup_ge_None_2 by lia. simpl. apply wp_skip.
  destruct HC. constructor; simpl; simpl_rec; try done.
  eapply frames_for_snoc; [by right|done|done].
Qed.

Lemma makers_app l1 l2 : makers su (l1 ++ l2) = makers su l1 ++ makers su l2.
Proof. apply omap_app. Qed.

(** The states of [d] leave, innermost first; then those of [d] enter. *)
Lemma wp_doExit proc p d fuel q log u nx s :
  q ≠ [] → valid d → (length d ≤ fuel)%nat →
  (length (p ++ d) ≤ su_maxLevel su + 1)%nat →
  Conf (p ++ d) (p ++ d) q log u nx s →
  wp (doExit (postEvent_with proc) fuel (length p)) never
    (λ _, let ks := reverse (makers su d) in
       Conf p p (q ++ concat (bh_exit_posts bh <$> ks)) (log ++ (Leave <$> ks)) u nx) s.
Proof.
  intros Hne Hd Hfuel Hmax HC. unfold doExit.
  revert q log s fuel Hne Hfuel HC. induction d as [|i d IH] using rev_ind;
    intros q log s fuel Hne Hfuel HC.
  { rewrite app_nil_r in HC. destruct fuel; simpl; wp_step; wp_step;
      apply wp_fsm_gets; apply wp_ret; rewrite bool_decide_eq_false_2
        by (rewrite (cf_current _ _ _ _ _ _ _ HC); lia);
      apply wp_skip; by rewrite !app_nil_r. }
  apply Forall_app in Hd as [Hd Hi]. apply Forall_cons in Hi as [[info Hi] _].
  rewrite app_assoc, length_app in Hmax. simpl in Hmax.
  rewrite length_app in Hfuel. simpl in Hfuel. destruct fuel as [|fuel]; [lia|].
  rewrite !app_assoc in HC.
  pose proof (cf_current _ _ _ _ _ _ _ HC) as Hcur.
  simpl. wp_step. wp_step. apply wp_fsm_gets. apply wp_ret.
  rewrite bool_decide_eq_true_2
    by (rewrite Hcur, !length_app; simpl; lia).
  wp_step. wp_step. apply wp_fsm_gets. wp_step. rewrite Hcur.
  replace (length ((p ++ d) ++ [i]) - 1)%nat with (length (p ++ d))
    by (rewrite (length_app _ [i]); simpl; lia).
  eapply wp_mono; [eapply wp_leave; try done; lia|done|]. intros [] s1 HC1.
  wp_step. apply wp_fsm_gets. rewrite (cf_current _ _ _ _ _ _ _ HC1).
  rewrite decide_False by (by destruct (p ++ d)).
  apply wp_fsm_modify.
  assert (Conf (p ++ d) (p ++ d) (q ++ bh_exit_posts bh (si_maker info))
    (log ++ [Leave (si_maker info)]) u nx
    ((s1.1) <| fs_currentInfos ::= λ l, take (length l - 1) l |>, s1.2)) as HC2.
  { destruct HC1. constructor; simpl; simpl_rec; try done. rewrite cf_current0.
    rewrite length_app, Nat.add_sub. apply take_app_length. }
  assert (q ++ bh_exit_posts bh (si_maker info) ≠ []) as Hne2 by (by destruct q).
  eapply wp_mono; [exact (IH Hd ltac:(lia) _ _ _ fuel Hne2 ltac:(lia) HC2)|done|].
  intros [] s3 HC3. simpl in *. rewrite (makers_snoc _ _ _ Hi), reverse_snoc.
  rewrite !fmap_cons. simpl. rewrite <-!app_assoc in HC3. by rewrite <-?app_assoc.
Qed.

Lemma wp_doEntry proc p d fuel q log u s :
  q ≠ [] ∨ concat (bh_entry_posts bh <$> makers su d) = [] → valid d → (length d ≤ fuel)%nat →
  (length (p ++ d) ≤ su_maxLevel su + 1)%nat →
  Conf p p q log u (Some <$> p ++ d) s →
  wp (doEntry (postEvent_with proc) fuel) never
    (λ _, Conf (p ++ d) (p ++ d) (q ++ concat (bh_entry_posts bh <$> makers su d))
            (log ++ (Enter <$> makers su d)) u (Some <$> p ++ d)) s.
Proof.
  intros Hne Hd Hfuel Hmax HC. unfold doEntry. wp_step. apply wp_fsm_gets.
  rewrite (cf_next _ _ _ _ _ _ _ HC), length_fmap.
  revert p q log s fuel Hne Hfuel Hmax HC. induction d as [|i d IH];
    intros p q log s fuel Hne Hfuel Hmax HC.
  { rewrite app_nil_r in *. destruct fuel; simpl; wp_step; wp_step;
      apply wp_fsm_gets; apply wp_ret; rewrite bool_decide_eq_false_2
        by (rewrite (cf_current _ _ _ _ _ _ _ HC); lia);
      apply wp_skip; by rewrite !app_nil_r. }
  apply Forall_cons in Hd as [[info Hi] Hd]. simpl in Hfuel.
  destruct fuel as [|fuel]; [lia|]. rewrite length_app in Hmax. simpl in Hmax.
  rewrite (makers_cons _ _ _ Hi) in Hne. simpl in Hne.
  rewrite app_nil in Hne.
  pose proof (cf_current _ _ _ _ _ _ _ HC) as Hcur.
  destruct (cf_frames _ _ _ _ _ _ _ HC) as [Hlen Hfr].
  destruct (lookup_lt_is_Some_2 (fs_stackFrames s.1) (length p)) as [frame Hframe];
    [lia|].
  cbn [while_]. wp_step. wp_step. apply wp_fsm_gets. apply wp_ret.
  rewrite bool_decide_eq_true_2 by (rewrite Hcur, length_app; simpl; lia).
  do 2 wp_step. apply wp_fsm_gets. rewrite Hcur.
  wp_step. apply wp_fsm_gets. rewrite (cf_next _ _ _ _ _ _ _ HC).
  assert ((Some <$> p ++ i :: d) !! length p = Some (Some i)) as ->
    by (by rewrite list_lookup_fmap, lookup_app_r, Nat.sub_diag by lia).
  wp_step. apply wp_deref. wp_step. apply wp_deref.
  wp_step. apply wp_fsm_gets. rewrite (cf_setup _ _ _ _ _ _ _ HC), Hi.
  wp_step. apply wp_deref. wp_step. apply wp_fsm_gets. rewrite Hframe.
  wp_step. apply wp_deref. wp_step. apply wp_fsm_modify. wp_step. apply wp_fsm_modify.
  eapply wp_mono; [eapply (wp_enter _ p i info q log u _ _ ltac:(tauto) Hi ltac:(lia))|done|].
  { destruct HC. constructor; simpl; simpl_rec; try done; [|by rewrite cf_current0].
    unfold frames_for. rewrite length_insert. split; [done|].
    intros lv fr Hlv. apply list_lookup_insert_Some in Hlv as [(<- & <- & _)|[_ Hlv]];
      [by rewrite <-(Hfr _ _ Hframe)|by apply Hfr]. }
  intros [] s1 HC1.
  assert (p ++ i :: d = (p ++ [i]) ++ d) as Heq by (by rewrite <-app_assoc).
  rewrite Heq in HC1 |- *.
  assert (q ++ bh_entry_posts bh (si_maker info) ≠ []
    ∨ concat (bh_entry_posts bh <$> makers su d) = []) as Hne2
    by (destruct Hne as [|[]]; [left; by destruct q|by right]).
  assert (length ((p ++ [i]) ++ d) ≤ su_maxLevel su + 1)%nat as Hmax2
    by (rewrite !length_app; simpl; lia).
  eapply wp_mono; [exact (IH Hd (p ++ [i]) _ _ s1 fuel Hne2 ltac:(lia) Hmax2 HC1)|done|].
  intros [] s3 HC3. rewrite (makers_cons _ _ _ Hi), !fmap_cons. simpl.
  by rewrite <-(app_assoc q), <-(app_assoc log) in HC3.
Qed.

(** [m_nextInfos] becomes the chain of the target. *)
Lemma set_nextInfos_same (c : Fsm K Ev) nx :
  fs_nextInfos c = nx → c <| fs_nextInfos := nx |> = c.
Proof. intros <-. by destruct c. Qed.

Lemma populateLoop_path E Q fuel i info x suf (s : logged K Ev) :
  fs_setup s.1 = su → su_states su !! i = Some info →
  (si_level info ≤ fuel)%nat → length x = si_level info →
  fs_nextInfos s.1 = x ++ Some i :: suf →
  Q () ((s.1) <| fs_nextInfos :=
          (Some <$> path_at su (si_level info) i) ++ suf |>, s.2) →
  wp (populateLoop fuel info (si_level info)) E Q s.
Proof using Hwf.
  revert i info x suf s. induction fuel as [|fuel IH];
    intros i info x suf [c log] Hsu Hi Hfuel Hx Hnx HQ; simpl in Hsu, Hnx;
    destruct (wf_setup_lookup _ _ _ Hwf Hi) as [_ Hinfo];
    destruct (si_level info) as [|l] eqn:Hlev; try lia;
    try (apply nil_length_inv in Hx as ->;
         rewrite set_nextInfos_same in HQ by done; exact HQ).
  destruct Hinfo as (p & parent & Hp & Hlp & Hl).
  assert (x ≠ []) as Hne by (by intros ->).
  destruct (exists_last Hne) as (x' & y & ->).
  rewrite length_app in Hx. simpl in Hx.
  cbn [populateLoop]. wp_step. apply wp_fsm_gets. simpl. rewrite Hsu, Hp.
  wp_step. apply wp_deref. rewrite Hlp. wp_step. apply wp_deref.
  wp_step. apply wp_fsm_gets. simpl. rewrite Hnx.
  rewrite decide_True by (rewrite !length_app; simpl; lia).
  wp_step. apply wp_fsm_modify. cbn [fst snd].
  apply (IH p parent x' (Some i :: suf)); [done|done|lia|lia| |].
  - cbn [fst]. simpl_rec. rewrite Hnx, <-app_assoc.
    replace (si_level parent) with (length x' + 0)%nat by lia.
    by rewrite insert_app_r.
  - cbn [fst snd]. rewrite <-Hlev in HQ.
    rewrite (path_at_child su i info p parent), fmap_app, <-app_assoc in HQ
      by (done || lia). by destruct c.
Qed.

Lemma wp_populate fuel fl l q log u nx i info s :
  su_states su !! i = Some info → (si_level info ≤ fuel)%nat →
  Conf fl l q log u nx s →
  wp (populateNextInfos fuel i) never
    (λ _, Conf fl l q log u (Some <$> path su i)) s.
Proof using Hwf.
  intros Hi Hfuel HC. unfold populateNextInfos. wp_step. apply wp_fsm_gets.
  rewrite (cf_setup _ _ _ _ _ _ _ HC). wp_step. rewrite Hi. apply wp_deref.
  wp_step. apply wp_fsm_modify.
  eapply (populateLoop_path _ _ fuel i info
    (take (si_level info) (resize (si_level info + 1) None (fs_nextInfos s.1))) []).
  - cbn [fst]. simpl_rec. apply (cf_setup _ _ _ _ _ _ _ HC).
  - done.
  - done.
  - rewrite length_take, length_resize. lia.
  - cbn [fst]. simpl_rec. rewrite insert_take_drop by (rewrite length_resize; lia).
    by rewrite drop_ge by (rewrite length_resize; lia).
  - cbn [fst snd]. rewrite app_nil_r. unfold path. rewrite Hi.
    destruct HC. constructor; cbn [fst snd]; by simpl_rec.
Qed.

Lemma wp_findFirst q log u i j info s :
  su_states su !! i = Some info → is_Some (su_states su !! j) →
  Conf (path su i) (path su i) q log u (Some <$> path su j) s →
  wp findFirstThatDiffer never (λ lv s', lv = divergence su i j ∧ s' = s) s.
Proof using Hwf.
  intros Hi [infoj Hj] HC. unfold findFirstThatDiffer. wp_step. apply wp_fsm_gets.
  cbn [id]. rewrite (cf_current _ _ _ _ _ _ _ HC), (cf_next _ _ _ _ _ _ _ HC).
  assert (last (path su i) = Some i) as -> by (unfold path; rewrite Hi; apply last_path_at).
  assert (last (Some <$> path su j) = Some (Some j)) as ->
    by (rewrite fmap_last; unfold path; by rewrite Hj, last_path_at).
  wp_step. apply wp_deref. wp_step. apply wp_deref. unfold divergence.
  destruct (decide (i = j)) as [<-|Hne].
  - rewrite decide_True by done. rewrite (cf_setup _ _ _ _ _ _ _ HC), Hi.
    wp_step. apply wp_deref. apply wp_ret. split; [|done].
    unfold path. rewrite Hi, (length_path_at su i info) by done. lia.
  - rewrite decide_False by congruence. by apply wp_ret.
Qed.

Lemma commonPrefix_spec l1 l2 :
  let n := commonPrefix l1 (Some <$> l2) in
  take n l1 = take n l2 ∧ (n ≤ length l1)%nat ∧ (n ≤ length l2)%nat.
Proof.
  revert l2. induction l1 as [|x l1 IH]; intros [|y l2]; simpl; try (split_and!; [done|lia..]).
  destruct (decide (x = y)) as [->|]; simpl; [|split_and!; [done|lia..]].
  specialize (IH l2). simpl in IH. destruct IH as (Ht & ? & ?).
  split_and!; [by f_equal|by apply le_n_S..].
Qed.

Lemma divergence_spec i j :
  let n := divergence su i j in
  take n (path su i) = take n (path su j)
  ∧ (n ≤ length (path su i))%nat ∧ (n ≤ length (path su j))%nat.
Proof.
  unfold divergence. case_decide as Hij; [subst j|apply commonPrefix_spec].
  split_and!; [done|lia..].
Qed.

Lemma length_path i info :
  su_states su !! i = Some info → length (path su i) = Datatypes.S (si_level info).
Proof using Hwf. intros Hi. unfold path. rewrite Hi. by apply length_path_at. Qed.

Lemma path_valid i info : su_states su !! i = Some info → valid (path su i).
Proof using Hwf. intros Hi. unfold path. rewrite Hi. by apply path_at_valid. Qed.

Lemma path_bound i info :
  su_states su !! i = Some info → (length (path su i) ≤ su_maxLevel su + 1)%nat.
Proof using Hwf.
  intros Hi. rewrite (length_path i info Hi).
  destruct (wf_setup_lookup _ _ _ Hwf Hi). lia.
Qed.

Lemma path_nonempty i info : su_states su !! i = Some info → path su i ≠ [].
Proof using Hwf.
  intros Hi Hnil. pose proof (length_path i info Hi) as Hl. by rewrite Hnil in Hl.
Qed.

Lemma wp_doTransition proc fuel q log u nx i j infoi infoj s :
  q ≠ [] → su_states su !! i = Some infoi → su_states su !! j = Some infoj →
  (su_maxLevel su + 1 ≤ fuel)%nat →
  Conf (path su i) (path su i) q log u nx s →
  wp (doTransition (postEvent_with proc) fuel j) never
    (λ _ s', Conf (path su j) (path su j)
       (q ++ concat (bh_exit_posts bh <$> leaving su i j)
          ++ concat (bh_entry_posts bh <$> entering su i j))
       (log ++ (Leave <$> leaving su i j) ++ (Enter <$> entering su i j))
       u (Some <$> path su j) s') s.
Proof using Hwf.
  intros Hne Hi Hj Hfuel HC. unfold doTransition. wp_step.
  destruct (wf_setup_lookup _ _ _ Hwf Hj) as [Hlevj _].
  eapply wp_mono; [eapply wp_populate; [exact Hj|lia|exact HC]|done|].
  clear s HC. intros [] s HC. wp_step. apply wp_fsm_gets.
  rewrite (cf_next _ _ _ _ _ _ _ HC). wp_step. apply wp_assert.
  { apply bool_decide_eq_true_2. intros Hnil%fmap_nil_inv.
    by eapply path_nonempty in Hj. }
  wp_step. apply wp_fsm_gets. rewrite (cf_current _ _ _ _ _ _ _ HC).
  rewrite decide_True by (by eapply path_nonempty). wp_step.
  eapply wp_mono; [eapply wp_findFirst; [exact Hi|by rewrite Hj|exact HC]|done|]. intros lv s' [-> ->].
  destruct (divergence_spec i j) as (Htake & Hli & Hlj).
  pose proof (path_bound _ _ Hi) as Hbi. pose proof (path_bound _ _ Hj) as Hbj.
  unfold leaving, entering.
  pose proof (path_valid _ _ Hi) as Hvi. pose proof (path_valid _ _ Hj) as Hvj.
  set (n := divergence su i j) in *. set (p := take n (path su i)).
  assert (n = length p) as Hn by (unfold p; rewrite length_take; lia).
  rewrite <-(take_drop n (path su i)) in HC, Hvi, Hbi.
  rewrite <-(take_drop n (path su j)), <-Htake in HC, Hvj, Hbj. fold p in HC, Hvi, Hvj, Hbi, Hbj.
  apply Forall_app in Hvi as [_ Hvi]. apply Forall_app in Hvj as [_ Hvj].
  rewrite Hn at 1. wp_step.
  eapply wp_mono; [eapply (wp_doExit proc p (drop n (path su i)) fuel); try done|done|].
  { rewrite length_app in Hbi. lia. }
  clear s HC. intros [] s HC. cbn zeta in HC.
  assert (path su j = p ++ drop n (path su j)) as Hpj
    by (unfold p; by rewrite Htake, take_drop).
  set (dj := drop n (path su j)) in *. rewrite Hpj.
  rewrite !(app_assoc q), !(app_assoc log).
  rewrite length_app in Hbj. eapply (wp_doEntry proc _ _ fuel) in HC; [exact HC|..].
  - left. by destruct q.
  - done.
  - lia.
  - rewrite length_app. lia.
Qed.

Lemma wp_prepareTransition proc fuel q log u nx i infoi s :
  q ≠ [] → su_states su !! i = Some infoi → (su_maxLevel su + 1 ≤ fuel)%nat →
  Conf (path su i) (path su i) q log u nx s →
  from_option (λ id, is_Some (findState su id)) True u →
  wp (prepareTransition (postEvent_with proc) fuel) never
    (λ _ s', ∃ nx',
       match u ≫= findState su with
       | None => Conf (path su i) (path su i) q log None nx' s'
       | Some j => Conf (path su j) (path su j)
           (q ++ concat (bh_exit_posts bh <$> leaving su i j)
              ++ concat (bh_entry_posts bh <$> entering su i j))
           (log ++ (Leave <$> leaving su i j) ++ (Enter <$> entering su i j))
           None nx' s'
       end) s.
Proof using Hwf.
  intros Hne Hi Hfuel HC Hu. unfold prepareTransition.
  destruct fuel as [|fuel]; [lia|]. cbn [while_].
  wp_step. apply wp_fsm_gets. rewrite (cf_update _ _ _ _ _ _ _ HC).
  destruct u as [id|]; simpl in *.
  2:{ apply wp_skip. by exists nx. }
  destruct Hu as [j Hj]. rewrite Hj.
  destruct (findState_lookup _ _ _ Hj) as (infoj & Hlj & _).
  wp_step. wp_step. apply wp_fsm_gets. cbn [Datatypes.id].
  rewrite (cf_setup _ _ _ _ _ _ _ HC).
  rewrite (cf_target _ _ _ _ _ _ _ HC : fs_nextState s.1 = id), Hj.
  wp_step. apply wp_fsm_modify.
  eapply wp_mono; [eapply (wp_doTransition _ (S fuel) q log None nx i j);
    [done|exact Hi|exact Hlj|lia|]|done|].
  { destruct HC. constructor; cbn [fst snd]; by simpl_rec. }
  intros [] s' HC'.
  destruct fuel; cbn [while_]; wp_step; apply wp_fsm_gets;
    rewrite (cf_update _ _ _ _ _ _ _ HC'); simpl; apply wp_skip; by eexists.
Qed.

(** Between two events: the machine [m] is in a registered state. *)
Definition ready (m : Machine) (s : logged K Ev) : Prop :=
  is_Some (su_states su !! mc_leaf m) ∧
  ∃ nx, Conf (path su (mc_leaf m)) (path su (mc_leaf m)) (mc_queue m)
          (mc_trace m) None nx s.

Lemma wp_pop fl l ev q log u nx s :
  Conf fl l (ev :: q) log u nx s →
  wp (on_queue vec_queue.pop) never (λ _, Conf fl l q log u nx) s.
Proof.
  intros []. destruct s as [c lg]. simpl in *.
  destruct (pop_spec _ _ _ cf_queue0) as (q' & Hq & Hinv & Hc).
  unfold wp, on_queue, on_part. change (view (c, lg) : Fsm K Ev) with c.
  rewrite Hq. simpl.
  constructor; simpl; by simpl_rec.
Qed.

Lemma wp_processEvent proc fuel m m' s ev rest :
  (su_maxLevel su + 1 ≤ fuel)%nat → mc_queue m = ev :: rest →
  machine_step bh su m = Some m' → ready m s →
  wp (processEvent (postEvent_with proc) fuel ev ;; on_queue vec_queue.pop) never
    (λ _, ready m') s.
Proof using Hwf.
  intros Hfuel Hq Hstep [[info Hi] (nx & HC)]. rewrite Hq in HC.
  unfold machine_step in Hstep. rewrite Hq in Hstep.
  set (i := mc_leaf m) in *. wp_step. unfold processEvent.
  wp_step. apply wp_fsm_gets. rewrite (cf_current _ _ _ _ _ _ _ HC).
  rewrite decide_False by (by eapply path_nonempty).
  pose proof (wp_offer proc (path su i) ev (length (path su i)) (ev :: rest)
    (mc_trace m) None nx s ltac:(done) (path_valid _ _ Hi) ltac:(lia)
    (path_bound _ _ Hi) HC) as Hoffer.
  rewrite take_ge in Hoffer by lia.
  destruct (dispatch bh (reverse (makers su (path su i))) ev)
    as [[obs posts] target] eqn:Hd.
  wp_step. eapply wp_mono; [exact Hoffer|done|]. clear s HC Hoffer. intros [] s HC.
  assert (newer target None = target) as Hnew by (by destruct target).
  rewrite Hnew in HC.
  eapply (wp_prepareTransition proc fuel) in HC; [|done|exact Hi|done|].
  2:{ destruct target as [id|]; [|done]. simpl in *.
      by destruct (findState su id). }
  eapply wp_mono; [exact HC|done|]. clear s HC. intros [] s [nx' HC].
  destruct target as [id|]; simpl in *.
  - destruct (findState su id) as [j|] eqn:Hj; [|done]. simpl in *.
    injection Hstep as <-. destruct (findState_lookup _ _ _ Hj) as (infoj & Hlj & _).
    rewrite <-!app_assoc in HC.
    eapply wp_mono; [by apply wp_pop in HC|done|]. intros [] s' HC'.
    split; [by exists infoj|]. by exists nx'.
  - injection Hstep as <-.
    eapply wp_mono; [by apply wp_pop in HC|done|]. intros [] s' HC'.
    split; [by exists info|]. by exists nx'.
Qed.

Lemma processQueue_refines n extra m m' s :
  (su_maxLevel su + 1 ≤ extra)%nat →
  machine_run bh su n m = Some m' → ready m s →
  wp (processQueue (n + extra)) never (λ _, ready m') s.
Proof using Hwf.
  intros Hextra. revert m s. induction n as [|n IH]; intros m s Hrun Hready.
  - destruct (Hready) as [_ (nx & HC)].
    destruct (mc_queue m) eqn:Hq; simpl in Hrun; rewrite Hq in Hrun; [|done].
    injection Hrun as <-. simpl.
    assert (vec_queue.empty (fs_eventQueue s.1) = true) as Hemp.
    { rewrite empty_contents by (by destruct HC).
      by rewrite (cf_queue _ _ _ _ _ _ _ HC). }
    destruct extra; simpl; wp_step; apply wp_fsm_gets; rewrite Hemp; by apply wp_skip.
  - destruct (Hready) as [_ (nx & HC)].
    assert (vec_queue.empty (fs_eventQueue s.1) = bool_decide (mc_queue m = [])) as Hemp.
    { rewrite empty_contents by (by destruct HC).
      by rewrite (cf_queue _ _ _ _ _ _ _ HC). }
    simpl in Hrun. simpl. wp_step. apply wp_fsm_gets. rewrite Hemp.
    destruct (mc_queue m) as [|ev rest] eqn:Hq.
    { injection Hrun as <-. by apply wp_skip. }
    simpl. destruct (machine_step bh su m) as [m1|] eqn:Hstep; [|done].
    simpl in Hrun. wp_step.
    assert (on_queue vec_queue.front s = Ok (ev, s)) as Hfront.
    { unfold on_queue, on_part. change (view s : Fsm K Ev) with s.1.
      rewrite (front_spec ev rest) by apply (cf_queue _ _ _ _ _ _ _ HC).
      f_equal. f_equal. destruct s as [c log]. by destruct c. }
    unfold wp at 1. rewrite Hfront.
    apply wp_bind_assoc. wp_step.
    eapply wp_mono; [eapply wp_processEvent; [|done..]; lia|done|].
    intros [] s1 H1. by apply (IH m1).
Qed.

(** The machine as its constructor leaves it, before [setStartState]. *)
Definition unstarted : Fsm K Ev :=
  mkFsm su [] [] [] false 0 vec_queue.newVecQueue.

Lemma lookup_frames_unstarted lv frame :
  resize (su_maxLevel su + 1) (mkLevelData None 0) [] !! lv = Some frame →
  ld_activeState frame = (None : option K).
Proof. rewrite resize_nil. intros [-> _]%lookup_replicate_1. done. Qed.

Lemma wp_setStartState fuel id j infoj :
  findState su id = Some j → su_states su !! j = Some infoj →
  concat (bh_entry_posts bh <$> makers su (path su j)) = [] →
  (su_maxLevel su + 1 ≤ fuel)%nat →
  wp (setStartState fuel id) never
    (λ _, ready (mkMachine j [] (Enter <$> makers su (path su j)))) (unstarted, []).
Proof using Hwf.
  intros Hj Hlj Hposts Hfuel. unfold setStartState. wp_step. apply wp_fsm_modify.
  set (s0 := (_, _)). assert (Conf [] [] [] [] (Some id) [] s0) as HC.
  { constructor; unfold s0, unstarted; cbn [fst snd]; simpl_rec; try done; [|by right].
    split; [by rewrite length_resize|]. intros lv frame Hl.
    by rewrite (lookup_frames_unstarted _ _ Hl). }
  clearbody s0. unfold prepareTransition.
  destruct fuel as [|fuel]; [lia|]. cbn [while_].
  wp_step. apply wp_fsm_gets. rewrite (cf_update _ _ _ _ _ _ _ HC). simpl.
  wp_step. wp_step. apply wp_fsm_gets. cbn [Datatypes.id].
  rewrite (cf_setup _ _ _ _ _ _ _ HC).
  rewrite (cf_target _ _ _ _ _ _ _ HC : fs_nextState s0.1 = id), Hj.
  wp_step. apply wp_fsm_modify.
  assert (Conf [] [] [] [] None []
    ((s0.1) <| fs_stateUpdate := false |>, s0.2)) as HC1
    by (destruct HC; constructor; cbn [fst snd]; by simpl_rec).
  revert HC1. generalize ((s0.1) <| fs_stateUpdate := false |>, s0.2).
  clear s0 HC. intros s HC. unfold doTransition. wp_step.
  destruct (wf_setup_lookup _ _ _ Hwf Hlj) as [Hlevj _].
  eapply wp_mono; [eapply wp_populate; [exact Hlj|lia|exact HC]|done|].
  clear s HC. intros [] s HC. wp_step. apply wp_fsm_gets.
  rewrite (cf_next _ _ _ _ _ _ _ HC). wp_step. apply wp_assert.
  { apply bool_decide_eq_true_2. intros Hnil%fmap_nil_inv.
    by eapply path_nonempty in Hlj. }
  wp_step. apply wp_fsm_gets. rewrite (cf_current _ _ _ _ _ _ _ HC).
  rewrite decide_False by tauto. wp_step. apply wp_ret.
  wp_step. unfold doExit. cbn [while_]. wp_step. wp_step. apply wp_fsm_gets.
  rewrite (cf_current _ _ _ _ _ _ _ HC). apply wp_ret. cbn. apply wp_skip.
  pose proof (path_valid _ _ Hlj) as Hvj. pose proof (path_bound _ _ Hlj) as Hbj.
  eapply wp_mono; [eapply (wp_doEntry _ [] (path su j) (S fuel) [] [] None);
    [by right|done|lia|done|exact HC]|done|].
  clear s HC. intros [] s HC. cbn [app] in HC. rewrite Hposts in HC.
  destruct fuel; cbn [while_]; wp_step; apply wp_fsm_gets;
    rewrite (cf_update _ _ _ _ _ _ _ HC); apply wp_skip;
    (split; [by exists infoj|by eexists]).
Qed.

Lemma wp_postEvent n extra m m' ev s :
  (su_maxLevel su + 1 ≤ extra)%nat → mc_queue m = [] →
  machine_run bh su n (mkMachine (mc_leaf m) [ev] (mc_trace m)) = Some m' →
  ready m s →
  wp (postEvent (n + extra) ev) never (λ _, ready m') s.
Proof using Hwf.
  intros Hextra Hq Hrun [Hleaf (nx & HC)]. rewrite Hq in HC.
  unfold postEvent, postEvent_with. wp_step. apply wp_fsm_gets.
  assert (vec_queue.empty (fs_eventQueue s.1) = true) as ->.
  { rewrite empty_contents by (by destruct HC).
    by rewrite (cf_queue _ _ _ _ _ _ _ HC). }
  wp_step. eapply wp_mono; [by eapply wp_push|done|]. intros [] s' HC'.
  eapply processQueue_refines; [done|done|]. split; [done|]. by exists nx.
Qed.

End refinement.

(** *** The lifetime of the state objects *)

Section lifetime.
Context {K Ev : Type} `{!EqDecision K} (bh : Behaviour K Ev) (su : FsmSetupBase K).

(** The objects alive after a trace, outermost first, if each construction and
    destruction was of the innermost one and each event went to a live one. *)
Fixpoint replay (tr : list (Obs K Ev)) (alive : list K) : option (list K) :=
  match tr with
  | [] => Some alive
  | Enter k :: tr' => replay tr' (alive ++ [k])
  | Leave k :: tr' =>
      if decide (last alive = Some k) then replay tr' (removelast alive) else None
  | Offer k _ :: tr' => if decide (k ∈ alive) then replay tr' alive else None
  end.

Lemma replay_app t1 t2 l : replay (t1 ++ t2) l = replay t1 l ≫= replay t2.
Proof.
  revert l. induction t1 as [|[k|k|k ev] t1 IH]; intros l; simpl; [done|apply IH|..];
    case_decide; by try apply IH.
Qed.

Lemma replay_enter ks l : replay (Enter <$> ks) l = Some (l ++ ks).
Proof.
  revert l. induction ks as [|k ks IH]; intros l; simpl; [by rewrite app_nil_r|].
  by rewrite IH, <-app_assoc.
Qed.

Lemma replay_leave ks l : replay (Leave <$> reverse ks) (l ++ ks) = Some l.
Proof.
  revert l. induction ks as [|k ks IH] using rev_ind; intros l; simpl.
  - by rewrite app_nil_r.
  - rewrite reverse_snoc, app_assoc. simpl.
    rewrite last_snoc, decide_True by done. rewrite removelast_last. apply IH.
Qed.

Lemma replay_dispatch ks ev l :
  ks ⊆ l → replay (dispatch bh ks ev).1.1 l = Some l.
Proof.
  induction ks as [|k ks IH]; intros Hin; simpl; [done|].
  assert (k ∈ l) by (apply Hin; set_solver).
  destruct (bh_handles bh k ev); simpl; [by rewrite decide_True|].
  destruct (dispatch bh ks ev) as [[obs posts] target] eqn:Hd. simpl in *.
  rewrite decide_True by done. apply IH. set_solver.
Qed.

Lemma machine_step_replay m m' :
  replay (mc_trace m) [] = Some (makers su (path su (mc_leaf m))) →
  machine_step bh su m = Some m' →
  replay (mc_trace m') [] = Some (makers su (path su (mc_leaf m'))).
Proof.
  intros Hr Hstep. unfold machine_step in Hstep.
  destruct (mc_queue m) as [|ev rest]; [done|]. set (i := mc_leaf m) in *.
  pose proof (replay_dispatch (reverse (makers su (path su i))) ev
    (makers su (path su i))) as Hd.
  destruct (dispatch bh (reverse (makers su (path su i))) ev) as [[obs posts] target].
  simpl in Hd. specialize (Hd ltac:(intros k; by rewrite elem_of_reverse)).
  destruct target as [id|].
  2:{ injection Hstep as <-. simpl. by rewrite replay_app, Hr. }
  destruct (findState su id) as [j|]; [|done]. injection Hstep as <-. simpl.
  rewrite replay_app, Hr. simpl. rewrite replay_app, Hd. simpl.
  destruct (divergence_spec su i j) as (Htake & _ & _). unfold leaving, entering.
  set (n := divergence su i j) in *.
  assert (makers su (path su i)
    = makers su (take n (path su i)) ++ makers su (drop n (path su i))) as Hi
    by (by rewrite <-makers_app, take_drop).
  rewrite replay_app, Hi, replay_leave. simpl. rewrite replay_enter, Htake.
  by rewrite <-makers_app, take_drop.
Qed.

Lemma machine_run_replay n m m' :
  replay (mc_trace m) [] = Some (makers su (path su (mc_leaf m))) →
  machine_run bh su n m = Some m' →
  replay (mc_trace m') [] = Some (makers su (path su (mc_leaf m'))).
Proof.
  revert m. induction n as [|n IH]; intros m Hr Hrun; simpl in Hrun;
    destruct (mc_queue m) eqn:Hq; try (by injection Hrun as <-); [done|].
  destruct (machine_step bh su m) as [m1|] eqn:Hstep; [|done]. simpl in Hrun.
  eapply IH; [|done]. by eapply machine_step_replay.
Qed.
End lifetime.

(** ** Properties *)


(** [setStartState] with a registered state, whose constructors post nothing,
    enters the chain of states from the root down to it. *)
Theorem setStartState_enters {K Ev} (bh : Behaviour K Ev) su fuel id j :
  wf_setup su → findState su id = Some j →
  concat (bh_entry_posts bh <$> makers su (path su j)) = [] →
  (su_maxLevel su + 1 ≤ fuel)%nat →
  ∃ s', setStartState (StateCode0 := logging_code bh) fuel id (unstarted su, [])
        = Ok ((), s')
    ∧ ready su (mkMachine j [] (Enter <$> makers su (path su j))) s'.
Proof.
  intros Hwf Hj Hposts Hfuel. destruct (findState_lookup _ _ _ Hj) as (infoj & Hlj & _).
  destruct (wp_ok _ _ _ (wp_setStartState bh su Hwf fuel id j infoj Hj Hlj Hposts Hfuel))
    as ([] & s' & ? & ?). by exists s'.
Qed.

(** State objects live in stack order: over any run of events each object is
    constructed before it gets an event, destroyed once, after every object
    constructed above it, and the objects alive at the end are those of the
    current state and its ancestors, which are the ones the code holds. *)
Theorem state_objects_nest {K Ev} `{!EqDecision K} (bh : Behaviour K Ev)
    su n extra m m' ev s s' :
  wf_setup su → (su_maxLevel su + 1 ≤ extra)%nat → mc_queue m = [] →
  machine_run bh su n (mkMachine (mc_leaf m) [ev] (mc_trace m)) = Some m' →
  ready su m s → replay s.2 [] = Some (makers su (path su (mc_leaf m))) →
  postEvent (StateCode0 := logging_code bh) (n + extra) ev s = Ok ((), s') →
  replay s'.2 [] = Some (makers su (fs_currentInfos s'.1)).
Proof.
  intros Hwf Hextra Hq Hrun Hready Hr Hpost. destruct (Hready) as [_ (nx & HC)].
  pose proof (wp_run _ _ _ _ _ _
    (wp_postEvent bh su Hwf n extra m m' ev s Hextra Hq Hrun Hready) Hpost)
    as [_ (nx' & HC')].
  rewrite (cf_log _ _ _ _ _ _ _ _ HC'), (cf_current _ _ _ _ _ _ _ _ HC').
  rewrite (cf_log _ _ _ _ _ _ _ _ HC) in Hr. by eapply machine_run_replay in Hrun.
Qed.

(** A transition to a state that is not registered never completes: the loop
    of [prepareTransition] finds no state and clears nothing, whatever the code
    of the states. *)
Theorem unregistered_state_hangs {S K Ev} `{!Lens S (Fsm K Ev)} `{!StateCode S K Ev}
    (post : Ev → M S ()) fuel (s : S) :
  let c := view s : Fsm K Ev in
  fs_stateUpdate c = true → findState (fs_setup c) (fs_nextState c) = None →
  prepareTransition post fuel s = Fail OutOfFuel.
Proof.
  intros c Hu Hf.
  assert (fsm_gets fs_stateUpdate s = Ok (true, s)) as Hcond
    by (unfold fsm_gets, gets, compose; by rewrite <-Hu).
  unfold prepareTransition. generalize fuel at 2. intros inner.
  induction fuel as [|fuel IH]; cbn [while_]; (eapply bind_step; [exact Hcond|]);
    [done|].
  eapply bind_step; [|exact IH]. eapply bind_step; [done|].
  unfold compose, id. fold c. by rewrite Hf.
Qed.

(** *** A machine with two levels, for the witnesses

    States 0 and 1 are roots, 2 and 3 are children of 0. Event 0 moves from 2 to
    3, which leaves 0 in place, event 1 is left to the parent, which goes to 1,
    and event 2 makes 1 restart itself and post event 0. *)

Section example.
Definition example_setup : FsmSetupBase nat :=
  mkFsmSetupBase
    [mkStateInfo 0 0 0 8 "zero" 0%nat; mkStateInfo 1 1 0 8 "one" 1%nat;
     mkStateInfo 2 0 1 8 "two" 2%nat; mkStateInfo 3 0 1 8 "three" 3%nat] 1.

Definition example_behaviour : Behaviour nat nat :=
  mkBehaviour
    (λ k ev, match k, ev with
             | 2, 0 | 0, 1 | 1, 2 => true
             | _, _ => false
             end)%nat
    (λ k ev, match k, ev with 1, 2 => [0] | _, _ => [] end)%nat
    (λ k ev, match k, ev with
             | 2, 0 => Some 3%Z
             | 0, 1 | 1, 2 => Some 1%Z
             | _, _ => None
             end)%nat
    (λ _, []) (λ k, match k with 0 => [2] | _ => [] end)%nat.

Lemma example_wf : wf_setup example_setup.
Proof.
  repeat apply Forall_cons_2; try apply Forall_nil_2; split; cbn; try lia; try done;
    by eexists _, _.
Defined.

Definition example_start : logged nat nat :=
  match setStartState (StateCode0 := logging_code example_behaviour) 2 2
          (unstarted example_setup, []) with
  | Ok (_, s) => s
  | Fail _ => (unstarted example_setup, [])
  end.

Lemma example_ready :
  ready example_setup (mkMachine 2 [] [Enter 0; Enter 2]%nat) example_start.
Proof.
  split; [by eexists|]. eexists. constructor; try done.
  - split; [done|]. intros [|[|lv]] frame Hl; by inversion Hl.
  - by right.
Defined.
End example.


Lemma setStartState_enters_witness :
  ∃ s', setStartState (StateCode0 := logging_code example_behaviour) 2 3
          (unstarted example_setup, []) = Ok ((), s')
    ∧ ready example_setup (mkMachine 3 [] (Enter <$> [0; 3]%nat)) s'.
Proof.
  apply (setStartState_enters example_behaviour example_setup 2 3 3%nat).
  - exact example_wf.
  - reflexivity.
  - reflexivity.
  - simpl. lia.
Defined.

Lemma state_objects_nest_witness :
  ∃ s', postEvent (StateCode0 := logging_code example_behaviour) (3 + 2) 1%nat
          example_start = Ok ((), s')
    ∧ replay s'.2 [] = Some (makers example_setup (fs_currentInfos s'.1)).
Proof.
  eexists. split; [vm_compute; reflexivity|].
  eapply (state_objects_nest example_behaviour example_setup 3 2
    (mkMachine 2 [] [Enter 0; Enter 2]%nat) _ 1%nat example_start).
  - exact example_wf.
  - simpl. lia.
  - reflexivity.
  - vm_compute. reflexivity.
  - exact example_ready.
  - reflexivity.
  - vm_compute. reflexivity.
Defined.

Lemma unregistered_state_hangs_witness :
  prepareTransition (StateCode0 := logging_code example_behaviour) (λ _, skip) 7
    ((unstarted example_setup) <| fs_stateUpdate := true |> <| fs_nextState := 9 |>, [])
  = Fail OutOfFuel.
Proof.
  apply (unregistered_state_hangs (StateCode0 := logging_code example_behaviour)
    (λ _, skip) 7 ((unstarted example_setup) <| fs_stateUpdate := true |>
      <| fs_nextState := 9 |>, [])); reflexivity.
Defined.
