(* ===== verification/RootChart.v ===== *)
(** * Machines without nested states

    Most state machines of the program have root states only. This file states
    what such a machine promises to its client in terms of a chart with one
    current state, a queue and at most one transition asked for, and proves that
    StateChart.v implements it, for any client code that touches the machine
    through [postEvent] and [transition] alone. *)

From S2P Require Import Prelude VecQueue StateChart.

(** ** Client code

    The code of the states works on any program state [S] that contains the
    client's world [W], and is given [postEvent] and [transition]. The law says
    that it reaches the machine in no other way: it cannot tell related program
    states apart. *)

Class RootCode (W K Ev : Type) := {
  rc_make : ∀ {S} `{!Lens S W}, (Ev → M S ()) → K → M S ();
  rc_destroy : ∀ {S} `{!Lens S W}, (Ev → M S ()) → K → M S ();
  rc_event : ∀ {S} `{!Lens S W},
    (Ev → M S ()) → (Z → M S ()) → K → Ev → M S bool;
  rc_make_sim {S T} `{!Lens S W} `{!Lens T W} (R : S → T → Prop)
    `{SV : !SameView R W} post post' k :
    (∀ ev, sim R (post ev) (post' ev)) → sim R (rc_make post k) (rc_make post' k);
  rc_destroy_sim {S T} `{!Lens S W} `{!Lens T W} (R : S → T → Prop)
    `{SV : !SameView R W} post post' k :
    (∀ ev, sim R (post ev) (post' ev)) →
    sim R (rc_destroy post k) (rc_destroy post' k);
  rc_event_sim {S T} `{!Lens S W} `{!Lens T W} (R : S → T → Prop)
    `{SV : !SameView R W} post post' trans trans' k ev :
    (∀ ev, sim R (post ev) (post' ev)) → (∀ id, sim R (trans id) (trans' id)) →
    sim R (rc_event post trans k ev) (rc_event post' trans' k ev)
}.

(** ** The specification: a chart *)

Record Chart (K Ev : Type) : Type := mkChart {
  ch_state : K;
  ch_queue : list Ev;
  ch_target : option Z
}.
Arguments mkChart {K Ev}.
Arguments ch_state {K Ev} _.
Arguments ch_queue {K Ev} _.
Arguments ch_target {K Ev} _.

Section chart.
Context {W K Ev : Type} `{!RootCode W K Ev} (state_of : Z → option K).

Abbreviation T := (Chart K Ev * W)%type (only parsing).

(** While an event is processed, posting queues and asking for a transition
    notes it. *)
Definition chart_post (ev : Ev) : M T () := modify (λ t,
  (mkChart (ch_state t.1) (ch_queue t.1 ++ [ev]) (ch_target t.1), t.2)).

Definition chart_transition (id : Z) : M T () := modify (λ t,
  (mkChart (ch_state t.1) (ch_queue t.1) (Some id), t.2)).

Definition chart_goto (k : K) : M T () := modify (λ t,
  (mkChart k (ch_queue t.1) None, t.2)).

Definition chart_pop : M T () := modify (λ t,
  (mkChart (ch_state t.1) (tail (ch_queue t.1)) (ch_target t.1), t.2)).

(** The transition asked for: out of the current state, into the new one. *)
Definition chart_move (id : Z) : M T () :=
  match state_of id with
  | None => fail OutOfFuel
  | Some k' =>
      k ← gets (ch_state ∘ fst);
      chart_goto k' ;;
      rc_destroy chart_post k ;;
      rc_make chart_post k'
  end.

Definition chart_event (ev : Ev) : M T () :=
  k ← gets (ch_state ∘ fst);
  rc_event chart_post chart_transition k ev ;;
  target ← gets (ch_target ∘ fst);
  match target with Some id => chart_move id | None => skip end ;;
  chart_pop.

Fixpoint chart_run (fuel : nat) : M T () :=
  q ← gets (ch_queue ∘ fst);
  match q with
  | [] => skip
  | ev :: _ =>
      match fuel with
      | O => fail OutOfFuel
      | S n => chart_event ev ;; chart_run n
      end
  end.

(** Posting an event to a machine that is not processing any. *)
Definition chart_start (fuel : nat) (ev : Ev) : M T () :=
  q ← gets (ch_queue ∘ fst);
  chart_post ev ;;
  match q with [] => chart_run fuel | _ => skip end.
End chart.

(** ** StateChart.v implements charts *)

(** The states of a table without nesting. *)
Definition root_setup {K} (su : FsmSetupBase K) : Prop :=
  su_maxLevel su = 0%nat ∧
  Forall (λ info, si_level info = 0%nat ∧ si_parentId info = si_id info) (su_states su).

Definition root_state {K} (su : FsmSetupBase K) (id : Z) : option K :=
  i ← findState su id; si_maker <$> su_states su !! i.

Section refinement.
Context {W K Ev : Type} `{!RootCode W K Ev} (su : FsmSetupBase K).
Context (Hroot : root_setup su).

Abbreviation S := (Fsm K Ev * W)%type (only parsing).
Abbreviation T := (Chart K Ev * W)%type (only parsing).

(** The client code, run by StateChart.v. *)
#[local] Instance root_code : StateCode S K Ev := {
  makeState post k := rc_make post k;
  destroyState post k := rc_destroy post k;
  emitEvent post k ev := rc_event post transition k ev
}.

(** Agreement on the world and the queue while an event is processed, with the
    machine's frames, current states and next states as given. *)
Record during fr cur nx (k : K) (s : S) (t : T) : Prop := {
  du_world : s.2 = t.2;
  du_inv : queue_inv (fs_eventQueue s.1);
  du_queue : contents (fs_eventQueue s.1) = ch_queue t.1;
  du_busy : ch_queue t.1 ≠ [];
  du_setup : fs_setup s.1 = su;
  du_frames : fs_stackFrames s.1 = fr;
  du_current : fs_currentInfos s.1 = cur;
  du_next : fs_nextInfos s.1 = nx;
  du_state : ch_state t.1 = k;
  du_update : fs_stateUpdate s.1 = bool_decide (is_Some (ch_target t.1));
  du_target : from_option (λ id, fs_nextState s.1 = id) True (ch_target t.1)
}.

#[local] Instance during_same_view fr cur nx k : SameView (during fr cur nx k) W.
Proof.
  split.
  - by intros s t [].
  - intros [c w] [ch w'] v []. by constructor.
Qed.

Lemma sim_post proc fr cur nx k ev :
  sim (during fr cur nx k) (postEvent_with proc ev) (chart_post ev).
Proof.
  intros [c w] [ch w'] []. simpl in *.
  destruct (push_spec 20 ev (fs_eventQueue c) du_inv0) as (q' & Hq & Hinv & Hc).
  exists (c <| fs_eventQueue := q' |>, w). split.
  - unfold postEvent_with. eapply bind_step; [done|].
    eapply bind_step.
    { unfold on_queue, on_part. cbn [view Lens_fst fst]. by rewrite Hq. }
    unfold compose. cbn [view Lens_fst fst].
    rewrite empty_contents, du_queue0 by done.
    by rewrite bool_decide_eq_false_2.
  - constructor; cbn [fst snd ch_state ch_queue ch_target]; simpl_rec; try done.
    + by rewrite Hc, du_queue0.
    + by destruct (ch_queue ch).
Qed.

Lemma sim_transition fr cur nx k id :
  sim (during fr cur nx k) (transition id) (chart_transition id).
Proof.
  intros [c w] [ch w'] []. eexists. split; [done|].
  constructor; cbn [fst snd ch_state ch_queue ch_target]; by simpl_rec.
Qed.

(** While no transition is asked for: what destructors and constructors see. *)
Definition settled fr cur nx k (s : S) (t : T) : Prop :=
  during fr cur nx k s t ∧ ch_target t.1 = None.

#[local] Instance settled_same_view fr cur nx k : SameView (settled fr cur nx k) W.
Proof.
  split.
  - by intros s t [[] _].
  - intros s t v [HR Hu]. split; [by apply (same_set (during fr cur nx k))|done].
Qed.

Lemma sim_post_settled proc fr cur nx k ev :
  sim (settled fr cur nx k) (postEvent_with proc ev) (chart_post ev).
Proof.
  intros s t [HR Hu].
  destruct (sim_post proc fr cur nx k ev s t HR) as (s' & Hs & HR').
  by exists s'.
Qed.

(** Steps of the machine's own bookkeeping. *)
Lemma psim_gets {A B} R R' (f : Fsm K Ev → A) a (g : A → M S B) (m' : M T B) :
  (∀ s t, R s t → f s.1 = a) → psim R R' (g a) m' →
  psim R R' (fsm_gets f ≫= g) m'.
Proof.
  intros Hf. apply psim_left. intros s t HR. exists s. split; [|done].
  rewrite <-(Hf s t HR). done.
Qed.

Lemma psim_gets_l {A B} R R' (f : Fsm K Ev → A) (g : A → M S B) (m' : M T B) :
  (∀ a, psim (λ s t, R s t ∧ f s.1 = a) R' (g a) m') →
  psim R R' (fsm_gets f ≫= g) m'.
Proof. intros H s t HR. by apply (H (f s.1) s t). Qed.

Lemma psim_modify {B} R R1 R' f (g : () → M S B) (m' : M T B) :
  (∀ s t, R s t → R1 (f s.1, s.2) t) → psim R1 R' (g ()) m' →
  psim R R' (fsm_modify f ≫= g) m'.
Proof. intros Hf. apply psim_left. intros s t HR. exists (f s.1, s.2). split; [done|by apply Hf]. Qed.

Lemma psim_modify_end (R R' : S → T → Prop) (f : Fsm K Ev → Fsm K Ev) (m' : M T ()) :
  (∀ s t, R s t → ∃ t', m' t = Ok ((), t') ∧ R' (f s.1, s.2) t') →
  psim R R' (fsm_modify f) m'.
Proof.
  intros Hf s t HR. destruct (Hf s t HR) as (t' & -> & ?). by exists (f s.1, s.2).
Qed.

Lemma root_info i info :
  su_states su !! i = Some info → si_level info = 0%nat ∧ si_parentId info = si_id info.
Proof using Hroot.
  intros Hi. destruct Hroot as [_ Hall]. by eapply Forall_lookup_1 in Hall.
Qed.

Ltac bookkeep :=
  lazymatch goal with
  | |- psim _ _ ((_ ≫= _) ≫= _) _ => apply psim_assoc
  | |- psim _ _ (fsm_gets _ ≫= _) _ =>
      eapply psim_gets;
        [first [intros ? ? []; eassumption | intros ? ? [[] ?]; eassumption]|];
      cbv beta zeta
  | |- psim _ _ (mret ?a ≫= _) _ =>
      eapply psim_left;
        [intros s0 t0 HR; exists s0; split; [reflexivity|exact HR]|]; cbv beta zeta
  | |- psim _ _ (skip ≫= _) _ =>
      eapply psim_left;
        [intros s0 t0 HR; exists s0; split; [reflexivity|exact HR]|]; cbv beta zeta
  | |- psim _ _ (deref _ (Some _) ≫= _) _ =>
      eapply psim_left;
        [intros s0 t0 HR; exists s0; split; [reflexivity|exact HR]|]; cbv beta zeta
  end.

(** Entering a root state from no state. *)
Lemma sim_doEntry proc n j info k sz :
  su_states su !! j = Some info → si_maker info = k →
  psim (settled [mkLevelData None sz] [] [Some j] k)
    (λ s t, ∃ sz', settled [mkLevelData (Some k) sz'] [j] [Some j] k s t)
    (doEntry (postEvent_with proc) (Datatypes.S n)) (rc_make chart_post k).
Proof.
  intros Hj Hk. unfold doEntry. bookkeep. cbn [length while_]. repeat bookkeep.
  rewrite bool_decide_eq_true_2 by done. repeat bookkeep.
  cbn [length lookup list_lookup]. repeat bookkeep. rewrite Hj. repeat bookkeep.
  cbn [length lookup list_lookup]. repeat bookkeep. cbn [ld_activeState ld_stateStorage].
  set (sz' := if decide _ then _ else _).
  eapply (psim_modify _ (settled [mkLevelData None sz'] [] [Some j] k)).
  { intros s t [[] ?]. split; [|done]. constructor; cbn [fst snd]; simpl_rec; try done.
    by rewrite du_frames0. }
  repeat bookkeep.
  eapply (psim_modify _ (settled [mkLevelData None sz'] [j] [Some j] k)).
  { intros s t [[] ?]. split; [|done]. constructor; cbn [fst snd]; simpl_rec; try done.
    by rewrite du_current0. }
  rewrite Hk. bookkeep. eapply psim_tail.
  { apply psim_bind_skip. apply rc_make_sim; [apply _|]. intros ev. apply sim_post_settled. }
  intros []. unfold resetActive.
  repeat bookkeep. cbn [lookup list_lookup]. repeat bookkeep.
  eapply (psim_modify _ (settled [mkLevelData (Some k) sz'] [j] [Some j] k)).
  { intros s t [[] ?]. split; [|done]. constructor; cbn [fst snd]; simpl_rec; try done.
    by rewrite du_frames0. }
  cbn [ld_activeState]. bookkeep.
  destruct n; cbn [while_]; repeat bookkeep; cbn;
    intros s t HR; exists s; (split; [done|by exists sz']).
Qed.

(** Leaving a root state. *)
Lemma sim_doExit {B} R' proc n i k k' sz nx (f : () → M S B) (m' : M T B) :
  psim (settled [mkLevelData None sz] [] nx k') R' (f ()) m' →
  psim (settled [mkLevelData (Some k) sz] [i] nx k') R'
    (doExit (postEvent_with proc) (Datatypes.S n) 0 ≫= f)
    (rc_destroy chart_post k ;; m').
Proof.
  intros Hf. unfold doExit. cbn [while_]. repeat bookkeep.
  rewrite bool_decide_eq_true_2 by (simpl; lia). repeat bookkeep.
  unfold resetActive. repeat bookkeep. cbn [length Nat.sub lookup list_lookup].
  repeat bookkeep. cbn [ld_stateStorage ld_activeState].
  eapply (psim_modify _ (settled [mkLevelData None sz] [i] nx k')).
  { intros s t [[] ?]. split; [|done]. constructor; cbn [fst snd]; simpl_rec; try done.
    by rewrite du_frames0. }
  eapply psim_bind.
  { apply rc_destroy_sim; [apply _|]. intros ev. apply sim_post_settled. }
  intros []. repeat bookkeep. rewrite decide_False by done.
  eapply (psim_modify _ (settled [mkLevelData None sz] [] nx k')).
  { intros s t [[] ?]. split; [|done]. constructor; cbn [fst snd]; simpl_rec; try done.
    by rewrite du_current0. }
  destruct n; cbn [while_]; repeat bookkeep; cbn [length];
    rewrite bool_decide_eq_false_2 by lia; by repeat bookkeep.
Qed.

(** In the state [k], an event being processed. *)
Definition busy (k : K) (s : S) (t : T) : Prop :=
  ∃ i info sz nx, su_states su !! i = Some info ∧ si_maker info = k ∧
    during [mkLevelData (Some k) sz] [i] nx k s t.

Lemma psim_busy {A} k R' (m : M S A) (m' : M T A) :
  (∀ i info sz nx, su_states su !! i = Some info → si_maker info = k →
     psim (during [mkLevelData (Some k) sz] [i] nx k) R' m m') →
  psim (busy k) R' m m'.
Proof.
  intros H s t (i & info & sz & nx & Hi & Hk & HR). by eapply H.
Qed.

Lemma sim_chart_move proc n i info k sz nx id :
  su_states su !! i = Some info → si_maker info = k →
  psim (λ s t, during [mkLevelData (Some k) sz] [i] nx k s t ∧ ch_target t.1 = Some id)
    (λ s t, busy (ch_state t.1) s t ∧ ch_target t.1 = None)
    (prepareTransition (postEvent_with proc) (Datatypes.S (Datatypes.S n)))
    (chart_move (root_state su) id).
Proof using Hroot.
  intros Hi Hk. destruct (root_info i info Hi) as [Hli _].
  unfold chart_move, root_state.
  destruct (findState su id) as [j|] eqn:Hj; [|by intros s t _].
  destruct (findState_lookup _ _ _ Hj) as (info' & Hlj & _).
  destruct (root_info j info' Hlj) as [Hlevj _].
  simpl. rewrite Hlj. simpl. set (k' := si_maker info').
  unfold prepareTransition. set (body := _ ≫= _). cbn [while_].
  eapply (psim_gets _ _ _ true).
  { intros s t [[] Ht]. rewrite du_update0, Ht. done. }
  cbv beta iota. unfold body. bookkeep. apply psim_gets_l. intros c0.
  apply (psim_pure (fs_setup c0 = su ∧ fs_nextState c0 = id)).
  { intros s t [[[] Ht] <-]. split; [done|]. by rewrite Ht in du_target0. }
  intros [-> ->]. rewrite Hj. repeat bookkeep.
  apply psim_gets_r. intros k0.
  apply (psim_pure (k0 = k)); [by intros s t [[[[] _] _] <-]|]. intros ->.
  apply (psim_bind _ (settled [mkLevelData (Some k) sz] [i] nx k')).
  { apply psim_modify_end. intros s t [[[[] Ht] _] _]. eexists. split; [done|].
    split; [|done]. constructor; cbn [fst snd ch_state ch_queue ch_target];
      simpl_rec; done. }
  intros _. unfold doTransition, populateNextInfos. repeat bookkeep.
  rewrite Hlj. repeat bookkeep. rewrite Hlevj.
  eapply (psim_modify _ (settled [mkLevelData (Some k) sz] [i] [Some j] k')).
  { intros s t [[] ?]. split; [|done]. constructor; cbn [fst snd]; simpl_rec; try done.
    cbn. destruct (fs_nextInfos s.1) as [|x l]; [done|]. simpl. by destruct l. }
  cbn [populateLoop]. repeat bookkeep. rewrite bool_decide_eq_true_2 by done.
  cbn [assert]. repeat bookkeep. rewrite decide_True by done.
  unfold findFirstThatDiffer. bookkeep. apply psim_gets_l. intros c1.
  apply (psim_pure (fs_currentInfos c1 = [i] ∧ fs_nextInfos c1 = [Some j]
    ∧ fs_setup c1 = su)); [by intros s t [[[] _] <-]|].
  intros (-> & -> & ->). cbn [last]. repeat bookkeep.
  apply (psim_left _ (settled [mkLevelData (Some k) sz] [i] [Some j] k') _ _ 0%nat).
  { intros s t [HR _]. exists s. split; [|done]. case_decide as Hij.
    - rewrite Hi. eapply bind_step; [done|]. by rewrite Hli.
    - cbn. by rewrite decide_False by congruence. }
  bookkeep. apply sim_doExit. eapply psim_tail.
  { apply psim_bind_skip. by eapply sim_doEntry. }
  intros []. clear body.
  apply (psim_conseq (λ s t, ∃ sz', settled [mkLevelData (Some k') sz'] [j] [Some j] k' s t)
    (λ s t, ∃ sz', settled [mkLevelData (Some k') sz'] [j] [Some j] k' s t));
    [|done|].
  - intros s t [sz' HR]. exists s. split; [|by exists sz'].
    destruct HR as [[] Hu].
    destruct n; (eapply bind_step; [done|]); unfold compose; cbn [view Lens_fst fst];
      rewrite du_update0, Hu; done.
  - intros s t (sz' & HR & Hu). split; [|done]. 
    exists j, info', sz', [Some j]. rewrite (du_state _ _ _ _ _ _ HR).
    split_and!; [done|done|exact HR].
Qed.

(** An event, from the loop of [postEvent]. *)
Definition at_rest (s : S) (t : T) : Prop :=
  s.2 = t.2 ∧ queue_inv (fs_eventQueue s.1) ∧
  contents (fs_eventQueue s.1) = ch_queue t.1 ∧
  ch_target t.1 = None ∧ fs_stateUpdate s.1 = false ∧ fs_setup s.1 = su ∧
  ∃ i info sz, su_states su !! i = Some info ∧ si_maker info = ch_state t.1 ∧
    fs_currentInfos s.1 = [i] ∧
    fs_stackFrames s.1 = [mkLevelData (Some (ch_state t.1)) sz].

Lemma at_rest_busy s t :
  at_rest s t → ch_queue t.1 ≠ [] → busy (ch_state t.1) s t ∧ ch_target t.1 = None.
Proof.
  intros (Hw & Hinv & Hq & Hu & Hup & Hsu & i & info & sz & Hi & Hk & Hc & Hf) Hne.
  split; [|done]. exists i, info, sz, (fs_nextInfos s.1).
  split_and!; [done|done|]. constructor; try done; by rewrite Hu.
Qed.

Lemma busy_at_rest s t :
  busy (ch_state t.1) s t → ch_target t.1 = None → at_rest s t.
Proof.
  intros (i & info & sz & nx & Hi & Hk & []) Hu.
  split_and!; try done; [by rewrite du_update0, Hu|]. by exists i, info, sz.
Qed.

Lemma sim_chart_event proc n ev :
  psim (λ s t, at_rest s t ∧ ch_queue t.1 ≠ []) at_rest
    (processEvent (postEvent_with proc) (Datatypes.S (Datatypes.S n)) ev ;;
     on_queue vec_queue.pop)
    (chart_event (root_state su) ev).
Proof using Hroot.
  unfold chart_event. apply psim_gets_r. intros k.
  apply (psim_conseq (busy k) at_rest); [|intros s t [[HR Hne] <-]; by apply at_rest_busy|done].
  apply psim_busy. intros i info sz nx Hi Hk.
  unfold processEvent. bookkeep.
  bookkeep. rewrite decide_False by done. bookkeep. cbn [length offerEvent].
  bookkeep. bookkeep. cbn [lookup list_lookup]. do 3 bookkeep.
  cbn [ld_activeState]. repeat bookkeep.
  apply (psim_bind _ (during [mkLevelData (Some k) sz] [i] nx k)).
  { cbn [emitEvent root_code]. apply rc_event_sim; [apply _|..].
    - intros ev'. apply sim_post.
    - intros id. apply sim_transition. }
  intros h. assert ((if h then skip else skip) = (skip : M S ())) as -> by (by destruct h).
  bookkeep. apply psim_gets_r. intros u.
  apply (psim_bind _ (λ s t, busy (ch_state t.1) s t ∧ ch_target t.1 = None)).
  { destruct u as [id|]; [by eapply sim_chart_move|].
    intros s t [HR Hu]. unfold compose in Hu. exists s. split.
    - unfold prepareTransition. cbn [while_]. eapply bind_step; [done|].
      unfold compose; cbn [view Lens_fst fst].
      by rewrite (du_update _ _ _ _ _ _ HR), Hu.
    - split; [|done]. exists i, info, sz, nx. by rewrite (du_state _ _ _ _ _ _ HR). }
  intros _ s t [(i' & info' & sz' & nx' & Hi' & Hk' & []) Hu].
  destruct s as [c w], t as [ch w']. simpl in *.
  destruct (ch_queue ch) as [|ev0 q] eqn:Hq; [done|].
  destruct (pop_spec _ _ _ du_queue0) as (vq & Hpop & Hinv & Hc).
  exists (c <| fs_eventQueue := vq |>, w). split.
  - unfold on_queue, on_part. cbn [view Lens_fst fst]. by rewrite Hpop.
  - split_and!; cbn [fst snd ch_state ch_queue ch_target]; simpl_rec; try done.
    + by rewrite du_update0, Hu.
    + by exists i', info', sz'.
Qed.

Lemma front_front (c : Fsm K Ev) (w : W) ev q :
  contents (fs_eventQueue c) = ev :: q →
  on_queue vec_queue.front (c, w) = Ok (ev, (c, w)).
Proof.
  intros Hq. unfold on_queue, on_part. cbn [view Lens_fst fst].
  rewrite (front_spec ev q) by done. by destruct c.
Qed.

(** The loop of [postEvent]: two units of fuel more than the chart, for the two
    loops within an event. *)
Lemma sim_chart_run n :
  psim at_rest at_rest (processQueue (n + 2)) (chart_run (root_state su) n).
Proof using Hroot.
  induction n as [|n IH]; cbn [chart_run]; apply psim_gets_r; intros q;
    destruct q as [|ev q]; try (by intros s t _).
  1,2: intros s t [(Hw & Hinv & Hc & ?) Hq]; exists s; (split; [|done]);
    cbn [processQueue Nat.add]; (eapply bind_step; [done|]);
    unfold compose in *; cbn [view Lens_fst fst];
    rewrite empty_contents, Hc by done;
    by rewrite Hq.
  intros s t [HR Hq]. unfold compose in Hq.
  assert (queue_inv (fs_eventQueue s.1) ∧ contents (fs_eventQueue s.1) = ev :: q)
    as [Hinv Hc] by (destruct HR as (_ & ? & Hc & _); by rewrite Hc).
  destruct s as [c w]. cbn [processQueue Nat.add].
  rewrite (bind_ok _ _ _ _ _ (eq_refl : fsm_gets fs_eventQueue (c, w) = Ok _)).
  cbn [fst] in *. unfold compose. cbn [view Lens_fst fst].
  rewrite empty_contents, Hc by done. cbn.
  rewrite (bind_ok _ _ _ _ _ (front_front c w ev q Hc)), <-bind_assoc.
  rewrite Nat.add_comm. cbn [Nat.add].
  apply (psim_bind _ at_rest _ _ _ _ _ (sim_chart_event _ n ev)).
  - intros _. rewrite Nat.add_comm in IH. exact IH.
  - split; [done|]. by rewrite Hq.
Qed.

(** [postEvent] from a machine at rest or processing an event. *)
Lemma sim_chart_start n ev :
  psim at_rest at_rest (postEvent (n + 2) ev) (chart_start (root_state su) n ev).
Proof using Hroot.
  intros [c w] [ch w'] HR. destruct (HR) as (Hw & Hinv & Hc & Hrest).
  cbn [fst snd] in *.
  destruct (push_spec 20 ev (fs_eventQueue c) Hinv) as (vq & Hpush & Hinv' & Hc').
  assert (postEvent (n + 2) ev (c, w)
    = (if vec_queue.empty (fs_eventQueue c) then processQueue (n + 2) else skip)
        (c <| fs_eventQueue := vq |>, w)) as ->.
  { unfold postEvent, postEvent_with. eapply bind_step; [done|]. eapply bind_step; [|done].
    unfold on_queue, on_part. cbn [view Lens_fst fst]. by rewrite Hpush. }
  assert (chart_start (root_state su) n ev (ch, w')
    = match ch_queue ch with [] => chart_run (root_state su) n | _ => skip end
        (mkChart (ch_state ch) (ch_queue ch ++ [ev]) (ch_target ch), w')) as ->
    by done.
  assert (at_rest (c <| fs_eventQueue := vq |>, w)
    (mkChart (ch_state ch) (ch_queue ch ++ [ev]) (ch_target ch), w')) as HR'.
  { destruct Hrest as (Hu & Hup & Hsu & i & info & sz & ? & ? & ? & ?).
    split_and!; cbn [fst snd ch_queue ch_target ch_state]; simpl_rec; try done.
    - by rewrite Hc', Hc.
    - by exists i, info, sz. }
  rewrite empty_contents, Hc by done. destruct (ch_queue ch).
  - by apply (sim_chart_run n).
  - by eexists.
Qed.

(** A machine with the table, entered in a root state by [setStartState] whose
    constructor posts nothing. *)
Definition entered (fr : list (LevelData K)) i nx : Fsm K Ev :=
  mkFsm su fr [i] nx false 0 vec_queue.newVecQueue.

Lemma entered_at_rest i info sz nx w :
  su_states su !! i = Some info →
  at_rest (entered [mkLevelData (Some (si_maker info)) sz] i nx, w)
    (mkChart (si_maker info) [] None, w).
Proof.
  intros Hi. split_and!; cbn; try done; [by right|]. by exists i, info, sz.
Qed.
End refinement.
