(* ===== verification/Config.v ===== *)
(** * Configuration constants (utility/Config.h, utility/Config.cpp)

    Points in time and time spans are [double]s counting seconds in the code. In
    the model they are integers counting microseconds, exactly; every constant of
    the program is a whole number of them. *)

From S2P Require Import Prelude.

(** Time spans and points in time. *)
Abbreviation Time := Z (only parsing).
Definition seconds (s : Z) : Time := s * 1000000.
Definition milliseconds (s : Z) : Time := s * 1000.

Module Config.

Definition staticLowAddress : Z := 1.
Definition staticHighAddress : Z := 3.
Definition dynamicLowAddress : Z := 33.
Definition dynamicHighAddress : Z := 48.

Definition masterTokenCycleTime : Time := milliseconds 50.
Definition masterTokenGrantTx2RxTime : Time := milliseconds 100.
Definition masterTokenClientTimeout : Time := milliseconds 80.

Definition addrDelayTokenPacketSent : Time := 100.
Definition addrDelayTokenTimeout : Time := seconds 10.
Definition addrDelayFreeAddress : Time := seconds 30.
Definition addrDelayTokenReturn : Time := milliseconds 100.
Definition addrQueryPeriod : Time := seconds 5.
Definition addrDiscoveryTimeout : Time := milliseconds 10.

(** [readConfig] opens the file and reads nothing from it; [is_open] says
    whether that succeeded. *)
Definition readConfig (is_open : string → bool) (cfgFilename : string) : result () :=
  if is_open cfgFilename then Ok () else Fail (Exception "Can not open file.").

End Config.
