(* ===== verification/TimeService.v ===== *)
(** * The time service (interfaces/TimeServiceIf.h, hal/TimeServiceEv.cpp)

    A service keeps the current time and the armed timers; a callback is an
    element of the client's type [C] that says which closure was passed. A
    [Timer] owns at most one armed timer. The event loop fires any timer that is
    due; it advances the time only between callbacks. *)

From S2P Require Import Prelude Config.

Record TimeService (C : Type) : Type := mkTimeService {
  ts_now : Time;
  ts_next : nat;
  ts_pending : list (nat * (Time * C))
}.
Arguments mkTimeService {C}.
Arguments ts_now {C} _.
Arguments ts_next {C} _.
Arguments ts_pending {C} _.
#[export] Instance Eta_TimeService {C} : Eta (TimeService C) := λ t,
  mkTimeService (ts_now t) (ts_next t) (ts_pending t).

(** [TimeServiceIf::Timer]: a pointer to an armed or expired timer, or null. *)
Definition Timer : Type := option nat.
Definition newTimer : Timer := None.

Section service.
Context {C : Type}.

Definition newTimeService (start : Time) : TimeService C := mkTimeService start 0 [].

Definition now : M (TimeService C) Time := gets ts_now.

Definition makeTimeout (timespan : Time) (fkn : C) : M (TimeService C) Timer :=
  t ← get;
  put (mkTimeService (ts_now t) (ts_next t + 1)
         (ts_pending t ++ [(ts_next t, (ts_now t + timespan, fkn))])) ;;
  mret (Some (ts_next t)).

Definition makeTimeoutAbs (timepoint : Time) (fkn : C) : M (TimeService C) Timer :=
  t ← now;
  makeTimeout (timepoint - t) fkn.

(** [Timer::cancel]: disarms the timer and forgets it. *)
Definition cancel (timer : Timer) : M (TimeService C) Timer :=
  match timer with
  | Some i => modify (λ t, t <| ts_pending ::= filter (λ p, p.1 ≠ i) |>)
  | None => skip
  end ;;
  mret None.

(** [m_timer = makeTimeout(...)] is a move assignment: the old timer is let go of,
    not cancelled. Copy assignment and the destructor cancel it. *)
Definition move_assign (old new : Timer) : M (TimeService C) Timer := mret new.
Definition copy_assign (old new : Timer) : M (TimeService C) Timer :=
  cancel old ;; mret new.
Definition destroyTimer (timer : Timer) : M (TimeService C) () :=
  cancel timer ;; skip.

(** A timer of the list is due. *)
Definition due (t : TimeService C) (i : nat) (c : C) : Prop :=
  ∃ at_ : Time, (i, (at_, c)) ∈ ts_pending t ∧ at_ ≤ ts_now t.

(** The loop takes the timer off the list before it calls back. *)
Definition expire (i : nat) (t : TimeService C) : TimeService C :=
  t <| ts_pending ::= filter (λ p, p.1 ≠ i) |>.

Definition advance (delta : Time) (t : TimeService C) : TimeService C :=
  t <| ts_now ::= Z.add delta |>.

(** Identifiers are used once. *)
Definition service_ok (t : TimeService C) : Prop :=
  NoDup (ts_pending t).*1 ∧ Forall (λ p, (p.1 < ts_next t)%nat) (ts_pending t).

Lemma service_ok_new start : service_ok (newTimeService start).
Proof. split; constructor. Qed.

(** The callbacks that are armed, in no particular order. *)
Definition armed (t : TimeService C) : list C := (λ p, p.2.2) <$> ts_pending t.

(** One more armed timer. *)
Definition arm (at_ : Time) (c : C) (t : TimeService C) : TimeService C :=
  mkTimeService (ts_now t) (ts_next t + 1) (ts_pending t ++ [(ts_next t, (at_, c))]).

Lemma makeTimeout_spec span c t :
  makeTimeout span c t = Ok (Some (ts_next t), arm (ts_now t + span) c t).
Proof. done. Qed.

Lemma makeTimeoutAbs_spec at_ c t :
  makeTimeoutAbs at_ c t = Ok (Some (ts_next t), arm at_ c t).
Proof.
  unfold makeTimeoutAbs, mbind, M_bind, now, gets. rewrite makeTimeout_spec.
  by replace (ts_now t + (at_ - ts_now t)) with at_ by lia.
Qed.

Lemma service_ok_arm t at_ c : service_ok t → service_ok (arm at_ c t).
Proof.
  intros [Hnd Hlt]. split; simpl.
  - rewrite fmap_app. simpl. apply NoDup_app. split_and!; [done| |apply NoDup_singleton].
    intros i Hi. rewrite list_elem_of_singleton. intros ->.
    apply list_elem_of_fmap in Hi as (p & Hp & Hin).
    rewrite Forall_forall in Hlt. specialize (Hlt p Hin). rewrite <-Hp in Hlt. lia.
  - apply Forall_app. split.
    + eapply Forall_impl; [done|]. simpl. lia.
    + apply Forall_singleton. simpl. lia.
Qed.

Lemma pending_expire i t :
  ts_pending (expire i t) = filter (λ p, p.1 ≠ i) (ts_pending t).
Proof. done. Qed.

Lemma service_ok_expire i t : service_ok t → service_ok (expire i t).
Proof.
  intros [Hnd Hlt]. split; rewrite pending_expire.
  - clear Hlt. induction (ts_pending t) as [|[j p] l IH]; simpl in *; [constructor|].
    apply NoDup_cons in Hnd as [Hj Hnd]. rewrite filter_cons. simpl.
    case_decide; [|by apply IH]. simpl. apply NoDup_cons. split; [|by apply IH].
    intros Hin. apply Hj. apply list_elem_of_fmap in Hin as (q & -> & Hq).
    apply list_elem_of_filter in Hq as [_ Hq]. by apply list_elem_of_fmap_2.
  - apply Forall_forall. intros p Hp. apply list_elem_of_filter in Hp as [_ Hp].
    by eapply Forall_forall in Hlt.
Qed.

(** ** The armed timers of one callback *)

Context `{!EqDecision C}.

Definition armed_for (c : C) (t : TimeService C) : list (nat * Time) :=
  omap (λ p, if decide (p.2.2 = c) then Some (p.1, p.2.1) else None) (ts_pending t).

Lemma armed_for_arm c t at_ c' :
  armed_for c (arm at_ c' t)
  = armed_for c t ++ (if decide (c' = c) then [(ts_next t, at_)] else []).
Proof.
  unfold armed_for. simpl. rewrite omap_app. simpl. by case_decide.
Qed.

Lemma armed_for_arm_same c t at_ :
  armed_for c (arm at_ c t) = armed_for c t ++ [(ts_next t, at_)].
Proof. by rewrite armed_for_arm, decide_True. Qed.

Lemma armed_for_arm_other c t at_ c' :
  c' ≠ c → armed_for c (arm at_ c' t) = armed_for c t.
Proof. intros Hne. by rewrite armed_for_arm, decide_False, app_nil_r. Qed.

Lemma armed_for_expire c i t :
  armed_for c (expire i t) = filter (λ p, p.1 ≠ i) (armed_for c t).
Proof.
  unfold armed_for. rewrite pending_expire.
  induction (ts_pending t) as [|[j [at_ c']] l IH]; [done|].
  rewrite filter_cons. simpl. destruct (decide (j ≠ i)) as [Hji|Hji];
    cbn [omap list_omap fst snd]; rewrite IH;
    destruct (decide (c' = c)); rewrite ?filter_cons; simpl; [by rewrite decide_True|done| |done].
  by rewrite decide_False by tauto.
Qed.

Lemma elem_of_armed_for c i at_ t :
  (i, at_) ∈ armed_for c t ↔ (i, (at_, c)) ∈ ts_pending t.
Proof.
  unfold armed_for. rewrite list_elem_of_omap. split.
  - intros ([j [at' c']] & Hin & Heq). simpl in Heq. case_decide; [|done].
    injection Heq as <- <-. by subst.
  - intros Hin. exists (i, (at_, c)). simpl. by rewrite decide_True.
Qed.

(** Identifiers tell the callbacks apart. *)
Lemma armed_for_disjoint c c' i at_ at' t :
  service_ok t → (i, at_) ∈ armed_for c t → (i, at') ∈ armed_for c' t → c = c'.
Proof.
  intros [Hnd _] H1%elem_of_armed_for H2%elem_of_armed_for.
  apply list_elem_of_lookup in H1 as [n1 H1], H2 as [n2 H2].
  assert (n1 = n2) as ->.
  { eapply NoDup_lookup; [done|..]; rewrite list_lookup_fmap; [by rewrite H1|by rewrite H2]. }
  rewrite H1 in H2. by injection H2.
Qed.

(** Taking one callback's timer off the list leaves the others' alone. *)
Lemma armed_for_expire_other c c' i at_ t :
  service_ok t → (i, at_) ∈ armed_for c t → c ≠ c' →
  armed_for c' (expire i t) = armed_for c' t.
Proof.
  intros Hok Hin Hne. rewrite armed_for_expire.
  assert (∀ p, p ∈ armed_for c' t → p.1 ≠ i) as Hall.
  { intros [j at'] Hp Hj. simpl in Hj. subst j. apply Hne. by eapply armed_for_disjoint. }
  induction (armed_for c' t) as [|p l IH]; [done|].
  rewrite filter_cons, decide_True by (apply Hall; left).
  f_equal. apply IH. intros q Hq. apply Hall. by right.
Qed.
End service.
#[global] Arguments arm : simpl never.
#[global] Arguments expire : simpl never.
