(* ===== verification/MasterScheduler.v ===== *)
(** * Actions and the master's scheduler (master/Action.h, MasterScheduler.h)

    [std::priority_queue] is an interface: any implementation whose [top] is a
    minimal element serves, whatever it does with equal ones. A sorted list is
    one. The scheduler is proved against the interface. *)

From Stdlib Require Import Sorting.Sorted.
From S2P Require Import Prelude SerialProtocol VecQueue Config.

(** ** Actions *)

Module Action.
Inductive Cmd : Type :=
  | send_master_start
  | send_token
  | query_address
  | do_nothing.

Inductive ReturnValue : Type :=
  | ok
  | not_set
  | timeout
  | rx_token_no_packet
  | client_packet_started
  | token_timeout
  | address_query_done.

#[global] Instance Cmd_eq_dec : EqDecision Cmd.
Proof. solve_decision. Defined.
#[global] Instance ReturnValue_eq_dec : EqDecision ReturnValue.
Proof. solve_decision. Defined.

(** The order of the enumerators. *)
Definition Cmd_value (c : Cmd) : Z :=
  match c with
  | send_master_start => 0
  | send_token => 1
  | query_address => 2
  | do_nothing => 3
  end.

Definition toString (cmd : Cmd) : string :=
  match cmd with
  | send_master_start => "send_master_start"
  | send_token => "send_token"
  | query_address => "query_address"
  | do_nothing => "do_nothing"
  end.

Definition toString_rv (rv : ReturnValue) : string :=
  match rv with
  | ok => "ok"
  | not_set => "not_set"
  | timeout => "timeout"
  | rx_token_no_packet => "rx_token_no_packet"
  | client_packet_started => "client_packet_started"
  | token_timeout => "token_timeout"
  | address_query_done => "address_query_done"
  end.
End Action.

(** [m_reportCB] is either null or the action handler's
    [reportActionResult]; the field says which. *)
Record Action : Type := mkAction {
  m_action : Action.Cmd;
  m_address : byte;
  m_result : Action.ReturnValue;
  m_reportCB : bool
}.
#[export] Instance Eta_Action : Eta Action := λ a,
  mkAction (m_action a) (m_address a) (m_result a) (m_reportCB a).
#[export] Instance Action_eq_dec : EqDecision Action.
Proof. solve_decision. Defined.

Definition newAction (cmd : Action.Cmd) (addr : byte) : Action :=
  mkAction cmd addr Action.not_set false.

Definition doNothing (a : Action) : bool := bool_decide (m_action a = Action.do_nothing).

Definition makeMasterStartAction : Action := newAction Action.send_master_start null_addr.
Definition makeSendTokenAction (addr : byte) : Action := newAction Action.send_token addr.
Definition makeQueryAddressAction : Action := newAction Action.query_address null_addr.
Definition makeDoNothingAction : Action := newAction Action.do_nothing null_addr.

(** [operator>] of actions. *)
Definition action_gt (lhs rhs : Action) : bool :=
  Action.Cmd_value (m_action rhs) <? Action.Cmd_value (m_action lhs).

(** ** The priority queue *)

(** An action due at a time. *)
Record QueueEl : Type := mkQueueEl {
  m_nextTime : Time;
  el_action : Action
}.

(** [operator>] of queue elements. *)
Definition queueEl_gt (lhs rhs : QueueEl) : bool :=
  (m_nextTime rhs <? m_nextTime lhs)
  || ((m_nextTime lhs =? m_nextTime rhs) && action_gt (el_action lhs) (el_action rhs)).

Class PriorityQueue (Q : Type) := {
  pq_new : Q;
  pq_emplace : QueueEl → Q → Q;
  pq_top : Q → option QueueEl;
  pq_pop : Q → Q;
  pq_elements : Q → list QueueEl;
  pq_elements_new : pq_elements pq_new = [];
  pq_elements_emplace x q : pq_elements (pq_emplace x q) ≡ₚ x :: pq_elements q;
  pq_top_None q : pq_top q = None ↔ pq_elements q = [];
  pq_pop_elements q x : pq_top q = Some x → pq_elements q ≡ₚ x :: pq_elements (pq_pop q);
  pq_top_minimal q x y : pq_top q = Some x → y ∈ pq_elements q → queueEl_gt x y = false
}.
#[export] Hint Mode PriorityQueue ! : typeclass_instances.

(** ** The scheduler *)

Record MasterScheduler (Q : Type) : Type := mkMasterScheduler {
  m_waiting : Q;
  m_ready : VecQueue Action
}.
Arguments mkMasterScheduler {Q}.
Arguments m_waiting {Q} _.
Arguments m_ready {Q} _.
#[export] Instance Eta_MasterScheduler {Q} : Eta (MasterScheduler Q) := λ s,
  mkMasterScheduler (m_waiting s) (m_ready s).

Module scheduler.
Section operations.
Context {Q : Type} `{!PriorityQueue Q}.

Definition new : MasterScheduler Q := mkMasterScheduler pq_new vec_queue.newVecQueue.

Definition on_ready {A} (m : M (VecQueue Action) A) : M (MasterScheduler Q) A :=
  on_part m_ready (λ q s, s <| m_ready := q |>) m.

Definition addAction (a : Action) (t : Time) : M (MasterScheduler Q) () :=
  modify (λ s, s <| m_waiting ::= pq_emplace (mkQueueEl t a) |>).

Definition addActionNow (a : Action) : M (MasterScheduler Q) () :=
  on_ready (vec_queue.push 20 a).

Definition front : M (MasterScheduler Q) Action := on_ready vec_queue.front.

Definition pop : M (MasterScheduler Q) () := on_ready vec_queue.pop.

(** The loop of [workToDo] runs once per waiting action at most. *)
Definition workToDo (now : Time) : M (MasterScheduler Q) bool :=
  s ← get;
  while_ (length (pq_elements (m_waiting s)))
    (s ← get;
     mret (match pq_top (m_waiting s) with
           | Some el => m_nextTime el <=? now
           | None => false
           end))
    (s ← get;
     el ← deref "top of an empty queue" (pq_top (m_waiting s));
     on_ready (vec_queue.push 20 (el_action el)) ;;
     modify (λ s, s <| m_waiting ::= pq_pop |>)) ;;
  s ← get;
  mret (negb (vec_queue.empty (m_ready s))).

Definition readyTime (s : MasterScheduler Q) : Time :=
  match pq_top (m_waiting s) with
  | None => 0
  | Some el => m_nextTime el
  end.
End operations.
End scheduler.

(** ** What the scheduler promises *)

Section scheduler_spec.
Context {Q : Type} `{!PriorityQueue Q}.
Implicit Types (s : MasterScheduler Q).

Definition ready s : list Action := contents (m_ready s).
Definition waiting s : list QueueEl := pq_elements (m_waiting s).
Definition scheduler_inv s : Prop := queue_inv (m_ready s).

Lemma new_scheduler : scheduler_inv scheduler.new ∧ ready scheduler.new = []
  ∧ waiting scheduler.new = [].
Proof. split_and!; [by right|done|apply pq_elements_new]. Qed.

Lemma addActionNow_spec a s :
  scheduler_inv s →
  ∃ s', scheduler.addActionNow a s = Ok ((), s') ∧ scheduler_inv s' ∧
    ready s' = ready s ++ [a] ∧ m_waiting s' = m_waiting s.
Proof.
  intros Hinv. destruct (push_spec 20 a (m_ready s) Hinv) as (q & Hq & Hinv' & Hc).
  exists (s <| m_ready := q |>). split_and!; try done.
  unfold scheduler.addActionNow, scheduler.on_ready, on_part. by rewrite Hq.
Qed.

Lemma addAction_spec a t s :
  scheduler_inv s →
  ∃ s', scheduler.addAction a t s = Ok ((), s') ∧ scheduler_inv s' ∧
    ready s' = ready s ∧ waiting s' ≡ₚ mkQueueEl t a :: waiting s.
Proof.
  intros Hinv. eexists. split; [done|]. split_and!; try done.
  apply pq_elements_emplace.
Qed.

Lemma front_pop_spec a l s :
  scheduler_inv s → ready s = a :: l →
  scheduler.front s = Ok (a, s) ∧
  ∃ s', scheduler.pop s = Ok ((), s') ∧ scheduler_inv s' ∧
    ready s' = l ∧ m_waiting s' = m_waiting s.
Proof.
  intros Hinv Hr. split.
  - unfold scheduler.front, scheduler.on_ready, on_part.
    rewrite (front_spec a l) by done. by destruct s.
  - destruct (pop_spec a l _ Hr) as (q & Hq & Hinv' & Hc).
    exists (s <| m_ready := q |>). split_and!; try done.
    unfold scheduler.pop, scheduler.on_ready, on_part. by rewrite Hq.
Qed.

Lemma queueEl_gt_time x y : queueEl_gt x y = false → m_nextTime x ≤ m_nextTime y.
Proof.
  unfold queueEl_gt. intros [H _]%orb_false_iff. apply Z.ltb_ge in H. lia.
Qed.

(** No element is preceded by a greater one. *)
Definition in_order (l : list QueueEl) : Prop :=
  StronglySorted (λ x y, queueEl_gt x y = false) l.

(** The loop of [workToDo]. *)
Definition work_cond (now : Time) : M (MasterScheduler Q) bool :=
  s ← get;
  mret (match pq_top (m_waiting s) with
        | Some el => m_nextTime el <=? now
        | None => false
        end).
Definition work_body : M (MasterScheduler Q) () :=
  s ← get;
  el ← deref "top of an empty queue" (pq_top (m_waiting s));
  scheduler.on_ready (vec_queue.push 20 (el_action el)) ;;
  modify (λ s, s <| m_waiting ::= pq_pop |>).

Lemma work_body_spec el s :
  scheduler_inv s → pq_top (m_waiting s) = Some el →
  ∃ s', work_body s = Ok ((), s') ∧ scheduler_inv s' ∧
    ready s' = ready s ++ [el_action el] ∧ m_waiting s' = pq_pop (m_waiting s).
Proof.
  intros Hinv Htop.
  destruct (addActionNow_spec (el_action el) s Hinv) as (s1 & Hs1 & Hinv1 & Hr1 & Hw1).
  exists (s1 <| m_waiting ::= pq_pop |>). split_and!; try done.
  - unfold work_body. eapply bind_step; [done|]. rewrite Htop.
    eapply bind_step; [done|]. by eapply bind_step.
  - change (pq_pop (m_waiting s1) = pq_pop (m_waiting s)). by rewrite Hw1.
Qed.

Lemma work_loop_spec now n s :
  scheduler_inv s → (length (waiting s) ≤ n)%nat →
  ∃ s' moved, while_ n (work_cond now) work_body s = Ok ((), s') ∧
    scheduler_inv s' ∧ ready s' = ready s ++ (el_action <$> moved) ∧
    waiting s ≡ₚ moved ++ waiting s' ∧
    Forall (λ el, m_nextTime el ≤ now) moved ∧
    Forall (λ el, now < m_nextTime el) (waiting s') ∧ in_order moved.
Proof.
  revert s. induction n as [|n IH]; intros s Hinv Hn;
    destruct (pq_top (m_waiting s)) as [el|] eqn:Htop.
  1: { apply pq_pop_elements, Permutation_length in Htop. unfold waiting in Hn.
       simpl in Htop. lia. }
  1,3: exists s, []; rewrite app_nil_r;
    apply pq_top_None in Htop; unfold waiting; rewrite Htop;
    (split_and!; try done; [|constructor]);
    cbn [while_]; unfold work_cond; (eapply bind_step; [done|]);
    by rewrite (proj2 (pq_top_None _) Htop).
  destruct (decide (m_nextTime el ≤ now)) as [Hle|Hgt].
  - destruct (work_body_spec el s Hinv Htop) as (s1 & Hs1 & Hinv1 & Hr1 & Hw1).
    pose proof (pq_pop_elements _ _ Htop) as Hel.
    assert (waiting s1 = pq_elements (pq_pop (m_waiting s))) as Hws1
      by (unfold waiting; by rewrite Hw1).
    destruct (IH s1 Hinv1) as (s' & moved & Hs' & Hinv' & Hr' & Hperm & Hle' & Hgt' & Hord).
    { apply Permutation_length in Hel. rewrite Hws1. unfold waiting in Hn.
      simpl in Hel. lia. }
    exists s', (el :: moved). split_and!; try done.
    + cbn [while_]. eapply bind_step; [done|]. rewrite Htop.
      rewrite (proj2 (Z.leb_le _ _) Hle). by eapply bind_step.
    + rewrite Hr', Hr1. by rewrite <-app_assoc.
    + unfold waiting at 1. rewrite Hel, <-Hws1, Hperm. done.
    + by constructor.
    + constructor; [done|]. apply Forall_forall. intros y Hy.
      apply (pq_top_minimal _ _ _ Htop). rewrite Hel, <-Hws1, Hperm.
      apply elem_of_cons. right. apply elem_of_app. by left.
  - exists s, []. rewrite app_nil_r. split_and!; try done; [| |constructor].
    + cbn [while_]. eapply bind_step; [done|]. rewrite Htop.
      by rewrite (proj2 (Z.leb_gt _ _)) by lia.
    + apply Forall_forall. intros y Hy.
      pose proof (queueEl_gt_time _ _ (pq_top_minimal _ _ _ Htop Hy)). lia.
Qed.

Lemma workToDo_spec now s :
  scheduler_inv s →
  ∃ s' moved, scheduler.workToDo now s = Ok (bool_decide (ready s' ≠ []), s') ∧
    scheduler_inv s' ∧ ready s' = ready s ++ (el_action <$> moved) ∧
    waiting s ≡ₚ moved ++ waiting s' ∧
    Forall (λ el, m_nextTime el ≤ now) moved ∧
    Forall (λ el, now < m_nextTime el) (waiting s') ∧ in_order moved.
Proof.
  intros Hinv.
  destruct (work_loop_spec now _ s Hinv (le_n _)) as (s' & moved & Hs' & Hinv' & Hrest).
  exists s', moved. split; [|done].
  unfold scheduler.workToDo. eapply bind_step; [done|].
  eapply bind_step; [exact Hs'|]. eapply bind_step; [done|].
  rewrite empty_contents by done. unfold mret, M_ret. f_equal. f_equal.
  fold (ready s'). by destruct (ready s').
Qed.

Lemma readyTime_spec s :
  match waiting s with
  | [] => scheduler.readyTime s = 0
  | _ => ∃ el, el ∈ waiting s ∧ scheduler.readyTime s = m_nextTime el ∧
           Forall (λ y, m_nextTime el ≤ m_nextTime y) (waiting s)
  end.
Proof.
  unfold scheduler.readyTime. destruct (pq_top (m_waiting s)) as [el|] eqn:Htop.
  - pose proof (pq_pop_elements _ _ Htop) as Hel.
    assert (el ∈ waiting s) as Hin by (unfold waiting; rewrite Hel; left).
    assert (Forall (λ y, m_nextTime el ≤ m_nextTime y) (waiting s)) as Hall.
    { apply Forall_forall. intros y Hy. apply queueEl_gt_time.
      by eapply pq_top_minimal. }
    destruct (waiting s); [by apply not_elem_of_nil in Hin|]. by exists el.
  - apply pq_top_None in Htop. unfold waiting. by rewrite Htop.
Qed.
End scheduler_spec.

(** ** An implementation of the interface: an unsorted list *)

Section list_queue.
Implicit Types (x y z : QueueEl) (q : list QueueEl).

Lemma queueEl_gt_trans x y z :
  queueEl_gt x y = false → queueEl_gt y z = false → queueEl_gt x z = false.
Proof.
  unfold queueEl_gt, action_gt. rewrite !orb_false_iff, !andb_false_iff.
  rewrite !Z.ltb_ge, !Z.eqb_neq. lia.
Qed.

Lemma queueEl_gt_total x y : queueEl_gt x y = false ∨ queueEl_gt y x = false.
Proof.
  unfold queueEl_gt, action_gt. rewrite !orb_false_iff, !andb_false_iff.
  rewrite !Z.ltb_ge, !Z.eqb_neq. lia.
Qed.

(** The first element that no other one precedes. *)
Definition least q : option (nat * QueueEl) :=
  list_find (λ x, Forall (λ y, queueEl_gt x y = false) q) q.

Lemma least_exists q :
  q ≠ [] → ∃ x, x ∈ q ∧ Forall (λ y, queueEl_gt x y = false) q.
Proof.
  induction q as [|x q IH]; intros Hne; [done|].
  destruct (decide (q = [])) as [->|Hq].
  { exists x. split; [left|]. apply Forall_singleton.
    by destruct (queueEl_gt_total x x). }
  destruct (IH Hq) as (z & Hz & Hall).
  destruct (queueEl_gt_total x z) as [Hxz|Hzx].
  - exists x. split; [left|]. constructor; [by destruct (queueEl_gt_total x x)|].
    eapply Forall_impl; [done|]. intros y. by apply queueEl_gt_trans.
  - exists z. split; [by right|]. by constructor.
Qed.

#[export] Program Instance list_queue : PriorityQueue (list QueueEl) := {
  pq_new := [];
  pq_emplace x q := x :: q;
  pq_top q := snd <$> least q;
  pq_pop q := match least q with Some (i, _) => delete i q | None => q end;
  pq_elements q := q
}.
Next Obligation. done. Qed.
Next Obligation. done. Qed.
Next Obligation.
  intros q. split; [|by intros ->].
  intros Hnone%fmap_None. apply list_find_None in Hnone.
  destruct (decide (q = [])) as [|Hne]; [done|].
  destruct (least_exists q Hne) as (x & Hx & Hall).
  by apply (proj1 (Forall_forall _ _) Hnone x) in Hx.
Qed.
Next Obligation.
  intros q x H. simpl in *. destruct (least q) as [[i y]|] eqn:Hl; [|done].
  injection H as ->. apply list_find_Some in Hl as (Hi & _).
  by apply delete_Permutation.
Qed.
Next Obligation.
  intros q x y H Hy. apply fmap_Some in H as ([i z] & Hl & ->).
  apply list_find_Some in Hl as (_ & Hall & _).
  by apply (proj1 (Forall_forall _ _) Hall).
Qed.
End list_queue.

(** ** Properties *)

(** [workToDo] moves exactly the waiting actions that are due to the ready
    queue, behind those already there, earliest first and, among equal times, in
    the order of the commands, and says whether any action is ready; it leaves
    the later ones waiting, whatever the priority queue does with equal
    elements. *)
Theorem workToDo_moves_due {Q} `{!PriorityQueue Q} now (s : MasterScheduler Q) :
  scheduler_inv s →
  ∃ s' moved, scheduler.workToDo now s = Ok (bool_decide (ready s' ≠ []), s') ∧
    ready s' = ready s ++ (el_action <$> moved) ∧ in_order moved ∧
    waiting s ≡ₚ moved ++ waiting s' ∧
    (∀ el, el ∈ waiting s → el ∈ moved ↔ m_nextTime el ≤ now) .
Proof.
  intros Hinv.
  destruct (workToDo_spec now s Hinv) as (s' & moved & Hs' & _ & Hr & Hp & Hle & Hgt & Ho).
  exists s', moved. split_and!; try done. intros el Hin. split.
  - intros Hm. by eapply Forall_forall in Hle.
  - intros Ht. rewrite Hp in Hin. apply elem_of_app in Hin as [|Hin]; [done|].
    eapply Forall_forall in Hgt; [|exact Hin]. lia.
Qed.

Definition example_scheduler : MasterScheduler (list QueueEl) :=
  mkMasterScheduler
    [mkQueueEl 30 (makeSendTokenAction 3); mkQueueEl 20 (makeSendTokenAction 2);
     mkQueueEl 10 (makeSendTokenAction 1)] vec_queue.newVecQueue.

Lemma workToDo_moves_due_witness :
  ∃ s' moved, scheduler.workToDo 20 example_scheduler
    = Ok (bool_decide (ready s' ≠ []), s') ∧
    ready s' = ready example_scheduler ++ (el_action <$> moved) ∧ in_order moved ∧
    waiting example_scheduler ≡ₚ moved ++ waiting s' ∧
    (∀ el, el ∈ waiting example_scheduler → el ∈ moved ↔ m_nextTime el ≤ 20).
Proof. apply (workToDo_moves_due 20 example_scheduler). by right. Defined.
