(* ===== verification/MasterState.v ===== *)
(** * The data of the master (master/AddressLine.h, DynamicHandler.h,
    ActionHandler.h, MasterFSM.h, Event.h, interfaces/MasterTxIf.h)

    The members of the four objects that [Master] owns and of what they refer
    to, as one record [World]. The node below the master, [MasterTxIf] and
    [MasterPacketIf], is an interface. *)

From S2P Require Import Prelude SerialProtocol VecQueue Config TimeService.
From S2P Require Import MasterScheduler.

(** ** Addresses *)

Module AddressLine.
Inductive State : Type := active | idle | badClient | free.

#[global] Instance State_eq_dec : EqDecision State.
Proof. solve_decision. Defined.
End AddressLine.

(** [al_badCount] is [m_badCount]; every field is private in the code. *)
Record AddressLine : Type := mkAddressLine {
  al_state : AddressLine.State;
  al_badCount : Z;
  al_address : LocalAddress;
  al_isDynamic : bool;
  al_uniqueId : UniqueId;
  al_channelType : ChannelType
}.
#[export] Instance Eta_AddressLine : Eta AddressLine := λ l,
  mkAddressLine (al_state l) (al_badCount l) (al_address l) (al_isDynamic l)
    (al_uniqueId l) (al_channelType l).

(** The first constructor leaves [m_uniqueId] as the memory was, [garbage]. *)
Definition newStaticLine (garbage : UniqueId) (addr : LocalAddress) : AddressLine :=
  mkAddressLine AddressLine.free 0 addr false garbage illegal_type.

Definition newAddressLine (addr : LocalAddress) (s : AddressLine.State)
    (dynamic : bool) (uid : UniqueId) (ct : ChannelType) : AddressLine :=
  mkAddressLine s 0 addr dynamic uid ct.

Definition removeDynamic (l : AddressLine) : bool :=
  al_isDynamic l && bool_decide (al_state l = AddressLine.free).

Definition setState (st : AddressLine.State) (l : AddressLine) : AddressLine :=
  let badCount := if decide (st = AddressLine.badClient) then al_badCount l + 1 else 0 in
  l <| al_badCount := badCount |>
    <| al_state := if decide (3 < badCount) then AddressLine.free else st |>.

(** ** Events *)

Module Event.
Inductive Id : Type :=
  | init
  | rx_pkt_master_start_stop
  | rx_pkt_grant_token
  | rx_pkt_client_packet
  | rx_return_token
  | rx_pkt_address_request
  | timer_timeout
  | check_new_command.

#[global] Instance Id_eq_dec : EqDecision Id.
Proof. solve_decision. Defined.

Definition toString (id : Id) : string :=
  match id with
  | init => "init"
  | rx_pkt_master_start_stop => "rx_pkt_master_start_stop"
  | rx_pkt_grant_token => "rx_pkt_grant_token"
  | rx_pkt_client_packet => "rx_pkt_client_packet"
  | rx_return_token => "rx_return_token"
  | timer_timeout => "timer_timeout"
  | rx_pkt_address_request => "rx_pkt_address_request"
  | check_new_command => "check_new_command"
  end.
End Event.

(** The variant always holds an [AddressRequest]; only the event
    [rx_pkt_address_request] reads it. *)
Record Event : Type := mkEvent {
  m_id : Event.Id;
  eventData : packet.AddressRequest
}.

Definition noAddressRequest : packet.AddressRequest :=
  packet.mkAddressRequest address_request [] illegal_type [].

(** [Event(Id id)], an implicit conversion in the code. *)
Definition newEvent (id : Event.Id) : Event := mkEvent id noAddressRequest.

(** ** States of [MasterFSM] *)

Module StateId.
Inductive StateId : Type :=
  | idle
  | startMaster
  | sendingToken
  | waitClientPacketDone
  | queryAddress
  | waitAddressReply.

#[global] Instance StateId_eq_dec : EqDecision StateId.
Proof. solve_decision. Defined.

Definition value (s : StateId) : Z :=
  match s with
  | idle => 0
  | startMaster => 1
  | sendingToken => 2
  | waitClientPacketDone => 3
  | queryAddress => 4
  | waitAddressReply => 5
  end.
End StateId.
Abbreviation StateId := StateId.StateId.

(** ** What the master uses of the node *)

(** [sendMasterPacket], [sendClientPacket], [txQueueEmpty] and [clientAddress] of
    [MasterTxIf], [packetRxInProgress] of [MasterPacketIf], which is told the
    time, and the memory that an uninitialised [UniqueId] shows. [env_ok] says
    that the node is set up: it is no code, the laws below are about such nodes. *)
Class MasterEnv (E : Type) := {
  env_ok : E → Prop;
  sendMasterPacket : ByteVec → M E ();
  sendClientPacket : M E ();
  txQueueEmpty : E → bool;
  clientAddress : E → LocalAddress;
  packetRxInProgress : Time → M E bool;
  uninitialised : LocalAddress → UniqueId
}.
#[export] Hint Mode MasterEnv ! : typeclass_instances.

(** What the master relies on: packets it makes can be sent, and so can a queued
    client packet; nothing of this re-enters the master or changes the client's
    address. *)
Class MasterEnvLaws (E : Type) `{!MasterEnv E} : Prop := {
  sendMasterPacket_ok (p : ByteVec) (e : E) :
    env_ok e → bytes p → (0 < length p ≤ 10)%nat →
    ∃ e', sendMasterPacket p e = Ok ((), e') ∧ clientAddress e' = clientAddress e ∧
      txQueueEmpty e' = txQueueEmpty e ∧ env_ok e';
  sendClientPacket_ok (e : E) :
    env_ok e → txQueueEmpty e = false →
    ∃ e', sendClientPacket e = Ok ((), e') ∧ clientAddress e' = clientAddress e ∧ env_ok e';
  packetRxInProgress_ok (now : Time) (e : E) :
    env_ok e →
    ∃ b e', packetRxInProgress now e = Ok (b, e') ∧ clientAddress e' = clientAddress e ∧
      env_ok e'
}.

(** ** The objects *)

(** The closures given to the time service: the two in [MasterStateBase], the one
    in [ActionHandler::checkNewAction], that in
    [DynamicHandler::addressDiscoveryIsDone]. *)
Inductive MasterTimer : Type := FsmTimeout | DelayAction | QueryPeriod.

#[export] Instance MasterTimer_eq_dec : EqDecision MasterTimer.
Proof. solve_decision. Defined.

Record DynamicHandler : Type := mkDynamicHandler {
  dh_minAddr : Z;
  dh_maxAddr : Z;
  dh_freeAddresses : list LocalAddress;
  dh_table : list AddressLine;
  dh_timer : Timer
}.
#[export] Instance Eta_DynamicHandler : Eta DynamicHandler := λ d,
  mkDynamicHandler (dh_minAddr d) (dh_maxAddr d) (dh_freeAddresses d) (dh_table d)
    (dh_timer d).

Record ActionHandler (Q : Type) : Type := mkActionHandler {
  ah_scheduler : MasterScheduler Q;
  ah_delayAction : Timer;
  ah_currentAction : Action
}.
Arguments mkActionHandler {Q}.
Arguments ah_scheduler {Q} _.
Arguments ah_delayAction {Q} _.
Arguments ah_currentAction {Q} _.
#[export] Instance Eta_ActionHandler {Q} : Eta (ActionHandler Q) := λ a,
  mkActionHandler (ah_scheduler a) (ah_delayAction a) (ah_currentAction a).

(** [MasterFSM]'s own members; the inherited machine is StateChart.v's. *)
Record MasterFSM : Type := mkMasterFSM {
  mf_timer : Timer;
  mf_currentAction : Action
}.
#[export] Instance Eta_MasterFSM : Eta MasterFSM := λ m,
  mkMasterFSM (mf_timer m) (mf_currentAction m).

Record World (E Q : Type) : Type := mkWorld {
  w_ts : TimeService MasterTimer;
  w_env : E;
  w_ah : ActionHandler Q;
  w_dh : DynamicHandler;
  w_fsm : MasterFSM
}.
Arguments mkWorld {E Q}.
Arguments w_ts {E Q} _.
Arguments w_env {E Q} _.
Arguments w_ah {E Q} _.
Arguments w_dh {E Q} _.
Arguments w_fsm {E Q} _.
#[export] Instance Eta_World {E Q} : Eta (World E Q) := λ w,
  mkWorld (w_ts w) (w_env w) (w_ah w) (w_dh w) (w_fsm w).

(** Operations of one object, run in the world. *)
Section parts.
Context {E Q : Type}.

Definition on_ts {A} (m : M (TimeService MasterTimer) A) : M (World E Q) A :=
  on_part w_ts (λ x w, w <| w_ts := x |>) m.
Definition on_env {A} (m : M E A) : M (World E Q) A :=
  on_part w_env (λ x w, w <| w_env := x |>) m.
Definition on_scheduler {A} (m : M (MasterScheduler Q) A) : M (World E Q) A :=
  on_part (λ w, ah_scheduler (w_ah w))
    (λ x w, w <| w_ah ::= λ a, a <| ah_scheduler := x |> |>) m.
Definition modify_ah (f : ActionHandler Q → ActionHandler Q) : M (World E Q) () :=
  modify (λ w, w <| w_ah ::= f |>).
Definition modify_dh (f : DynamicHandler → DynamicHandler) : M (World E Q) () :=
  modify (λ w, w <| w_dh ::= f |>).
Definition modify_fsm (f : MasterFSM → MasterFSM) : M (World E Q) () :=
  modify (λ w, w <| w_fsm ::= f |>).
End parts.
