(* ===== verification/DynamicHandler.v ===== *)
(** * Address allocation (master/DynamicHandler.cpp, MasterPacketTx.cpp)

    The table of polled addresses and the pool of dynamic ones: which packets
    the master sends, and the operations on the table, with the calls they make
    on the action handler's scheduler. *)

From S2P Require Import Prelude SerialProtocol VecQueue Config TimeService.
From S2P Require Import MasterScheduler MasterState.

(** ** [MasterPacketTx] *)

Module MasterPacketTx.
Section tx.
Context {E : Type} `{!MasterEnv E}.

Definition sendToken (destAddr : LocalAddress) : M E () :=
  sendMasterPacket (fromHeader (packet.newGrantToken destAddr)).

Definition sendMasterStop : M E () :=
  sendMasterPacket (fromHeader (packet.mkMasterEnded master_ended)).

Definition sendMasterStart : M E () :=
  sendMasterPacket (fromHeader (packet.mkMasterStarted master_started)).

Definition sendAddressDiscovery : M E () :=
  sendMasterPacket (fromHeader (packet.mkAddressDiscovery address_discovery 0 0)).

Definition sendAddressReply (local : LocalAddress) (id : UniqueId) : M E () :=
  sendMasterPacket (fromHeader (packet.mkAddressReply address_reply local id)).
End tx.
End MasterPacketTx.

(** ** [ActionHandler]'s entries for the dynamic handler *)

Section handler.
Context {E Q : Type} `{!MasterEnv E} `{!PriorityQueue Q}.
Abbreviation World := (World E Q).

(** The report callback is set on the copy that is queued. *)
Definition postActionNow (a : Action) : M World () :=
  on_scheduler (scheduler.addActionNow (a <| m_reportCB := true |>)).

Definition postAction (a : Action) (time : Time) : M World () :=
  on_scheduler (scheduler.addAction (a <| m_reportCB := true |>) time).

(** ** [DynamicHandler] *)

Definition newDynamicHandler : DynamicHandler :=
  mkDynamicHandler Config.staticLowAddress Config.staticHighAddress [] [] newTimer.

(** [for (int i = low; i <= high; ++i)], and downwards. *)
Definition int_range (low high : Z) : list Z := seqZ low (high - low + 1).

Definition start : M World () :=
  w ← get;
  for_each (λ i,
      modify_dh (λ d, d <| dh_table ::=
        (.++ [newStaticLine (uninitialised (E := E) i) (toLocalAddress i)]) |>) ;;
      postActionNow (makeSendTokenAction (toLocalAddress i)))
    (int_range (dh_minAddr (w_dh w)) (dh_maxAddr (w_dh w))) ;;
  for_each (λ i,
      modify_dh (λ d, d <| dh_freeAddresses ::= (.++ [toLocalAddress i]) |>))
    (reverse (int_range Config.dynamicLowAddress Config.dynamicHighAddress)) ;;
  postActionNow makeQueryAddressAction.

Definition findLine_id (id : UniqueId) (d : DynamicHandler) : option nat :=
  fst <$> list_find (λ l, al_uniqueId l = id) (dh_table d).

Definition findLine (address : LocalAddress) (d : DynamicHandler) : option nat :=
  fst <$> list_find (λ l, al_address l = address) (dh_table d).

Definition removeLine (line : nat) : M World () :=
  modify_dh (λ d, d <| dh_table ::= delete line |>).

Definition allocAddress (id : UniqueId) : M World LocalAddress :=
  w ← get;
  match last (dh_freeAddresses (w_dh w)) with
  | None => mret null_addr
  | Some local =>
      modify_dh (λ d, d <| dh_freeAddresses ::= λ l, take (length l - 1) l |>) ;;
      mret local
  end.

Definition receivedAddressRequest (aReq : packet.AddressRequest) : M World () :=
  let uid := packet.arq_uniqueId aReq in
  w ← get;
  addrLine ←
    match findLine_id uid (w_dh w), dh_freeAddresses (w_dh w) with
    | None, _ :: _ =>
        localAddr ← allocAddress uid;
        modify_dh (λ d, d <| dh_table ::= (.++ [newAddressLine localAddr
          AddressLine.idle true uid (packet.arq_channelType aReq)]) |>) ;;
        postActionNow (makeSendTokenAction localAddr) ;;
        w ← get;
        mret (findLine localAddr (w_dh w))
    | found, _ => mret found
    end;
  match addrLine with
  | Some i =>
      w ← get;
      line ← deref "stale address line" (dh_table (w_dh w) !! i);
      on_env (MasterPacketTx.sendAddressReply (al_address line) uid)
  | None => skip
  end.

Definition addressDiscoveryIsDone : M World () :=
  now ← on_ts now;
  timer ← on_ts (makeTimeoutAbs (now + Config.addrQueryPeriod) QueryPeriod);
  w ← get;
  timer ← on_ts (move_assign (dh_timer (w_dh w)) timer);
  modify_dh (λ d, d <| dh_timer := timer |>).

Definition nextTime (state : AddressLine.State) : M World Time :=
  now ← on_ts now;
  mret match state with
    | AddressLine.active => now + Config.addrDelayTokenPacketSent
    | AddressLine.idle => now + Config.addrDelayTokenReturn
    | AddressLine.badClient => now + Config.addrDelayTokenTimeout
    | AddressLine.free => now + Config.addrDelayFreeAddress
    end.

Definition updateAddressLine (addr : LocalAddress) (newState : AddressLine.State) :
    M World () :=
  w ← get;
  i ← deref "no line for the address" (findLine addr (w_dh w));
  line ← deref "no line for the address" (dh_table (w_dh w) !! i);
  let line := setState newState line in
  modify_dh (λ d, d <| dh_table ::= <[i := line]> |>) ;;
  if removeDynamic line then
    modify_dh (λ d, d <| dh_freeAddresses ::= (.++ [al_address line]) |>) ;;
    removeLine i
  else
    t ← nextTime (al_state line);
    postAction (makeSendTokenAction addr) t.
End handler.
