(* ===== verification/MasterFSM.v ===== *)
(** * The master's state machine (master/ActionHandler.cpp, MasterFSM.cpp)

    The action handler gives actions to the machine and the machine reports
    their results back, from its states' handlers, constructors and destructors.
    That code runs in any program state that contains the [World], and calls
    [postEvent] as it is given, so that it runs both on StateChart.v's machine
    and on the chart of RootChart.v. *)

From S2P Require Import Prelude SerialProtocol VecQueue StateChart RootChart Config.
From S2P Require Import TimeService MasterScheduler MasterState DynamicHandler.

Section fsm.
Context {E Q : Type} `{!MasterEnv E} `{!PriorityQueue Q}.
Abbreviation World := (World E Q).

(** ** [ActionHandler] and the machine's side of it *)

Definition newActionHandler : ActionHandler Q :=
  mkActionHandler scheduler.new newTimer makeDoNothingAction.

Definition newMasterFSM : MasterFSM := mkMasterFSM newTimer makeDoNothingAction.

(** The action that [checkNewAction] triggers, if any. *)
Definition nextAction : M World (option Action) :=
  w ← get;
  if doNothing (ah_currentAction (w_ah w)) then
    now ← on_ts now;
    work ← on_scheduler (scheduler.workToDo now);
    if work : bool then
      a ← on_scheduler scheduler.front;
      modify_ah (λ h, h <| ah_currentAction := a |>) ;;
      on_scheduler scheduler.pop ;;
      mret (Some a)
    else
      w ← get;
      let nextTime := scheduler.readyTime (ah_scheduler (w_ah w)) in
      if nextTime <? seconds 1 then mret None
      else
        timer ← on_ts (makeTimeoutAbs nextTime DelayAction);
        timer ← on_ts (move_assign (ah_delayAction (w_ah w)) timer);
        modify_ah (λ h, h <| ah_delayAction := timer |>) ;;
        mret None
  else mret None.

(** [MasterFSM::startAction], up to the event it posts. *)
Definition acceptAction (action : Action) : M World () :=
  w ← get;
  assert (doNothing (mf_currentAction (w_fsm w))) ;;
  modify_fsm (λ m, m <| mf_currentAction := action |>).

(** [ActionHandler::reportActionResult], up to the new action. *)
Definition recordResult (rv : Action.ReturnValue) : M World () :=
  w ← get;
  let addr := m_address (ah_currentAction (w_ah w)) in
  modify_ah (λ h, h <| ah_currentAction := makeDoNothingAction |>) ;;
  match rv with
  | Action.client_packet_started => updateAddressLine addr AddressLine.active
  | Action.rx_token_no_packet => updateAddressLine addr AddressLine.idle
  | Action.token_timeout => updateAddressLine addr AddressLine.badClient
  | Action.address_query_done => addressDiscoveryIsDone
  | Action.ok => skip
  | Action.not_set | Action.timeout => assert false
  end.

(** [MasterFSM::reportActionResult], up to the callback; whether there is one. *)
Definition takeAction : M World bool :=
  w ← get;
  let cb := m_reportCB (mf_currentAction (w_fsm w)) in
  modify_fsm (λ m, m <| mf_currentAction := makeDoNothingAction |>) ;;
  mret cb.

(** ** [MasterStateBase] *)

Definition startTimer (interval : Time) : M World () :=
  timer ← on_ts (makeTimeout interval FsmTimeout);
  w ← get;
  timer ← on_ts (move_assign (mf_timer (w_fsm w)) timer);
  modify_fsm (λ m, m <| mf_timer := timer |>).

Definition startTimerAbs (timepoint : Time) : M World () :=
  timer ← on_ts (makeTimeoutAbs timepoint FsmTimeout);
  w ← get;
  timer ← on_ts (move_assign (mf_timer (w_fsm w)) timer);
  modify_fsm (λ m, m <| mf_timer := timer |>).

Definition cleanTimer : M World () :=
  w ← get;
  timer ← on_ts (cancel (mf_timer (w_fsm w)));
  modify_fsm (λ m, m <| mf_timer := timer |>).

Definition clientSending : M World bool :=
  w ← get;
  on_env (packetRxInProgress (ts_now (w_ts w))).

(** ** The states *)

Section states.
Context {S : Type} `{!Lens S World} (post : Event → M S ()) (transition : Z → M S ()).

Definition startAction (action : Action) : M S () :=
  zoom (acceptAction action) ;;
  post (newEvent Event.check_new_command).

Definition checkNewAction : M S () :=
  a ← zoom nextAction;
  match a with Some action => startAction action | None => skip end.

Definition ActionHandler_reportActionResult (rv : Action.ReturnValue) : M S () :=
  zoom (recordResult rv) ;;
  checkNewAction.

Definition reportActionResult (rv : Action.ReturnValue) : M S () :=
  cb ← zoom takeAction;
  if cb : bool then ActionHandler_reportActionResult rv else skip.

Definition goto (s : StateId) : M S () := transition (StateId.value s).

Definition Idle_decodeAction (action : Action) : M S () :=
  match m_action action with
  | Action.do_nothing => skip
  | Action.send_token =>
      let addr := m_address action in
      w ← zoom get;
      if decide (addr = clientAddress (w_env w)) then
        if txQueueEmpty (w_env w) then
          reportActionResult Action.rx_token_no_packet
        else
          zoom (on_env sendClientPacket) ;;
          goto StateId.waitClientPacketDone
      else
        zoom (on_env (MasterPacketTx.sendToken addr)) ;;
        goto StateId.sendingToken
  | Action.query_address => goto StateId.queryAddress
  | Action.send_master_start => goto StateId.startMaster
  end.

Definition Idle_event (ev : Event) : M S bool :=
  match m_id ev with
  | Event.check_new_command =>
      w ← zoom get;
      Idle_decodeAction (mf_currentAction (w_fsm w)) ;;
      mret true
  | _ => mret false
  end.

Definition MasterStart_event (ev : Event) : M S bool :=
  match m_id ev with
  | Event.rx_pkt_master_start_stop =>
      reportActionResult Action.ok ;;
      goto StateId.idle ;;
      mret true
  | Event.timer_timeout =>
      reportActionResult Action.timeout ;;
      goto StateId.idle ;;
      mret true
  | _ => mret false
  end.

Definition SendingToken_event (ev : Event) : M S bool :=
  match m_id ev with
  | Event.rx_pkt_grant_token =>
      goto StateId.waitClientPacketDone ;;
      mret true
  | Event.timer_timeout =>
      goto StateId.idle ;;
      mret true
  | _ => mret false
  end.

Definition WaitClientPacketDone_event (ev : Event) : M S bool :=
  match m_id ev with
  | Event.rx_pkt_client_packet =>
      reportActionResult Action.client_packet_started ;;
      goto StateId.idle ;;
      mret true
  | Event.rx_return_token =>
      reportActionResult Action.rx_token_no_packet ;;
      goto StateId.idle ;;
      mret true
  | Event.timer_timeout =>
      rx ← zoom clientSending;
      (if rx : bool then zoom (startTimer Config.masterTokenClientTimeout)
       else
         reportActionResult Action.token_timeout ;;
         goto StateId.idle) ;;
      mret true
  | _ => mret false
  end.

Definition QueryAddress_event (ev : Event) : M S bool :=
  match m_id ev with
  | Event.timer_timeout =>
      rx ← zoom clientSending;
      (if rx : bool then zoom (startTimer Config.masterTokenClientTimeout)
       else
         reportActionResult Action.address_query_done ;;
         goto StateId.idle) ;;
      mret true
  | Event.rx_pkt_address_request =>
      zoom (receivedAddressRequest (eventData ev)) ;;
      goto StateId.waitAddressReply ;;
      mret true
  | _ => mret false
  end.

Definition WaitAddressReply_event (ev : Event) : M S bool :=
  match m_id ev with
  | Event.timer_timeout =>
      rx ← zoom clientSending;
      (if rx : bool then zoom (startTimer Config.masterTokenClientTimeout)
       else goto StateId.idle) ;;
      mret true
  | _ => mret false
  end.

Definition state_event (k : StateId) (ev : Event) : M S bool :=
  match k with
  | StateId.idle => Idle_event ev
  | StateId.startMaster => MasterStart_event ev
  | StateId.sendingToken => SendingToken_event ev
  | StateId.waitClientPacketDone => WaitClientPacketDone_event ev
  | StateId.queryAddress => QueryAddress_event ev
  | StateId.waitAddressReply => WaitAddressReply_event ev
  end.

(** The constructors. *)
Definition state_make (k : StateId) : M S () :=
  match k with
  | StateId.idle => skip
  | StateId.startMaster =>
      zoom (on_env MasterPacketTx.sendMasterStart) ;;
      zoom (startTimer (milliseconds 100))
  | StateId.sendingToken => zoom (startTimer Config.masterTokenGrantTx2RxTime)
  | StateId.waitClientPacketDone => zoom (startTimer Config.masterTokenClientTimeout)
  | StateId.queryAddress =>
      zoom (startTimer Config.masterTokenClientTimeout) ;;
      zoom (on_env MasterPacketTx.sendAddressDiscovery)
  | StateId.waitAddressReply => zoom (startTimer Config.masterTokenClientTimeout)
  end.

(** The destructors. *)
Definition state_destroy (k : StateId) : M S () :=
  match k with
  | StateId.idle => skip
  | StateId.startMaster | StateId.sendingToken | StateId.waitClientPacketDone
  | StateId.queryAddress => zoom cleanTimer
  | StateId.waitAddressReply =>
      zoom cleanTimer ;;
      reportActionResult Action.address_query_done
  end.
End states.

#[export] Program Instance MasterFSM_code : RootCode World StateId Event := {
  rc_make S _ post k := state_make k;
  rc_destroy S _ post k := state_destroy post k;
  rc_event S _ post trans k ev := state_event post trans k ev
}.
Next Obligation.
  intros S T ? ? R ? post post' k Hpost. destruct k; simpl; sim_steps.
Qed.
Next Obligation.
  intros S T ? ? R ? post post' k Hpost.
  destruct k; simpl; unfold reportActionResult, ActionHandler_reportActionResult,
    checkNewAction, startAction; sim_steps.
Qed.
Next Obligation.
  intros S T ? ? R ? post post' trans trans' k ev Hpost Htrans.
  destruct k; simpl; unfold Idle_event, MasterStart_event, SendingToken_event,
    WaitClientPacketDone_event, QueryAddress_event, WaitAddressReply_event,
    Idle_decodeAction, reportActionResult, ActionHandler_reportActionResult,
    checkNewAction, startAction, goto; sim_steps.
Qed.

(** The states that the constructor of [MasterFSM] registers, all of them roots. *)
Definition add_states : M (Fsm StateId Event) () :=
  for_each (λ k, addState (StateId.value k) (StateId.value k) 16 k "")
    [StateId.idle; StateId.startMaster; StateId.sendingToken;
     StateId.waitClientPacketDone; StateId.queryAddress; StateId.waitAddressReply].
End fsm.
