(* ===== verification/Master.v ===== *)
(** * The master (master/Master.cpp)

    The objects of the previous files put together: the constructor, the
    dispatch of received packets, the callbacks of the three timers, and the
    inputs a running master gets, as a step relation. *)

From S2P Require Import Prelude SerialProtocol VecQueue StateChart RootChart Config.
From S2P Require Import TimeService MasterScheduler MasterState DynamicHandler.
From S2P Require Import MasterFSM.

(** Fuel for one input. The events that one input causes are at most as many as
    the scheduler has actions, which the invariant bounds by 21; see
    [master_input_ok]. *)
Definition master_fuel : nat := 40.

Section master.
Context {E Q : Type} `{!MasterEnv E} `{!PriorityQueue Q}.

Definition Master : Type := (Fsm StateId Event * World E Q)%type.

#[local] Instance master_code : StateCode Master StateId Event := root_code.

Definition post (ev : Event) : M Master () := postEvent master_fuel ev.

(** [m_fsm.startAction], as the action handler's trigger calls it. *)
Definition triggerAction : M Master () := checkNewAction post.

Definition on_world {A} (m : M (World E Q) A) : M Master A := zoom m.

Definition newWorld (start : Time) (env : E) : World E Q :=
  mkWorld (newTimeService start) env newActionHandler newDynamicHandler newMasterFSM.

(** The constructor, on the members as their own constructors leave them. *)
Definition construct : M Master () :=
  on_part fst (λ f s, (f, s.2)) add_states ;;
  on_world (postActionNow makeMasterStartAction) ;;
  on_world start ;;
  setStartState master_fuel (StateId.value StateId.idle) ;;
  triggerAction.

Definition newMaster (start : Time) (env : E) : result Master :=
  result_map snd (construct (newFsm, newWorld start env)).

Definition exitMaster : M Master () := on_world (on_env MasterPacketTx.sendMasterStop).

Definition masterPacketReceived (type : MessageType) (pkt : ByteVec) : M Master () :=
  match type with
  | grant_token => post (newEvent Event.rx_pkt_grant_token)
  | return_token => post (newEvent Event.rx_return_token)
  | send_packet => post (newEvent Event.rx_pkt_client_packet)
  | master_started | master_ended => post (newEvent Event.rx_pkt_master_start_stop)
  | mac_update => post (newEvent Event.rx_pkt_client_packet)
  | address_discovery => skip
  | address_request =>
      if decide (sizeof packet.AddressRequest ≤ length pkt)%nat then
        aReq ← lift_result (toHeader pkt);
        post (mkEvent Event.rx_pkt_address_request aReq)
      else skip
  | address_reply => skip
  | other_type _ => skip
  end.

(** The closures behind the timers. *)
Definition callback (c : MasterTimer) : M Master () :=
  match c with
  | FsmTimeout => post (newEvent Event.timer_timeout)
  | DelayAction => triggerAction
  | QueryPeriod => on_world (postActionNow makeQueryAddressAction)
  end.

(** The event loop lets a due timer fire. *)
Definition timer_fires (i : nat) (c : MasterTimer) : M Master () :=
  on_world (on_ts (modify (expire i))) ;; callback c.

(** What happens to a master: a packet arrives, a due timer fires, time passes
    and the node below does other things. *)
Inductive input : Type :=
  | Received (type : MessageType) (pkt : ByteVec)
  | Fires (i : nat) (c : MasterTimer)
  | Passes (delta : Time) (env : E).

Definition enabled (i : input) (s : Master) : Prop :=
  match i with
  | Received type pkt => bytes pkt
  | Fires i c => due (w_ts s.2) i c
  | Passes delta env => 0 ≤ delta ∧ env_ok env
  end.

Definition handle (i : input) : M Master () :=
  match i with
  | Received type pkt => masterPacketReceived type pkt
  | Fires i c => timer_fires i c
  | Passes delta env =>
      on_world (on_ts (modify (advance delta)) ;; on_env (put env))
  end.

(** The runs of a master. *)
Inductive reachable : Master → Prop :=
  | reach_start start env s :
      seconds 1 ≤ start → env_ok env → newMaster start env = Ok s → reachable s
  | reach_input s i s' :
      reachable s → enabled i s → handle i s = Ok ((), s') → reachable s'.
End master.
