(* ===== verification/MasterInvariant.v ===== *)
(** * The invariant of the master's data

    [world_ok held queries w] for the world [w] while the master holds the token
    actions of [held] and [queries] query actions: each address of the table has
    one token action, there is one query action or one timer about to make it,
    and the addresses of the table and of the pool partition the range. Each
    operation of the dynamic and the action handler is specified on it. *)

From S2P Require Import Prelude SerialProtocol VecQueue StateChart RootChart Config.
From S2P Require Import TimeService MasterScheduler MasterState DynamicHandler.
From S2P Require Import MasterFSM.

Section invariant.
Context {E Q : Type} `{!MasterEnv E} `{!PriorityQueue Q}.
Abbreviation World := (World E Q).
Implicit Types (w : World) (a : Action).

(** ** Actions *)

Definition token_addr a : list LocalAddress :=
  if decide (m_action a = Action.send_token) then [m_address a] else [].
Definition query_count a : nat :=
  if decide (m_action a = Action.query_address) then 1 else 0.
Definition tokens (l : list Action) : list LocalAddress := l ≫= token_addr.
Definition queries (l : list Action) : nat := sum_list_with query_count l.
Definition start_count a : nat :=
  if decide (m_action a = Action.send_master_start) then 1 else 0.
Definition starts (l : list Action) : nat := sum_list_with start_count l.

(** An action that was posted. *)
Definition posted a : Prop :=
  m_reportCB a = true ∧ m_action a ≠ Action.do_nothing ∧
  (m_action a ≠ Action.send_token → m_address a = null_addr).
Definition posted_token a : Prop := posted a ∧ m_action a = Action.send_token.

Lemma tokens_app l1 l2 : tokens (l1 ++ l2) = tokens l1 ++ tokens l2.
Proof. apply bind_app. Qed.
Lemma token_addr_send_action a : m_action a = Action.send_token → token_addr a = [m_address a].
Proof. unfold token_addr. by intros ->. Qed.

Lemma elem_tokens a l :
  m_action a = Action.send_token → a ∈ l → m_address a ∈ tokens l.
Proof.
  intros Ha Hin. apply list_elem_of_bind. exists a. split; [|done].
  rewrite (token_addr_send_action a Ha). left.
Qed.

Lemma queries_app l1 l2 : queries (l1 ++ l2) = (queries l1 + queries l2)%nat.
Proof. apply sum_list_with_app. Qed.
Lemma starts_app l1 l2 : starts (l1 ++ l2) = (starts l1 + starts l2)%nat.
Proof. apply sum_list_with_app. Qed.

(** ** Addresses *)

Definition static_addresses : list LocalAddress := [1; 2; 3].
Definition dynamic_addresses : list LocalAddress := seqZ 33 16.

(** The identities of the dynamic lines, in the order of the table. *)
Definition dynamic_ids (l : list AddressLine) : list UniqueId :=
  omap (λ x, if al_isDynamic x then Some (al_uniqueId x) else None) l.

Record table_ok (d : DynamicHandler) : Prop := {
  tb_partition : (al_address <$> dh_table d) ++ dh_freeAddresses d
    ≡ₚ static_addresses ++ dynamic_addresses;
  tb_dynamic : Forall (λ l, al_isDynamic l = bool_decide (33 ≤ al_address l)) (dh_table d);
  tb_free : Forall (λ f, 33 ≤ f) (dh_freeAddresses d);
  tb_ids : NoDup (dynamic_ids (dh_table d))
}.

Definition addresses w : list LocalAddress := al_address <$> dh_table (w_dh w).
Definition sched w : MasterScheduler Q := ah_scheduler (w_ah w).
Definition waiting_actions w : list Action := el_action <$> waiting (sched w).

(** The machine's timer pointer, armed or expired, is to a timer of its own. *)
Definition fsm_timer_ok w : Prop :=
  match mf_timer (w_fsm w) with
  | None => True
  | Some i => (i < ts_next (w_ts w))%nat ∧
      ∀ p, p ∈ ts_pending (w_ts w) → p.1 = i → p.2.2 = FsmTimeout
  end.

Record world_ok (held : list LocalAddress) (qs : nat) w : Prop := {
  wo_ts : service_ok (w_ts w);
  wo_now : seconds 1 ≤ ts_now (w_ts w);
  wo_timer : fsm_timer_ok w;
  wo_sched : scheduler_inv (sched w);
  wo_ready : Forall posted (ready (sched w));
  wo_waiting : Forall posted_token (waiting_actions w);
  wo_future : Forall (λ el, seconds 1 ≤ m_nextTime el) (waiting (sched w));
  wo_table : table_ok (w_dh w);
  wo_tokens : addresses w
    ≡ₚ held ++ tokens (ready (sched w)) ++ tokens (waiting_actions w);
  wo_queries : (qs + queries (ready (sched w))
    + length (armed_for QueryPeriod (w_ts w)) = 1)%nat;
  wo_starts : (starts (ready (sched w)) ≤ 1)%nat;
  wo_env : env_ok (w_env w)
}.

Lemma fsm_timer_ok_arm at_ c w  :
  fsm_timer_ok w → fsm_timer_ok (w <| w_ts ::= arm at_ c |>).
Proof.
  unfold fsm_timer_ok. cbn. destruct (mf_timer (w_fsm w)) as [i|]; [|done].
  intros [Hlt Hp]. split; [simpl; lia|]. intros p Hin Hi.
  apply elem_of_app in Hin as [Hin|Hin]; [by apply Hp|].
  apply list_elem_of_singleton in Hin as ->. simpl in Hi. lia.
Qed.

(** The current action of both objects. *)
Definition current a w : Prop :=
  ah_currentAction (w_ah w) = a ∧ mf_currentAction (w_fsm w) = a.

(** How much work the scheduler has for the time being. *)
Definition due_count w : nat :=
  (length (ready (sched w))
   + length (filter (λ el, m_nextTime el <= ts_now (w_ts w))%Z (waiting (sched w))))%nat.

(** What the handlers of the data leave alone: the node, the time, the machine
    and the timers other than their own. *)
Record same_machine w w' : Prop := {
  sm_env : w_env w' = w_env w;
  sm_fsm : w_fsm w' = w_fsm w;
  sm_now : ts_now (w_ts w') = ts_now (w_ts w);
  sm_timeout : armed_for FsmTimeout (w_ts w') = armed_for FsmTimeout (w_ts w);
  sm_delay : armed_for DelayAction (w_ts w') = armed_for DelayAction (w_ts w)
}.

Lemma same_machine_refl w : same_machine w w.
Proof. done. Qed.

(** ** Results of token actions *)

Definition delay_of (st : AddressLine.State) : Time :=
  match st with
  | AddressLine.active => Config.addrDelayTokenPacketSent
  | AddressLine.idle => Config.addrDelayTokenReturn
  | AddressLine.badClient => Config.addrDelayTokenTimeout
  | AddressLine.free => Config.addrDelayFreeAddress
  end.

Lemma delay_positive st : 0 < delay_of st.
Proof. by destruct st. Qed.

Lemma on_ts_now w : on_ts now w = Ok (ts_now (w_ts w), w).
Proof. by destruct w. Qed.

Lemma on_ts_move old new w : on_ts (move_assign old new) w = Ok (new, w).
Proof. by destruct w. Qed.

Lemma on_ts_arm at_ c w :
  on_ts (makeTimeoutAbs at_ c) w
  = Ok (Some (ts_next (w_ts w)), w <| w_ts ::= arm at_ c |>).
Proof. unfold on_ts, on_part. by rewrite makeTimeoutAbs_spec. Qed.

Lemma nextTime_spec st w : nextTime st w = Ok (ts_now (w_ts w) + delay_of st, w).
Proof.
  unfold nextTime. eapply bind_step.
  { unfold on_ts, on_part. cbn. done. }
  destruct w. by destruct st.
Qed.

Definition set_scheduler (s : MasterScheduler Q) w : World :=
  w <| w_ah ::= λ h, h <| ah_scheduler := s |> |>.

Lemma sched_set_scheduler s w : sched (set_scheduler s w) = s.
Proof. done. Qed.

Lemma postAction_spec act t w :
  postAction act t w = Ok ((), set_scheduler
    ((sched w) <| m_waiting ::= pq_emplace (mkQueueEl t (act <| m_reportCB := true |>)) |>) w).
Proof. done. Qed.

Lemma postActionNow_spec act w :
  scheduler_inv (sched w) →
  ∃ s, postActionNow act w = Ok ((), set_scheduler s w) ∧ scheduler_inv s ∧
    ready s = ready (sched w) ++ [act <| m_reportCB := true |>] ∧
    m_waiting s = m_waiting (sched w).
Proof.
  intros Hinv. destruct (addActionNow_spec (act <| m_reportCB := true |>) _ Hinv)
    as (s & Hs & Hinv' & Hr & Hw).
  exists s. split_and!; try done.
  unfold postActionNow, on_scheduler, on_part.
  change (ah_scheduler (w_ah w)) with (sched w). by rewrite Hs.
Qed.

Lemma findLine_elem addr d :
  addr ∈ al_address <$> dh_table d →
  ∃ i line, findLine addr d = Some i ∧ dh_table d !! i = Some line ∧
    al_address line = addr.
Proof.
  intros (line & -> & Hin)%list_elem_of_fmap.
  destruct (list_find_elem_of (λ l, al_address l = al_address line) _ _ Hin eq_refl)
    as [[i line'] Hfind].
  pose proof (proj1 (list_find_Some _ _ _ _) Hfind) as (Hi & Ha & _).
  exists i, line'. unfold findLine. by rewrite Hfind.
Qed.

Lemma setState_address st line : al_address (setState st line) = al_address line.
Proof. by destruct line. Qed.
Lemma setState_dynamic st line : al_isDynamic (setState st line) = al_isDynamic line.
Proof. by destruct line. Qed.
Lemma setState_id st line : al_uniqueId (setState st line) = al_uniqueId line.
Proof. by destruct line. Qed.

(** A line changes its state, or leaves the table for the pool. *)
Definition updated addr st i line w : World :=
  let line' := setState st line in
  if removeDynamic line' then
    w <| w_dh ::= λ d, d <| dh_table ::= delete i |>
                         <| dh_freeAddresses ::= (.++ [addr]) |> |>
  else
    set_scheduler ((sched w) <| m_waiting ::= pq_emplace
        (mkQueueEl (ts_now (w_ts w) + delay_of (al_state line'))
           ((makeSendTokenAction addr) <| m_reportCB := true |>)) |>)
      (w <| w_dh ::= λ d, d <| dh_table ::= <[i := line']> |> |>).

Lemma delete_insert_list {A} (i : nat) (x : A) (l : list A) : delete i (<[i := x]> l) = delete i l.
Proof.
  revert i. induction l as [|y l IH]; intros [|i]; simpl; [done..|]. f_equal. apply IH.
Qed.

Lemma updateAddressLine_spec addr st i line w :
  findLine addr (w_dh w) = Some i → dh_table (w_dh w) !! i = Some line →
  al_address line = addr →
  updateAddressLine addr st w = Ok ((), updated addr st i line w).
Proof.
  intros Hfind Hi Ha. unfold updateAddressLine, updated.
  eapply bind_step; [done|]. rewrite Hfind. eapply bind_step; [done|].
  rewrite Hi. eapply bind_step; [done|]. eapply bind_step; [done|].
  destruct (removeDynamic (setState st line)).
  - eapply bind_step; [done|]. unfold removeLine, modify_dh, modify.
    rewrite setState_address, Ha.
    destruct w as [ts env ah [mn mx fr tb tm] fm]. unfold update. cbn.
    by rewrite delete_insert_list.
  - eapply bind_step; [apply nextTime_spec|]. by destruct w.
Qed.

Lemma fmap_insert_same {A B} (f : A → B) (l : list A) (i : nat) x y :
  l !! i = Some x → f y = f x → f <$> <[i := y]> l = f <$> l.
Proof.
  intros Hi Hf. rewrite list_fmap_insert. apply list_insert_id.
  by rewrite list_lookup_fmap, Hi, Hf.
Qed.

Lemma dynamic_ids_insert l (i : nat) x y :
  l !! i = Some x → al_isDynamic y = al_isDynamic x → al_uniqueId y = al_uniqueId x →
  dynamic_ids (<[i := y]> l) = dynamic_ids l.
Proof.
  intros Hi Hd Hu. unfold dynamic_ids.
  rewrite insert_take_drop by (by eapply lookup_lt_Some).
  rewrite <-(take_drop_middle l i x Hi) at 3. rewrite !omap_app. simpl.
  by rewrite Hd, Hu.
Qed.

Lemma dynamic_ids_delete l (i : nat) :
  NoDup (dynamic_ids l) → NoDup (dynamic_ids (delete i l)).
Proof.
  intros Hnd. destruct (l !! i) as [z|] eqn:Hi.
  - unfold dynamic_ids in Hnd. rewrite (delete_Permutation _ _ _ Hi) in Hnd. simpl in Hnd.
    destruct (al_isDynamic z); [by apply NoDup_cons in Hnd as [_ ?]|done].
  - apply lookup_ge_None in Hi.
    by rewrite delete_take_drop, take_ge, drop_ge, app_nil_r by lia.
Qed.

Lemma table_ok_update d i line line' :
  table_ok d → dh_table d !! i = Some line → al_address line' = al_address line →
  al_isDynamic line' = al_isDynamic line → al_uniqueId line' = al_uniqueId line →
  table_ok (d <| dh_table ::= <[i := line']> |>).
Proof.
  intros [] Hi Ha Hd Hu. 
  constructor; simpl_rec.
  - by rewrite (fmap_insert_same _ _ _ _ _ Hi Ha).
  - apply Forall_insert; [done|]. rewrite Hd, Ha.
    exact (Forall_lookup_1 _ _ _ _ tb_dynamic0 Hi).
  - done.
  - by rewrite (dynamic_ids_insert _ _ _ _ Hi).
Qed.

Lemma table_ok_remove d i line :
  table_ok d → dh_table d !! i = Some line → al_isDynamic line = true →
  table_ok (d <| dh_table ::= delete i |>
              <| dh_freeAddresses ::= (.++ [al_address line]) |>).
Proof.
  intros [] Hi Hd. pose proof (delete_Permutation _ _ _ Hi) as Hperm.
  pose proof (proj1 (Forall_lookup _ _) tb_dynamic0 _ _ Hi) as Hdyn. simpl in Hdyn.
  rewrite Hd in Hdyn. symmetry in Hdyn. apply bool_decide_eq_true_1 in Hdyn.
  constructor; simpl_rec.
  - pose proof (fmap_Permutation al_address _ _ Hperm) as Haddr. simpl in Haddr.
    rewrite <-tb_partition0, Haddr. by rewrite app_assoc, <-Permutation_cons_append.
  - apply Forall_cons_1 with (x := line). by rewrite <-Hperm.
  - apply Forall_app. split; [done|]. by apply Forall_singleton.
  - by apply dynamic_ids_delete.
Qed.

Lemma token_addr_send addr cb res :
  token_addr (mkAction Action.send_token addr res cb) = [addr].
Proof. done. Qed.

Lemma tokens_perm l1 l2 : l1 ≡ₚ l2 → tokens l1 ≡ₚ tokens l2.
Proof. intros H. unfold tokens. by rewrite H. Qed.

(** A token action that waits for a later time. *)
Lemma wait_later addr t (s : MasterScheduler Q) :
  scheduler_inv s →
  let s' := s <| m_waiting ::= pq_emplace
    (mkQueueEl t ((makeSendTokenAction addr) <| m_reportCB := true |>)) |> in
  scheduler_inv s' ∧ ready s' = ready s ∧
  waiting s' ≡ₚ mkQueueEl t (mkAction Action.send_token addr Action.not_set true)
    :: waiting s.
Proof. intros Hinv s'. split_and!; [done..|]. apply pq_elements_emplace. Qed.

Lemma updated_ok addr st i line w :
  world_ok [addr] 0 w → dh_table (w_dh w) !! i = Some line → al_address line = addr →
  let w' := updated addr st i line w in
  world_ok [] 0 w' ∧ same_machine w w' ∧ w_ah w' = (w_ah w) <| ah_scheduler := sched w' |>
  ∧ ready (sched w') = ready (sched w) ∧ due_count w' = due_count w.
Proof.
  intros [] Hi Ha w'. subst w'. unfold updated.
  pose proof (delay_positive (al_state (setState st line))) as Hpos.
  destruct (removeDynamic (setState st line)) eqn:Hrm.
  - unfold removeDynamic in Hrm. apply andb_prop in Hrm as [Hd _].
    rewrite setState_dynamic in Hd.
    pose proof (fmap_Permutation al_address _ _ (delete_Permutation _ _ _ Hi)) as Haddr.
    split_and!; try done; [|by destruct w as [? ? [] ? ?]].
    constructor; try done.
    + subst addr. by apply (table_ok_remove _ _ _ wo_table0).
    + unfold addresses in *. simpl in *. rewrite Haddr, Ha in wo_tokens0.
      by apply Permutation_cons_inv in wo_tokens0.
  - set (el := mkQueueEl _ _).
    destruct (wait_later addr (m_nextTime el) (sched w) wo_sched0) as (Hs & Hr & Hw).
    fold el in Hs, Hr, Hw.
    set (s := (sched w) <| m_waiting ::= pq_emplace el |>) in *.
    assert (waiting s ≡ₚ el :: waiting (sched w)) as Hw' by exact Hw.
    assert (ready s = ready (sched w)) as Hr' by exact Hr.
    assert (seconds 1 ≤ m_nextTime el) as Hel
      by (unfold el; cbn [m_nextTime]; lia).
    split_and!; try done.
    + constructor; try done.
      * unfold waiting_actions. rewrite sched_set_scheduler. rewrite Hw'. simpl.
        constructor; [|done]. by repeat split.
      * rewrite sched_set_scheduler. rewrite Hw'. by constructor.
      * eapply table_ok_update; [done|done|..];
          [apply setState_address|apply setState_dynamic|apply setState_id].
      * unfold addresses, waiting_actions in *. rewrite sched_set_scheduler. simpl.
        rewrite (fmap_insert_same _ _ _ _ _ Hi (setState_address st line)).
        rewrite wo_tokens0, Hr'.
        rewrite (tokens_perm _ _ (fmap_Permutation el_action _ _ Hw')). simpl.
        by rewrite Permutation_middle.
    + unfold due_count. rewrite sched_set_scheduler. rewrite Hr'. f_equal.
      rewrite (Permutation_length (filter_Permutation _ _ _ Hw')).
      rewrite filter_cons, decide_False; [done|]. intros Hle.
      change (ts_now (w_ts w) + delay_of (al_state (setState st line))
        ≤ ts_now (w_ts w)) in Hle. lia.
Qed.

(** The three results of a token action. *)
Definition token_result (rv : Action.ReturnValue) : option AddressLine.State :=
  match rv with
  | Action.client_packet_started => Some AddressLine.active
  | Action.rx_token_no_packet => Some AddressLine.idle
  | Action.token_timeout => Some AddressLine.badClient
  | _ => None
  end.

Definition set_ah_current act w : World :=
  w <| w_ah ::= λ h, h <| ah_currentAction := act |> |>.

Lemma set_ah_current_ok act held qs w :
  world_ok held qs w → world_ok held qs (set_ah_current act w).
Proof. intros []. by constructor. Qed.

(** After a result is recorded: no action is held, and none is newly due. *)
Definition recorded w w' : Prop :=
  world_ok [] 0 w' ∧ same_machine w w' ∧
  ah_currentAction (w_ah w') = makeDoNothingAction ∧ due_count w' = due_count w.

Lemma recordResult_token rv st w :
  token_result rv = Some st →
  world_ok [m_address (ah_currentAction (w_ah w))] 0 w →
  wp (recordResult rv) never (λ _ w', recorded w w') w.
Proof.
  intros Hrv Hok. unfold recordResult. wp_step. apply wp_get. wp_step. apply wp_modify.
  set (addr := m_address _) in *.
  change (w <| w_ah ::= _ |>) with (set_ah_current makeDoNothingAction w).
  set (w1 := set_ah_current _ w).
  assert (world_ok [addr] 0 w1) as Hok1 by by apply set_ah_current_ok.
  destruct (findLine_elem addr (w_dh w1)) as (i & line & Hf & Hi & Ha).
  { change (addr ∈ addresses w1). rewrite (wo_tokens _ _ _ Hok1). left. }
  destruct (updated_ok addr st i line w1 Hok1 Hi Ha) as (Hok' & [] & Hah & Hr & Hdue).
  assert (updateAddressLine addr st w1 = Ok ((), updated addr st i line w1)) as Hup
    by by apply updateAddressLine_spec.
  assert (recorded w (updated addr st i line w1)) as Hrec.
  { split_and!; [done|by constructor|by rewrite Hah|by rewrite Hdue]. }
  destruct rv; simpl in Hrv; try done; injection Hrv as <-; by eapply wp_eq.
Qed.

Lemma recordResult_ok w :
  world_ok [] 0 w → wp (recordResult Action.ok) never (λ _ w', recorded w w') w.
Proof.
  intros Hok. unfold recordResult. wp_step. apply wp_get. wp_step. apply wp_modify.
  apply wp_skip. split_and!; [by apply set_ah_current_ok|done..].
Qed.

Lemma addressDiscoveryIsDone_spec w :
  addressDiscoveryIsDone w = Ok ((),
    w <| w_ts ::= arm (ts_now (w_ts w) + Config.addrQueryPeriod) QueryPeriod |>
      <| w_dh ::= λ d, d <| dh_timer := Some (ts_next (w_ts w)) |> |>).
Proof.
  unfold addressDiscoveryIsDone. eapply bind_step; [done|].
  eapply bind_step.
  { unfold on_ts, on_part. rewrite makeTimeoutAbs_spec. done. }
  eapply bind_step; [done|]. eapply bind_step; [done|]. by destruct w as [[]].
Qed.

Lemma recordResult_query w :
  world_ok [] 1 w →
  wp (recordResult Action.address_query_done) never (λ _ w', recorded w w') w.
Proof.
  intros Hok. unfold recordResult. wp_step. apply wp_get. wp_step. apply wp_modify.
  change (w <| w_ah ::= _ |>) with (set_ah_current makeDoNothingAction w).
  apply (set_ah_current_ok makeDoNothingAction) in Hok.
  eapply wp_eq; [apply addressDiscoveryIsDone_spec|].
  set (w1 := set_ah_current _ w) in *. destruct Hok.
  split_and!; [|constructor; try done|done|done].
  - constructor; try done.
    + by apply service_ok_arm.
    + by apply (fsm_timer_ok_arm (ts_now (w_ts w1) + Config.addrQueryPeriod) QueryPeriod w1).
    + destruct wo_table0. by constructor.
    + change (0 + queries (ready (sched w1)) + length (armed_for QueryPeriod
        (arm (ts_now (w_ts w1) + Config.addrQueryPeriod) QueryPeriod (w_ts w1))) = 1)%nat.
      rewrite armed_for_arm_same, length_app. cbn [length]. lia.
  - by apply armed_for_arm_other.
  - by apply armed_for_arm_other.
Qed.

(** ** The next action *)

Lemma static_in_table held qs w (x : LocalAddress) :
  world_ok held qs w → x ∈ static_addresses → x ∈ addresses w.
Proof.
  intros [] Ha. destruct wo_table0.
  assert (x ∈ addresses w ++ dh_freeAddresses (w_dh w)) as [|Hf]%elem_of_app; [|done|].
  { unfold addresses. rewrite tb_partition0. apply elem_of_app. by left. }
  rewrite Forall_forall in tb_free0. specialize (tb_free0 x Hf).
  unfold static_addresses in Ha. set_unfold in Ha. lia.
Qed.

Lemma tokens_elem (x : LocalAddress) l : x ∈ tokens l → l ≠ [].
Proof. intros Ha ->. by apply not_elem_of_nil in Ha. Qed.

Lemma posted_token_queries l : Forall posted_token l → queries l = 0%nat.
Proof.
  induction 1 as [|a l [_ Ha] Hl IH]; [done|].
  unfold queries in *. cbn [sum_list_with]. unfold query_count at 1.
  rewrite Ha. simpl. exact IH.
Qed.

Lemma posted_token_starts l : Forall posted_token l → starts l = 0%nat.
Proof.
  induction 1 as [|a l [_ Ha] Hl IH]; [done|].
  unfold starts in *. cbn [sum_list_with]. unfold start_count at 1.
  rewrite Ha. simpl. exact IH.
Qed.

(** Moving due actions to the ready queue changes nothing of the invariant. *)
Lemma moved_ok held qs w s moved :
  world_ok held qs w → scheduler_inv s →
  ready s = ready (sched w) ++ (el_action <$> moved) →
  waiting (sched w) ≡ₚ moved ++ waiting s →
  world_ok held qs (set_scheduler s w).
Proof.
  intros [] Hinv Hr Hw.
  pose proof (fmap_Permutation el_action _ _ Hw) as Hwa. rewrite fmap_app in Hwa.
  unfold waiting_actions in *. rewrite Hwa in wo_waiting0. rewrite Hw in wo_future0.
  apply Forall_app in wo_waiting0 as [Hm1 Hm2]. apply Forall_app in wo_future0 as [_ Hf].
  constructor; try done; rewrite ?sched_set_scheduler.
  - rewrite Hr. apply Forall_app. split; [done|].
    eapply Forall_impl; [done|]. by intros a [].
  - change (addresses _) with (addresses w). rewrite wo_tokens0, Hr, tokens_app.
    rewrite (tokens_perm _ _ Hwa), tokens_app. unfold waiting_actions.
    rewrite sched_set_scheduler. by rewrite <-!app_assoc.
  - rewrite Hr, queries_app, (posted_token_queries _ Hm1).
    change (w_ts _) with (w_ts w). lia.
  - rewrite Hr, starts_app, (posted_token_starts _ Hm1). lia.
Qed.

(** Taking the first ready action: it is held from then on. *)
Lemma taken_ok a l w s :
  world_ok [] 0 w → ready (sched w) = a :: l → scheduler_inv s → ready s = l →
  m_waiting s = m_waiting (sched w) →
  world_ok (token_addr a) (query_count a) (set_scheduler s w) ∧ posted a.
Proof.
  intros [] Hr Hinv Hl Hw. rewrite Hr in *.
  apply Forall_cons in wo_ready0 as [Ha Hready].
  assert (waiting s = waiting (sched w)) as Hw' by (unfold waiting; by rewrite Hw).
  split; [|done].
  constructor; try done; unfold waiting_actions in *; rewrite ?sched_set_scheduler, ?Hw';
    try done.
  - by rewrite Hl.
  - change (addresses _) with (addresses w). rewrite wo_tokens0, Hl.
    unfold tokens. simpl. by rewrite <-app_assoc.
  - rewrite Hl. unfold queries in *. cbn [sum_list_with] in wo_queries0.
    change (w_ts _) with (w_ts w). lia.
  - rewrite Hl. unfold starts in *. cbn [sum_list_with] in wo_starts0. lia.
Qed.

Lemma due_moved now (l moved rest : list QueueEl) :
  l ≡ₚ moved ++ rest → Forall (λ el, m_nextTime el ≤ now) moved →
  Forall (λ el, now < m_nextTime el) rest →
  length (filter (λ el, m_nextTime el ≤ now) l) = length moved
  ∧ filter (λ el, m_nextTime el ≤ now) rest = [].
Proof.
  intros Hp Hm Hr.
  assert (filter (λ el, m_nextTime el ≤ now) rest = []) as Hrest.
  { clear Hp. induction Hr as [|el l' Hel Hl' IH]; [done|].
    rewrite filter_cons, decide_False by lia. exact IH. }
  split; [|done].
  rewrite (Permutation_length (filter_Permutation _ _ _ Hp)), filter_app, Hrest, app_nil_r.
  clear Hp Hr Hrest. induction Hm as [|el l' Hel Hl' IH]; [done|].
  rewrite filter_cons, decide_True by lia. simpl. by rewrite IH.
Qed.

Lemma on_scheduler_ok {A} (m : M (MasterScheduler Q) A) (x : A) s w :
  m (sched w) = Ok (x, s) → on_scheduler m w = Ok (x, set_scheduler s w).
Proof.
  intros Hm. unfold on_scheduler, on_part. fold (sched w). by rewrite Hm.
Qed.

(** The action handler found an action to do, or set its timer. *)
Definition chosen w (oa : option Action) w' : Prop :=
  w_env w' = w_env w ∧ w_fsm w' = w_fsm w ∧ ts_now (w_ts w') = ts_now (w_ts w) ∧
  armed_for FsmTimeout (w_ts w') = armed_for FsmTimeout (w_ts w) ∧
  match oa with
  | Some a =>
      world_ok (token_addr a) (query_count a) w' ∧ posted a ∧
      ah_currentAction (w_ah w') = a ∧ (due_count w' < due_count w)%nat ∧
      armed_for DelayAction (w_ts w') = armed_for DelayAction (w_ts w)
  | None =>
      world_ok [] 0 w' ∧ ah_currentAction (w_ah w') = makeDoNothingAction ∧
      ready (sched w') = [] ∧
      ∃ i t, armed_for DelayAction (w_ts w') = armed_for DelayAction (w_ts w) ++ [(i, t)]
  end.

Lemma nextAction_take w a l moved s s' :
  world_ok [] 0 w →
  scheduler.workToDo (ts_now (w_ts w)) (sched w) = Ok (true, s) →
  scheduler_inv s → ready s = ready (sched w) ++ (el_action <$> moved) →
  waiting (sched w) ≡ₚ moved ++ waiting s →
  Forall (λ el, m_nextTime el ≤ ts_now (w_ts w)) moved →
  Forall (λ el, ts_now (w_ts w) < m_nextTime el) (waiting s) →
  ready s = a :: l → scheduler_inv s' → ready s' = l → m_waiting s' = m_waiting s →
  chosen w (Some a) (set_scheduler s' (set_ah_current a (set_scheduler s w))).
Proof.
  intros Hok Hwork Hinv Hr Hw Hm Hf Hal Hinv' Hl Hws.
  pose proof (moved_ok _ _ _ _ _ Hok Hinv Hr Hw) as Hok1.
  apply (set_ah_current_ok a) in Hok1.
  destruct (taken_ok a l _ s' Hok1 Hal Hinv' Hl Hws) as [Hok2 Hposted].
  repeat (split; [done|]). split_and!; try done. unfold due_count.
  rewrite !sched_set_scheduler.
  destruct (due_moved _ _ _ _ Hw Hm Hf) as [Hdue Hrest].
  change (ts_now (w_ts (set_scheduler _ _))) with (ts_now (w_ts w)).
  rewrite Hdue, Hl.
  assert (waiting s' = waiting s) as -> by (unfold waiting; by rewrite Hws).
  rewrite Hrest. simpl. apply (f_equal length) in Hr. rewrite Hal in Hr.
  rewrite length_app, length_fmap in Hr. simpl in Hr. lia.
Qed.

(** With nothing ready, something waits, so there is a time to wait for. *)
Lemma readyTime_future w :
  world_ok [] 0 w → ready (sched w) = [] → seconds 1 ≤ scheduler.readyTime (sched w).
Proof.
  intros Hok Hrs. pose proof (readyTime_spec (sched w)) as Hrt.
  destruct (waiting (sched w)) as [|el0 l0] eqn:Hws.
  - pose proof (static_in_table _ _ _ 1 Hok ltac:(left)) as H1.
    rewrite (wo_tokens _ _ _ Hok) in H1. unfold waiting_actions in H1.
    rewrite Hrs, Hws in H1. by apply not_elem_of_nil in H1.
  - destruct Hrt as (el & Hel & -> & _). pose proof (wo_future _ _ _ Hok) as Hfut.
    rewrite Hws in Hfut. by eapply Forall_forall in Hfut.
Qed.

Lemma nextAction_spec w :
  world_ok [] 0 w → ah_currentAction (w_ah w) = makeDoNothingAction →
  wp nextAction never (λ oa w', chosen w oa w') w.
Proof.
  intros Hok Hcur. unfold nextAction. wp_step. apply wp_get. rewrite Hcur. simpl.
  wp_step. eapply wp_eq; [apply on_ts_now|].
  destruct (workToDo_spec (ts_now (w_ts w)) _ (wo_sched _ _ _ Hok))
    as (s & moved & Hs & Hinv & Hr & Hw & Hm & Hf & _).
  wp_step. eapply wp_eq; [by apply on_scheduler_ok|].
  destruct (ready s) as [|a l] eqn:Hrs.
  - rewrite bool_decide_eq_false_2 by tauto.
    pose proof (moved_ok _ _ _ _ _ Hok Hinv ltac:(by rewrite Hrs) Hw) as Hok1.
    wp_step. apply wp_get.
    set (w1 := set_scheduler s w) in *. cbv zeta.
    change (ah_scheduler (w_ah w1)) with s.
    pose proof (readyTime_future w1 Hok1 Hrs) as Htime. change (sched w1) with s in Htime.
    assert ((scheduler.readyTime s <? seconds 1) = false) as ->
      by (apply Z.ltb_ge; lia).
    wp_step. eapply wp_eq; [apply on_ts_arm|].
    wp_step. eapply wp_eq; [apply on_ts_move|]. wp_step. apply wp_modify. apply wp_ret.
    repeat (split; [done|]). split; [by apply armed_for_arm_other|].
    split_and!; [|done|by rewrite <-Hrs|].
    + destruct Hok1. constructor; try done.
      * by apply service_ok_arm.
      * by apply (fsm_timer_ok_arm (scheduler.readyTime s) DelayAction w1).
      * change (0 + queries (ready (sched w1)) + length (armed_for QueryPeriod
          (arm (scheduler.readyTime s) DelayAction (w_ts w1))) = 1)%nat.
        by rewrite armed_for_arm_other.
    + eexists _, _. apply armed_for_arm_same.
  - rewrite bool_decide_eq_true_2 by done.
    rewrite bool_decide_eq_true_2 in Hs by done.
    destruct (front_pop_spec a l s Hinv Hrs) as [Hfront (s' & Hpop & Hinv' & Hl & Hws)].
    wp_step. eapply wp_eq; [by apply on_scheduler_ok|].
    assert (set_scheduler s (set_scheduler s w) = set_scheduler s w) as ->
      by (by destruct w as [? ? [] ? ?]).
    wp_step. apply wp_modify. wp_step. eapply wp_eq; [by apply on_scheduler_ok|].
    apply wp_ret.
    eapply nextAction_take; try done. by rewrite Hrs.
Qed.

(** No address is in the table or the pool twice, so none has two token actions. *)
Lemma addresses_distinct held qs w :
  world_ok held qs w → NoDup (addresses w ++ dh_freeAddresses (w_dh w)).
Proof.
  intros [_ _ _ _ _ _ _ [Hp _ _ _] _ _ _ _]. unfold addresses. rewrite Hp.
  by apply (bool_decide_unpack _).
Qed.

Lemma tokens_distinct held qs w :
  world_ok held qs w → NoDup (held ++ tokens (ready (sched w)) ++ tokens (waiting_actions w)).
Proof.
  intros Hok. rewrite <-(wo_tokens _ _ _ Hok).
  by apply addresses_distinct, NoDup_app in Hok as [? _].
Qed.

(** ** Address requests *)

(** A line for a new identity. *)
Lemma alloc_ok held qs w free addr uid ct s :
  world_ok held qs w → dh_freeAddresses (w_dh w) = free ++ [addr] →
  findLine_id uid (w_dh w) = None → scheduler_inv s →
  ready s = ready (sched w) ++ [(makeSendTokenAction addr) <| m_reportCB := true |>] →
  m_waiting s = m_waiting (sched w) →
  let w' := set_scheduler s (w <| w_dh ::= λ d, d <| dh_freeAddresses := free |>
    <| dh_table ::= (.++ [newAddressLine addr AddressLine.idle true uid ct]) |> |>) in
  world_ok held qs w' ∧ findLine addr (w_dh w') = Some (length (dh_table (w_dh w))).
Proof.
  intros Hok Hfree Hid Hinv Hr Hw w'. subst w'.
  pose proof (addresses_distinct _ _ _ Hok) as Hnd. rewrite Hfree in Hnd. destruct Hok.
  assert (waiting s = waiting (sched w)) as Hws by (unfold waiting; by rewrite Hw).
  destruct wo_table0. rewrite Hfree in *.
  assert (addr ∉ addresses w) as Hnew.
  { intros Hin. apply NoDup_app in Hnd as (_ & Hdisj & _). apply (Hdisj addr Hin).
    apply elem_of_app. right. left. }
  assert (33 ≤ addr) as Haddr.
  { apply Forall_app in tb_free0 as [_ Hf]. by apply Forall_cons in Hf as [? _]. }
  assert (addr ∉ al_address <$> dh_table (w_dh w)) as Hnew' by exact Hnew.
  split.
  - constructor; try done; unfold waiting_actions in *; rewrite ?sched_set_scheduler, ?Hws;
      try done.
    + rewrite Hr. apply Forall_app. split; [done|]. apply Forall_singleton.
      by repeat split.
    + constructor; cbn [w_dh set_scheduler]; simpl_rec.
      * rewrite fmap_app. simpl. rewrite <-app_assoc.
        rewrite <-tb_partition0. apply Permutation_app_head, Permutation_cons_append.
      * apply Forall_app. split; [done|]. apply Forall_singleton. simpl.
        symmetry. by apply bool_decide_eq_true_2.
      * apply Forall_app in tb_free0 as [? _]. done.
      * unfold dynamic_ids. rewrite omap_app. simpl. apply NoDup_app.
        split_and!; [done| |apply NoDup_singleton].
        intros x Hx Hin. apply list_elem_of_singleton in Hin as ->.
        apply list_elem_of_omap in Hx as (l & Hl & Hid').
        destruct (al_isDynamic l); [|done]. injection Hid' as Hid'.
        unfold findLine_id in Hid. apply fmap_None, list_find_None in Hid.
        by apply (proj1 (Forall_forall _ _) Hid l).
    + rewrite Hr, tokens_app. unfold addresses in *. cbn [w_dh set_scheduler]. simpl_rec.
      rewrite fmap_app. simpl. rewrite wo_tokens0. unfold waiting_actions.
      rewrite <-!app_assoc. do 2 apply Permutation_app_head.
      apply (Permutation_app_comm _ [addr]).
    + rewrite Hr, queries_app. simpl. rewrite Nat.add_0_r. done.
    + rewrite Hr, starts_app. simpl. by rewrite Nat.add_0_r.
  - unfold findLine. cbn [w_dh set_scheduler]. simpl_rec.
    assert (list_find (λ l, al_address l = addr) (dh_table (w_dh w)) = None) as Hnone.
    { apply list_find_None, Forall_forall. intros l Hl Ha. apply Hnew'.
      rewrite <-Ha. by apply list_elem_of_fmap_2. }
    rewrite (list_find_app_r _ _ _ Hnone). simpl. rewrite decide_True by done.
    done.
Qed.

Lemma on_env_ok {A} (m : M E A) x e w :
  m (w_env w) = Ok (x, e) → on_env m w = Ok (x, w <| w_env := e |>).
Proof. intros Hm. unfold on_env, on_part. by rewrite Hm. Qed.

Lemma set_env_ok held qs w e :
  world_ok held qs w → env_ok e → world_ok held qs (w <| w_env := e |>).
Proof. intros [] He. by constructor. Qed.

Lemma address_byte held qs w (x : LocalAddress) :
  world_ok held qs w → x ∈ addresses w → is_byte x.
Proof.
  intros [] Hx. destruct wo_table0.
  assert (x ∈ static_addresses ++ dynamic_addresses) as Hin.
  { rewrite <-tb_partition0. apply elem_of_app. by left. }
  clear Hx. revert x Hin. apply Forall_forall. by apply (bool_decide_unpack _).
Qed.

Context `{Hlaws : !MasterEnvLaws E}.
#[local] Set Default Proof Using "Type Hlaws".

Lemma sendAddressReply_spec local uid (e : E) :
  env_ok e → is_byte local → is_array 8 uid →
  ∃ e', MasterPacketTx.sendAddressReply local uid e = Ok ((), e') ∧
    clientAddress e' = clientAddress e ∧ txQueueEmpty e' = txQueueEmpty e ∧ env_ok e'.
Proof.
  intros He Hl Hu. unfold MasterPacketTx.sendAddressReply. apply sendMasterPacket_ok; [done|..].
  - by apply bytes_fromHeader.
  - rewrite length_fromHeader by done. simpl. lia.
Qed.

(** What an address request leaves alone. *)
Record same_action w w' : Prop := {
  sa_ts : w_ts w' = w_ts w;
  sa_fsm : w_fsm w' = w_fsm w;
  sa_current : ah_currentAction (w_ah w') = ah_currentAction (w_ah w);
  sa_client : clientAddress (w_env w') = clientAddress (w_env w)
}.

(** The line that answers a request in [w'], and the reply sent for it. *)
Definition answered (uid : UniqueId) w w' : Prop :=
  ∃ i line e, dh_table (w_dh w') !! i = Some line ∧ al_uniqueId line = uid ∧
    MasterPacketTx.sendAddressReply (al_address line) uid e = Ok ((), w_env w') ∧
    e = w_env w.

(** The end of [receivedAddressRequest], once the line is known. *)
Lemma answer_line held qs uid i line w :
  world_ok held qs w → is_array 8 uid → dh_table (w_dh w) !! i = Some line →
  wp (w ← get;
      line ← deref "stale address line" (dh_table (w_dh w) !! i);
      on_env (MasterPacketTx.sendAddressReply (al_address line) uid)) never
    (λ _ w', ∃ e', w' = w <| w_env := e' |> ∧ world_ok held qs w' ∧
       clientAddress e' = clientAddress (w_env w) ∧
       MasterPacketTx.sendAddressReply (al_address line) uid (w_env w) = Ok ((), e')) w.
Proof.
  intros Hok Huid Hi. wp_step. apply wp_get. rewrite Hi. wp_step. apply wp_deref.
  assert (is_byte (al_address line)) as Hb.
  { eapply address_byte; [done|]. unfold addresses. apply list_elem_of_fmap_2.
    by eapply list_elem_of_lookup_2. }
  destruct (sendAddressReply_spec (al_address line) uid (w_env w) (wo_env _ _ _ Hok) Hb Huid)
    as (e' & He & Hc & Ht & He').
  eapply wp_eq; [by apply on_env_ok|]. exists e'. split_and!; [done|by apply set_env_ok|done|done].
Qed.

Lemma receivedAddressRequest_spec held qs aReq w :
  world_ok held qs w → is_array 8 (packet.arq_uniqueId aReq) →
  wp (receivedAddressRequest aReq) never (λ _ w',
    world_ok held qs w' ∧ same_action w w' ∧
    match findLine_id (packet.arq_uniqueId aReq) (w_dh w), dh_freeAddresses (w_dh w) with
    | None, [] => w' = w
    | Some i, _ => answered (packet.arq_uniqueId aReq) w w' ∧ w_dh w' = w_dh w
    | None, _ :: _ => ∃ addr free,
        dh_freeAddresses (w_dh w) = free ++ [addr] ∧
        dh_freeAddresses (w_dh w') = free ∧
        dh_table (w_dh w') = dh_table (w_dh w) ++ [newAddressLine addr
          AddressLine.idle true (packet.arq_uniqueId aReq) (packet.arq_channelType aReq)] ∧
        answered (packet.arq_uniqueId aReq) w w'
    end) w.
Proof.
  intros Hok Huid. unfold receivedAddressRequest. set (uid := packet.arq_uniqueId aReq) in *.
  wp_step. apply wp_get.
  destruct (findLine_id uid (w_dh w)) as [i|] eqn:Hfind.
  - wp_step. apply wp_ret.
    unfold findLine_id in Hfind. apply fmap_Some in Hfind as ([i' line] & Hfind & ->).
    apply list_find_Some in Hfind as (Hi & Hline & _).
    eapply wp_mono; [by eapply answer_line|done|]. cbv beta. intros [] w' (e' & -> & Hok' & Hc & Hs).
    split_and!; [done|by constructor| |done]. by exists i', line, (w_env w).
  - destruct (dh_freeAddresses (w_dh w)) as [|f fs] eqn:Hfree.
    { wp_step. apply wp_ret. by apply wp_skip. }
    assert (f :: fs ≠ []) as Hne by done.
    destruct (exists_last Hne) as (free & addr & Hsplit). rewrite Hsplit in *.
    wp_step. wp_step. unfold allocAddress. wp_step. apply wp_get.
    rewrite Hfree, last_snoc. wp_step. apply wp_modify. apply wp_ret.
    wp_step. apply wp_modify. wp_step.
    set (w1 := (w <| w_dh ::= _ |>) <| w_dh ::= _ |>).
    set (line := newAddressLine addr AddressLine.idle true uid (packet.arq_channelType aReq)).
    assert (w1 = w <| w_dh ::= λ d, d <| dh_freeAddresses := free |>
      <| dh_table ::= (.++ [line]) |> |>) as Hw1.
    { unfold w1. destruct w as [ts env ah [mn mx fr tb tm] fm]. simpl in Hfree.
      rewrite Hfree. unfold update. cbn.
      by rewrite length_app, Nat.add_sub, take_app_length. }
    assert (sched w1 = sched w) as Hsched by (by rewrite Hw1).
    destruct (postActionNow_spec (makeSendTokenAction addr) w1) as (s & Hs & Hinv & Hr & Hw).
    { rewrite Hsched. apply Hok. }
    eapply wp_eq; [exact Hs|]. rewrite Hsched in *.
    destruct (alloc_ok held qs w free addr uid (packet.arq_channelType aReq) s
      Hok Hfree Hfind Hinv Hr Hw) as [Hok2 Hfind2]. fold line in Hok2, Hfind2.
    rewrite Hw1. clear Hs.
    match type of Hok2 with world_ok _ _ ?x => set (w2 := x) in * end.
    wp_step. apply wp_get. apply wp_ret. rewrite Hfind2.
    assert (dh_table (w_dh w2) !! length (dh_table (w_dh w)) = Some line) as Hi.
    { change (dh_table (w_dh w2)) with (dh_table (w_dh w) ++ [line]).
      by rewrite lookup_app_r, Nat.sub_diag by lia. }
    eapply wp_mono; [by eapply answer_line|done|]. cbv beta. intros [] w' (e' & -> & Hok' & Hc & He).
    split_and!; [done|by constructor|]. exists addr, free. split_and!; [done|done|done|].
    by exists (length (dh_table (w_dh w))), line, (w_env w2).
Qed.
End invariant.
