(* ===== verification/MasterSafety.v ===== *)
(** * The master keeps its invariant

    Between two inputs a master is in a state that fits its current action, holds
    [world_ok], and has armed exactly the timer that will make it go on. Every
    input of a running master, but for the time-out of the master start, which
    fails an assertion, ends in such a state again. The proof is on the chart of
    RootChart.v, which the state machine refines. *)

From S2P Require Import Prelude SerialProtocol VecQueue StateChart RootChart Config.
From S2P Require Import TimeService MasterScheduler MasterState DynamicHandler.
From S2P Require Import MasterFSM Master MasterInvariant.

Section safety.
Context {E Q : Type} `{!MasterEnv E} `{!PriorityQueue Q}.
Abbreviation World := (World E Q).
Abbreviation T := (Chart StateId Event * World)%type.
Implicit Types (w : World) (a : Action) (t : T).

(** ** The machine's timer *)

Lemma startTimer_spec span w :
  startTimer span w = Ok ((),
    w <| w_ts ::= arm (ts_now (w_ts w) + span) FsmTimeout |>
      <| w_fsm ::= λ m, m <| mf_timer := Some (ts_next (w_ts w)) |> |>).
Proof.
  unfold startTimer. eapply bind_step.
  { unfold on_ts, on_part. rewrite makeTimeout_spec. done. }
  eapply bind_step; [done|]. eapply bind_step; [apply on_ts_move|]. by destruct w.
Qed.

Lemma startTimer_ok held qs span w w' :
  world_ok held qs w → startTimer span w = Ok ((), w') → world_ok held qs w'.
Proof.
  rewrite startTimer_spec. intros [] [= <-]. constructor; try done.
  - by apply service_ok_arm.
  - unfold fsm_timer_ok, arm. cbn. split; [lia|]. intros p Hin Hp.
    apply elem_of_app in Hin as [Hin|Hin].
    + destruct wo_ts as [_ Hlt]. rewrite Forall_forall in Hlt.
      specialize (Hlt p Hin). simpl in Hlt. lia.
    + by apply list_elem_of_singleton in Hin as ->.
  - change (qs + queries (ready (sched w)) + length (armed_for QueryPeriod
      (arm (ts_now (w_ts w) + span) FsmTimeout (w_ts w))) = 1)%nat.
    by rewrite armed_for_arm_other.
Qed.

Lemma cleanTimer_spec w :
  cleanTimer w = Ok ((),
    match mf_timer (w_fsm w) with
    | None => w
    | Some i => w <| w_ts ::= expire i |> <| w_fsm ::= λ m, m <| mf_timer := None |> |>
    end).
Proof.
  unfold cleanTimer. eapply bind_step; [done|].
  destruct w as [ts env ah dh [tm cur]]. simpl. by destruct tm.
Qed.

(** Armed timers of the machine's other callbacks stay, its own go. *)
Lemma armed_for_other c w i :
  service_ok (w_ts w) → fsm_timer_ok w → mf_timer (w_fsm w) = Some i → c ≠ FsmTimeout →
  armed_for c (expire i (w_ts w)) = armed_for c (w_ts w).
Proof.
  intros Hok Htm Hi Hc. rewrite armed_for_expire.
  assert (∀ p, p ∈ armed_for c (w_ts w) → p.1 ≠ i) as Hall.
  { intros [j at_] Hp%elem_of_armed_for Hj. simpl in Hj. subst j.
    unfold fsm_timer_ok in Htm. rewrite Hi in Htm. destruct Htm as [_ Hp'].
    apply Hc. exact (Hp' _ Hp eq_refl). }
  induction (armed_for c (w_ts w)) as [|p l IH]; [done|].
  rewrite filter_cons, decide_True by (apply Hall; left).
  f_equal. apply IH. intros q Hq. apply Hall. by right.
Qed.

(** The timer is armed, with the pointer to it, or is not. *)
Definition running w : Prop :=
  ∃ i at_, mf_timer (w_fsm w) = Some i ∧ armed_for FsmTimeout (w_ts w) = [(i, at_)].
Definition stopped w : Prop := armed_for FsmTimeout (w_ts w) = [].

(** A change of the machine's timer alone. *)
Record same_but_timer w w' : Prop := {
  st_env : w_env w' = w_env w;
  st_ah : w_ah w' = w_ah w;
  st_dh : w_dh w' = w_dh w;
  st_action : mf_currentAction (w_fsm w') = mf_currentAction (w_fsm w);
  st_now : ts_now (w_ts w') = ts_now (w_ts w);
  st_delay : armed_for DelayAction (w_ts w') = armed_for DelayAction (w_ts w)
}.

Lemma wp_startTimer held qs span w :
  world_ok held qs w → stopped w →
  wp (startTimer span) never
    (λ _ w', world_ok held qs w' ∧ running w' ∧ same_but_timer w w') w.
Proof.
  intros Hok Hst. eapply wp_eq; [apply startTimer_spec|].
  split; [by eapply startTimer_ok; [|apply startTimer_spec]|]. split.
  - exists (ts_next (w_ts w)), (ts_now (w_ts w) + span). split; [done|].
    change (armed_for FsmTimeout (arm (ts_now (w_ts w) + span) FsmTimeout (w_ts w))
      = [(ts_next (w_ts w), ts_now (w_ts w) + span)]).
    by rewrite armed_for_arm_same, Hst.
  - constructor; try done. by apply armed_for_arm_other.
Qed.

Lemma wp_cleanTimer held qs w :
  world_ok held qs w → running w ∨ stopped w →
  wp cleanTimer never
    (λ _ w', world_ok held qs w' ∧ stopped w' ∧ same_but_timer w w') w.
Proof.
  intros Hok Hrun. eapply wp_eq; [apply cleanTimer_spec|].
  destruct (mf_timer (w_fsm w)) as [i|] eqn:Hi.
  2:{ split_and!; try done. destruct Hrun as [(i & ? & Hi' & _)|]; [|done].
      by rewrite Hi in Hi'. }
  assert (∀ c, c ≠ FsmTimeout → armed_for c (expire i (w_ts w)) = armed_for c (w_ts w))
    as Hother by (intros c Hc; apply armed_for_other; [apply Hok..|done|done]).
  split_and!.
  - destruct Hok. constructor; try done.
    + by apply service_ok_expire.
    + change (qs + queries (ready (sched w)) + length (armed_for QueryPeriod
        (expire i (w_ts w))) = 1)%nat. by rewrite Hother.
  - change (armed_for FsmTimeout (expire i (w_ts w)) = []). rewrite armed_for_expire.
    destruct Hrun as [(j & at_ & Hj & Harm)|Hst]; [|by rewrite Hst].
    rewrite Hi in Hj. injection Hj as <-. rewrite Harm.
    rewrite filter_cons, decide_False by tauto. done.
  - constructor; try done. by apply Hother.
Qed.

(** ** A result is reported and the next action taken *)

Definition result_for a (rv : Action.ReturnValue) : Prop :=
  match m_action a with
  | Action.send_token => is_Some (token_result rv)
  | Action.query_address => rv = Action.address_query_done
  | Action.send_master_start => rv = Action.ok
  | Action.do_nothing => False
  end.

Definition holds a w : Prop := world_ok (token_addr a) (query_count a) w.

(** An action was started and its event posted, or there is none and the delay
    timer is armed. *)
Definition gone_on (due : nat) (evs : list Event) w : Prop :=
  (evs = [newEvent Event.check_new_command] ∧
   ∃ a, current a w ∧ posted a ∧ holds a w ∧ (due_count w < due)%nat ∧
     armed_for DelayAction (w_ts w) = []) ∨
  (evs = [] ∧ current makeDoNothingAction w ∧ world_ok [] 0 w ∧ ready (sched w) = [] ∧
   ∃ p, armed_for DelayAction (w_ts w) = [p]).

(** The part of the world that going on leaves alone. *)
Record same_node w w' : Prop := {
  sn_env : w_env w' = w_env w;
  sn_timer : mf_timer (w_fsm w') = mf_timer (w_fsm w);
  sn_now : ts_now (w_ts w') = ts_now (w_ts w);
  sn_timeout : armed_for FsmTimeout (w_ts w') = armed_for FsmTimeout (w_ts w)
}.

Definition went_on t t' : Prop :=
  ∃ evs w', t' = (mkChart (ch_state t.1) (ch_queue t.1 ++ evs) (ch_target t.1), w') ∧
    gone_on (due_count t.2) evs w' ∧ same_node t.2 w'.

Lemma wp_acceptAction a w :
  mf_currentAction (w_fsm w) = makeDoNothingAction →
  wp (acceptAction a) never
    (λ _ w', w' = w <| w_fsm ::= λ m, m <| mf_currentAction := a |> |>) w.
Proof.
  intros Hc. unfold acceptAction. wp_step. apply wp_get. wp_step.
  apply wp_assert; [by rewrite Hc|]. by apply wp_modify.
Qed.

Lemma set_fsm_action_ok held qs a w :
  world_ok held qs w → world_ok held qs (w <| w_fsm ::= λ m, m <| mf_currentAction := a |> |>).
Proof. intros []. by constructor. Qed.

(** Looking for an action, with any way to post its event. *)
Lemma wp_checkNewAction_with post Er (Post : () → T → Prop) t :
  world_ok [] 0 t.2 → current makeDoNothingAction t.2 →
  armed_for DelayAction (w_ts t.2) = [] →
  (∀ evs w', gone_on (due_count t.2) evs w' → same_node t.2 w' →
     wp (match evs with ev :: _ => post ev | [] => skip end) Er Post (t.1, w')) →
  wp (checkNewAction post) Er Post t.
Proof.
  intros Hok [Hah Hfsm] Hdelay Hpost. unfold checkNewAction. wp_step. wp_step.
  eapply wp_mono; [by apply nextAction_spec|by intros|].
  intros oa w1 (Henv & Hfsm1 & Hnow & Harm & Hrest).
  destruct t as [ch w]. cbn [view set_view Lens_snd fst snd] in *.
  destruct oa as [a|].
  - destruct Hrest as (Hok1 & Hposted & Hcur & Hdue & Hd).
    unfold startAction. wp_step. wp_step. cbn [view set_view Lens_snd fst snd].
    eapply wp_mono; [apply wp_acceptAction; by rewrite Hfsm1|by intros|].
    intros ? w2 ->. cbn [fst snd].
    apply (Hpost [newEvent Event.check_new_command]
      (w1 <| w_fsm ::= λ m, m <| mf_currentAction := a |> |>)).
    + left. split; [done|]. exists a. split_and!; try done.
      * by apply set_fsm_action_ok.
      * by rewrite <-Hdelay.
    + constructor; try done. cbn. by rewrite Hfsm1.
  - destruct Hrest as (Hok1 & Hcur & Hready & i & at_ & Hd).
    apply (Hpost []).
    + right. assert (current makeDoNothingAction w1) as Hcur1
        by (split; [done|by rewrite Hfsm1]).
      repeat (split; [done|]). exists (i, at_). by rewrite Hd, Hdelay.
    + constructor; try done. by rewrite Hfsm1.
Qed.

Lemma wp_checkNewAction t :
  world_ok [] 0 t.2 → current makeDoNothingAction t.2 →
  armed_for DelayAction (w_ts t.2) = [] →
  wp (checkNewAction chart_post) never (λ _ t', went_on t t') t.
Proof.
  intros Hok Hc Hd. apply wp_checkNewAction_with; [done..|]. intros evs w' Hg Hs.
  assert (wp (match evs with ev :: _ => chart_post ev | [] => skip end) never
    (λ _ t', t' = (mkChart (ch_state t.1) (ch_queue t.1 ++ evs) (ch_target t.1), w'))
    (t.1, w')) as Hwp.
  { destruct Hg as [[-> _]|[-> _]]; [by apply wp_modify|]. apply wp_skip.
    rewrite app_nil_r. by destruct (t.1). }
  eapply wp_mono; [exact Hwp|done|]. intros ? t' ->. by exists evs, w'.
Qed.

Lemma wp_recordResult a rv w :
  holds a w → ah_currentAction (w_ah w) = a → result_for a rv →
  wp (recordResult rv) never (λ _ w', recorded w w') w.
Proof.
  unfold holds, token_addr, query_count, result_for. intros Hok Hcur Hres.
  destruct (m_action a) eqn:Ha; simpl in *; try done; subst.
  - by apply recordResult_ok.
  - destruct Hres as [st Hst]. by eapply recordResult_token.
  - by apply recordResult_query.
Qed.

Lemma wp_report a rv t :
  holds a t.2 → current a t.2 → m_reportCB a = true → result_for a rv →
  armed_for DelayAction (w_ts t.2) = [] →
  wp (reportActionResult chart_post rv) never (λ _ t', went_on t t') t.
Proof.
  intros Hok [Hah Hfsm] Hcb Hres Hdelay. destruct t as [ch w]. cbn [fst snd] in *.
  unfold reportActionResult. wp_step. wp_step. cbn [view set_view Lens_snd fst snd].
  unfold takeAction. wp_step. apply wp_get. wp_step. apply wp_modify. apply wp_ret.
  rewrite Hfsm, Hcb. unfold ActionHandler_reportActionResult. wp_step. wp_step.
  cbn [view set_view Lens_snd fst snd].
  set (w1 := w <| w_fsm ::= _ |>).
  assert (holds a w1) as Hok1 by by apply set_fsm_action_ok.
  eapply wp_mono; [by eapply wp_recordResult|done|].
  intros _ w2 (Hok2 & [] & Hcur2 & Hdue). cbn [set_view Lens_snd fst snd].
  eapply wp_mono; [apply wp_checkNewAction|done|].
  - done.
  - split; [done|]. cbn [fst snd]. by rewrite sm_fsm.
  - cbn [fst snd]. by rewrite sm_delay.
  - intros _ t' (evs & w3 & -> & Hgone & []). exists evs, w3.
    cbn [fst snd] in *. split; [done|]. split.
    + change (due_count w1) with (due_count w) in Hdue. by rewrite <-Hdue.
    + constructor.
      * by rewrite sn_env0, sm_env.
      * by rewrite sn_timer0, sm_fsm.
      * by rewrite sn_now0, sm_now.
      * by rewrite sn_timeout0, sm_timeout.
Qed.

(** ** One event *)

Definition master_setup : FsmSetupBase StateId :=
  match add_states newFsm with Ok (_, f) => fs_setup f | Fail _ => mkFsmSetupBase [] 0 end.

Lemma master_setup_root : root_setup master_setup.
Proof. split; [done|]. by repeat constructor. Qed.

Abbreviation event ev := (chart_event (root_state master_setup) ev).

Lemma root_state_value k : root_state master_setup (StateId.value k) = Some k.
Proof. by destruct k. Qed.

(** The fit between a state and the current action; in [idle] an action can be
    lost. *)
Definition state_action (k : StateId) a : Prop :=
  match k with
  | StateId.idle => a = makeDoNothingAction ∨ (posted a ∧ m_action a = Action.send_token)
  | StateId.startMaster => posted a ∧ m_action a = Action.send_master_start
  | StateId.sendingToken | StateId.waitClientPacketDone =>
      posted a ∧ m_action a = Action.send_token
  | StateId.queryAddress | StateId.waitAddressReply =>
      posted a ∧ m_action a = Action.query_address
  end.

Definition timer_fits (k : StateId) w : Prop :=
  match k with StateId.idle => stopped w | _ => running w end.

Definition delay_fits a w : Prop :=
  if doNothing a then ∃ p, armed_for DelayAction (w_ts w) = [p]
  else armed_for DelayAction (w_ts w) = [].

(** The world of a machine at rest in the state [k]. *)
Definition settled (k : StateId) w : Prop :=
  ∃ a, current a w ∧ holds a w ∧ state_action k a ∧ timer_fits k w ∧ delay_fits a w.

(** The world of a machine in [idle] that is about to look at a new action. *)
Definition launched w : Prop :=
  ∃ a, current a w ∧ posted a ∧ holds a w ∧ stopped w ∧
    armed_for DelayAction (w_ts w) = [].

(** After an event, with [due] units of work before it. *)
Definition after_event (due : nat) t : Prop :=
  ch_target t.1 = None ∧
  ((ch_queue t.1 = [] ∧ settled (ch_state t.1) t.2) ∨
   (ch_queue t.1 = [newEvent Event.check_new_command] ∧ ch_state t.1 = StateId.idle ∧
    launched t.2 ∧ (due_count t.2 < due)%nat)).

Lemma posted_something a : posted a → doNothing a = false.
Proof. intros (_ & Ha & _). by apply bool_decide_eq_false_2. Qed.

Lemma wp_event k ev Er Post t :
  ch_state t.1 = k →
  wp (state_event chart_post chart_transition k ev) Er (λ _ t1,
    wp (match ch_target t1.1 with
        | Some id => chart_move (root_state master_setup) id
        | None => skip
        end ;; chart_pop) Er Post t1) t →
  wp (event ev) Er Post t.
Proof.
  intros Hk Hwp. unfold chart_event. wp_step. apply wp_gets. wp_step.
  unfold compose. rewrite Hk. eapply wp_mono; [exact Hwp|done|].
  intros h t1 H1. wp_step. by apply wp_gets.
Qed.

(** No transition was asked for. *)
Lemma wp_stay (Post : () → T → Prop) k q w :
  Post () (mkChart k (tail q) None, w) →
  wp (skip ;; chart_pop) never Post (mkChart k q None, w).
Proof. done. Qed.

(** A transition was asked for: destructor, constructor. *)
Lemma wp_move (Post : () → T → Prop) k k' q w :
  wp (state_destroy chart_post k) never
    (λ _ t1, wp (state_make k') never
       (λ _ t2, Post () (mkChart (ch_state t2.1) (tail (ch_queue t2.1)) (ch_target t2.1), t2.2))
       t1)
    (mkChart k' q None, w) →
  wp (chart_move (root_state master_setup) (StateId.value k') ;; chart_pop) never Post
    (mkChart k q (Some (StateId.value k')), w).
Proof.
  intros Hwp. wp_step. unfold chart_move. rewrite root_state_value.
  wp_step. apply wp_gets. wp_step. apply wp_modify. wp_step.
  eapply wp_mono; [exact Hwp|done|]. intros h1 t1 H1.
  eapply wp_mono; [exact H1|done|]. intros h2 t2 H2. by apply wp_modify.
Qed.

(** Constructors of the states but [idle]. *)
Context `{Hlaws : !MasterEnvLaws E}.
#[local] Set Default Proof Using "Type Hlaws".

Lemma sendMaster_ok {H} `{!Header H} (h : H) (e : E) :
  env_ok e → wf_header h → (0 < sizeof H ≤ 10)%nat →
  ∃ e', sendMasterPacket (fromHeader h) e = Ok ((), e') ∧ env_ok e'.
Proof.
  intros He Hwf Hlen.
  destruct (sendMasterPacket_ok (fromHeader h) e He) as (e' & Hs & _ & _ & He');
    [by apply bytes_fromHeader| |by eauto].
  by rewrite length_fromHeader.
Qed.

Lemma timer_same a k w w' :
  same_but_timer w w' → current a w → posted a → state_action k a →
  armed_for DelayAction (w_ts w) = [] → running w' → holds a w' → k ≠ StateId.idle →
  settled k w'.
Proof.
  intros [] [Hah Hfsm] Hp Hk Hd Hrun Hok Hne. exists a.
  split; [split; congruence|]. split; [done|]. split; [done|]. split; [by destruct k|].
  unfold delay_fits. rewrite posted_something by done. congruence.
Qed.

Lemma set_env_same_settled k w e :
  settled k w → env_ok e → settled k (w <| w_env := e |>).
Proof.
  intros (a & Hc & Hok & Hk & Htm & Hd) He. exists a. split_and!; try done; try apply Hc.
  by apply set_env_ok.
Qed.

Lemma wp_make a k w ch :
  current a w → posted a → holds a w → state_action k a → k ≠ StateId.idle →
  stopped w → armed_for DelayAction (w_ts w) = [] →
  wp (state_make k) never (λ _ t', t'.1 = ch ∧ settled k t'.2) ((ch, w) : T).
Proof.
  intros Hc Hp Hok Hk Hne Hst Hd.
  assert (∀ span w1, same_but_timer w w1 → holds a w1 → stopped w1 →
    wp (startTimer span) never (λ _ w', settled k w') w1) as Hstart.
  { intros span w1 Hs Hok1 Hst1. eapply wp_mono; [by apply wp_startTimer|done|].
    intros _ w' (Hok' & Hrun & []). destruct Hs.
    eapply timer_same; [|exact Hc|done..].
    constructor; congruence. }
  destruct k; try done; simpl.
  - wp_step. wp_step. cbn [view set_view Lens_snd fst snd].
    destruct (sendMaster_ok (packet.mkMasterStarted master_started) (w_env w))
      as (e' & He & He'); [apply Hok|done|simpl; lia|].
    eapply wp_eq; [by apply on_env_ok|].
    wp_step. cbn [view set_view Lens_snd fst snd].
    set (w1 := w <| w_env := e' |>).
    assert (current a w1) as Hc1 by apply Hc.
    eapply wp_mono; [eapply (wp_startTimer _ _ _ w1); [by apply set_env_ok|done]|done|].
    intros _ w' (Hok' & Hrun & Hs). split; [done|].
    by eapply timer_same.
  - wp_step. eapply wp_mono; [by apply Hstart|done|]. done.
  - wp_step. eapply wp_mono; [by apply Hstart|done|]. done.
  - wp_step. wp_step. cbn [view set_view Lens_snd fst snd].
    eapply wp_mono; [by apply Hstart|done|]. intros ? w1 Hw1.
    wp_step. cbn [view set_view Lens_snd fst snd].
    destruct (sendMaster_ok (packet.mkAddressDiscovery address_discovery 0 0) (w_env w1))
      as (e' & He & He'); [|by repeat split|simpl; lia|].
    { destruct Hw1 as (? & _ & H1 & _). apply H1. }
    eapply wp_eq; [by apply on_env_ok|]. split; [done|]. by apply set_env_same_settled.
  - wp_step. eapply wp_mono; [by apply Hstart|done|]. done.
Qed.
End safety.
