(* ===== verification/MasterEvents.v ===== *)
(** * One event of the master's state machine

    From a world that fits its state, the processing of any event ends in such a
    world again, or in [idle] with an action just started and less work due than
    before. *)

From S2P Require Import Prelude SerialProtocol VecQueue StateChart RootChart Config.
From S2P Require Import TimeService MasterScheduler MasterState DynamicHandler.
From S2P Require Import MasterFSM Master MasterInvariant MasterSafety.

Section events.
Context {E Q : Type} `{!MasterEnv E} `{!PriorityQueue Q} `{Hlaws : !MasterEnvLaws E}.
Abbreviation World := (World E Q).
Abbreviation T := (Chart StateId Event * World)%type.
Abbreviation event ev := (chart_event (root_state master_setup) ev).
Implicit Types (w : World) (a : Action) (t : T) (k : StateId).
#[local] Set Default Proof Using "Type Hlaws".

(** What remains of an event once its handler has run. *)
Definition finish (due : nat) t : Prop :=
  wp (match ch_target t.1 with
      | Some id => chart_move (root_state master_setup) id
      | None => skip
      end ;; chart_pop) never (λ _ t', after_event due t') t.

Lemma idle_again due evs w :
  gone_on due evs w → stopped w → after_event due (mkChart StateId.idle evs None, w).
Proof.
  intros [(-> & a & Hc & Hp & Hok & Hdue & Hd)|(-> & Hc & Hok & _ & Hd)] Hst;
    (split; [done|]).
  - right. repeat (split; [done|]). split; [|done]. by exists a.
  - left. split; [done|]. exists makeDoNothingAction. split_and!; try done; try apply Hc.
    by left.
Qed.

Lemma due_count_timer w w' : same_but_timer w w' → due_count w' = due_count w.
Proof. intros []. unfold due_count, sched. by rewrite st_ah, st_now. Qed.

Lemma current_timer a w w' : same_but_timer w w' → current a w → current a w'.
Proof. intros [] []. split; congruence. Qed.

(** The timer is cleaned after the machine has gone on. *)
Lemma gone_on_clean due evs w :
  gone_on due evs w → running w ∨ stopped w →
  wp cleanTimer never (λ _ w', gone_on due evs w' ∧ stopped w') w.
Proof.
  intros [(-> & a & Hc & Hp & Hok & Hdue & Hd)|(-> & Hc & Hok & Hr & p & Hd)] Hrun.
  all: eapply wp_mono; [by eapply wp_cleanTimer|done|]; intros _ w' (Hok' & Hst & Hs).
  all: split; [|done]; pose proof (current_timer _ _ _ Hs Hc) as Hc'.
  - left. split; [done|]. exists a. split_and!; try done; try apply Hc'.
    + by rewrite (due_count_timer _ _ Hs).
    + destruct Hs. congruence.
  - right. split_and!; try done; try apply Hc'.
    + destruct Hs. unfold sched in *. congruence.
    + exists p. destruct Hs. congruence.
Qed.

(** To [idle], with the result reported before the transition. *)
Lemma finish_idle due k ev evs w :
  k ≠ StateId.idle → k ≠ StateId.waitAddressReply →
  gone_on due evs w → running w ∨ stopped w →
  finish due (mkChart k (ev :: evs) (Some (StateId.value StateId.idle)), w).
Proof.
  intros Hk Hk' Hg Hrun. unfold finish. cbn [fst ch_target]. apply wp_move.
  assert (wp (zoom cleanTimer : M T ()) never (λ _ t1, wp (state_make StateId.idle) never
    (λ _ t2, after_event due (mkChart (ch_state t2.1) (tail (ch_queue t2.1))
       (ch_target t2.1), t2.2)) t1) (mkChart StateId.idle (ev :: evs) None, w)) as Hwp.
  { wp_step. eapply wp_mono; [by eapply gone_on_clean|done|].
    intros _ w' [Hg' Hst]. apply wp_skip. by apply idle_again. }
  by destruct k.
Qed.

(** To a state that waits, with the action still to be done. *)
Lemma finish_goto due k k' ev a w :
  k' ≠ StateId.idle → k ≠ StateId.waitAddressReply →
  current a w → posted a → holds a w → state_action k' a →
  (if decide (k = StateId.idle) then stopped w else running w ∨ stopped w) →
  armed_for DelayAction (w_ts w) = [] →
  finish due (mkChart k [ev] (Some (StateId.value k')), w).
Proof.
  intros Hk' Hk Hc Hp Hok Ha Htm Hd. unfold finish. cbn [fst ch_target]. apply wp_move.
  assert (∀ w', current a w' → holds a w' → stopped w' →
    armed_for DelayAction (w_ts w') = [] →
    wp (state_make k') never (λ _ t2, after_event due (mkChart (ch_state t2.1)
      (tail (ch_queue t2.1)) (ch_target t2.1), t2.2)) (mkChart k' [ev] None, w')) as Hmake.
  { intros w' Hc' Hok' Hst' Hd'. eapply wp_mono; [by apply (wp_make a)|done|].
    intros ? [ch w2] [-> Hw2]. split; [done|]. by left. }
  assert (k ≠ StateId.idle → wp (zoom cleanTimer : M T ()) never (λ _ t1,
    wp (state_make k') never (λ _ t2, after_event due (mkChart (ch_state t2.1)
      (tail (ch_queue t2.1)) (ch_target t2.1), t2.2)) t1) (mkChart k' [ev] None, w)) as Hwp.
  { intros Hne. rewrite decide_False in Htm by done. wp_step.
    cbn [view set_view Lens_snd fst snd].
    eapply wp_mono; [by apply (wp_cleanTimer (token_addr a) (query_count a))|done|].
    intros ? w' (Hok' & Hst & Hs). apply Hmake; [by eapply current_timer|done|done|].
    destruct Hs. congruence. }
  destruct k; try done; try by apply Hwp.
  apply wp_skip. by apply Hmake.
Qed.

(** Handlers that report a result and go to [idle]. *)
Lemma wp_report_idle k ev rv a w :
  k ≠ StateId.idle → k ≠ StateId.waitAddressReply →
  current a w → posted a → holds a w → result_for a rv →
  running w ∨ stopped w → armed_for DelayAction (w_ts w) = [] →
  wp (reportActionResult chart_post rv ;; goto chart_transition StateId.idle)
    never (λ _ t1, finish (due_count w) t1) ((mkChart k [ev] None, w) : T).
Proof.
  intros Hk Hk' Hc Hp Hok Hres Hrun Hd. wp_step.
  eapply wp_mono; [apply (wp_report a); [done|done|apply Hp|done|done]|done|].
  intros [] t1 (evs & w' & -> & Hg & []). cbn [fst snd ch_state ch_queue ch_target] in *.
  apply wp_modify. cbn [fst snd ch_state ch_queue ch_target].
  apply finish_idle; [done|done|done|].
  destruct Hrun as [(i & at_ & Hi & Ha)|Hst]; [left|right].
  - exists i, at_. split; congruence.
  - unfold stopped in *. congruence.
Qed.

(** An event in [idle] that finds an action just started. *)
Lemma event_launched w :
  launched w →
  wp (event (newEvent Event.check_new_command)) never
    (λ _ t', after_event (due_count w) t')
    (mkChart StateId.idle [newEvent Event.check_new_command] None, w).
Proof.
  intros (a & Hc & Hp & Hok & Hst & Hd). eapply (wp_event StateId.idle); [done|].
  unfold state_event, Idle_event. cbn [m_id newEvent]. wp_step. wp_step. apply wp_get.
  cbn [view set_view Lens_snd fst snd]. wp_step.
  destruct Hc as [Hah Hfsm]. rewrite Hfsm. unfold Idle_decodeAction.
  assert (∀ k' w', k' ≠ StateId.idle → current a w' → holds a w' → state_action k' a →
    stopped w' → armed_for DelayAction (w_ts w') = [] →
    wp (goto chart_transition k') never (λ _, wp (mret true) never (λ _ t1,
      finish (due_count w) t1))
      ((mkChart StateId.idle [newEvent Event.check_new_command] None, w') : T)) as Hgo.
  { intros k' w' ??????. apply wp_modify, wp_ret. by apply (finish_goto _ _ k' _ a). }
  pose proof Hp as (Hcb & Hne & _).
  assert (current a w) as Hc by by split.
  destruct (m_action a) eqn:Ha; [|
    |apply Hgo; [discriminate|done|done|by split|done|done]|done].
  { apply Hgo; [discriminate|done|done|by split|done|done]. }
  wp_step. wp_step. apply wp_get. cbn [view set_view Lens_snd fst snd].
  case_decide as Haddr.
  - destruct (txQueueEmpty (w_env w)) eqn:Htx.
    + eapply wp_mono; [apply (wp_report a); [done|done|done| |done]|done|].
      { unfold result_for. rewrite Ha. by eexists. }
      intros [] t1 (evs & w' & -> & Hg & []). apply wp_ret.
      cbn [fst snd ch_state ch_queue ch_target] in *. apply wp_stay. cbn [tail app].
      apply idle_again; [done|]. unfold stopped in *. congruence.
    + destruct (sendClientPacket_ok (w_env w) (wo_env _ _ _ Hok) Htx) as (e' & He & _ & He').
      wp_step. wp_step. cbn [view set_view Lens_snd fst snd].
      eapply wp_eq; [by apply on_env_ok|].
      apply Hgo; [discriminate|by split|by apply set_env_ok|by split|done|done].
  - assert (is_byte (m_address a)) as Hb.
    { eapply address_byte; [done|]. rewrite (wo_tokens _ _ _ Hok). unfold token_addr.
      rewrite Ha. left. }
    destruct (sendMaster_ok (packet.newGrantToken (m_address a)) (w_env w))
      as (e' & He & He'); [apply Hok|done|simpl; lia|].
    wp_step. wp_step. cbn [view set_view Lens_snd fst snd].
    eapply wp_eq; [by apply on_env_ok|].
    apply Hgo; [discriminate|by split|by apply set_env_ok|by split|done|done].
Qed.

(** In the state [k], with its timer just expired. *)
Definition rung k w : Prop :=
  ∃ a, current a w ∧ holds a w ∧ state_action k a ∧ stopped w ∧ delay_fits a w.

Lemma stays due k ev w :
  settled k w → finish due (mkChart k [ev] None, w).
Proof. intros Hs. apply wp_stay. split; [done|]. by left. Qed.

Lemma held_action k a : k ≠ StateId.idle → state_action k a → posted a.
Proof. destruct k; simpl; tauto. Qed.

Lemma no_delay a w : posted a → delay_fits a w → armed_for DelayAction (w_ts w) = [].
Proof. intros Hp. unfold delay_fits. by rewrite posted_something. Qed.

(** The timer is started again while a packet is coming in. *)
Lemma wp_again due k ev w :
  k ≠ StateId.idle → rung k w →
  wp (zoom (startTimer Config.masterTokenClientTimeout)) never
    (λ _ t1, finish due t1) ((mkChart k [ev] None, w) : T).
Proof.
  intros Hk (a & Hc & Hok & Ha & Hst & Hd). wp_step.
  cbn [view set_view Lens_snd fst snd].
  pose proof (held_action _ _ Hk Ha) as Hp.
  eapply wp_mono; [by apply wp_startTimer|done|].
  intros ? w' (Hok' & Hrun & Hs). apply stays.
  eapply timer_same; [exact Hs|exact Hc|done|done|by eapply no_delay|done|done|done].
Qed.

Lemma result_for_token a rv :
  m_action a = Action.send_token → is_Some (token_result rv) → result_for a rv.
Proof. unfold result_for. by intros ->. Qed.
Lemma result_for_query a :
  m_action a = Action.query_address → result_for a Action.address_query_done.
Proof. unfold result_for. by intros ->. Qed.

(** The address reply is over: the destructor reports. *)
Lemma finish_reply ev w :
  rung StateId.waitAddressReply w →
  finish (due_count w)
    (mkChart StateId.waitAddressReply [ev] (Some (StateId.value StateId.idle)), w).
Proof.
  intros (a & Hc & Hok & [Hp Ha] & Hst & Hd). unfold finish. cbn [fst ch_target].
  apply wp_move. unfold state_destroy. wp_step. wp_step.
  cbn [view set_view Lens_snd fst snd].
  eapply wp_mono; [apply (wp_cleanTimer (token_addr a) (query_count a)); [done|by right]|done|].
  intros ? w1 (Hok1 & Hst1 & Hs). pose proof (current_timer _ _ _ Hs Hc) as Hc1.
  eapply wp_mono; [apply (wp_report a); [done|done|apply Hp|by apply result_for_query|]|done|].
  { apply no_delay in Hd; [|done]. destruct Hs. cbn [snd]. congruence. }
  intros ? t1 (evs & w' & -> & Hg & []). cbn [fst snd ch_state ch_queue ch_target] in *.
  apply wp_skip. cbn [fst snd ch_state ch_queue ch_target tail app].
  rewrite <-(due_count_timer _ _ Hs). apply idle_again; [done|].
  unfold stopped in *. congruence.
Qed.

(** The three states that wait longer while a packet is coming in. *)
Lemma wp_unless_sending k (m : M T ()) w :
  k ≠ StateId.idle → rung k w →
  (∀ w, rung k w → wp m never (λ _ t1, finish (due_count w) t1)
    (mkChart k [newEvent Event.timer_timeout] None, w)) →
  wp (rx ← zoom clientSending;
      (if rx : bool then zoom (startTimer Config.masterTokenClientTimeout) else m) ;;
      mret true) never (λ _ t1, finish (due_count w) t1)
    (mkChart k [newEvent Event.timer_timeout] None, w).
Proof.
  intros Hk (a & Hc & Hok & Ha & Hst & Hd) Hm. wp_step. wp_step.
  cbn [view Lens_snd snd]. unfold clientSending. wp_step. apply wp_get.
  destruct (packetRxInProgress_ok (ts_now (w_ts w)) (w_env w) (wo_env _ _ _ Hok))
    as (b & e & He & _ & He').
  eapply wp_eq; [by apply on_env_ok|]. cbn [set_view Lens_snd fst].
  set (w1 := w <| w_env := e |>).
  assert (rung k w1) as Hr by (exists a; split_and!; try done; by apply set_env_ok).
  wp_step. destruct b.
  - eapply wp_mono; [by apply (wp_again (due_count w))|done|done].
  - eapply wp_mono; [by apply Hm|done|done].
Qed.

(** The machine's timer fires. *)
Lemma event_fired k w :
  k ≠ StateId.startMaster → rung k w →
  wp (event (newEvent Event.timer_timeout)) never
    (λ _ t', after_event (due_count w) t')
    (mkChart k [newEvent Event.timer_timeout] None, w).
Proof.
  intros Hk Hr. pose proof Hr as (a & Hc & Hok & Ha & Hst & Hd).
  eapply (wp_event k); [done|].
  destruct k; try done; unfold state_event, SendingToken_event,
    WaitClientPacketDone_event, QueryAddress_event, WaitAddressReply_event;
    cbn [m_id newEvent].
  - apply wp_ret, stays. by exists a.
  - destruct Ha as [Hp Ha]. wp_step. apply wp_modify, wp_ret.
    unfold finish. cbn [fst snd ch_state ch_queue ch_target]. apply wp_move.
    unfold state_destroy. wp_step. cbn [view set_view Lens_snd fst snd].
    eapply wp_mono; [apply (wp_cleanTimer (token_addr a) (query_count a)); [done|by right]
      |done|].
    intros ? w1 (Hok1 & Hst1 & Hs). apply wp_skip.
    cbn [set_view Lens_snd fst snd ch_state ch_queue ch_target tail]. split; [done|]. left. split; [done|].
    exists a. pose proof (current_timer _ _ _ Hs Hc). do 2 (split; [done|]). split; [by right|].
    split; [done|]. unfold delay_fits in *. destruct Hs. cbn [snd]. by rewrite st_delay.
  - apply wp_unless_sending; [done|done|]. clear -Hlaws.
    intros w (a & Hc & Hok & [Hp Ha] & Hst & Hd).
    apply (wp_report_idle _ _ _ a);
      [done|done|done|done|done|by apply result_for_token|by right|by eapply no_delay].
  - apply wp_unless_sending; [done|done|]. clear -Hlaws.
    intros w (a & Hc & Hok & [Hp Ha] & Hst & Hd).
    apply (wp_report_idle _ _ _ a);
      [done|done|done|done|done|by apply result_for_query|by right|by eapply no_delay].
  - apply wp_unless_sending; [done|done|]. clear -Hlaws. intros w Hr.
    apply wp_modify. by apply finish_reply.
Qed.

(** Events that packets cause, of the address request with its 8 byte identity. *)
Definition packet_event ev : Prop :=
  m_id ev ≠ Event.timer_timeout ∧ m_id ev ≠ Event.check_new_command ∧
  (m_id ev = Event.rx_pkt_address_request →
   is_array 8 (packet.arq_uniqueId (eventData ev))).

Lemma settled_parts k w :
  k ≠ StateId.idle → settled k w →
  ∃ a, current a w ∧ posted a ∧ holds a w ∧ state_action k a ∧ running w ∧
    armed_for DelayAction (w_ts w) = [].
Proof.
  intros Hk (a & Hc & Hok & Ha & Htm & Hd). pose proof (held_action _ _ Hk Ha) as Hp.
  exists a. split_and!; try done; try apply Hc; [by destruct k|by eapply no_delay].
Qed.

(** Handlers that end with a report, the transition to [idle] and [true]. *)
Lemma received_report k ev rv w :
  k ≠ StateId.idle → k ≠ StateId.waitAddressReply → settled k w →
  (∀ a, state_action k a → result_for a rv) →
  wp (reportActionResult chart_post rv ;; goto chart_transition StateId.idle ;; mret true)
    never (λ _ t1, finish (due_count w) t1) ((mkChart k [ev] None, w) : T).
Proof.
  intros Hk Hk' Hs Hres. destruct (settled_parts _ _ Hk Hs) as (a & Hc & Hp & Hok & Ha & Hrun & Hd).
  apply wp_bind_assoc, wp_bind.
  eapply wp_mono; [apply (wp_report_idle _ _ _ a)|done|];
    [done|done|done|done|done|by apply Hres|by left|done|done].
Qed.

Lemma event_received k ev w :
  packet_event ev → settled k w →
  wp (event ev) never (λ _ t', after_event (due_count w) t') (mkChart k [ev] None, w).
Proof.
  intros (Htm & Hck & Hreq) Hs. eapply (wp_event k); [done|].
  assert (wp (mret false) never (λ _ t1, finish (due_count w) t1)
    ((mkChart k [ev] None, w) : T)) as Hstay by by apply stays.
  destruct k; simpl.
  - unfold Idle_event. by destruct (m_id ev).
  - unfold MasterStart_event. destruct (m_id ev); try exact Hstay; [|done].
    apply received_report; try done. intros a [_ Ha]. unfold result_for. by rewrite Ha.
  - unfold SendingToken_event. destruct (m_id ev); try exact Hstay; [|done].
    destruct (settled_parts StateId.sendingToken w) as (a & ? & ? & ? & [??] & ? & ?);
      [done|done|].
    wp_step. apply wp_modify, wp_ret.
    apply (finish_goto _ _ _ _ a); [done|done|done|done|done|by split|by left|done].
  - unfold WaitClientPacketDone_event.
    destruct (m_id ev); try exact Hstay; try done;
      (apply received_report; [done|done|done|]; intros a [_ Ha];
       apply result_for_token; [done|by eexists]).
  - unfold QueryAddress_event. destruct (m_id ev); try exact Hstay; [|done].
    destruct (settled_parts StateId.queryAddress w) as (a & [Hah Hfsm] & ? & Hok & [??] & Hrun & ?);
      [done|done|].
    wp_step. wp_step. cbn [view set_view Lens_snd fst snd].
    eapply wp_mono; [apply receivedAddressRequest_spec; [exact Hok|by apply Hreq]|done|].
    intros ? w1 (Hok1 & [] & _). wp_step. apply wp_modify, wp_ret.
    apply (finish_goto _ _ _ _ a); [done|done| |done|done|by split| |].
    + cbn [fst snd]. split; congruence.
    + rewrite decide_False by done. left. destruct Hrun as (i & at_ & ? & ?).
      exists i, at_. cbn [fst snd]. split; congruence.
    + cbn [fst snd]. congruence.
  - unfold WaitAddressReply_event. by destruct (m_id ev).
Qed.
End events.
