(* ===== verification/MasterRuns.v ===== *)
(** * Runs of the master

    Every input of a master is followed from the loop of [postEvent] to its end,
    first on the chart, then, by the refinement of RootChart.v, on the state
    machine itself; the constructor establishes what the inputs keep. *)

From S2P Require Import Prelude SerialProtocol VecQueue StateChart RootChart Config.
From S2P Require Import TimeService MasterScheduler MasterState DynamicHandler.
From S2P Require Import MasterFSM Master MasterInvariant MasterSafety MasterEvents.

Section runs.
Context {E Q : Type} `{!MasterEnv E} `{!PriorityQueue Q}.
Abbreviation World := (World E Q).
Abbreviation Master := (Master (E := E) (Q := Q)).
Abbreviation T := (Chart StateId Event * World)%type.
Abbreviation start_event := (chart_start (root_state master_setup)).
Implicit Types (w : World) (a : Action) (t : T) (k : StateId) (s : Master).

(** ** Fuel *)

Lemma posted_count l :
  Forall posted l → length l = (length (tokens l) + queries l + starts l)%nat.
Proof.
  induction 1 as [|a l (_ & Ha & _) Hl IH]; [done|].
  change (a :: l) with ([a] ++ l). rewrite tokens_app, queries_app, starts_app, !length_app, IH.
  cut (length [a] = length (tokens [a]) + queries [a] + starts [a])%nat; [lia|].
  unfold tokens, queries, starts. simpl. rewrite app_nil_r.
  unfold token_addr, query_count, start_count. by destruct (m_action a).
Qed.

Lemma posted_token_count l : Forall posted_token l → length l = length (tokens l).
Proof.
  intros Hl. rewrite posted_count by (eapply Forall_impl; [done|by intros a []]).
  rewrite posted_token_queries, posted_token_starts by done. lia.
Qed.

(** At most the 19 addresses' token actions, the query and the master start. *)
Lemma due_count_bound held qs w : world_ok held qs w → (due_count w ≤ 21)%nat.
Proof.
  intros []. unfold due_count.
  pose proof (posted_count _ wo_ready) as Hr.
  assert (length (addresses w) ≤ 19)%nat as Ha.
  { destruct wo_table. apply Permutation_length in tb_partition.
    rewrite !length_app in tb_partition. simpl in tb_partition.
    unfold addresses. lia. }
  rewrite (Permutation_length wo_tokens), !length_app in Ha.
  assert (length (waiting (sched w)) = length (tokens (waiting_actions w))) as Hw.
  { rewrite <-(length_fmap el_action). by apply posted_token_count. }
  pose proof (length_filter (λ el, m_nextTime el ≤ ts_now (w_ts w)) (waiting (sched w))).
  lia.
Qed.

Lemma after_event_mono n n' t : (n ≤ n')%nat → after_event n t → after_event n' t.
Proof. intros Hn [? [?|(? & ? & ? & ?)]]; (split; [done|]); [by left|right]. split_and!; by try lia. Qed.

Context `{Hlaws : !MasterEnvLaws E}.
#[local] Set Default Proof Using "Type Hlaws".

(** The machine has come to rest. *)
Definition rest t : Prop :=
  ch_target t.1 = None ∧ ch_queue t.1 = [] ∧ settled (ch_state t.1) t.2.

Lemma run_after n t :
  after_event n t → wp (chart_run (root_state master_setup) n) never (λ _, rest) t.
Proof.
  revert t. induction n as [|n IH]; intros [[k q u] w] [Hu Hcase];
    cbn [fst snd ch_state ch_queue ch_target] in *; subst u;
    destruct Hcase as [[-> Hs]|(-> & -> & Hl & Hdue)]; try done; [lia|].
  cbn [chart_run]. wp_step. apply wp_gets. cbn [compose ch_queue fst]. wp_step.
  eapply wp_mono; [by apply event_launched|done|].
  intros ? t' Ht'. apply IH. apply (after_event_mono (due_count w)); [lia|exact Ht'].
Qed.

Lemma run_event n ev k w Er :
  (∀ e, never e → Er e) →
  wp (chart_event (root_state master_setup) ev) Er
    (λ _ t', after_event n t') (mkChart k [ev] None, w) →
  wp (start_event (S n) ev) Er (λ _, rest) (mkChart k [] None, w).
Proof.
  intros HEr Hev. unfold chart_start. wp_step. apply wp_gets.
  wp_step. apply wp_modify. cbn [compose fst snd ch_state ch_queue ch_target app chart_run].
  wp_step. apply wp_gets. cbn [compose ch_queue fst]. wp_step.
  eapply wp_mono; [exact Hev|done|]. intros ? t' Ht'.
  eapply wp_mono; [by apply run_after|done|done].
Qed.

Lemma settled_bound k w : settled k w → (due_count w ≤ 21)%nat.
Proof. intros (a & _ & Hok & _). by eapply due_count_bound. Qed.
Lemma rung_bound k w : rung k w → (due_count w ≤ 21)%nat.
Proof. intros (a & _ & Hok & _). by eapply due_count_bound. Qed.

(** The fuel on the chart: two less than that of the machine. *)
Definition chart_fuel : nat := 38.

Lemma run_received k ev w :
  packet_event ev → settled k w →
  wp (start_event chart_fuel ev) never (λ _, rest) (mkChart k [] None, w).
Proof.
  intros Hev Hs. apply (run_event 37); [done|]. eapply wp_mono; [by apply event_received|done|].
  intros ? t'. apply after_event_mono. pose proof (settled_bound _ _ Hs). lia.
Qed.

Lemma run_fired k w :
  k ≠ StateId.startMaster → rung k w →
  wp (start_event chart_fuel (newEvent Event.timer_timeout)) never (λ _, rest)
    (mkChart k [] None, w).
Proof.
  intros Hk Hs. apply (run_event 37); [done|]. eapply wp_mono; [by apply event_fired|done|].
  intros ? t'. apply after_event_mono. pose proof (rung_bound _ _ Hs). lia.
Qed.

(** The action handler looks for an action while the machine is in [idle]. *)
Lemma run_checkNewAction w :
  world_ok [] 0 w → current makeDoNothingAction w → stopped w →
  armed_for DelayAction (w_ts w) = [] →
  wp (checkNewAction (start_event chart_fuel)) never (λ _, rest)
    (mkChart StateId.idle [] None, w).
Proof.
  intros Hok Hc Hst Hd. apply wp_checkNewAction_with; [done..|].
  cbn [fst snd]. intros evs w' Hg [].
  assert (stopped w') as Hst' by (unfold stopped in *; congruence).
  pose proof (idle_again _ _ _ Hg Hst') as Hafter.
  destruct Hg as [[-> (a & Hc' & Hp & Hok' & Hdue & Hd')]|[-> _]].
  - apply (run_event 37); [done|]. eapply wp_mono; [apply event_launched|done|].
    + by exists a.
    + intros ? t'. apply after_event_mono. pose proof (due_count_bound _ _ _ Hok'). lia.
  - apply wp_skip. destruct Hafter as [? [[??]|(? & ?)]]; [|done]. done.
Qed.

(** The timer of the master start fires: an assertion fails. *)
Lemma run_start_timeout a w :
  current a w → state_action StateId.startMaster a →
  wp (start_event chart_fuel (newEvent Event.timer_timeout)) (λ e, e = AssertFailed)
    (λ _ _, False) (mkChart StateId.startMaster [] None, w).
Proof.
  intros [Hah Hfsm] [(Hcb & _) _].
  unfold chart_start. wp_step. apply wp_gets. wp_step. apply wp_modify.
  cbn [compose fst snd ch_state ch_queue ch_target app chart_run chart_fuel].
  wp_step. apply wp_gets. cbn [compose ch_queue fst]. wp_step.
  eapply (wp_event StateId.startMaster); [done|]. unfold state_event, MasterStart_event.
  cbn [m_id newEvent]. wp_step. unfold reportActionResult, ActionHandler_reportActionResult.
  wp_step. wp_step. cbn [view set_view Lens_snd fst snd]. unfold takeAction.
  wp_step. apply wp_get. wp_step. apply wp_modify. apply wp_ret. rewrite Hfsm, Hcb.
  wp_step. wp_step. unfold recordResult. wp_step. apply wp_get. wp_step. by apply wp_modify.
Qed.

(** ** The state machine itself *)

Abbreviation at_rest := (at_rest (W := World) (Ev := Event) master_setup).

#[local] Instance at_rest_same_view : SameView at_rest World.
Proof.
  split.
  - by intros s t [? _].
  - intros [c w] [ch w'] v (_ & Hrest). split; [done|exact Hrest].
Qed.

(** The state that the machine is in, when it has one. *)
Definition master_state s : option StateId :=
  match fs_stackFrames s.1 with [l] => ld_activeState l | _ => None end.

Definition master_ok s : Prop :=
  ∃ k, at_rest s (mkChart k [] None, s.2) ∧ master_state s = Some k ∧ settled k s.2.

Lemma at_rest_state s t : at_rest s t → master_state s = Some (ch_state t.1).
Proof.
  intros (_ & _ & _ & _ & _ & _ & i & info & sz & _ & _ & _ & Hf).
  unfold master_state. by rewrite Hf.
Qed.

Lemma machine_ok (m : M Master ()) (m' : M T ()) s t :
  sim at_rest m m' → at_rest s t → wp m' never (λ _, rest) t →
  wp m never (λ _, master_ok) s.
Proof.
  intros Hsim HR Hwp. specialize (Hsim s t HR). unfold wp in *.
  destruct (m' t) as [[[] [[k q u] w]]|e]; [|done]. destruct Hsim as (s' & -> & HR').
  destruct Hwp as (Hu & Hq & Hs). cbn [fst snd ch_state ch_queue ch_target] in *. subst.
  exists k. pose proof HR' as (Hw & _). cbn [snd] in Hw. rewrite Hw.
  split; [done|]. split; [by apply (at_rest_state _ _ HR')|done].
Qed.

Lemma sim_postEvent ev : sim at_rest (post ev) (start_event chart_fuel ev).
Proof. apply (sim_chart_start _ master_setup_root). Qed.

Lemma sim_trigger : sim at_rest triggerAction (checkNewAction (start_event chart_fuel)).
Proof.
  pose proof sim_postEvent. unfold triggerAction, checkNewAction, startAction. sim_steps; exact at_rest_same_view.
Qed.

(** The world changes, the machine does not. *)
Lemma at_rest_world k s w :
  at_rest s (mkChart k [] None, s.2) → at_rest (s.1, w) (mkChart k [] None, w).
Proof. intros (_ & Hrest). by split. Qed.

Lemma post_received s ev :
  packet_event ev → master_ok s → wp (post ev) never (λ _, master_ok) s.
Proof.
  intros Hev (k & HR & _ & Hs).
  eapply machine_ok; [apply sim_postEvent|exact HR|by apply run_received].
Qed.

Lemma toHeader_request pkt :
  bytes pkt → (sizeof packet.AddressRequest ≤ length pkt)%nat →
  ∃ aReq, toHeader pkt = Ok aReq ∧ is_array 8 (packet.arq_uniqueId aReq).
Proof.
  intros Hb Hlen. unfold toHeader. rewrite decide_True by done.
  eexists. split; [done|]. simpl in *. unfold array_at. split.
  - rewrite length_take, length_drop. lia.
  - by apply Forall_take, Forall_drop.
Qed.

Lemma received_ok type pkt s :
  bytes pkt → master_ok s → wp (masterPacketReceived type pkt) never (λ _, master_ok) s.
Proof.
  intros Hb Hok. destruct type; simpl; try (by apply wp_skip);
    try (by apply post_received).
  case_decide as Hlen; [|by apply wp_skip].
  destruct (toHeader_request pkt Hb Hlen) as (aReq & Ha & Hid).
  wp_step. eapply wp_eq; [unfold lift_result; by rewrite Ha|].
  by apply post_received.
Qed.

(** ** A timer fires *)

Definition expired (i : nat) w : World := w <| w_ts ::= expire i |>.

Lemma expired_ok held qs i c at_ w :
  world_ok held qs w → (i, at_) ∈ armed_for c (w_ts w) → c ≠ QueryPeriod →
  world_ok held qs (expired i w).
Proof.
  intros [] Hin Hc. constructor; try done.
  - by apply service_ok_expire.
  - unfold fsm_timer_ok in *. change (mf_timer (w_fsm (expired i w))) with (mf_timer (w_fsm w)).
    destruct (mf_timer (w_fsm w)) as [j|]; [|done]. destruct wo_timer as [Hlt Hp].
    split; [done|]. intros p Hp'. apply Hp. change (w_ts (expired i w)) with (expire i (w_ts w)) in Hp'.
    rewrite pending_expire in Hp'. by apply list_elem_of_filter in Hp' as [_ ?].
  - change (w_ts (expired i w)) with (expire i (w_ts w)).
    by rewrite (armed_for_expire_other c _ i at_) by done.
Qed.

Lemma expired_same c c' i at_ w :
  service_ok (w_ts w) → (i, at_) ∈ armed_for c (w_ts w) → c ≠ c' →
  armed_for c' (w_ts (expired i w)) = armed_for c' (w_ts w).
Proof. apply armed_for_expire_other. Qed.

Lemma expired_last c i at_ p w :
  armed_for c (w_ts w) = [p] → (i, at_) ∈ armed_for c (w_ts w) →
  armed_for c (w_ts (expired i w)) = [].
Proof.
  intros Hp Hin. change (w_ts (expired i w)) with (expire i (w_ts w)).
  rewrite armed_for_expire, Hp. rewrite Hp in Hin.
  apply list_elem_of_singleton in Hin as <-.
  rewrite filter_cons, decide_False by tauto. done.
Qed.

Lemma settled_fsm_timer k i at_ w :
  settled k w → (i, at_) ∈ armed_for FsmTimeout (w_ts w) →
  k ≠ StateId.idle ∧ rung k (expired i w).
Proof.
  intros (a & Hc & Hok & Ha & Htm & Hd) Hin.
  assert (k ≠ StateId.idle) as Hk.
  { intros ->. cbn in Htm. unfold stopped in Htm. rewrite Htm in Hin.
    by apply not_elem_of_nil in Hin. }
  split; [done|]. assert (running w) as (j & at' & Hj & Harm) by by destruct k.
  exists a. split; [done|]. split; [by eapply expired_ok|]. split; [done|].
  split; [by eapply expired_last|]. unfold delay_fits.
  by rewrite (expired_same FsmTimeout DelayAction i at_) by (done || apply Hok).
Qed.

Lemma settled_delay_timer k i at_ w :
  settled k w → (i, at_) ∈ armed_for DelayAction (w_ts w) →
  k = StateId.idle ∧ current makeDoNothingAction w ∧ world_ok [] 0 (expired i w) ∧
  stopped (expired i w) ∧ armed_for DelayAction (w_ts (expired i w)) = [].
Proof.
  intros (a & Hc & Hok & Ha & Htm & Hd) Hin. unfold delay_fits in Hd.
  destruct (doNothing a) eqn:Hnone.
  2:{ rewrite Hd in Hin. by apply not_elem_of_nil in Hin. }
  assert (k = StateId.idle) as ->.
  { destruct (decide (k = StateId.idle)) as [|Hk]; [done|].
    apply held_action, posted_something in Ha; [|done]. by rewrite Ha in Hnone. }
  destruct Ha as [->|[Hp _]]; [|by rewrite posted_something in Hnone].
  destruct Hd as [p Hd]. split; [done|]. split; [done|].
  split; [by eapply (expired_ok [] 0)|]. split; [|by eapply expired_last].
  unfold stopped. rewrite (expired_same DelayAction FsmTimeout i at_); [done|apply Hok|done|done].
Qed.

(** The query timer queues the next query. *)
Lemma query_posted held qs i at_ w :
  world_ok held qs w → (i, at_) ∈ armed_for QueryPeriod (w_ts w) →
  ∃ w', postActionNow makeQueryAddressAction (expired i w) = Ok ((), w') ∧
    world_ok held qs w' ∧ same_machine w w' ∧
    ah_currentAction (w_ah w') = ah_currentAction (w_ah w).
Proof.
  intros Hok Hin. pose proof Hok as [].
  assert (∃ p, armed_for QueryPeriod (w_ts w) = [p]) as [p Hp].
  { destruct (armed_for QueryPeriod (w_ts w)) as [|p [|]]; [|by exists p|].
    - by apply not_elem_of_nil in Hin.
    - simpl in wo_queries. lia. }
  pose proof (expired_last _ _ _ _ _ Hp Hin) as Hnone. rewrite Hp in wo_queries.
  destruct (postActionNow_spec makeQueryAddressAction (expired i w) wo_sched)
    as (s & Hs & Hinv & Hr & Hw).
  assert (waiting s = waiting (sched w)) as Hws by (unfold waiting; by rewrite Hw).
  change (sched (expired i w)) with (sched w) in *.
  exists (set_scheduler s (expired i w)). split; [done|].
  split; [|split; [|done]]; constructor; unfold waiting_actions in *;
    rewrite ?sched_set_scheduler, ?Hws; try done.
  - by apply service_ok_expire.
  - unfold fsm_timer_ok in *. cbn [w_fsm w_ts set_scheduler expired].
    change (mf_timer (w_fsm _)) with (mf_timer (w_fsm w)).
    destruct (mf_timer (w_fsm w)) as [j|]; [|done]. destruct wo_timer as [Hlt Hall].
    split; [done|]. intros q Hq. apply Hall.
    change (q ∈ ts_pending (expire i (w_ts w))) in Hq.
    rewrite pending_expire in Hq. by apply list_elem_of_filter in Hq as [_ ?].
  - rewrite Hr. apply Forall_app. split; [done|]. by apply Forall_singleton.
  - rewrite Hr, tokens_app. change (addresses _) with (addresses w). 
    unfold tokens at 2. simpl. by rewrite app_nil_r.
  - rewrite Hr, queries_app.
    change (w_ts (set_scheduler s (expired i w))) with (w_ts (expired i w)).
    rewrite Hnone. unfold queries at 2. simpl in *. lia.
  - rewrite Hr, starts_app. unfold starts at 2. simpl. lia.
  - by apply (expired_same QueryPeriod FsmTimeout i at_).
  - by apply (expired_same QueryPeriod DelayAction i at_).
Qed.

(** ** Every input *)

Lemma timer_fits_same k w w' :
  timer_fits k w → mf_timer (w_fsm w') = mf_timer (w_fsm w) →
  armed_for FsmTimeout (w_ts w') = armed_for FsmTimeout (w_ts w) → timer_fits k w'.
Proof.
  intros Hk Htm Ha. unfold timer_fits, running, stopped in *. by rewrite Htm, Ha.
Qed.

Lemma due_armed c i w : due (w_ts w) i c → ∃ at_, (i, at_) ∈ armed_for c (w_ts w).
Proof. intros (at_ & Hin & _). exists at_. by apply elem_of_armed_for. Qed.

(** The input that a master does not survive. *)
Definition start_timeout (i : input (E := E)) s : Prop :=
  master_state s = Some StateId.startMaster ∧ ∃ j, i = Fires j FsmTimeout.

Lemma fires_ok i c s :
  master_ok s → due (w_ts s.2) i c →
  master_state s ≠ Some StateId.startMaster ∨ c ≠ FsmTimeout →
  wp (timer_fires i c) never (λ _, master_ok) s.
Proof.
  intros (k & HR & Hms & Hs) Hdue Hne. destruct (due_armed _ _ _ Hdue) as [at_ Hin].
  pose proof (at_rest_world _ _ (expired i s.2) HR) as HR'.
  unfold timer_fires. wp_step.
  apply (wp_eq _ _ _ _ () (s.1, expired i s.2)); [by destruct s as [? []]|].
  destruct c; simpl.
  - destruct (settled_fsm_timer _ _ _ _ Hs Hin) as [Hk Hr].
    eapply machine_ok; [apply sim_postEvent|exact HR'|apply run_fired; [|done]].
    intros ->. by destruct Hne.
  - destruct (settled_delay_timer _ _ _ _ Hs Hin) as (-> & Hc & Hok & Hst & Hd).
    eapply machine_ok; [apply sim_trigger|exact HR'|by apply run_checkNewAction].
  - destruct Hs as (a & [Hah Hfsm] & Hok & Ha & Htm & Hd).
    destruct (query_posted _ _ _ _ _ Hok Hin) as (w' & Hw' & Hok' & [] & Hah').
    apply (wp_eq _ _ _ _ () (s.1, w')).
    { unfold on_world, zoom. cbn. by rewrite Hw'. }
    exists k. split; [by apply (at_rest_world _ _ w' HR)|]. split; [done|].
    exists a. cbn [snd]. split; [split; congruence|]. split; [done|]. split; [done|].
    split.
    + by eapply timer_fits_same; [|rewrite sm_fsm|].
    + unfold delay_fits in *. by rewrite sm_delay.
Qed.

Lemma start_timeout_fails i s :
  master_ok s → master_state s = Some StateId.startMaster →
  due (w_ts s.2) i FsmTimeout → timer_fires i FsmTimeout s = Fail AssertFailed.
Proof.
  intros (k & HR & Hms & a & Hc & _ & Ha & _) Hk Hdue. rewrite Hk in Hms.
  injection Hms as <-. pose proof (at_rest_world _ _ (expired i s.2) HR) as HR'.
  unfold timer_fires.
  rewrite (bind_ok _ _ _ () (s.1, expired i s.2)) by (by destruct s as [? []]).
  pose proof (run_start_timeout a (expired i s.2) Hc Ha) as Hrun.
  specialize (sim_postEvent (newEvent Event.timer_timeout) _ _ HR'). unfold wp in Hrun.
  destruct (start_event _ _ _) as [[]|e]; [done|]. by subst.
Qed.

Lemma passes_ok delta env s :
  0 ≤ delta → env_ok env → master_ok s →
  wp (on_world (on_ts (modify (advance delta)) ;; on_env (put env))) never
    (λ _, master_ok) s.
Proof.
  intros Hdelta Henv (k & HR & Hms & a & Hc & Hok & Ha & Htm & Hd).
  set (w' := (s.2) <| w_ts ::= advance delta |> <| w_env := env |>).
  apply (wp_eq _ _ _ _ () (s.1, w')); [by destruct s as [? [[] ?]]|].
  exists k. split; [by apply (at_rest_world _ _ w' HR)|]. split; [done|].
  exists a. split; [done|]. split; [|done]. destruct Hok. constructor; try done.
  change (seconds 1 ≤ delta + ts_now (w_ts s.2)). lia.
Qed.

Lemma input_ok i s :
  master_ok s → enabled i s → ¬ start_timeout i s → wp (handle i) never (λ _, master_ok) s.
Proof.
  intros Hok Hi Hne. destruct i as [type pkt|i c|delta env]; simpl in *.
  - by apply received_ok.
  - apply fires_ok; [done|done|].
    destruct (decide (c = FsmTimeout)) as [->|]; [left|by right].
    intros Hk. apply Hne. split; [done|by exists i].
  - destruct Hi. by apply passes_ok.
Qed.

(** ** The constructor *)

(** What filling the address table and the pool leaves alone. *)
Record filling (table : list AddressLine) (pool : list LocalAddress)
    (l : list Action) w w' : Prop := {
  fi_ts : w_ts w' = w_ts w;
  fi_fsm : w_fsm w' = w_fsm w;
  fi_env : w_env w' = w_env w;
  fi_current : ah_currentAction (w_ah w') = ah_currentAction (w_ah w);
  fi_range : dh_minAddr (w_dh w') = dh_minAddr (w_dh w) ∧
    dh_maxAddr (w_dh w') = dh_maxAddr (w_dh w);
  fi_inv : scheduler_inv (sched w');
  fi_waiting : m_waiting (sched w') = m_waiting (sched w);
  fi_table : dh_table (w_dh w') = dh_table (w_dh w) ++ table;
  fi_free : dh_freeAddresses (w_dh w') = dh_freeAddresses (w_dh w) ++ pool;
  fi_ready : ready (sched w') = ready (sched w) ++ l
}.

Lemma filling_trans tb1 p1 l1 tb2 p2 l2 w w1 w2 :
  filling tb1 p1 l1 w w1 → filling tb2 p2 l2 w1 w2 →
  filling (tb1 ++ tb2) (p1 ++ p2) (l1 ++ l2) w w2.
Proof.
  intros [] []. constructor; rewrite ?app_assoc; try congruence.
  destruct_and?. split; congruence.
Qed.

Lemma filling_id w : scheduler_inv (sched w) → filling [] [] [] w w.
Proof. intros. by constructor; rewrite ?app_nil_r. Qed.

Definition posted_of a : Action := a <| m_reportCB := true |>.

Lemma wp_filling_post a w :
  scheduler_inv (sched w) →
  wp (postActionNow a) never (λ _ w', filling [] [] [posted_of a] w w') w.
Proof.
  intros Hinv. destruct (postActionNow_spec a w Hinv) as (s & Hs & ? & ? & ?).
  eapply wp_eq; [exact Hs|]. by constructor; rewrite ?app_nil_r.
Qed.

(** A loop whose steps each fill in something. *)
Lemma wp_filling_loop {A} (f : A → M World ()) (t : A → list AddressLine)
    (p : A → list LocalAddress) (b : A → list Action) l w :
  (∀ x w', scheduler_inv (sched w') →
     wp (f x) never (λ _ w'', filling (t x) (p x) (b x) w' w'') w') →
  scheduler_inv (sched w) →
  wp (for_each f l) never (λ _ w', filling (l ≫= t) (l ≫= p) (l ≫= b) w w') w.
Proof.
  intros Hf. revert w. induction l as [|x l IH]; intros w Hinv.
  - by apply wp_skip, filling_id.
  - cbn [for_each]. wp_step. eapply wp_mono; [by apply Hf|done|]. intros ? w1 H1.
    eapply wp_mono; [apply IH, H1|done|]. intros ? w2 H2.
    exact (filling_trans _ _ _ _ _ _ _ _ _ H1 H2).
Qed.

Definition static_line (i : Z) : AddressLine :=
  newStaticLine (uninitialised (E := E) i) (toLocalAddress i).

(** The table and the pool that [DynamicHandler::start] makes. *)
Definition first_table : list AddressLine := static_line <$> static_addresses.

Definition first_actions : list Action :=
  posted_of makeMasterStartAction
    :: (posted_of ∘ makeSendTokenAction <$> static_addresses)
    ++ [posted_of makeQueryAddressAction].

Lemma wp_start w :
  scheduler_inv (sched w) → dh_minAddr (w_dh w) = 1 → dh_maxAddr (w_dh w) = 3 →
  wp start never (λ _ w', filling first_table (reverse dynamic_addresses)
    (tail first_actions) w w') w.
Proof.
  intros Hinv Hmin Hmax. unfold start. wp_step. apply wp_get. rewrite Hmin, Hmax. wp_step.
  eapply wp_mono; [apply (wp_filling_loop _ (λ i, [static_line i]) (λ _, [])
    (λ i, [posted_of (makeSendTokenAction (toLocalAddress i))]))|done|]; [|done|].
  { intros i w' Hinv'. wp_step. apply wp_modify.
    eapply wp_mono; [by apply wp_filling_post|done|]. intros ? w'' H.
    refine (filling_trans [static_line i] [] [] [] [] _ w' _ w'' _ H).
    by constructor; rewrite ?app_nil_r. }
  intros ? w1 H1. wp_step.
  eapply wp_mono; [apply (wp_filling_loop _ (λ _, []) (λ i, [toLocalAddress i])
    (λ _, []))|done|]; [|apply H1|].
  { intros i w' Hinv'. apply wp_modify. by constructor; rewrite ?app_nil_r. }
  intros ? w2 H2. eapply wp_mono; [apply wp_filling_post, H2|done|].
  intros ? w3 H3. pose proof (filling_trans _ _ _ _ _ _ _ _ _ H1
    (filling_trans _ _ _ _ _ _ _ _ _ H2 H3)) as H. exact H.
Qed.

Lemma table_ok_first d :
  dh_table d = first_table → dh_freeAddresses d = reverse dynamic_addresses → table_ok d.
Proof.
  intros Ht Hf. constructor; rewrite ?Ht, ?Hf.
  - change (al_address <$> first_table) with static_addresses.
    by rewrite reverse_Permutation.
  - by repeat constructor.
  - apply Forall_reverse. by apply (bool_decide_unpack _).
  - constructor.
Qed.

(** The world once the table is filled and the first actions are queued. *)
Lemma filled_ok begin env w :
  seconds 1 ≤ begin → env_ok env →
  filling first_table (reverse dynamic_addresses) first_actions (newWorld begin env) w →
  world_ok [] 0 w ∧ current makeDoNothingAction w ∧ stopped w ∧
  armed_for DelayAction (w_ts w) = [].
Proof.
  intros Hb Hnode [Hts Hfsm Henv Hcur _ Hinv Hwait Htab Hfree Hrdy]. cbn [w_ts w_env w_ah w_dh w_fsm newWorld] in *.
  change (dh_table newDynamicHandler) with (@nil AddressLine) in Htab.
  change (dh_freeAddresses newDynamicHandler) with (@nil LocalAddress) in Hfree.
  assert (ready (sched w) = first_actions) as Hr.
  { rewrite Hrdy. destruct (new_scheduler (Q := Q)) as (_ & Hn & _).
    change (sched (newWorld begin env)) with (scheduler.new (Q := Q)). by rewrite Hn. }
  assert (waiting (sched w) = []) as Hw.
  { unfold waiting. rewrite Hwait. by destruct (new_scheduler (Q := Q)) as (_ & _ & ?). }
  split; [|split; [|split]].
  - constructor; unfold waiting_actions; rewrite ?Hr, ?Hw, ?Hts, ?Hfsm; try done.
    + apply service_ok_new.
    + unfold fsm_timer_ok. by rewrite Hfsm.
    + by repeat constructor.
    + by apply table_ok_first.
    + unfold addresses. by rewrite Htab.
    + by rewrite Henv.
  - split; [done|]. by rewrite Hfsm.
  - unfold stopped. by rewrite Hts.
  - by rewrite Hts.
Qed.

#[local] Instance root_code_master : StateCode Master StateId Event := root_code.

Definition registered : Fsm StateId Event :=
  match add_states newFsm with Ok (_, f) => f | Fail _ => newFsm end.

(** The machine enters [idle]; nothing of the client runs. *)
Lemma setStartState_idle w :
  ∃ f, setStartState master_fuel (StateId.value StateId.idle) (registered, w)
    = Ok ((), (f, w)) ∧ at_rest (f, w) (mkChart StateId.idle [] None, w).
Proof.
  eexists. split; [vm_compute; reflexivity|].
  apply (entered_at_rest master_setup 0
    (mkStateInfo 0 0 0 16 "" StateId.idle) 16 [Some 0%nat]). reflexivity.
Qed.

Lemma construct_ok begin env :
  seconds 1 ≤ begin → env_ok env →
  wp construct never (λ _, master_ok) (newFsm, newWorld begin env).
Proof.
  intros Hb Hnode. unfold construct. wp_step.
  apply (wp_eq _ _ _ _ () (registered, newWorld begin env)); [reflexivity|].
  wp_step. unfold on_world at 1. wp_step. cbn [view set_view Lens_snd fst snd].
  assert (scheduler_inv (sched (newWorld (Q := Q) begin env))) as Hinv
    by apply new_scheduler.
  eapply wp_mono; [by apply wp_filling_post|done|]. intros ? w1 H1.
  wp_step. unfold on_world at 1. wp_step. cbn [view set_view Lens_snd fst snd].
  eapply wp_mono; [apply wp_start; [apply H1|by rewrite (proj1 (fi_range _ _ _ _ _ H1))|
    by rewrite (proj2 (fi_range _ _ _ _ _ H1))]|done|].
  intros ? w2 H2. pose proof (filling_trans _ _ _ _ _ _ _ _ _ H1 H2) as H.
  destruct (filled_ok _ _ _ Hb Hnode H) as (Hok & Hc & Hst & Hd).
  destruct (setStartState_idle w2) as (f & Hf & HR).
  wp_step. eapply wp_eq; [exact Hf|].
  eapply machine_ok; [apply sim_trigger|exact HR|by apply run_checkNewAction].
Qed.
End runs.
