(* ===== verification/MasterProps.v ===== *)
(** * What the master promises

    The theorems on the runs of a master, from the invariant that MasterRuns.v
    keeps along them, and concrete runs on an example node. *)

From S2P Require Import Prelude SerialProtocol VecQueue StateChart RootChart Config.
From S2P Require Import TimeService MasterScheduler MasterState DynamicHandler.
From S2P Require Import MasterFSM Master MasterInvariant MasterSafety MasterEvents.
From S2P Require Import MasterRuns.

Section props.
Context {E Q : Type} `{!MasterEnv E} `{!PriorityQueue Q} `{Hlaws : !MasterEnvLaws E}.
Abbreviation World := (World E Q).
Abbreviation Master := (Master (E := E) (Q := Q)).
Abbreviation T := (Chart StateId Event * World)%type.
Abbreviation start_event := (chart_start (root_state master_setup)).
Abbreviation at_rest := (at_rest (W := World) (Ev := Event) master_setup).
Implicit Types (w : World) (a : Action) (t : T) (k : StateId) (s : Master).
#[local] Set Default Proof Using "Type Hlaws".

Lemma handle_ok i s s' :
  master_ok s → enabled i s → handle i s = Ok ((), s') → master_ok s' ∧ ¬ start_timeout i s.
Proof.
  intros Hok Hi Hs.
  assert (¬ start_timeout i s) as Hne.
  { intros [Hk [j ->]]. pose proof (start_timeout_fails _ _ Hok Hk Hi) as Hf.
    change (timer_fires j FsmTimeout s = Ok ((), s')) in Hs. congruence. }
  split; [|done]. exact (wp_run _ _ _ _ _ _ (input_ok i s Hok Hi Hne) Hs).
Qed.

Lemma newMaster_result begin (env : E) s :
  newMaster begin env = Ok s ↔ construct (newFsm, newWorld begin env) = Ok ((), s).
Proof.
  unfold newMaster. generalize (construct (Q := Q) (newFsm, newWorld begin env)).
  intros [[[] s']|e]; simpl; split; congruence.
Qed.

Lemma reachable_ok s : reachable s → master_ok s.
Proof.
  induction 1 as [begin env s Hb He Hs|s i s' Hr IH Hi Hs].
  - apply newMaster_result in Hs.
    exact (wp_run _ _ _ _ _ _ (construct_ok (Q := Q) begin env Hb He) Hs).
  - by eapply handle_ok.
Qed.

Lemma reachable_settled s :
  reachable s → ∃ k a, master_state s = Some k ∧ current a s.2 ∧ holds a s.2 ∧
    state_action k a ∧ timer_fits k s.2 ∧ delay_fits a s.2.
Proof.
  intros (k & _ & Hk & a & ?)%reachable_ok. by exists k, a.
Qed.

(** C39. The constructor of a master returns, on any node that is set up: its objects are
    set up, the address table filled, the machine started and the first action
    triggered without a failure. *)
Theorem master_starts (begin : Time) (env : E) :
  seconds 1 ≤ begin → env_ok env →
  ∃ s, newMaster (Q := Q) begin env = Ok s ∧ reachable s.
Proof.
  intros Hb He. destruct (wp_ok _ _ _ (construct_ok (Q := Q) begin env Hb He)) as ([] & s & Hs & _).
  apply newMaster_result in Hs. exists s. split; [exact Hs|].
  exact (reach_start begin env s Hb He Hs).
Qed.

(** C1. A master survives every packet, timer and pause in every state it can
    reach: the input is handled to the end, within the fuel, unless it is the
    time-out of the master start; that one fails the assertion of
    [reportActionResult]. *)
Theorem master_survives s i :
  reachable s → enabled i s →
  (start_timeout i s ∧ handle i s = Fail AssertFailed) ∨
  (¬ start_timeout i s ∧ ∃ s', handle i s = Ok ((), s') ∧ reachable s').
Proof.
  intros Hr Hi. pose proof (reachable_ok _ Hr) as Hok.
  assert (¬ start_timeout i s →
    ¬ start_timeout i s ∧ ∃ s', handle i s = Ok ((), s') ∧ reachable s') as Hgood.
  { intros Hne. split; [done|].
    destruct (wp_ok _ _ _ (input_ok _ _ Hok Hi Hne)) as ([] & s' & Hs & _).
    exists s'. split; [done|]. by eapply reach_input. }
  destruct (decide (master_state s = Some StateId.startMaster)) as [Hk|Hk].
  2:{ right. apply Hgood. by intros []. }
  destruct i as [| j [| |] |]; try (right; apply Hgood; by intros [_ [? ?]]).
  left. split; [split; [done|by exists j]|]. exact (start_timeout_fails _ _ Hok Hk Hi).
Qed.

(** C6. Each address that the master polls has exactly one token action: the one
    being done, one that is ready, or one that waits. None is polled twice in a
    round and none is forgotten. *)
Theorem one_token_each s :
  reachable s →
  addresses s.2 ≡ₚ token_addr (ah_currentAction (w_ah s.2))
    ++ tokens (ready (sched s.2)) ++ tokens (waiting_actions s.2) ∧
  NoDup (addresses s.2).
Proof.
  intros (k & a & _ & [Hah _] & Hok & _)%reachable_settled. rewrite Hah.
  split; [apply Hok|]. by apply addresses_distinct, NoDup_app in Hok as [? _].
Qed.

(** C23. The addresses 1 to 3 and 33 to 48 are each in the table or free, never
    both; the dynamic lines are those of 33 and above, and no two of them have
    the same identity. *)
Theorem addresses_unique s :
  reachable s →
  addresses s.2 ++ dh_freeAddresses (w_dh s.2) ≡ₚ [1; 2; 3] ++ seqZ 33 16 ∧
  NoDup (addresses s.2 ++ dh_freeAddresses (w_dh s.2)) ∧
  NoDup (dynamic_ids (dh_table (w_dh s.2))) ∧
  Forall (λ l, al_isDynamic l = bool_decide (33 ≤ al_address l)) (dh_table (w_dh s.2)).
Proof.
  intros (k & a & _ & _ & Hok & _)%reachable_settled.
  split_and!; [apply Hok|by eapply addresses_distinct|apply Hok..].
Qed.

(** There is always exactly one address query under way: it is the current
    action, or queued, or its timer runs. *)
Theorem one_query s :
  reachable s →
  (query_count (ah_currentAction (w_ah s.2)) + queries (ready (sched s.2))
   + length (armed_for QueryPeriod (w_ts s.2)) = 1)%nat.
Proof.
  intros (k & a & _ & [Hah _] & Hok & _)%reachable_settled. rewrite Hah. apply Hok.
Qed.

(** The states in which an action was lost. *)
Definition wedged s : Prop :=
  master_state s = Some StateId.idle ∧ doNothing (ah_currentAction (w_ah s.2)) = false.

(** C22. A master always has something to wake it up: a timer of its state
    machine outside of [idle], one of the action handler in [idle], and just
    one of the two; only in [idle] with an action it believes to be doing there
    is none. *)
Theorem master_driven s :
  reachable s →
  let fsm := length (armed_for FsmTimeout (w_ts s.2)) in
  let delay := length (armed_for DelayAction (w_ts s.2)) in
  (wedged s ∧ fsm = 0%nat ∧ delay = 0%nat) ∨
  (¬ wedged s ∧ (fsm + delay = 1)%nat ∧
   (fsm = 1%nat ↔ master_state s ≠ Some StateId.idle)).
Proof.
  intros (k & a & Hk & [Hah _] & _ & Ha & Htm & Hd)%reachable_settled. unfold wedged.
  rewrite Hk, Hah. cbv zeta. unfold delay_fits in Hd.
  destruct (decide (k = StateId.idle)) as [->|Hne].
  - simpl in Htm. unfold stopped in Htm. rewrite Htm.
    destruct (doNothing a); [destruct Hd as [p ->]; right|rewrite Hd; by left].
    split_and!; [by intros []|done|]. simpl. by split.
  - pose proof (held_action _ _ Hne Ha) as Hp%posted_something. rewrite Hp in *. rewrite Hd.
    assert (running s.2) as (i & at_ & _ & ->) by by destruct k.
    right. split_and!; [by intros [[= ->] _]|done|]. split; [|done]. by intros _ [= ->].
Qed.

(** ** A token that is not picked up *)

Lemma machine_result (m : M Master ()) (m' : M T ()) s t t' :
  sim at_rest m m' → at_rest s t → m' t = Ok ((), t') →
  ∃ s', m s = Ok ((), s') ∧ at_rest s' t'.
Proof. intros Hsim HR Ht. specialize (Hsim s t HR). by rewrite Ht in Hsim. Qed.

Lemma at_rest_parts s t : at_rest s t → s.2 = t.2 ∧ master_state s = Some (ch_state t.1).
Proof. intros HR. split; [by apply HR|by apply at_rest_state]. Qed.

Lemma idle_ignores ev w :
  m_id ev ≠ Event.check_new_command →
  start_event chart_fuel ev (mkChart StateId.idle [] None, w)
  = Ok ((), (mkChart StateId.idle [] None, w)).
Proof. by destruct ev as [[] d]. Qed.

Lemma post_idle ev s :
  packet_event ev → master_ok s → master_state s = Some StateId.idle →
  ∃ s', post ev s = Ok ((), s') ∧ master_state s' = Some StateId.idle ∧ s'.2 = s.2.
Proof.
  intros (_ & Hev & _) (k & HR & Hk & _) Hidle. rewrite Hidle in Hk. injection Hk as <-.
  destruct (machine_result _ _ _ _ _ (sim_postEvent ev) HR (idle_ignores ev s.2 Hev))
    as (s' & Hs & HR'). exists s'. by destruct (at_rest_parts _ _ HR') as [-> ->].
Qed.

Lemma received_idle type pkt s :
  bytes pkt → master_ok s → master_state s = Some StateId.idle →
  ∃ s', masterPacketReceived type pkt s = Ok ((), s') ∧
    master_state s' = Some StateId.idle ∧ s'.2 = s.2.
Proof.
  intros Hb Hok Hidle. destruct type; simpl; try (by exists s); try (by apply post_idle).
  case_decide as Hlen; [|by exists s].
  destruct (toHeader_request pkt Hb Hlen) as (aReq & Ha & Hid).
  rewrite (bind_ok _ _ s aReq s) by (unfold lift_result; by rewrite Ha). by apply post_idle.
Qed.

Definition passes (i : input (E := E)) : bool :=
  match i with Passes _ _ => true | _ => false end.

(** The query timer fires: the machine is not concerned. *)
Lemma query_fires held qs i at_ s :
  world_ok held qs s.2 → (i, at_) ∈ armed_for QueryPeriod (w_ts s.2) →
  ∃ w', timer_fires i QueryPeriod s = Ok ((), (s.1, w')) ∧ same_machine s.2 w' ∧
    ah_currentAction (w_ah w') = ah_currentAction (w_ah s.2).
Proof.
  intros Hok Hin. destruct (query_posted _ _ _ _ _ Hok Hin) as (w' & Hw' & _ & Hm & Hah).
  exists w'. split; [|done]. unfold timer_fires.
  apply (bind_step _ _ _ () (s.1, expired i s.2)); [by destruct s as [? []]|].
  cbn [callback]. unfold on_world, zoom. cbn [view Lens_snd snd fst set_view]. by rewrite Hw'.
Qed.

Lemma wedged_step s i s' :
  master_ok s → wedged s → enabled i s → handle i s = Ok ((), s') →
  wedged s' ∧ (passes i = false → w_env s'.2 = w_env s.2).
Proof.
  intros Hok [Hidle Hbusy] Hi Hs. destruct i as [type pkt|i c|delta env].
  - destruct (received_idle type pkt s Hi Hok Hidle) as (s1 & Hs1 & Hk & Hw).
    change (masterPacketReceived type pkt s = Ok ((), s')) in Hs.
    assert (s1 = s') as -> by congruence. unfold wedged. by rewrite Hw.
  - destruct Hok as (k & HR & Hk & Hset). rewrite Hidle in Hk. injection Hk as <-.
    destruct (due_armed _ _ _ Hi) as [at_ Hin]. destruct c.
    + by destruct (settled_fsm_timer _ _ _ _ Hset Hin).
    + destruct (settled_delay_timer _ _ _ _ Hset Hin) as (_ & [Hcur _] & _).
      by rewrite Hcur in Hbusy.
    + destruct Hset as (a & _ & Hok & _).
      destruct (query_fires _ _ _ _ _ Hok Hin) as (w' & Hf & [] & Hah).
      change (timer_fires i QueryPeriod s = Ok ((), s')) in Hs.
      assert (s' = (s.1, w')) as -> by congruence. split; [|done].
      split; [exact Hidle|]. cbn [snd]. by rewrite Hah.
  - split; [|done].
    assert (s' = (s.1, s.2 <| w_ts ::= advance delta |> <| w_env := env |>)) as ->.
    { destruct s as [f w]. cbn in Hs. injection Hs as <-. by destruct w. }
    by split.
Qed.

Lemma sending_timeout w a :
  current a w → holds a w → stopped w →
  wp (start_event chart_fuel (newEvent Event.timer_timeout)) never
    (λ _ t', t'.1 = mkChart StateId.idle [] None ∧ current a t'.2)
    (mkChart StateId.sendingToken [] None, w).
Proof.
  intros Hc Hok Hst. unfold chart_start. wp_step. apply wp_gets. wp_step. apply wp_modify.
  cbn [compose fst snd ch_state ch_queue ch_target app chart_run chart_fuel].
  wp_step. apply wp_gets. cbn [compose ch_queue fst]. wp_step.
  eapply (wp_event StateId.sendingToken); [done|].
  unfold state_event, SendingToken_event. cbn [m_id newEvent]. wp_step. apply wp_modify, wp_ret.
  cbn [fst snd ch_state ch_queue ch_target]. apply wp_move. unfold state_destroy. wp_step.
  cbn [view set_view Lens_snd fst snd].
  eapply wp_mono; [apply (wp_cleanTimer (token_addr a) (query_count a)); [done|by right]
    |done|].
  intros ? w1 (_ & _ & Hs). apply wp_skip.
  cbn [set_view Lens_snd fst snd ch_state ch_queue ch_target tail chart_run].
  wp_step. apply wp_gets. apply wp_skip. cbn [fst snd]. split; [done|].
  by eapply current_timer.
Qed.

(** What a master can become, from a state on. *)
Inductive later : Master → Master → Prop :=
  | later_refl s : later s s
  | later_step s i s1 s2 :
      enabled i s → handle i s = Ok ((), s1) → later s1 s2 → later s s2.

Lemma wedged_later s s' :
  master_ok s → wedged s → later s s' → master_ok s' ∧ wedged s'.
Proof.
  intros Hok Hw Hl. revert Hok Hw. induction Hl as [s|s i s1 s2 Hi Hs Hl IH]; [done|].
  intros Hok Hw. apply IH.
  - by eapply handle_ok.
  - by eapply wedged_step.
Qed.

Lemma sending_token_lost s i s' :
  reachable s → master_state s = Some StateId.sendingToken →
  due (w_ts s.2) i FsmTimeout → timer_fires i FsmTimeout s = Ok ((), s') →
  master_ok s' ∧ wedged s'.
Proof.
  intros Hr Hk Hdue Hs. pose proof (reachable_ok _ Hr) as Hok.
  split; [by apply (handle_ok (Fires i FsmTimeout) s s' Hok Hdue Hs)|].
  destruct Hok as (k & HR & Hk' & Hset). rewrite Hk in Hk'. injection Hk' as <-.
  destruct (due_armed _ _ _ Hdue) as [at_ Hin].
  destruct (settled_fsm_timer _ _ _ _ Hset Hin) as (_ & a & Hc & Hhold & [Hp _] & Hst & _).
  pose proof (at_rest_world _ _ (expired i s.2) HR) as HR'.
  destruct (wp_ok _ _ _ (sending_timeout _ _ Hc Hhold Hst)) as ([] & t' & Ht & Ht1 & Ha).
  destruct (machine_result _ _ _ _ _ (sim_postEvent _) HR' Ht) as (s1 & Hs1 & HR1).
  assert (timer_fires i FsmTimeout s = Ok ((), s1)) as Hf.
  { unfold timer_fires. apply (bind_step _ _ _ () (s.1, expired i s.2)); [|exact Hs1].
    by destruct s as [? []]. }
  assert (s' = s1) as -> by congruence.
  destruct (at_rest_parts _ _ HR1) as [Hw Hm]. split; [by rewrite Hm, Ht1|].
  rewrite Hw, (proj1 Ha). by apply posted_something.
Qed.

(** C11. When the client that holds the token does not answer in time, the
    machine goes to [idle] without a report, and the master never polls again:
    whatever arrives or fires from then on, it stays in [idle] with that token
    action, and sends nothing. *)
Theorem lost_token_stops_master s i s1 s2 j s3 :
  reachable s → master_state s = Some StateId.sendingToken →
  due (w_ts s.2) i FsmTimeout → timer_fires i FsmTimeout s = Ok ((), s1) →
  later s1 s2 → enabled j s2 → handle j s2 = Ok ((), s3) →
  wedged s3 ∧ (passes j = false → w_env s3.2 = w_env s2.2).
Proof.
  intros Hr Hk Hdue Hs Hl Hj H3.
  destruct (sending_token_lost _ _ _ Hr Hk Hdue Hs) as [Hok1 Hw1].
  destruct (wedged_later _ _ Hok1 Hw1 Hl) as [Hok2 Hw2]. by eapply wedged_step.
Qed.

(** ** Address requests *)

Lemma request_run aReq w :
  settled StateId.queryAddress w → is_array 8 (packet.arq_uniqueId aReq) →
  wp (start_event chart_fuel (mkEvent Event.rx_pkt_address_request aReq)) never
    (λ _ t', t'.1 = mkChart StateId.waitAddressReply [] None ∧
       ∃ w1, wp (receivedAddressRequest aReq) never (λ _ w2, w2 = w1) w ∧
         w_dh t'.2 = w_dh w1 ∧ w_env t'.2 = w_env w1 ∧ w_ah t'.2 = w_ah w1)
    (mkChart StateId.queryAddress [] None, w).
Proof.
  intros Hs Hid.
  destruct (settled_parts StateId.queryAddress w) as (a & Hc & Hp & Hok & Ha & Hrun & Hd);
    [done|done|].
  unfold chart_start. wp_step. apply wp_gets. wp_step. apply wp_modify.
  cbn [compose fst snd ch_state ch_queue ch_target app chart_run chart_fuel].
  wp_step. apply wp_gets. cbn [compose ch_queue fst]. wp_step.
  eapply (wp_event StateId.queryAddress); [done|].
  unfold state_event, QueryAddress_event. cbn [m_id newEvent]. wp_step. wp_step.
  cbn [view set_view Lens_snd fst snd eventData].
  destruct (wp_ok _ _ _ (receivedAddressRequest_spec _ _ aReq w Hok Hid))
    as ([] & w1 & Hw1 & Hok1 & [] & _).
  eapply wp_eq; [exact Hw1|]. wp_step. apply wp_modify, wp_ret.
  cbn [set_view Lens_snd fst snd ch_state ch_queue ch_target]. apply wp_move.
  unfold state_destroy. wp_step. cbn [view set_view Lens_snd fst snd].
  eapply wp_mono; [apply (wp_cleanTimer (token_addr a) (query_count a)); [done|]|done|].
  { left. destruct Hrun as (i & at_ & ? & ?). exists i, at_. split; congruence. }
  intros ? w2 (Hok2 & Hst2 & []). unfold state_make. wp_step.
  cbn [view set_view Lens_snd fst snd].
  eapply wp_mono; [by apply (wp_startTimer (token_addr a) (query_count a))|done|].
  intros ? w3 (_ & _ & []).
  cbn [set_view Lens_snd fst snd ch_state ch_queue ch_target tail chart_run].
  wp_step. apply wp_gets. apply wp_skip. cbn [fst snd]. split; [done|].
  exists w1. split; [|split_and!; congruence]. eapply wp_eq; [exact Hw1|done].
Qed.

(** C20. While the master waits for requests, a request of a client that has a line
    is answered with that line's address and changes no line; that of an unknown
    client gets a new line at the end of the table, with the address last in the
    pool, and the reply with that address; with no address left nothing
    is sent. Either way the master waits for the client's confirmation. *)
Theorem address_request_answered s pkt aReq :
  reachable s → master_state s = Some StateId.queryAddress →
  bytes pkt → toHeader pkt = Ok aReq →
  let uid := packet.arq_uniqueId aReq in
  ∃ s', masterPacketReceived address_request pkt s = Ok ((), s') ∧
    master_state s' = Some StateId.waitAddressReply ∧
    match findLine_id uid (w_dh s.2), dh_freeAddresses (w_dh s.2) with
    | None, [] => w_dh s'.2 = w_dh s.2 ∧ w_env s'.2 = w_env s.2
    | Some i, _ => answered uid s.2 s'.2 ∧ w_dh s'.2 = w_dh s.2
    | None, _ :: _ => ∃ addr free,
        dh_freeAddresses (w_dh s.2) = free ++ [addr] ∧
        dh_freeAddresses (w_dh s'.2) = free ∧
        dh_table (w_dh s'.2) = dh_table (w_dh s.2) ++ [newAddressLine addr
          AddressLine.idle true uid (packet.arq_channelType aReq)] ∧
        answered uid s.2 s'.2
    end.
Proof.
  intros Hr Hk Hb Ha uid.
  assert (sizeof packet.AddressRequest ≤ length pkt)%nat as Hlen.
  { unfold toHeader in Ha. by case_decide. }
  destruct (toHeader_request pkt Hb Hlen) as (aReq' & Ha' & Hid).
  rewrite Ha in Ha'. injection Ha' as <-.
  destruct (reachable_ok _ Hr) as (k & HR & Hk' & Hset). rewrite Hk in Hk'.
  injection Hk' as <-.
  destruct (wp_ok _ _ _ (request_run aReq s.2 Hset Hid))
    as ([] & t' & Ht & Ht1 & w1 & Hw1 & Hdh & Henv & _).
  destruct (machine_result _ _ _ _ _ (sim_postEvent _) HR Ht) as (s' & Hs' & HR').
  destruct (at_rest_parts _ _ HR') as [Hw Hm]. exists s'.
  split.
  { cbn [masterPacketReceived]. rewrite decide_True by done.
    apply (bind_step _ _ _ aReq s); [unfold lift_result; by rewrite Ha|exact Hs']. }
  split; [by rewrite Hm, Ht1|]. rewrite Hw.
  destruct Hset as (a & _ & Hhold & _).
  destruct (wp_ok _ _ _ (receivedAddressRequest_spec _ _ aReq s.2 Hhold Hid))
    as ([] & w2 & Hw2 & _ & _ & Hcases).
  pose proof (wp_run _ _ _ _ _ _ Hw1 Hw2) as ->.
  assert (∀ u, answered u s.2 w1 → answered u s.2 t'.2) as Hans.
  { intros u (i & line & e & ? & ? & ? & ?). exists i, line, e.
    rewrite Hdh, Henv. by split_and!. }
  fold uid in Hcases. destruct (findLine_id uid (w_dh s.2)) as [i|].
  - destruct Hcases as [? Hd]. split; [by apply Hans|by rewrite Hdh].
  - destruct (dh_freeAddresses (w_dh s.2)); [by rewrite Hdh, Henv, Hcases|].
    destruct Hcases as (addr & free & ? & ? & ? & ?). exists addr, free.
    rewrite Hdh. split_and!; [done..|by apply Hans].
Qed.

(** C24. A result of a token action moves the line of its address: four time-outs
    in a row take a dynamic line off the table and give its address back to the
    pool; any other result keeps the line, with the counter of the time-outs,
    and queues its next token action for the time its new state asks for. *)
Theorem token_result_updates_line addr st w i line :
  dh_table (w_dh w) !! i = Some line → findLine addr (w_dh w) = Some i →
  al_address line = addr →
  let bad := if decide (st = AddressLine.badClient) then al_badCount line + 1 else 0 in
  let st' := if decide (3 < bad) then AddressLine.free else st in
  ∃ w', updateAddressLine addr st w = Ok ((), w') ∧
    if al_isDynamic line && bool_decide (st' = AddressLine.free) then
      dh_table (w_dh w') = delete i (dh_table (w_dh w)) ∧
      dh_freeAddresses (w_dh w') = dh_freeAddresses (w_dh w) ++ [addr] ∧
      waiting (sched w') = waiting (sched w)
    else
      dh_table (w_dh w') = <[i := line <| al_badCount := bad |> <| al_state := st' |>]>
        (dh_table (w_dh w)) ∧
      waiting (sched w') ≡ₚ mkQueueEl (ts_now (w_ts w) + delay_of st')
        (mkAction Action.send_token addr Action.not_set true) :: waiting (sched w).
Proof.
  intros Hi Hfind Ha bad st'. exists (updated addr st i line w).
  split; [by apply updateAddressLine_spec|].
  assert (setState st line = line <| al_badCount := bad |> <| al_state := st' |>) as Hset
    by done.
  assert (al_state (setState st line) = st') as Hst by (by rewrite Hset).
  unfold updated, removeDynamic. rewrite setState_dynamic, Hst.
  destruct (al_isDynamic line && bool_decide (st' = AddressLine.free)); [done|].
  rewrite sched_set_scheduler. split; [done|].
  apply (pq_elements_emplace (PriorityQueue := _)).
Qed.
End props.

(** ** Runs *)

Section runner.
Context {E : Type} `{!MasterEnv E} `{Hdec : !∀ e : E, Decision (env_ok e)}.
Abbreviation Master := (Master (E := E) (Q := list QueueEl)).

(** Inputs one after another, as long as they are enabled. *)
Definition enabledb (i : input (E := E)) (s : Master) : bool :=
  match i with
  | Received type pkt => bool_decide (bytes pkt)
  | Fires i c => existsb (λ p, bool_decide (p.1 = i ∧ p.2.2 = c ∧ p.2.1 ≤ ts_now (w_ts s.2)))
      (ts_pending (w_ts s.2))
  | Passes delta env => bool_decide (0 ≤ delta) && bool_decide (env_ok env)
  end.

Fixpoint inputs (l : list (input (E := E))) (s : Master) : option Master :=
  match l with
  | [] => Some s
  | i :: l' =>
      if enabledb i s then
        match handle i s with Ok (_, s') => inputs l' s' | Fail _ => None end
      else None
  end.

Lemma enabledb_enabled i s : enabledb i s = true → enabled i s.
Proof.
  destruct i as [type pkt|i c|delta env]; simpl.
  { apply bool_decide_eq_true_1. }
  2:{ intros [H1 H2]%andb_prop. apply bool_decide_eq_true_1 in H1, H2. done. }
  intros ([j [at_ c']] & Hin & (Hi & Hc & Hle)%bool_decide_eq_true_1)%existsb_exists.
  simpl in *. subst. exists at_. split; [by apply list_elem_of_In|done].
Qed.

Lemma inputs_reachable l s s' : reachable s → inputs l s = Some s' → reachable s'.
Proof.
  revert s. induction l as [|i l IH]; intros s Hr; simpl; [by intros [= <-]|].
  destruct (enabledb i s) eqn:Hi; [|done]. apply enabledb_enabled in Hi.
  destruct (handle i s) as [[[] s1]|] eqn:Hs; [|done]. apply IH. by eapply reach_input.
Qed.

(** A master just made, after some inputs; [nobody] where the run fails. *)
Definition run_on (r : result Master) (l : list (input (E := E))) : option Master :=
  match r with Ok s => inputs l s | Fail _ => None end.
Definition after (nobody : Master) (r : result Master) l : Master :=
  default nobody (run_on r l).

Lemma after_reachable nobody r l :
  (∀ s0, r = Ok s0 → reachable s0) → is_Some (run_on r l) → reachable (after nobody r l).
Proof.
  unfold after. intros Hr [s Hs]. rewrite Hs. simpl.
  destruct r as [s0|]; [|done]. eapply inputs_reachable; [by apply Hr|exact Hs].
Qed.
End runner.

(** ** An example node *)

(** A node that keeps what the master sends, the newest first. *)
Record ExampleNode : Type := mkExampleNode {
  ex_sent : list ByteVec;
  ex_queue : list ByteVec;
  ex_client : LocalAddress;
  ex_rx : bool
}.

#[export] Instance example_env : MasterEnv ExampleNode := {
  env_ok _ := True;
  sendMasterPacket p := modify (λ n,
    mkExampleNode (p :: ex_sent n) (ex_queue n) (ex_client n) (ex_rx n));
  sendClientPacket := n ← get;
    match ex_queue n with
    | [] => fail (Undefined "no packet")
    | p :: q => put (mkExampleNode (p :: ex_sent n) q (ex_client n) (ex_rx n))
    end;
  txQueueEmpty n := match ex_queue n with [] => true | _ => false end;
  clientAddress := ex_client;
  packetRxInProgress _ := gets ex_rx;
  uninitialised _ := []
}.

#[export] Instance example_laws : MasterEnvLaws ExampleNode.
Proof.
  split.
  - intros p e _ _ _. by eexists.
  - intros [s [|p q] c r] _ Hq; [done|]. by eexists.
  - intros now e _. by eexists _, _.
Qed.

#[export] Instance example_ok_dec (e : ExampleNode) : Decision (env_ok e) := left I.

Abbreviation ExampleMaster := (Master (E := ExampleNode) (Q := list QueueEl)).

Definition nobody : ExampleMaster := (newFsm, newWorld 0 (mkExampleNode [] [] 0 false)).
Abbreviation made n := (newMaster (Q := list QueueEl) (seconds 100) n).
Abbreviation example_master n l := (after nobody (made n) l).

Lemma example_start : seconds 1 ≤ seconds 100.
Proof. by vm_compute. Qed.

Lemma example_reachable n l : is_Some (run_on (made n) l) → reachable (example_master n l).
Proof. apply after_reachable. intros s0 Hs.
  exact (reach_start _ n _ example_start I Hs).
Qed.

(** A client with the address 7; the start of the master is confirmed. *)
Definition quiet_node : ExampleNode := mkExampleNode [] [] 7 false.
Definition confirmed : list (input (E := ExampleNode)) := [Received master_started []].

(** A client that takes the token and gives it back. *)
Definition token_round : list (input (E := ExampleNode)) :=
  [Received grant_token []; Received return_token []].

Definition example_request : ByteVec :=
  fromHeader (packet.mkAddressRequest address_request [1;2;3;4;5;6;7;8] illegal_type [0;0;0;0]).

Example example_states :
  master_state (example_master quiet_node []) = Some StateId.startMaster ∧
  master_state (example_master quiet_node confirmed) = Some StateId.sendingToken ∧
  master_state (example_master quiet_node (confirmed ++ token_round ++ token_round
    ++ token_round)) = Some StateId.queryAddress.
Proof. vm_compute. done. Qed.

(** ** The theorems at work *)

Ltac example := apply example_reachable, (bool_decide_unpack _); by vm_compute.

Lemma master_starts_witness :
  ∃ s, newMaster (Q := list QueueEl) (seconds 100) quiet_node = Ok s ∧ reachable s.
Proof. apply (master_starts (seconds 100) quiet_node); [exact example_start|exact I]. Defined.

Lemma master_survives_witness :
  let s := example_master quiet_node confirmed in let i := Received grant_token [] in
  (start_timeout i s ∧ handle i s = Fail AssertFailed) ∨
  (¬ start_timeout i s ∧ ∃ s', handle i s = Ok ((), s') ∧ reachable s').
Proof. apply master_survives; [example|]. by constructor. Defined.

Definition after_one_round : list (input (E := ExampleNode)) := confirmed ++ token_round.

Lemma one_token_each_witness :
  let s := example_master quiet_node after_one_round in
  addresses s.2 ≡ₚ token_addr (ah_currentAction (w_ah s.2))
    ++ tokens (ready (sched s.2)) ++ tokens (waiting_actions s.2) ∧ NoDup (addresses s.2).
Proof. apply one_token_each. example. Defined.

(** A client asks for an address in the query that follows three rounds. *)
Definition querying : list (input (E := ExampleNode)) :=
  confirmed ++ token_round ++ token_round ++ token_round.
Definition asked : list (input (E := ExampleNode)) :=
  querying ++ [Received address_request example_request].

Lemma addresses_unique_witness :
  let s := example_master quiet_node asked in
  addresses s.2 ++ dh_freeAddresses (w_dh s.2) ≡ₚ [1; 2; 3] ++ seqZ 33 16 ∧
  NoDup (addresses s.2 ++ dh_freeAddresses (w_dh s.2)) ∧
  NoDup (dynamic_ids (dh_table (w_dh s.2))) ∧
  Forall (λ l, al_isDynamic l = bool_decide (33 ≤ al_address l)) (dh_table (w_dh s.2)).
Proof. apply addresses_unique. example. Defined.

Lemma one_query_witness :
  let s := example_master quiet_node querying in
  (query_count (ah_currentAction (w_ah s.2)) + queries (ready (sched s.2))
   + length (armed_for QueryPeriod (w_ts s.2)) = 1)%nat.
Proof. apply one_query. example. Defined.

Lemma master_driven_witness :
  let s := example_master quiet_node confirmed in
  let fsm := length (armed_for FsmTimeout (w_ts s.2)) in
  let delay := length (armed_for DelayAction (w_ts s.2)) in
  (wedged s ∧ fsm = 0%nat ∧ delay = 0%nat) ∨
  (¬ wedged s ∧ (fsm + delay = 1)%nat ∧
   (fsm = 1%nat ↔ master_state s ≠ Some StateId.idle)).
Proof. apply master_driven. example. Defined.

(** The client keeps silent for a second. *)
Definition silent : list (input (E := ExampleNode)) :=
  confirmed ++ [Passes (seconds 1) quiet_node].
Definition timed_out : list (input (E := ExampleNode)) := silent ++ [Fires 1 FsmTimeout].
Definition too_late : list (input (E := ExampleNode)) :=
  timed_out ++ [Received grant_token []].

Lemma lost_token_stops_master_witness :
  wedged (example_master quiet_node too_late) ∧
  (passes (E := ExampleNode) (Received grant_token []) = false →
   w_env (example_master quiet_node too_late).2 = w_env (example_master quiet_node timed_out).2).
Proof.
  apply (lost_token_stops_master (example_master quiet_node silent) 1
    (example_master quiet_node timed_out)).
  - example.
  - by vm_compute.
  - exists (seconds 100 + Config.masterTokenGrantTx2RxTime). split; [vm_compute; left|by vm_compute].
  - by vm_compute.
  - constructor.
  - by constructor.
  - by vm_compute.
Defined.

Lemma address_request_answered_witness :
  let s := example_master quiet_node querying in
  let aReq := packet.mkAddressRequest address_request [1;2;3;4;5;6;7;8] illegal_type [0;0;0;0] in
  let uid := packet.arq_uniqueId aReq in
  ∃ s', masterPacketReceived address_request example_request s = Ok ((), s') ∧
    master_state s' = Some StateId.waitAddressReply ∧
    match findLine_id uid (w_dh s.2), dh_freeAddresses (w_dh s.2) with
    | None, [] => w_dh s'.2 = w_dh s.2 ∧ w_env s'.2 = w_env s.2
    | Some i, _ => answered uid s.2 s'.2 ∧ w_dh s'.2 = w_dh s.2
    | None, _ :: _ => ∃ addr free,
        dh_freeAddresses (w_dh s.2) = free ++ [addr] ∧
        dh_freeAddresses (w_dh s'.2) = free ∧
        dh_table (w_dh s'.2) = dh_table (w_dh s.2) ++ [newAddressLine addr
          AddressLine.idle true uid (packet.arq_channelType aReq)] ∧
        answered uid s.2 s'.2
    end.
Proof.
  intros s aReq. apply (address_request_answered s example_request aReq).
  - example.
  - by vm_compute.
  - apply (bool_decide_unpack _). by vm_compute.
  - by vm_compute.
Defined.

(** A fourth time-out in a row. *)
Definition failing_world : World ExampleNode (list QueueEl) :=
  (newWorld (seconds 100) quiet_node) <| w_dh ::= λ d, d <| dh_table :=
    [mkAddressLine AddressLine.badClient 3 40 true [1;2;3;4;5;6;7;8] illegal_type] |> |>.

Lemma token_result_updates_line_witness :
  ∃ w', updateAddressLine 40 AddressLine.badClient failing_world = Ok ((), w') ∧
    dh_table (w_dh w') = [] ∧ dh_freeAddresses (w_dh w') = [40].
Proof.
  destruct (token_result_updates_line 40 AddressLine.badClient failing_world 0
    (mkAddressLine AddressLine.badClient 3 40 true [1;2;3;4;5;6;7;8] illegal_type))
    as (w' & Hw' & Ht & Hf & _); [reflexivity|reflexivity|reflexivity|].
  exists w'. split; [exact Hw'|]. by rewrite Ht, Hf.
Defined.
