(* ===== verification/MasterFrame.v ===== *)
(** * What all of the master's code keeps

    The machine and the handlers of its states do their work by a few operations of
    the objects around them. A relation that these keep is a [MasterFrame], and is kept
    by every input of the master, whatever state it is in, and by the chart. The first
    one: the clock stands still, and the node changes by MasterTxIf and MasterPacketIf. *)

From S2P Require Import Prelude Keeping SerialProtocol VecQueue StateChart RootChart Config.
From S2P Require Import TimeService MasterScheduler MasterState DynamicHandler MasterFSM Master.

(** What the code of the states and the callbacks call; a request for an address comes
    in as an event, so a relation that is not kept by it can still be kept by others. *)
Class MasterFrame {E Q : Type} `{!MasterEnv E, !PriorityQueue Q}
    (RW : World E Q → World E Q → Prop) : Prop := {
  frame_preorder :: PreOrder RW;
  frame_nextAction : keeping RW nextAction;
  frame_acceptAction a : keeping RW (acceptAction a);
  frame_recordResult rv : keeping RW (recordResult rv);
  frame_takeAction : keeping RW takeAction;
  frame_startTimer t : keeping RW (startTimer t);
  frame_cleanTimer : keeping RW cleanTimer;
  frame_clientSending : keeping RW clientSending;
  frame_sendMaster p : keeping RW (on_env (sendMasterPacket p));
  frame_sendClient : keeping RW (on_env sendClientPacket);
  frame_expire i : keeping RW (on_ts (modify (expire i)));
  frame_query : keeping RW (postActionNow makeQueryAddressAction)
}.

(** ** The code of the states *)

Section frame.
Context {E Q : Type} `{!MasterEnv E, !PriorityQueue Q} (RW : World E Q → World E Q → Prop).
Context `{!MasterFrame RW}.
Abbreviation W := (World E Q).
Abbreviation Master := (Master (E := E) (Q := Q)).
#[local] Set Default Proof Using "Type MasterFrame0".

#[local] Ltac leaf ::= intros; reflexivity.
#[local] Ltac rule ::=
  match goal with
  | H : ?G |- ?G => exact H
  | H : ∀ _, keeping _ (?f _) |- keeping _ (?f _) => apply H
  | H : ∀ _ _, keeping _ (?f _ _) |- keeping _ (?f _ _) => apply H
  | H : ∀ _ _, keeping RW _ → keeping ?RS (zoom _) |- keeping ?RS (zoom get) =>
      apply H, (keeping_gets RW (λ w, w))
  | H : ∀ _ _, keeping RW _ → keeping ?RS (zoom _) |- keeping ?RS (zoom _) => apply H
  | |- keeping RW nextAction => apply frame_nextAction
  | |- keeping RW (acceptAction _) => apply frame_acceptAction
  | |- keeping RW (recordResult _) => apply frame_recordResult
  | |- keeping RW takeAction => apply frame_takeAction
  | |- keeping RW (startTimer _) => apply frame_startTimer
  | |- keeping RW cleanTimer => apply frame_cleanTimer
  | |- keeping RW clientSending => apply frame_clientSending
  | |- keeping RW (receivedAddressRequest _) => assumption
  | |- keeping RW (on_env sendClientPacket) => apply frame_sendClient
  | |- keeping RW (on_env _) => apply frame_sendMaster
  | |- keeping RW (on_ts (modify (expire _))) => apply frame_expire
  | |- keeping RW (postActionNow makeQueryAddressAction) => apply frame_query
  end.

(** In any state that contains the world, as long as a posted action is processed. *)
Section states.
Context {S : Type} `{!Lens S W} (RS : S → S → Prop) `{!PreOrder RS}.
Context (Hzoom : ∀ A (m : M W A), keeping RW m → keeping RS (zoom m)).
Context (post : Event → M S ()) (trans : Z → M S ()).
Context (Hpost : keeping RS (post (newEvent Event.check_new_command))).
Context (Htrans : ∀ id, keeping RS (trans id)).
#[local] Set Default Proof Using "Type MasterFrame0 PreOrder0 Hzoom Hpost".

Lemma frame_checks : keeping RS (checkNewAction post).
Proof. calm. Qed.

Lemma frame_reported rv : keeping RS (reportActionResult post rv).
Proof. pose proof frame_checks. calm. Qed.

Lemma frame_makes k : keeping RS (rc_make (W := W) (K := StateId) post k).
Proof. cbn [rc_make MasterFSM_code]. destruct k; calm. Qed.

Lemma frame_destroys k : keeping RS (rc_destroy (W := W) (K := StateId) post k).
Proof. pose proof frame_reported. cbn [rc_destroy MasterFSM_code]. destruct k; calm. Qed.

Lemma frame_emits k ev :
  (m_id ev = Event.rx_pkt_address_request → keeping RW (receivedAddressRequest (eventData ev))) →
  keeping RS (rc_event (W := W) (K := StateId) post trans k ev).
Proof using All.
  intros Hreq. pose proof frame_reported. cbn [rc_event MasterFSM_code].
  destruct ev as [[] d]; cbn [m_id eventData] in Hreq;
    (specialize (Hreq eq_refl) || clear Hreq); destruct k;
    cbn [state_event Idle_event MasterStart_event SendingToken_event WaitClientPacketDone_event
      QueryAddress_event WaitAddressReply_event m_id eventData]; calm.
Qed.
End states.

(** The relation on a state that contains the world. *)
Definition on_view {S} `{!Lens S W} (s s' : S) : Prop := RW (view s) (view s').

#[export] Instance on_view_preorder {S} `{!Lens S W} : PreOrder (on_view (S := S)).
Proof.
  split; unfold on_view; [by intros s|]. intros s1 s2 s3 H12 H23. by etrans.
Qed.

Lemma frame_zoom {S A} `{!Lens S W} (m : M W A) :
  keeping RW m → keeping (on_view (S := S)) (zoom m).
Proof using.
  intros Hm s. apply wp_zoom. eapply wp_mono; [apply Hm|done|]. intros a w Hw.
  unfold on_view. by rewrite view_set.
Qed.

(** ** The machine *)

Section master.
Context (Hrequest : ∀ aReq, keeping RW (receivedAddressRequest aReq)).
#[local] Set Default Proof Using "Type MasterFrame0 Hrequest".
#[local] Instance master_code : StateCode Master StateId Event := root_code.
Abbreviation RM := (on_view (S := Master)).

#[local] Ltac leaf ::= intros; unfold on_view; reflexivity.

Lemma frame_transition id : keeping RM (transition (K := StateId) (Ev := Event) id).
Proof using MasterFrame0. calm. Qed.

Lemma frame_queue {A} (m : M (VecQueue Event) A) : keeping RM (on_queue (K := StateId) m).
Proof.
  intros s. unfold on_queue, on_part, wp. destruct (m _) as [[a q]|]; [|done].
  unfold on_view. cbn. reflexivity.
Qed.

#[local] Ltac machine := repeat first
  [ lazymatch goal with
    | |- keeping _ (makeState _ _) => apply (frame_makes _ (λ A m, frame_zoom m))
    | |- keeping _ (destroyState _ _) => apply (frame_destroys _ (λ A m, frame_zoom m))
    | |- keeping _ (emitEvent _ _ _) => apply (frame_emits _ (λ A m, frame_zoom m)); [|apply frame_transition|done]
    | |- keeping _ (zoom _) => apply frame_zoom
    | |- keeping _ (on_queue _) => apply frame_queue
    end
  | rule | calm_step | unfold_step ].

(** The machine only calls the code of the states. *)
Section machine.
Context (post : Event → M Master ()) (Hpost : ∀ ev, keeping RM (post ev)).
#[local] Set Default Proof Using "Type MasterFrame0 Hrequest Hpost".

Lemma frame_populate fuel si level :
  keeping RM (populateLoop (K := StateId) (Ev := Event) fuel si level).
Proof using MasterFrame0.
  revert si level. induction fuel as [|fuel IH]; intros si [|level]; cbn [populateLoop]; machine; apply IH.
Qed.

Lemma frame_offers level ev : keeping RM (offerEvent (K := StateId) post level ev).
Proof. induction level as [|level IH]; cbn [offerEvent]; machine. Qed.

Lemma frame_transitions fuel : keeping RM (prepareTransition (K := StateId) post fuel).
Proof. pose proof frame_populate. machine; done. Qed.

Lemma frame_processes fuel ev : keeping RM (processEvent (K := StateId) post fuel ev).
Proof. pose proof frame_offers. pose proof frame_transitions. machine. Qed.
End machine.

Lemma frame_posts_with (process : M Master ()) ev :
  keeping RM process → keeping RM (postEvent_with (K := StateId) process ev).
Proof. intros Hp. machine. Qed.

Lemma frame_queues fuel : keeping RM (processQueue (S := Master) (K := StateId) (Ev := Event) fuel).
Proof.
  induction fuel as [|fuel IH]; cbn [processQueue]; [machine|].
  assert (∀ ev, keeping RM (postEvent_with (K := StateId) (processQueue fuel) ev)) as Hpost.
  { intros ev. by apply frame_posts_with. }
  pose proof (frame_processes _ Hpost). machine.
Qed.

Lemma frame_posts ev : keeping RM (post (E := E) (Q := Q) ev).
Proof. apply frame_posts_with, frame_queues. Qed.

(** ** The inputs *)

Lemma frame_receives type pkt : keeping RM (masterPacketReceived (E := E) (Q := Q) type pkt).
Proof. pose proof frame_posts. unfold masterPacketReceived. destruct type; machine. Qed.

Lemma frame_triggers : keeping RM (triggerAction (E := E) (Q := Q)).
Proof. apply (frame_checks _ (λ A m, frame_zoom m)), frame_posts. Qed.

Lemma frame_fires i c : keeping RM (timer_fires (E := E) (Q := Q) i c).
Proof.
  pose proof frame_posts. pose proof frame_triggers. unfold timer_fires, on_world, callback. machine.
Qed.

Lemma frame_exits : keeping RM (exitMaster (E := E) (Q := Q)).
Proof. unfold exitMaster, on_world. machine. Qed.

Lemma frame_constructs :
  keeping RW (postActionNow makeMasterStartAction) → keeping RW start →
  keeping RM (construct (E := E) (Q := Q)).
Proof.
  intros Hfirst Hstart. pose proof frame_triggers.
  pose proof (frame_transitions _ frame_posts). unfold construct, on_world.
  apply (keeping_bind _); [|intros _; machine].
  intros s. unfold on_part, wp. destruct (add_states _) as [[[] f]|]; [|done].
  unfold on_view. cbn. reflexivity.
Qed.

End master.

(** ** The chart, with events that are not requests *)

Abbreviation T := (Chart StateId Event * W)%type.

Definition not_request (ev : Event) : Prop := m_id ev ≠ Event.rx_pkt_address_request.
Definition on_chart (t t' : T) : Prop :=
  Forall not_request (ch_queue t.1) → Forall not_request (ch_queue t'.1) ∧ RW t.2 t'.2.

#[export] Instance on_chart_preorder : PreOrder on_chart.
Proof.
  split; unfold on_chart; [by intros t|]. intros t1 t2 t3 H12 H23 Ht.
  destruct (H12 Ht) as [Ht2 ?], (H23 Ht2). split; [done|by etrans].
Qed.

Lemma chart_zoom {A} (m : M W A) : keeping RW m → keeping on_chart (zoom m).
Proof using.
  intros Hm t. apply wp_zoom. eapply wp_mono; [apply Hm|done|]. by intros a w Hw.
Qed.

Lemma chart_posts ev : not_request ev → keeping on_chart (chart_post (K := StateId) ev).
Proof.
  intros Hev. apply keeping_modify. intros t Ht. split; [|reflexivity].
  apply Forall_app. split; [done|]. by apply Forall_singleton.
Qed.

#[local] Ltac leaf ::= intros t Ht; split; [done|reflexivity].

Lemma chart_transitions id : keeping on_chart (chart_transition (K := StateId) (Ev := Event) id).
Proof. calm. Qed.

Lemma chart_pops : keeping on_chart (chart_pop (K := StateId) (Ev := Event)).
Proof.
  apply keeping_modify. intros t Ht. split; [|reflexivity]. cbn. by destruct Ht.
Qed.

Lemma chart_moves state_of id : keeping on_chart (chart_move state_of id).
Proof.
  pose proof (chart_posts (newEvent Event.check_new_command) ltac:(done)) as Hpost.
  pose proof (frame_destroys _ (λ A m, chart_zoom m) _ Hpost).
  pose proof (frame_makes _ (λ A m, chart_zoom m) _ Hpost). calm.
Qed.

Lemma chart_events state_of ev : not_request ev → keeping on_chart (chart_event state_of ev).
Proof.
  intros Hev. pose proof (chart_posts (newEvent Event.check_new_command) ltac:(done)) as Hpost.
  pose proof (frame_emits _ (λ A m, chart_zoom m) _ _ Hpost chart_transitions) as Hemit.
  pose proof (chart_moves state_of). pose proof chart_pops.
  unfold chart_event. apply (keeping_bind _); [calm|intros k].
  apply (keeping_bind _); [by apply Hemit|intros _; calm].
Qed.

Lemma chart_runs state_of fuel : keeping on_chart (chart_run state_of fuel).
Proof.
  induction fuel as [|fuel IH]; intros t; cbn [chart_run]; wp_step; apply wp_gets;
    unfold compose; (destruct (ch_queue t.1) as [|ev q] eqn:Hq; [by wp_step|]); [done|].
  wp_step. unfold wp at 1. destruct (chart_event state_of ev t) as [[[] t1]|] eqn:Hev; [|done].
  eapply wp_mono; [apply IH|done|]. intros [] t2 H12 Ht.
  assert (not_request ev) as Hne by (rewrite Hq in Ht; by apply Forall_cons in Ht as [? _]).
  pose proof (keeping_run on_chart _ _ _ _ (chart_events state_of ev Hne) Hev) as H01.
  exact (transitivity H01 H12 Ht).
Qed.

Lemma chart_starts state_of fuel ev :
  not_request ev → keeping on_chart (chart_start state_of fuel ev).
Proof.
  intros Hev. pose proof (chart_posts _ Hev). pose proof (chart_runs state_of fuel).
  unfold chart_start. calm.
Qed.
End frame.

(** ** The clock and the node *)

Section clock.
Context {E Q : Type} `{!MasterEnv E, !PriorityQueue Q} (RE : E → E → Prop) `{!PreOrder RE}.
Abbreviation W := (World E Q).
#[local] Set Default Proof Using "Type PreOrder0".

(** The clock stands still while the master works. *)
Definition frame_world (w w' : W) : Prop :=
  ts_now (w_ts w') = ts_now (w_ts w) ∧ RE (w_env w) (w_env w').

#[export] Instance frame_world_preorder : PreOrder frame_world.
Proof.
  split; [done|]. intros w1 w2 w3 [Ht He] [Ht' He']. split; [congruence|by etrans].
Qed.

Lemma clock_ts {A} (m : M (TimeService MasterTimer) A) :
  (∀ t, wp m (λ _, True) (λ _ t', ts_now t' = ts_now t) t) → keeping frame_world (on_ts m).
Proof.
  intros Hm w. apply wp_on_part. eapply wp_mono; [apply Hm|done|]. intros a t' Ht. by split.
Qed.

Lemma clock_cancel timer : keeping frame_world (on_ts (cancel timer)).
Proof. apply clock_ts. by destruct timer. Qed.

Lemma clock_env {A} (m : M E A) : keeping RE m → keeping frame_world (on_env m).
Proof using.
  intros Hm w. apply wp_on_part. eapply wp_mono; [apply Hm|done|]. intros a e He. by split.
Qed.

Lemma clock_scheduler {A} (m : M (MasterScheduler Q) A) : keeping frame_world (on_scheduler m).
Proof. intros w. unfold on_scheduler, on_part, wp. by destruct (m _) as [[a q]|]. Qed.

Context (sends_master : ∀ p, keeping RE (sendMasterPacket (E := E) p)).
Context (sends_client : keeping RE (sendClientPacket (E := E))).
Context (asks_receiving : ∀ now_, keeping RE (packetRxInProgress (E := E) now_)).

#[local] Ltac leaf ::= intros; split; reflexivity.
#[local] Ltac rule ::=
  match goal with
  | H : ∀ _, keeping _ (?f _) |- keeping _ (?f _) => apply H
  | H : ?G |- ?G => exact H
  | |- keeping frame_world (on_ts (cancel _)) => apply clock_cancel
  | |- keeping frame_world (on_ts _) => apply clock_ts; intros ?; reflexivity
  | |- keeping frame_world (on_env _) => apply clock_env
  | |- keeping frame_world (on_scheduler _) => apply clock_scheduler
  end.

Lemma clock_starts : keeping frame_world start.
Proof. calm. Qed.

Lemma clock_frame : MasterFrame frame_world.
Proof using All. split; [apply _|intros; calm..]. Qed.

Lemma clock_request aReq : keeping frame_world (receivedAddressRequest aReq).
Proof using All. calm. Qed.
End clock.
