(* ===== verification/Polling.v ===== *)
(** * The order of polling

    Actions that are ready are done in the order of their queue, one at a time. So a
    token that waits for its turn lets only those through that were ahead of it, of
    which there are never more than twenty. *)

From S2P Require Import Prelude Keeping SerialProtocol VecQueue StateChart RootChart Config.
From S2P Require Import TimeService MasterScheduler MasterState DynamicHandler.
From S2P Require Import MasterFSM Master MasterInvariant MasterSafety MasterEvents.
From S2P Require Import MasterRuns MasterProps MasterFrame.

Section turns.
Context {E Q : Type} `{!MasterEnv E} `{!PriorityQueue Q}.
Abbreviation World := (World E Q).
Abbreviation Master := (Master (E := E) (Q := Q)).
Implicit Types (w : World) (a b : Action) (s : Master).

Abbreviation ready_of w := (ready (sched w)).
Abbreviation waiting_of w := (waiting (sched w)).
Abbreviation doing w := (ah_currentAction (w_ah w)).

(** The query that the timer posts. *)
Definition query : Action := makeQueryAddressAction <| m_reportCB := true |>.

(** ** What the master's code does to the queue *)

(** Actions leave the queue at its front, and the last one that left is the current
    one unless it is done; what comes in, behind, was waiting until now, or is the
    query. What is put aside meanwhile is for later, and once one has left the queue,
    all that waits is. *)
Definition moves now (w w' : World) : Prop :=
  (∀ el, el ∈ waiting_of w' → el ∈ waiting_of w ∨ now < m_nextTime el) ∧
  ∃ started new, ready_of w ++ new = started ++ ready_of w' ∧
    (started ≠ [] → ∀ el, el ∈ waiting_of w' → now < m_nextTime el) ∧
    (doing w' = makeDoNothingAction ∨ last started = Some (doing w')
     ∨ started = [] ∧ doing w' = doing w) ∧
    ∀ b, b ∈ new → b = query ∨ ∃ el, el ∈ waiting_of w ∧ el_action el = b ∧ m_nextTime el ≤ now.

Definition turn w w' : Prop :=
  scheduler_inv (sched w) →
  scheduler_inv (sched w') ∧ ts_now (w_ts w') = ts_now (w_ts w) ∧ moves (ts_now (w_ts w)) w w'.

Lemma moves_refl now w w' : w_ah w' = w_ah w → moves now w w'.
Proof.
  unfold moves, sched. intros ->. split; [by left|]. exists [], []. rewrite app_nil_r.
  split_and!; [done|done|by right; right|]. by intros b ?%not_elem_of_nil.
Qed.

Lemma moves_trans now w1 w2 w3 : moves now w1 w2 → moves now w2 w3 → moves now w1 w3.
Proof.
  intros (Hw12 & l1 & n1 & Hr12 & Hl12 & Hc12 & Hn12) (Hw23 & l2 & n2 & Hr23 & Hl23 & Hc23 & Hn23).
  split.
  { intros el [Hel|?]%Hw23; [by apply Hw12|by right]. }
  exists (l1 ++ l2), (n1 ++ n2). split_and!.
  - by rewrite app_assoc, Hr12, <-app_assoc, Hr23, app_assoc.
  - destruct l2 as [|b l2]; [rewrite app_nil_r|by intros _; apply Hl23].
    intros Hne el [Hel|?]%Hw23; [by apply Hl12|done].
  - destruct Hc23 as [?|[Hl|[-> ->]]]; [by left|right; left|rewrite app_nil_r].
    + by rewrite last_app, Hl.
    + destruct Hc12 as [?|[?|[-> ?]]]; auto.
  - intros b [Hb|Hb]%elem_of_app; [by apply Hn12|].
    destruct (Hn23 b Hb) as [?|(el & Hel & Ha & Ht)]; [by left|].
    destruct (Hw12 el Hel) as [?|?]; [right; by exists el|lia].
Qed.

#[export] Instance turn_preorder : PreOrder turn.
Proof.
  split; [intros w ?; split_and!; [done..|by apply moves_refl]|].
  intros w1 w2 w3 H12 H23 H1. destruct (H12 H1) as (H2 & Ht2 & Hm2), (H23 H2) as (H3 & Ht3 & Hm3).
  split_and!; [done|congruence|]. rewrite Ht2 in Hm3. by eapply moves_trans.
Qed.

Lemma same_turn w w' :
  w_ah w' = w_ah w → ts_now (w_ts w') = ts_now (w_ts w) → turn w w'.
Proof. intros Ha Ht Hinv. unfold sched in *. rewrite Ha. split_and!; [done..|by apply moves_refl]. Qed.

Lemma turning {A} (m : M World A) :
  (∀ w, scheduler_inv (sched w) → wp m (λ _, True) (λ _ w', turn w w') w) → keeping turn m.
Proof.
  intros Hm w. unfold wp. destruct (m w) as [[a w']|] eqn:Hr; [|done]. intros Hinv.
  exact (wp_run _ _ _ _ _ _ (Hm w Hinv) Hr Hinv).
Qed.

Lemma turn_ts {A} (m : M (TimeService MasterTimer) A) :
  (∀ t, wp m (λ _, True) (λ _ t', ts_now t' = ts_now t) t) → keeping turn (on_ts m).
Proof.
  intros Hm w. apply wp_on_part. eapply wp_mono; [apply Hm|done|]. intros a t' Ht. by apply same_turn.
Qed.

Lemma turn_cancel timer : keeping turn (on_ts (cancel timer)).
Proof. apply turn_ts. by destruct timer. Qed.

Lemma turn_env {A} (m : M E A) : keeping turn (on_env m).
Proof. intros w. unfold on_env, on_part, wp. destruct (m _) as [[a e]|]; [|done]. by apply same_turn. Qed.

Lemma turn_done : keeping turn (modify_ah (λ h, h <| ah_currentAction := makeDoNothingAction |>)).
Proof.
  apply keeping_modify. intros w Hinv. split_and!; [done..|]. split; [by left|].
  exists [], []. rewrite app_nil_r. split_and!; [done|done|by left|]. by intros b ?%not_elem_of_nil.
Qed.

Lemma turn_postLater addr st :
  keeping turn (t ← nextTime st; postAction (makeSendTokenAction addr) t).
Proof.
  apply turning. intros w Hinv. apply wp_bind. eapply wp_eq; [apply nextTime_spec|].
  eapply wp_eq; [apply postAction_spec|]. intros _. split_and!; [done..|].
  pose proof (delay_positive st). split.
  - intros el. rewrite sched_set_scheduler. unfold waiting at 1. cbn.
    rewrite pq_elements_emplace. intros [->|?]%elem_of_cons; [right; cbn; lia|by left].
  - exists [], []. rewrite app_nil_r. split_and!; [done|done|by right; right|].
    by intros b ?%not_elem_of_nil.
Qed.

Lemma turn_postNow : keeping turn (postActionNow makeQueryAddressAction).
Proof.
  apply turning. intros w Hinv.
  destruct (postActionNow_spec makeQueryAddressAction w Hinv) as (s & Hs & Hinv' & Hr & Hw).
  eapply wp_eq; [exact Hs|]. intros _. split_and!; [done..|]. split.
  - intros el. rewrite sched_set_scheduler. unfold waiting. rewrite Hw. by left.
  - exists [], [query]. rewrite sched_set_scheduler, Hr. split_and!; [done|done|by right; right|].
    intros b ->%list_elem_of_singleton. by left.
Qed.

(** The new action is the one at the front. *)
Lemma turn_next : keeping turn nextAction.
Proof.
  apply turning. intros w Hinv. unfold nextAction. wp_step. apply wp_get.
  destruct (doNothing (doing w)); [|by wp_step].
  wp_step. eapply wp_eq; [apply on_ts_now|]. wp_step.
  destruct (workToDo_spec (ts_now (w_ts w)) (sched w) Hinv)
    as (s & moved & Hs & Hinv' & Hr & Hw & Hdue & Hlater & _).
  unfold on_scheduler at 1. apply wp_on_part. eapply wp_eq; [exact Hs|].
  assert (turn w (set_scheduler s w)) as Hmoved.
  { intros _. split_and!; [done..|]. unfold moves. rewrite sched_set_scheduler. split.
    - intros el Hel. left. rewrite Hw. apply elem_of_app. by right.
    - exists [], (el_action <$> moved). split_and!; [by rewrite Hr|done|by right; right|].
      intros b (el & -> & Hel)%list_elem_of_fmap. right. exists el. split_and!; [|done|].
      + rewrite Hw. apply elem_of_app. by left.
      + by apply (proj1 (Forall_forall _ _) Hdue). }
  case_bool_decide as Hready.
  - destruct (ready s) as [|a r] eqn:Hfront; [done|].
    destruct (front_pop_spec a r s Hinv' Hfront) as (Hf & s2 & Hp & Hinv2 & Hr2 & Hw2).
    wp_step. apply wp_on_part. eapply wp_eq; [exact Hf|].
    wp_step. apply wp_modify. wp_step. apply wp_on_part. eapply wp_eq; [exact Hp|]. wp_step.
    etrans; [exact Hmoved|]. intros _. split_and!; [done..|]. split.
    + intros el Hel. left. change (el ∈ pq_elements (m_waiting s2)) in Hel. by rewrite Hw2 in Hel.
    + exists [a], []. rewrite app_nil_r.
      split_and!; [change (ready s = [a] ++ ready s2); by rewrite Hr2| |by right; left|].
      * intros _. apply (Forall_forall (λ el, ts_now (w_ts w) < m_nextTime el)).
        change (Forall (λ el, ts_now (w_ts w) < m_nextTime el) (pq_elements (m_waiting s2))).
        by rewrite Hw2.
      * by intros b ?%not_elem_of_nil.
  - wp_step. apply wp_get. destruct (_ <? _); [by wp_step|].
    wp_step. eapply wp_eq; [apply on_ts_arm|]. wp_step. eapply wp_eq; [apply on_ts_move|].
    wp_step. apply wp_modify, wp_ret. etrans; [exact Hmoved|].
    intros Hi. split_and!; [done..|]. split; [by left|]. exists [], []. rewrite app_nil_r.
    split_and!; [done|done|by right; right|]. by intros b ?%not_elem_of_nil.
Qed.

#[local] Ltac leaf ::= intros; apply same_turn; reflexivity.
#[local] Ltac rule ::=
  match goal with
  | |- keeping turn (on_ts (cancel _)) => apply turn_cancel
  | |- keeping turn (on_ts _) => apply turn_ts; intros ?; reflexivity
  | |- keeping turn (on_env _) => apply turn_env
  | |- keeping turn nextAction => apply turn_next
  | |- keeping turn (mbind _ (nextTime _)) => apply turn_postLater
  | |- keeping turn (postActionNow makeQueryAddressAction) => apply turn_postNow
  | |- keeping turn (modify_ah _) => apply turn_done
  end.

#[export] Instance turn_frame : MasterFrame turn.
Proof. split; [apply _|intros; calm..]. Qed.

(** ** What an input does to the queue *)

Context `{Hlaws : !MasterEnvLaws E}.
Abbreviation T := (Chart StateId Event * World)%type.
Abbreviation start_event := (chart_start (root_state master_setup)).
Abbreviation at_rest := (at_rest (W := World) (Ev := Event) master_setup).
#[local] Set Default Proof Using "Type Hlaws".

Lemma machine_turns (m : M Master ()) (m' : M T ()) P k s s' :
  sim at_rest m m' → keeping (on_chart turn) m' →
  wp m' never P (mkChart k [] None, s.2) → at_rest s (mkChart k [] None, s.2) →
  m s = Ok ((), s') → turn s.2 s'.2.
Proof.
  intros Hsim Hk Hwp HR Hs.
  destruct (wp_ok _ _ _ Hwp) as ([] & t' & Ht & _).
  destruct (machine_result _ _ _ _ _ Hsim HR Ht) as (s1 & Hs1 & HR1).
  assert (s1 = s') as -> by congruence. rewrite (proj1 (at_rest_parts _ _ HR1)).
  by apply (keeping_run (on_chart turn) _ _ _ _ Hk Ht).
Qed.

(** A request adds to the queue only. *)
Definition asked w w' : Prop :=
  scheduler_inv (sched w) → scheduler_inv (sched w') ∧ doing w' = doing w ∧
  ∃ new, ready_of w' = ready_of w ++ new.

Lemma same_asked w w' : w_ah w' = w_ah w → asked w w'.
Proof using.
  unfold asked, sched. intros -> Hinv. split_and!; [done..|]. exists []. by rewrite app_nil_r.
Qed.

#[export] Instance asked_preorder : PreOrder asked.
Proof using.
  split; [intros w; by apply same_asked|]. intros w1 w2 w3 H12 H23 H1.
  destruct (H12 H1) as (H2 & Hd2 & n2 & Hr2), (H23 H2) as (H3 & Hd3 & n3 & Hr3).
  split_and!; [done|congruence|]. exists (n2 ++ n3). by rewrite Hr3, Hr2, app_assoc.
Qed.

Lemma asked_post a : keeping asked (postActionNow a).
Proof using.
  intros w. unfold wp. destruct (postActionNow a w) as [[[] w']|] eqn:Hp; [|done]. intros Hinv.
  destruct (postActionNow_spec a w Hinv) as (s & Hs & Hinv' & Hr & _).
  rewrite Hp in Hs. injection Hs as ->. split_and!; [done..|]. by eexists.
Qed.

Lemma asked_env {A} (m : M E A) : keeping asked (on_env m).
Proof using. intros w. unfold on_env, on_part, wp. destruct (m _) as [[a e]|]; [|done]. by apply same_asked. Qed.

#[local] Ltac leaf ::= intros; apply same_asked; reflexivity.
#[local] Ltac rule ::=
  match goal with
  | |- keeping asked (postActionNow _) => apply asked_post
  | |- keeping asked (on_env _) => apply asked_env
  end.

Lemma asked_request aReq : keeping asked (receivedAddressRequest aReq).
Proof using. calm. Qed.

Lemma request_ignored k aReq w :
  k ≠ StateId.queryAddress →
  start_event chart_fuel (mkEvent Event.rx_pkt_address_request aReq) (mkChart k [] None, w)
  = Ok ((), (mkChart k [] None, w)).
Proof using. by destruct k. Qed.

Lemma request_asked aReq s s' :
  master_ok s → is_array 8 (packet.arq_uniqueId aReq) →
  post (mkEvent Event.rx_pkt_address_request aReq) s = Ok ((), s') → asked s.2 s'.2.
Proof.
  intros (k & HR & _ & Hset) Hid Hs.
  assert (∀ t', start_event chart_fuel (mkEvent Event.rx_pkt_address_request aReq)
    (mkChart k [] None, s.2) = Ok ((), t') → s'.2 = t'.2) as Hend.
  { intros t' Ht. destruct (machine_result _ _ _ _ _ (sim_postEvent _) HR Ht) as (s1 & Hs1 & HR1).
    assert (s1 = s') as -> by congruence. by destruct (at_rest_parts _ _ HR1). }
  destruct (decide (k = StateId.queryAddress)) as [->|Hk].
  - destruct (wp_ok _ _ _ (request_run aReq s.2 Hset Hid))
      as ([] & t' & Ht & _ & w1 & Hw1 & _ & _ & Hah).
    destruct (wp_ok _ _ _ Hw1) as ([] & w2 & Hrun & ->).
    pose proof (keeping_run asked _ _ _ _ (asked_request aReq) Hrun) as Hasked.
    rewrite (Hend t' Ht). etrans; [exact Hasked|]. by apply same_asked.
  - by rewrite (Hend _ (request_ignored k aReq s.2 Hk)).
Qed.

Lemma chart_turns ev : not_request ev → keeping (on_chart turn) (start_event chart_fuel ev).
Proof using. intros Hev. apply (chart_starts turn), Hev. Qed.

(** The packets other than requests, and the timers. *)
Lemma received_turns ev s s' :
  master_ok s → packet_event ev → not_request ev → post ev s = Ok ((), s') → turn s.2 s'.2.
Proof.
  intros (k & HR & _ & Hset) Hev Hne.
  by apply (machine_turns _ _ _ k _ _ (sim_postEvent ev) (chart_turns ev Hne) (run_received k ev _ Hev Hset)).
Qed.

Lemma expired_turn i w : turn w (expired i w).
Proof using. by apply same_turn. Qed.

Lemma fires_turns i c s s' :
  master_ok s → due (w_ts s.2) i c → ¬ start_timeout (Fires i c) s →
  timer_fires i c s = Ok ((), s') → turn s.2 s'.2.
Proof.
  intros (k & HR & Hms & Hs) Hdue Hne Hf. destruct (due_armed _ _ _ Hdue) as [at_ Hin].
  pose proof (at_rest_world _ _ (expired i s.2) HR) as HR'.
  assert (callback c (s.1, expired i s.2) = Ok ((), s')) as Hcall.
  { unfold timer_fires in Hf. by rewrite (bind_ok _ _ _ () (s.1, expired i s.2)) in Hf
      by (by destruct s as [? []]). }
  etrans; [apply (expired_turn i)|]. destruct c; cbn [callback] in Hcall.
  - destruct (settled_fsm_timer _ _ _ _ Hs Hin) as [Hk Hr].
    assert (k ≠ StateId.startMaster) as Hk' by (intros ->; apply Hne; split; [done|by exists i]).
    exact (machine_turns _ _ _ k (s.1, expired i s.2) s' (sim_postEvent _)
      (chart_turns (newEvent Event.timer_timeout) ltac:(done)) (run_fired k _ Hk' Hr) HR' Hcall).
  - destruct (settled_delay_timer _ _ _ _ Hs Hin) as (-> & Hc' & Hok & Hst & Hd).
    eapply (machine_turns _ _ _ StateId.idle (s.1, expired i s.2) s' sim_trigger); [| |exact HR'|exact Hcall].
    + apply (frame_checks turn (on_chart turn) (λ A m, chart_zoom turn m)), chart_turns. done.
    + by apply run_checkNewAction.
  - unfold on_world, zoom in Hcall. cbn [view set_view Lens_snd fst snd] in Hcall.
    destruct (postActionNow _ _) as [[[] w']|] eqn:Hp; [|done]. injection Hcall as <-.
    exact (keeping_run turn _ _ _ _ turn_postNow Hp).
Qed.

Lemma input_turns i s s' :
  master_ok s → enabled i s → handle i s = Ok ((), s') → turn s.2 s'.2 ∨ asked s.2 s'.2.
Proof.
  intros Hok Hi Hs. destruct (handle_ok _ _ _ Hok Hi Hs) as [_ Hne].
  destruct i as [type pkt|i c|delta env]; cbn [handle] in Hs.
  - destruct type; cbn [masterPacketReceived] in Hs;
      try (injection Hs as <-; right; apply same_asked; done);
      try (left; by eapply received_turns; [..|exact Hs]).
    case_decide as Hlen; [|injection Hs as <-; right; by apply same_asked].
    destruct (toHeader_request pkt Hi Hlen) as (aReq & Ha & Hid).
    rewrite (bind_ok _ _ s aReq s) in Hs by (unfold lift_result; by rewrite Ha).
    right. by apply (request_asked aReq).
  - left. by eapply fires_turns.
  - right. assert (s'.2 = s.2 <| w_ts ::= advance delta |> <| w_env := env |>) as ->.
    { destruct s as [f w]. cbn in Hs. injection Hs as <-. by destruct w. }
    by apply same_asked.
Qed.

(** ** Places in the queue *)

Lemma token_place a l (i j : nat) :
  m_action a = Action.send_token → NoDup (tokens l) → l !! i = Some a → l !! j = Some a → i = j.
Proof using.
  intros Ha. revert i j. induction l as [|b l IH]; intros i j Hnd Hi Hj; [done|].
  change (tokens (b :: l)) with (token_addr b ++ tokens l) in Hnd.
  apply NoDup_app in Hnd as (_ & Hdisj & Hnd).
  assert (∀ j, b = a → l !! j = Some a → False) as Hfirst.
  { intros j' -> Hj'%list_elem_of_lookup_2. apply (Hdisj (m_address a)); [|by apply elem_tokens].
    rewrite (token_addr_send_action a Ha). left. }
  destruct i as [|i], j as [|j]; cbn in Hi, Hj; [done|..].
  - injection Hi as ->. by destruct (Hfirst j).
  - injection Hj as ->. by destruct (Hfirst i).
  - f_equal. by apply IH.
Qed.

(** An action has begun that was not under way before. *)
Definition begins s s' : bool :=
  negb (doNothing (doing s'.2)) && bool_decide (doing s'.2 ≠ doing s.2).

Lemma started_place (l new started l' : list Action) (k : nat) a :
  m_action a = Action.send_token → NoDup (tokens l) → a ∉ new → l ++ new = started ++ l' →
  l !! k = Some a → a ∈ l' → (length started ≤ k)%nat ∧ l' !! (k - length started)%nat = Some a.
Proof using.
  intros Ha Hnd Hnew Heq Hk [j Hj]%list_elem_of_lookup.
  assert ((l ++ new) !! (length started + j)%nat = Some a) as Hj'.
  { rewrite Heq, lookup_app_r by lia. by rewrite Nat.add_comm, Nat.add_sub. }
  assert (l !! (length started + j)%nat = Some a) as Hl.
  { apply lookup_app_Some in Hj' as [?|[_ Hin%list_elem_of_lookup_2]]; [done|by destruct Hnew]. }
  rewrite (token_place a l _ _ Ha Hnd Hk Hl). split; [lia|].
  by rewrite Nat.add_comm, Nat.add_sub.
Qed.

(** A token that is to be sent now: it is ready, or its time has come. *)
Definition due_token a s : Prop :=
  a ∈ ready_of s.2 ∨
  ∃ el, el ∈ waiting_of s.2 ∧ el_action el = a ∧ m_nextTime el ≤ ts_now (w_ts s.2).

Lemma begins_started s s' (started : list Action) :
  doing s'.2 = makeDoNothingAction ∨ last started = Some (doing s'.2)
    ∨ started = [] ∧ doing s'.2 = doing s.2 →
  (Nat.b2n (begins s s') <= length started)%nat.
Proof using.
  unfold begins. intros [->|[Hlast|[-> ->]]].
  - change (negb (doNothing makeDoNothingAction)) with false. cbn. lia.
  - assert (length started ≠ 0)%nat by (by destruct started). destruct (_ && _); cbn; lia.
  - rewrite bool_decide_eq_false_2 by tauto. by rewrite andb_false_r.
Qed.

Lemma waits_its_turn i s s' a :
  master_ok s → enabled i s → handle i s = Ok ((), s') →
  m_action a = Action.send_token → due_token a s' →
  (∀ k : nat, ready_of s.2 !! k = Some a →
     ∃ k', ready_of s'.2 !! k' = Some a ∧ (k' + Nat.b2n (begins s s') <= k)%nat) ∧
  (begins s s' = true → a ∈ ready_of s'.2).
Proof.
  intros Hok Hi Hs Ha Hdue. pose proof Hok as (st & _ & _ & cur & _ & Hheld & _).
  pose proof (tokens_distinct _ _ _ Hheld) as (_ & _ & (Hnd & Hdisj & _)%NoDup_app)%NoDup_app.
  destruct (input_turns _ _ _ Hok Hi Hs) as [Hm|Hm].
  - destruct (Hm (wo_sched _ _ _ Hheld)) as (_ & Hnow & Hw & started & new & Heq & Hlater & Hdo & Hnew).
    pose proof (begins_started s s' started Hdo) as Hle. rewrite <-Hnow in Hlater, Hw. split.
    + intros k Hk.
      assert (∀ el, el ∈ waiting_of s.2 → el_action el ≠ a) as Hno.
      { intros el Hel Hela. apply (Hdisj (m_address a)).
        - by apply elem_tokens, list_elem_of_lookup_2 with (i := k).
        - apply elem_tokens; [done|]. rewrite <-Hela. by apply list_elem_of_fmap_2. }
      assert (a ∈ ready_of s'.2) as Hin.
      { destruct Hdue as [?|(el & Hel & Hela & Ht)]; [done|].
        destruct (Hw el Hel) as [Hold|?]; [by destruct (Hno el Hold)|lia]. }
      assert (a ∉ new) as Hold.
      { intros [->|(el & Hel & Hela & _)]%Hnew; [done|]. by apply (Hno el). }
      destruct (started_place _ _ _ _ _ _ Ha Hnd Hold Heq Hk Hin) as [Hlen Hk'].
      exists (k - length started)%nat. split; [exact Hk'|lia].
    + intros Hb. rewrite Hb in Hle. cbn in Hle.
      destruct Hdue as [?|(el & Hel & Hela & Ht)]; [done|].
      assert (ts_now (w_ts s'.2) < m_nextTime el); [|lia].
      apply Hlater; [|done]. intros ->. cbn in Hle. lia.
  - destruct (Hm (wo_sched _ _ _ Hheld)) as (_ & Hdo & new & Heq).
    pose proof (begins_started s s' [] (or_intror (or_intror (conj eq_refl Hdo)))) as Hb. cbn in Hb. split.
    + intros k Hk. exists k. split; [by rewrite Heq; apply lookup_app_l_Some|lia].
    + intros Hbt. rewrite Hbt in Hb. cbn in Hb. lia.
Qed.

(** A run in which the action remains to be begun, and [n] others are. *)
Inductive overtaken a : nat → Master → Master → Prop :=
  | overtaken_none s : overtaken a 0 s s
  | overtaken_step n i s s1 s2 :
      enabled i s → handle i s = Ok ((), s1) → due_token a s1 →
      overtaken a n s1 s2 → overtaken a (Nat.b2n (begins s s1) + n)%nat s s2.


Lemma overtaken_input a n n' i s s1 s2 :
  enabled i s → handle i s = Ok ((), s1) → due_token a s1 → overtaken a n s1 s2 →
  n' = (Nat.b2n (begins s s1) + n)%nat → overtaken a n' s s2.
Proof using. intros ???? ->. by eapply overtaken_step. Qed.
End turns.

(** ** The theorems at work *)

