(* ===== verification/TokenRound.v ===== *)
(** * A token's round

    The master gives a token to a client, hears that it has it, and hears what it does
    with it, or nothing. The line of the client's address then has the new state, and
    its next token is queued; whatever else the master does at the same time leaves
    both alone. *)

From S2P Require Import Prelude Keeping SerialProtocol VecQueue StateChart RootChart Config.
From S2P Require Import TimeService MasterScheduler MasterState DynamicHandler.
From S2P Require Import MasterFSM Master MasterInvariant MasterSafety MasterEvents.
From S2P Require Import MasterRuns MasterProps MasterFrame.

Lemma findLine_line addr d i :
  findLine addr d = Some i → ∃ line, dh_table d !! i = Some line ∧ al_address line = addr.
Proof.
  intros ([i' line] & (Hi & Ha & _)%list_find_Some & ->)%fmap_Some. by exists line.
Qed.

Section aside.
Context {E Q : Type} `{!MasterEnv E} `{!PriorityQueue Q}.
Abbreviation World := (World E Q).
Context (x : LocalAddress) (L : AddressLine) (el : QueueEl) (t0 : Time).
Context (Hx : x ≠ null_addr) (HL : al_address L = x) (Hel : t0 < m_nextTime el).
Implicit Types (w : World).

Abbreviation doing w := (ah_currentAction (w_ah w)).

(** An address that has had its turn: its line is in the table, its next token waits,
    and there is nothing to be done for it now. *)
Record by_side w : Prop := {
  bs_sched : scheduler_inv (sched w);
  bs_now : ts_now (w_ts w) = t0;
  bs_line : L ∈ dh_table (w_dh w);
  bs_waits : el ∈ waiting (sched w);
  bs_doing : m_address (doing w) ≠ x;
  bs_ready : Forall (λ b, m_address b ≠ x) (ready (sched w));
  bs_later : ∀ e, e ∈ waiting (sched w) → m_address (el_action e) = x → t0 < m_nextTime e
}.

Definition aside w w' : Prop := by_side w → by_side w'.

#[export] Instance aside_preorder : PreOrder aside.
Proof. split; unfold aside; [by intros w|]. intros w1 w2 w3. auto. Qed.

Lemma same_aside w w' :
  w_ah w' = w_ah w → dh_table (w_dh w') = dh_table (w_dh w) → ts_now (w_ts w') = ts_now (w_ts w) → aside w w'.
Proof. intros Ha Hd Ht []. constructor; unfold sched in *; rewrite ?Ha, ?Hd, ?Ht; done. Qed.

Lemma aside_at {A} (m : M World A) :
  (∀ w, by_side w → wp m (λ _, True) (λ _, by_side) w) → keeping aside m.
Proof.
  intros Hm w. unfold wp. destruct (m w) as [[a w']|] eqn:Hr; [|done]. intros Hs.
  exact (wp_run _ _ _ _ _ _ (Hm w Hs) Hr).
Qed.

Lemma aside_ts {A} (m : M (TimeService MasterTimer) A) :
  (∀ t, wp m (λ _, True) (λ _ t', ts_now t' = ts_now t) t) → keeping aside (on_ts m).
Proof.
  intros Hm w. apply wp_on_part. eapply wp_mono; [apply Hm|done|]. intros a t' Ht. by apply same_aside.
Qed.

Lemma aside_cancel timer : keeping aside (on_ts (cancel timer)).
Proof. apply aside_ts. by destruct timer. Qed.

Lemma aside_env {A} (m : M E A) : keeping aside (on_env m).
Proof. intros w. unfold on_env, on_part, wp. destruct (m _) as [[a e]|]; [|done]. by apply same_aside. Qed.

Lemma aside_done :
  keeping aside (modify_ah (λ h, h <| ah_currentAction := makeDoNothingAction |>)).
Proof using Hx. apply keeping_modify. intros w []. by constructor. Qed.

Lemma aside_query : keeping aside (postActionNow makeQueryAddressAction).
Proof using Hx.
  apply aside_at. intros w [].
  destruct (postActionNow_spec makeQueryAddressAction w bs_sched0) as (s & Hs & Hinv' & Hr & Hw).
  eapply wp_eq; [exact Hs|]. constructor; rewrite ?sched_set_scheduler; try done.
  - unfold waiting. by rewrite Hw.
  - rewrite Hr. apply Forall_app. split; [done|]. by apply Forall_singleton.
  - unfold waiting. by rewrite Hw.
Qed.

(** The result of another address. *)
Lemma aside_updates addr st w :
  addr ≠ x → by_side w → wp (updateAddressLine addr st) (λ _, True) (λ _, by_side) w.
Proof using HL.
  intros Hne Hs. destruct (findLine addr (w_dh w)) as [i|] eqn:Hf.
  2:{ unfold updateAddressLine. wp_step. apply wp_get. by rewrite Hf. }
  destruct (findLine_line _ _ _ Hf) as (line & Hi & Ha).
  eapply wp_eq; [by apply updateAddressLine_spec|]. destruct Hs.
  assert (∃ j, dh_table (w_dh w) !! j = Some L ∧ j ≠ i) as (j & Hj & Hji).
  { apply list_elem_of_lookup in bs_line0 as [j Hj]. exists j. split; [done|]. intros ->. congruence. }
  unfold updated. destruct (removeDynamic _).
  - constructor; try done. cbn. apply list_elem_of_lookup.
    destruct (decide (j < i)%nat) as [Hlt|Hge].
    + exists j. by rewrite list_lookup_delete_lt by lia.
    + exists (j - 1)%nat. rewrite list_lookup_delete_ge by lia.
      by replace (S (j - 1)) with j by lia.
  - constructor; rewrite ?sched_set_scheduler; try done.
    + cbn. apply list_elem_of_lookup. exists j. by rewrite list_lookup_insert_ne by done.
    + unfold waiting. cbn. rewrite pq_elements_emplace. by right.
    + intros e. unfold waiting. cbn. rewrite pq_elements_emplace.
      intros [->|He]%elem_of_cons; [by intros|by apply bs_later0].
Qed.

Lemma aside_result rv : keeping aside (recordResult rv).
Proof using Hx HL.
  apply aside_at. intros w Hs. unfold recordResult. wp_step. apply wp_get. wp_step. apply wp_modify.
  pose proof (bs_doing w Hs) as Hne.
  pose proof (keeping_run aside _ _ _ _ aside_done
    (eq_refl : modify_ah _ w = Ok ((), set_ah_current makeDoNothingAction w)) Hs) as Hs'.
  change (w <| w_ah ::= _ |>) with (set_ah_current makeDoNothingAction w).
  destruct rv; try done; [by apply aside_updates..|].
  eapply wp_eq; [apply addressDiscoveryIsDone_spec|]. revert Hs'. by apply (same_aside (set_ah_current makeDoNothingAction w)).
Qed.

(** The action at the front is not one of the address, and none that is due is. *)
Lemma aside_next : keeping aside nextAction.
Proof using Hel.
  apply aside_at. intros w Hs. unfold nextAction. wp_step. apply wp_get.
  destruct (doNothing (doing w)); [|by wp_step].
  wp_step. eapply wp_eq; [apply on_ts_now|]. wp_step. destruct Hs.
  destruct (workToDo_spec (ts_now (w_ts w)) (sched w) bs_sched0)
    as (s & moved & Hs & Hinv & Hr & Hw & Hdue & _).
  rewrite bs_now0 in Hdue.
  assert (by_side (set_scheduler s w)) as Hmoved.
  { constructor; rewrite ?sched_set_scheduler; try done.
    - rewrite Hw in bs_waits0. apply elem_of_app in bs_waits0 as [Hin|]; [|done].
      apply (proj1 (Forall_forall _ _) Hdue) in Hin. lia.
    - rewrite Hr. apply Forall_app. split; [done|]. apply Forall_fmap, Forall_forall.
      intros e Hin Ha. apply (proj1 (Forall_forall _ _) Hdue) in Hin as Ht. cbn in Ha.
      assert (t0 < m_nextTime e); [|lia]. apply bs_later0; [|done].
      rewrite Hw. apply elem_of_app. by left.
    - intros e He. apply bs_later0. rewrite Hw. apply elem_of_app. by right. }
  unfold on_scheduler at 1. apply wp_on_part. eapply wp_eq; [exact Hs|].
  case_bool_decide as Hready.
  - destruct (ready s) as [|a r] eqn:Hfront; [done|].
    destruct (front_pop_spec a r s Hinv Hfront) as (Hf & s2 & Hp & Hinv2 & Hr2 & Hw2).
    wp_step. apply wp_on_part. eapply wp_eq; [exact Hf|].
    wp_step. apply wp_modify. wp_step. apply wp_on_part. eapply wp_eq; [exact Hp|]. wp_step.
    destruct Hmoved as [_ Hnow Hline Hwaits _ Hrs Hlater]. rewrite sched_set_scheduler in *.
    rewrite Hfront in Hrs. apply Forall_cons in Hrs as [Ha Hrs].
    constructor; try done; change (sched _) with s2; [|by rewrite Hr2|].
    all: unfold waiting; by rewrite Hw2.
  - wp_step. apply wp_get. destruct (_ <? _); [by wp_step|].
    wp_step. eapply wp_eq; [apply on_ts_arm|]. wp_step. eapply wp_eq; [apply on_ts_move|].
    wp_step. apply wp_modify, wp_ret. destruct Hmoved. by constructor.
Qed.

#[local] Ltac leaf ::= intros; apply same_aside; reflexivity.
#[local] Ltac rule ::=
  match goal with
  | |- keeping aside (on_ts (cancel _)) => apply aside_cancel
  | |- keeping aside (on_ts _) => apply aside_ts; intros ?; reflexivity
  | |- keeping aside (on_env _) => apply aside_env
  | |- keeping aside nextAction => apply aside_next
  | |- keeping aside (recordResult _) => apply aside_result
  | |- keeping aside (postActionNow makeQueryAddressAction) => apply aside_query
  end.

Lemma aside_frame : MasterFrame aside.
Proof using Hx HL Hel. split; [apply _|intros; calm..]. Qed.
End aside.

(** ** The round *)

Section round.
Context {E Q : Type} `{!MasterEnv E} `{!PriorityQueue Q} `{Hlaws : !MasterEnvLaws E}.
Abbreviation World := (World E Q).
Abbreviation Master := (Master (E := E) (Q := Q)).
Abbreviation T := (Chart StateId Event * World)%type.
Abbreviation start_event := (chart_start (root_state master_setup)).
Abbreviation at_rest := (at_rest (W := World) (Ev := Event) master_setup).
Implicit Types (w : World) (a : Action) (k : StateId) (s : Master).
#[local] Set Default Proof Using "Type Hlaws".

Lemma address_not_null held qs w (x : LocalAddress) :
  world_ok held qs w → x ∈ addresses w → x ≠ null_addr.
Proof using.
  intros [_ _ _ _ _ _ _ [Hp _ _ _] _ _ _ _] Hx.
  assert (x ∈ static_addresses ++ dynamic_addresses) as Hin by (rewrite <-Hp; apply elem_of_app; by left).
  clear Hx. revert x Hin. apply Forall_forall. by apply (bool_decide_unpack _).
Qed.

(** The next token of an address whose line is [line]. *)
Definition next_token (line : AddressLine) (now : Time) : QueueEl :=
  mkQueueEl (now + delay_of (al_state line)) (posted_of (makeSendTokenAction (al_address line))).

(** A token's result moves the line, queues the next token, and leaves nothing else to
    be done for the address. *)
Lemma recorded_by_side rv st i line w :
  let x := m_address (ah_currentAction (w_ah w)) in let line' := setState st line in
  token_result rv = Some st → world_ok [x] 0 w →
  findLine x (w_dh w) = Some i → dh_table (w_dh w) !! i = Some line →
  removeDynamic line' = false →
  wp (recordResult rv) (λ _, True)
    (λ _ w', by_side x line' (next_token line' (ts_now (w_ts w))) (ts_now (w_ts w)) w') w.
Proof using.
  intros x line' Hrv Hok Hf Hi Hkeep.
  destruct (findLine_line _ _ _ Hf) as (line1 & Hi' & Ha). rewrite Hi in Hi'. injection Hi' as <-.
  assert (al_address line' = x) as Ha' by (unfold line'; by rewrite setState_address).
  pose proof (tokens_distinct _ _ _ Hok) as (_ & Hx & _)%NoDup_app.
  specialize (Hx x ltac:(left)). apply not_elem_of_app in Hx as [Hxr Hxw].
  assert (x ≠ null_addr) as Hnull.
  { apply (address_not_null _ _ _ _ Hok). rewrite (wo_tokens _ _ _ Hok). left. }
  unfold recordResult. wp_step. apply wp_get. wp_step. apply wp_modify. fold x.
  change (w <| w_ah ::= _ |>) with (set_ah_current makeDoNothingAction w).
  set (w1 := set_ah_current _ w).
  assert (updateAddressLine x st w1 = Ok ((), updated x st i line w1)) as Hup
    by by apply updateAddressLine_spec.
  assert (by_side x line' (next_token line' (ts_now (w_ts w))) (ts_now (w_ts w))
    (updated x st i line w1)) as Hend.
  2:{ destruct rv; simpl in Hrv; try done; injection Hrv as <-; by eapply wp_eq. }
  unfold updated. fold line'. rewrite Hkeep. destruct Hok.
  constructor; rewrite ?sched_set_scheduler; try done.
  - cbn. apply list_elem_of_lookup. exists i. apply list_lookup_insert_eq. by eapply lookup_lt_Some.
  - unfold waiting. cbn. rewrite pq_elements_emplace. unfold next_token. rewrite Ha'. left.
  - apply Forall_forall. intros b Hb Hbx. apply Hxr.
    apply (proj1 (Forall_forall _ _) wo_ready) in Hb as Hpost. destruct Hpost as (_ & _ & Haddr).
    assert (m_action b = Action.send_token) as Hbt.
    { destruct (decide (m_action b = Action.send_token)) as [|Hnt]; [done|].
      apply Haddr in Hnt. congruence. }
    rewrite <-Hbx. by apply elem_tokens.
  - intros e. unfold waiting. cbn. rewrite pq_elements_emplace.
    intros [->|He]%elem_of_cons Hex.
    { change (ts_now (w_ts w) < ts_now (w_ts w) + delay_of (al_state line')).
      pose proof (delay_positive (al_state line')). lia. }
    destruct Hxw. rewrite <-Hex. assert (el_action e ∈ waiting_actions w) as Hin
      by by apply list_elem_of_fmap_2.
    apply (proj1 (Forall_forall _ _) wo_waiting) in Hin as Hpost.
    apply elem_tokens; [apply Hpost|done].
Qed.

(** ** The machine meanwhile *)

Section heard.
Context (x : LocalAddress) (L : AddressLine) (el : QueueEl) (t0 : Time).
Context (Hx : x ≠ null_addr) (HL : al_address L = x) (Hel : t0 < m_nextTime el).
#[local] Set Default Proof Using "Type MasterEnv0 Hx HL Hel".

Definition chart_aside (t : T) : Prop :=
  Forall not_request (ch_queue t.1) ∧ by_side x L el t0 t.2.

#[local] Instance round_frame : MasterFrame (aside (E := E) (Q := Q) x L el t0) :=
  aside_frame x L el t0 Hx HL Hel.

Lemma stays_aside {A} (m : M T A) t :
  keeping (on_chart (aside x L el t0)) m → chart_aside t →
  wp m (λ _, True) (λ _, chart_aside) t.
Proof using.
  intros Hm [Hq Hs]. eapply wp_mono; [apply Hm|done|]. intros a t' Ht.
  destruct (Ht Hq) as [Hq' Ha]. split; [done|by apply Ha].
Qed.

Lemma checks_aside t :
  chart_aside t → wp (checkNewAction chart_post) (λ _, True) (λ _, chart_aside) t.
Proof.
  apply stays_aside, (frame_checks _ _ (λ A m, chart_zoom _ m)), chart_posts; [apply round_frame|done].
Qed.

Lemma goto_aside k t :
  chart_aside t → wp (goto chart_transition k) (λ _, True) (λ _, chart_aside) t.
Proof. apply stays_aside, chart_transitions, round_frame. Qed.

Lemma run_aside k ev w :
  wp (state_event chart_post chart_transition k ev) (λ _, True) (λ _, chart_aside)
    (mkChart k [ev] None, w) →
  wp (start_event chart_fuel ev) (λ _, True) (λ _ t', by_side x L el t0 t'.2)
    (mkChart k [] None, w).
Proof.
  intros Hev. unfold chart_start. wp_step. apply wp_gets. wp_step. apply wp_modify.
  cbn [compose fst snd ch_state ch_queue ch_target app chart_run chart_fuel].
  wp_step. apply wp_gets. cbn [compose ch_queue fst]. wp_step.
  eapply (wp_event k); [done|]. eapply wp_mono; [exact Hev|done|]. intros ? t1 Ht1.
  wp_step. apply (wp_mono _ (λ _, True) _ (λ _, chart_aside)); [|done|].
  { destruct (ch_target t1.1); [|by apply wp_skip].
    apply stays_aside; [|exact Ht1]. apply chart_moves, round_frame. }
  intros ? t2 Ht2. eapply wp_mono; [apply stays_aside; [|exact Ht2]|done|].
  { apply chart_pops, round_frame. }
  intros ? t3 Ht3. eapply wp_mono; [apply stays_aside; [|exact Ht3]|done|by intros ? t4 []].
  apply (chart_runs _ _ 37).
Qed.
End heard.

(** The address that is being polled has had its turn. *)
Definition had_turn (w0 : World) (line : AddressLine) : World → Prop :=
  by_side (al_address line) line (next_token line (ts_now (w_ts w0))) (ts_now (w_ts w0)).

Section result.
Context (st : AddressLine.State) (i : nat) (line : AddressLine) (a : Action) (w : World).
Context (Hi : dh_table (w_dh w) !! i = Some line) (Hkeep : removeDynamic (setState st line) = false).
Context (Hc : current a w) (Hp : posted a) (Ha : m_action a = Action.send_token) (Hok : holds a w).
Context (Hf : findLine (m_address a) (w_dh w) = Some i).
#[local] Set Default Proof Using "Type Hi Hkeep Hc Hp Ha Hok Hf".

Lemma report_round rv k ev :
  token_result rv = Some st → not_request ev →
  wp (reportActionResult chart_post rv ;; goto chart_transition StateId.idle) (λ _, True)
    (λ _ t, Forall not_request (ch_queue t.1) ∧ had_turn w (setState st line) t.2)
    ((mkChart k [ev] None, w) : T).
Proof.
  intros Hrv Hev. destruct Hc as [Hah Hfsm], Hp as (Hcb & _). unfold holds in Hok.
  assert (query_count a = 0%nat) as Hq by (unfold query_count; by rewrite Ha). rewrite Hq in Hok.
  rewrite (token_addr_send_action a Ha) in Hok. rewrite <-Hah in Hok, Hf.
  pose proof (delay_positive (al_state (setState st line))) as Hdelay.
  destruct (findLine_line _ _ _ Hf) as (line1 & Hi' & Hla). rewrite Hi in Hi'. injection Hi' as <-.
  assert (al_address (setState st line) ≠ null_addr) as Hx.
  { rewrite setState_address. apply (address_not_null _ _ _ _ Hok).
    apply list_elem_of_fmap_2. by eapply list_elem_of_lookup_2. }
  wp_step. unfold reportActionResult. wp_step. wp_step. cbn [view set_view Lens_snd fst snd].
  unfold takeAction. wp_step. apply wp_get. wp_step. apply wp_modify. apply wp_ret.
  rewrite Hfsm, Hcb. unfold ActionHandler_reportActionResult. wp_step. wp_step.
  cbn [view set_view Lens_snd fst snd]. set (w1 := w <| w_fsm ::= _ |>).
  eapply wp_mono; [by apply (recorded_by_side rv st i line w1 Hrv (set_fsm_action_ok _ _ _ _ Hok))
    |done|].
  intros ? w2 Hw2. change (ah_currentAction (w_ah w1)) with (ah_currentAction (w_ah w)) in Hw2.
  rewrite <-Hla, <-(setState_address st line) in Hw2.
  assert (ts_now (w_ts w) < m_nextTime (next_token (setState st line) (ts_now (w_ts w)))) as Hel
    by (cbn [next_token m_nextTime]; lia).
  eapply wp_mono; [apply (checks_aside _ _ _ _ Hx eq_refl Hel)|done|].
  - split; [by apply Forall_singleton|exact Hw2].
  - intros [] t Ht. by apply (goto_aside _ _ _ _ Hx eq_refl Hel).
Qed.

Abbreviation after_turn := (λ _ t, had_turn w (setState st line) (snd t)).

Lemma in_turn k ev :
  wp (state_event chart_post chart_transition k ev) (λ _, True)
    (λ _ t, Forall not_request (ch_queue t.1) ∧ had_turn w (setState st line) t.2)
    (mkChart k [ev] None, w) →
  wp (start_event chart_fuel ev) (λ _, True) after_turn (mkChart k [] None, w).
Proof.
  intros Hev. refine (run_aside (al_address (setState st line)) _ _ _ _ eq_refl _ k ev w Hev).
  - rewrite setState_address. apply (address_not_null _ _ _ _ Hok).
    apply list_elem_of_fmap_2. by eapply list_elem_of_lookup_2.
  - pose proof (delay_positive (al_state (setState st line))). cbn [next_token m_nextTime]. lia.
Qed.

Lemma reports_in_turn rv ev :
  token_result rv = Some st → not_request ev →
  wp (reportActionResult chart_post rv ;; goto chart_transition StateId.idle ;; mret true)
    (λ _, True)
    (λ _ t, Forall not_request (ch_queue t.1) ∧ had_turn w (setState st line) t.2)
    ((mkChart StateId.waitClientPacketDone [ev] None, w) : T).
Proof.
  intros Hrv Hev. apply wp_bind_assoc, wp_bind.
  eapply wp_mono; [by apply report_round|done|]. intros ? t Ht. by apply wp_ret.
Qed.
End result.

Lemma grant_run w :
  settled StateId.sendingToken w →
  wp (start_event chart_fuel (newEvent Event.rx_pkt_grant_token)) never
    (λ _ t', t'.1 = mkChart StateId.waitClientPacketDone [] None ∧
       w_ah t'.2 = w_ah w ∧ w_dh t'.2 = w_dh w ∧ ts_now (w_ts t'.2) = ts_now (w_ts w))
    (mkChart StateId.sendingToken [] None, w).
Proof.
  intros (a & Hc & Hok & Ha & Hrun & Hd).
  unfold chart_start. wp_step. apply wp_gets. wp_step. apply wp_modify.
  cbn [compose fst snd ch_state ch_queue ch_target app chart_run chart_fuel].
  wp_step. apply wp_gets. cbn [compose ch_queue fst]. wp_step.
  eapply (wp_event StateId.sendingToken); [done|].
  unfold state_event, SendingToken_event. cbn [m_id newEvent]. wp_step. apply wp_modify, wp_ret.
  cbn [set_view Lens_snd fst snd ch_state ch_queue ch_target]. apply wp_move.
  unfold state_destroy. wp_step. cbn [view set_view Lens_snd fst snd].
  eapply wp_mono; [apply (wp_cleanTimer (token_addr a) (query_count a)); [done|by left]|done|].
  intros ? w2 (Hok2 & Hst2 & []). unfold state_make. wp_step.
  cbn [view set_view Lens_snd fst snd].
  eapply wp_mono; [by apply (wp_startTimer (token_addr a) (query_count a))|done|].
  intros ? w3 (_ & _ & []).
  cbn [set_view Lens_snd fst snd ch_state ch_queue ch_target tail chart_run].
  wp_step. apply wp_gets. apply wp_skip. cbn [fst snd]. split_and!; congruence.
Qed.

(** What the master hears of the client that has the token: that it sends, that it has
    nothing to send, or nothing. *)
Definition heard (i : input (E := E)) (st : AddressLine.State) s : Prop :=
  match i with
  | Received (send_packet | mac_update) _ => st = AddressLine.active
  | Received return_token _ => st = AddressLine.idle
  | Fires _ FsmTimeout => st = AddressLine.badClient ∧
      ∃ e, packetRxInProgress (ts_now (w_ts s.2)) (w_env s.2) = Ok (false, e)
  | _ => False
  end.

Lemma post_in_turn ev k s (P : World → Prop) :
  at_rest s (mkChart k [] None, s.2) →
  wp (start_event chart_fuel ev) never (λ _, rest) (mkChart k [] None, s.2) →
  wp (start_event chart_fuel ev) (λ _, True) (λ _ t, P t.2) (mkChart k [] None, s.2) →
  ∃ s', post ev s = Ok ((), s') ∧ P s'.2.
Proof.
  intros HR Hrest HP. destruct (wp_ok _ _ _ Hrest) as ([] & t & Ht & _).
  pose proof (wp_run _ _ _ _ _ _ HP Ht) as Hend.
  destruct (machine_result _ _ _ _ _ (sim_postEvent ev) HR Ht) as (s' & Hs' & HR').
  exists s'. by rewrite (proj1 (at_rest_parts _ _ HR')).
Qed.

(** A packet that reports a result. *)
Lemma packet_in_turn ev rv st j line s :
  master_ok s → master_state s = Some StateId.waitClientPacketDone →
  packet_event ev → not_request ev → token_result rv = Some st →
  state_event chart_post chart_transition StateId.waitClientPacketDone ev
    = (reportActionResult chart_post rv ;; goto chart_transition StateId.idle ;; mret true)
      :> M T bool →
  removeDynamic (setState st line) = false →
  findLine (m_address (ah_currentAction (w_ah s.2))) (w_dh s.2) = Some j →
  dh_table (w_dh s.2) !! j = Some line →
  ∃ s', post ev s = Ok ((), s') ∧ had_turn s.2 (setState st line) s'.2.
Proof.
  intros (k & HR & Hk & Hs) Hst Hev Hne Hrv Hcode Hkeep Hf Hj. rewrite Hst in Hk. injection Hk as <-.
  pose proof Hs as (a & Hc & Hok & [Hp Ha] & _). rewrite (proj1 Hc) in Hf.
  apply (post_in_turn ev StateId.waitClientPacketDone); [done|by apply run_received|].
  apply (in_turn st j line a s.2); [done..|]. rewrite Hcode. by eapply reports_in_turn.
Qed.

(** The time-out, while nothing is coming in. *)
Lemma timeout_in_turn i e j line s :
  master_ok s → master_state s = Some StateId.waitClientPacketDone →
  due (w_ts s.2) i FsmTimeout →
  packetRxInProgress (ts_now (w_ts s.2)) (w_env s.2) = Ok (false, e) →
  removeDynamic (setState AddressLine.badClient line) = false →
  findLine (m_address (ah_currentAction (w_ah s.2))) (w_dh s.2) = Some j →
  dh_table (w_dh s.2) !! j = Some line →
  ∃ s', timer_fires i FsmTimeout s = Ok ((), s') ∧
    had_turn s.2 (setState AddressLine.badClient line) s'.2.
Proof.
  intros (k & HR & Hk & Hs) Hst Hi He Hkeep Hf Hj. rewrite Hst in Hk. injection Hk as <-.
  pose proof Hs as (a & Hc & Hok & [Hp Ha] & _). rewrite (proj1 Hc) in Hf.
  destruct (due_armed _ _ _ Hi) as [at_ Hin].
  destruct (settled_fsm_timer _ _ _ _ Hs Hin) as [Hne Hr].
  pose proof (at_rest_world _ _ (expired i s.2) HR) as HR'.
  assert (holds a (expired i s.2)) as Hok' by by eapply expired_ok.
  assert (env_ok e) as Hee.
  { destruct (packetRxInProgress_ok (ts_now (w_ts s.2)) (w_env s.2) (wo_env _ _ _ Hok))
      as (b & e' & He' & _ & ?). rewrite He in He'. by injection He' as _ <-. }
  destruct (post_in_turn (newEvent Event.timer_timeout) StateId.waitClientPacketDone
    (s.1, expired i s.2) (had_turn s.2 (setState AddressLine.badClient line)) HR') as (s' & Hs' & Hend).
  - by apply run_fired.
  - apply (in_turn AddressLine.badClient j line a (expired i s.2)); [done..|].
    cbn [state_event WaitClientPacketDone_event m_id newEvent]. wp_step. wp_step.
    cbn [view Lens_snd snd]. unfold clientSending. wp_step. apply wp_get.
    eapply wp_eq; [by apply on_env_ok|]. cbn [set_view Lens_snd fst]. apply wp_bind.
    set (w1 := (expired i s.2) <| w_env := e |>).
    assert (holds a w1) as Hok1 by by apply set_env_ok.
    eapply (wp_mono _ (λ _, True) _ (λ _ t, Forall not_request (ch_queue t.1) ∧
      had_turn w1 (setState AddressLine.badClient line) t.2));
      [|done|intros ? t Ht; apply wp_ret; exact Ht].
    apply (report_round AddressLine.badClient j line a w1 Hj Hkeep Hc Hp Ha Hok1 Hf); [done|].
    discriminate.
  - exists s'. split; [|done]. unfold timer_fires.
    apply (bind_step _ _ _ () (s.1, expired i s.2)); [by destruct s as [? []]|exact Hs'].
Qed.

Lemma heard_in_turn i st j line s :
  master_ok s → master_state s = Some StateId.waitClientPacketDone → enabled i s →
  heard i st s → removeDynamic (setState st line) = false →
  findLine (m_address (ah_currentAction (w_ah s.2))) (w_dh s.2) = Some j →
  dh_table (w_dh s.2) !! j = Some line →
  ∃ s', handle i s = Ok ((), s') ∧ had_turn s.2 (setState st line) s'.2.
Proof.
  intros Hok Hst Hi Hheard Hkeep Hf Hj.
  destruct i as [type pkt|i c|]; [|destruct c; [|done..]|done].
  - destruct type; try done; cbn [heard] in Hheard; subst st.
    + by apply (packet_in_turn (newEvent Event.rx_return_token) Action.rx_token_no_packet _ j).
    + by apply (packet_in_turn (newEvent Event.rx_pkt_client_packet) Action.client_packet_started _ j).
    + by apply (packet_in_turn (newEvent Event.rx_pkt_client_packet) Action.client_packet_started _ j).
  - destruct Hheard as [-> [e He]]. by apply (timeout_in_turn i e j).
Qed.

Lemma grant_heard p s :
  reachable s → master_state s = Some StateId.sendingToken →
  ∃ s1, handle (Received grant_token p) s = Ok ((), s1) ∧
    master_state s1 = Some StateId.waitClientPacketDone ∧ w_ah s1.2 = w_ah s.2 ∧ w_dh s1.2 = w_dh s.2.
Proof.
  intros Hr Hst. destruct (reachable_ok _ Hr) as (k & HR & Hk & Hs).
  rewrite Hst in Hk. injection Hk as <-.
  destruct (wp_ok _ _ _ (grant_run _ Hs)) as ([] & t & Ht & Ht1 & Hah & Hdh & _).
  destruct (machine_result _ _ _ _ _ (sim_postEvent _) HR Ht) as (s1 & Hs1 & HR1).
  exists s1. destruct (at_rest_parts _ _ HR1) as [-> ->]. by rewrite Ht1.
Qed.

End round.

(** ** The theorems at work *)

