(* ===== verification/Interfaces.v ===== *)
(** * Interfaces between the layers (interfaces/MsgHostIf.h, MsgEtherIf.h,
    ByteEtherIf.h)

    The abstract classes the layers of a node meet at. A class here holds the
    virtual functions as operations on the state [S] that contains the
    implementer; objects that are registered by pointer are elements of a type of
    identities ([H] for the host side, [B] for byte drivers). The [Laws] classes
    state what a client of the interface relies on. *)

From S2P Require Import Prelude SerialProtocol Config.

(** ** Lenses compose *)

Program Definition lens_comp {S T U} (L1 : Lens S T) (L2 : Lens T U) : Lens S U := {|
  view s := @view T U L2 (@view S T L1 s);
  set_view u s := @set_view S T L1 (@set_view T U L2 u (@view S T L1 s)) s
|}.
Next Obligation. intros; cbn beta. by rewrite !view_set. Qed.
Next Obligation. intros; cbn beta. by rewrite view_set, !set_set. Qed.
Next Obligation. intros; cbn beta. by rewrite !set_get. Qed.

(** ** The byte layer *)

(** [ByteEtherIf]: [addClient] registers the receiver of incoming bytes, or
    removes it when given the null pointer, [false]. *)
Class ByteEtherIf (B S : Type) := {
  sendBytes : B → ByteVec → M S ();
  addClient : B → bool → M S ()
}.
#[export] Hint Mode ByteEtherIf - ! : typeclass_instances.

(** ** The frame layer *)

(** [MsgEtherIf::sendMsg] and [packetRxInProgress], which is told the time. *)
Class MsgEtherIf (S : Type) := {
  ether_sendMsg : ByteVec → M S ();
  ether_packetRxInProgress : Time → M S bool
}.
#[export] Hint Mode MsgEtherIf ! : typeclass_instances.

(** ** The host side *)

(** [MsgHostIf::RxIf] and [MsgHostIf::AddrChange], which drivers implement. *)
Class HostCallbacks (H S : Type) := {
  packetReceivedFromNet : H → ByteVec → LocalAddress → LocalAddress → ChannelType → M S ();
  msgHostRx_newAddr : H → LocalAddress → M S ()
}.
#[export] Hint Mode HostCallbacks - ! : typeclass_instances.

(** [MsgHostIf], which the core implements. *)
Class MsgHostIf (H S : Type) := {
  host_sendPacket : ByteVec → LocalAddress → ChannelType → M S ();
  host_sendMacUpdate : MacAddr → M S ();
  host_clientAddress : M S LocalAddress;
  host_setRxHandler : option H → ChannelType → M S ();
  host_setAddrUpdateHandler : option H → M S ()
}.
#[export] Hint Mode MsgHostIf - ! : typeclass_instances.
