(* ===== verification/TxQueue.v ===== *)
(** * The transmit queue and the own address (core/OwnAddress.h, OwnAddress.cpp,
    TxQueue.h, TxQueue.cpp)

    Packets of the host wait here for a token. The queue knows the client's
    address, the host drivers per channel type, and sends through the frame
    layer. *)

From S2P Require Import Prelude SerialProtocol Config Interfaces.

(** ** The own address *)

Record OwnAddress (H : Type) : Type := mkOwnAddress {
  oa_addr : LocalAddress;
  oa_dynamic : bool;
  oa_addrChangeIf : option H
}.
Arguments mkOwnAddress {H}.
Arguments oa_addr {H} _.
Arguments oa_dynamic {H} _.
Arguments oa_addrChangeIf {H} _.
#[export] Instance Eta_OwnAddress {H} : Eta (OwnAddress H) := λ a,
  mkOwnAddress (oa_addr a) (oa_dynamic a) (oa_addrChangeIf a).

Module own_address.
Definition newOwnAddress {H} (la : LocalAddress) : OwnAddress H :=
  mkOwnAddress la (la =? null_addr) None.

Definition valid {H} (a : OwnAddress H) : bool := negb (oa_addr a =? null_addr).

Definition setListener {H} (ac : option H) (a : OwnAddress H) : OwnAddress H :=
  a <| oa_addrChangeIf := ac |>.

Section own_address.
Context {H S : Type} `{!Lens S (OwnAddress H)} `{!HostCallbacks H S}.

Definition set (addr : LocalAddress) : M S () :=
  a ← load;
  let change := negb (oa_addr a =? addr) in
  store (a <| oa_addr := addr |>) ;;
  match oa_addrChangeIf a with
  | Some ac => if change then msgHostRx_newAddr ac addr else skip
  | None => skip
  end.

Definition masterStarted : M S () :=
  a ← load;
  if oa_dynamic a then set null_addr else skip.
End own_address.
End own_address.

(** ** The queue *)

Record TxQueue (H : Type) : Type := mkTxQueue {
  tq_txMsg : list ByteVec;
  tq_ownAddress : OwnAddress H;
  tq_rxIfRaw : option H;
  tq_rxIfTap : option H;
  tq_rxIfTun : option H
}.
Arguments mkTxQueue {H}.
Arguments tq_txMsg {H} _.
Arguments tq_ownAddress {H} _.
Arguments tq_rxIfRaw {H} _.
Arguments tq_rxIfTap {H} _.
Arguments tq_rxIfTun {H} _.
#[export] Instance Eta_TxQueue {H} : Eta (TxQueue H) := λ q,
  mkTxQueue (tq_txMsg q) (tq_ownAddress q) (tq_rxIfRaw q) (tq_rxIfTap q) (tq_rxIfTun q).

#[export] Program Instance Lens_ownAddress {H} : Lens (TxQueue H) (OwnAddress H) := {
  view := tq_ownAddress;
  set_view a q := q <| tq_ownAddress := a |>
}.
Solve Obligations with (by intros H; repeat intros []).

Module tx_queue.
Definition newTxQueue {H} (ownAddr : LocalAddress) : TxQueue H :=
  mkTxQueue [] (own_address.newOwnAddress ownAddr) None None None.

Definition clientAddress {H} (q : TxQueue H) : LocalAddress := oa_addr (tq_ownAddress q).
Definition msgHostTx_clientAddress {H} (q : TxQueue H) : LocalAddress :=
  oa_addr (tq_ownAddress q).
Definition txQueueEmpty {H} (q : TxQueue H) : bool := bool_decide (tq_txMsg q = []).

Definition setRxHandler {H} (rxIf : option H) (chType : ChannelType) (q : TxQueue H) :
    TxQueue H :=
  match chType with
  | raw_stream => q <| tq_rxIfRaw := rxIf |>
  | tap_format => q <| tq_rxIfTap := rxIf |>
  | tun_format => q <| tq_rxIfTun := rxIf |>
  | illegal_type => q
  | other_channel _ => q
  end.

Definition getRxIf {H} (chType : ChannelType) (q : TxQueue H) : option H :=
  match chType with
  | raw_stream => tq_rxIfRaw q
  | tap_format => tq_rxIfTap q
  | tun_format => tq_rxIfTun q
  | illegal_type => None
  | other_channel _ => None
  end.

Definition setAddrUpdateHandler {H} (ac : option H) (q : TxQueue H) : TxQueue H :=
  q <| tq_ownAddress ::= own_address.setListener ac |>.

(** [m_txMsg.push_back] *)
Definition push_back {H} (p : ByteVec) (q : TxQueue H) : TxQueue H :=
  q <| tq_txMsg ::= λ l, l ++ [p] |>.

Section tx_queue.
Context {H S : Type} `{LQ : !Lens S (TxQueue H)} `{!HostCallbacks H S} `{!MsgEtherIf S}.

#[local] Instance own_lens : Lens S (OwnAddress H) := lens_comp LQ _.

Definition setAddress (addr : LocalAddress) : M S () := own_address.set addr.

Definition sendPacket (data : ByteVec) (destAddress : LocalAddress) (chType : ChannelType) :
    M S () :=
  q ← load;
  let p := packet.mkSendPacket send_packet chType destAddress (clientAddress q) in
  store (push_back (fromHeader p ++ data) q).

Definition sendClientPacket : M S () :=
  q ← load;
  packet ← deref "front() of an empty deque" (head (tq_txMsg q));
  ether_sendMsg packet ;;
  q ← load;
  store (q <| tq_txMsg ::= tail |>).

Definition sendReturnToken : M S () :=
  q ← load;
  ether_sendMsg (fromHeader (packet.mkReturnToken return_token (clientAddress q))).

Definition sendClientPacketOrReturnToken : M S () :=
  q ← load;
  if txQueueEmpty q then sendReturnToken else sendClientPacket.

Definition sendMasterPacket (packet : ByteVec) : M S () := ether_sendMsg packet.

Definition msgHostTx_sendPacket (data : ByteVec) (destAddr : LocalAddress)
    (chType : ChannelType) : M S () :=
  q ← load;
  if own_address.valid (tq_ownAddress q) then sendPacket data destAddr chType else skip.

Definition msgHostTx_sendMacUpdate (mac : MacAddr) : M S () :=
  q ← load;
  if own_address.valid (tq_ownAddress q) then
    let addr := clientAddress q in
    store (push_back
             (fromHeader (packet.mkMacUpdate mac_update broadcast addr addr mac)) q)
  else skip.

Definition masterStarted : M S () := own_address.masterStarted.

(** The core's side of [MsgHostIf]. *)
Definition tx_queue_host : MsgHostIf H S := {|
  host_sendPacket := msgHostTx_sendPacket;
  host_sendMacUpdate := msgHostTx_sendMacUpdate;
  host_clientAddress := q ← load; mret (msgHostTx_clientAddress q);
  host_setRxHandler rxIf chType := q ← load; store (setRxHandler rxIf chType q);
  host_setAddrUpdateHandler ac := q ← load; store (setAddrUpdateHandler ac q)
|}.
End tx_queue.
End tx_queue.
