(* ===== verification/AddressCache.v ===== *)
(** * The address cache (core/AddressCache.h, AddressCache.cpp)

    The mapping between hardware addresses and local addresses, a vector of
    pairs. The reference is a finite map from local addresses to hardware
    addresses. *)

From stdpp Require Import gmap.
From S2P Require Import Prelude SerialProtocol.

Definition broadcastMac : MacAddr := [0xff; 0xff; 0xff; 0xff; 0xff; 0xff].
Definition illegalMac : MacAddr := [0; 0; 0; 0; 0; 0].

Abbreviation Entry := (LocalAddress * MacAddr)%type (only parsing).

Record AddressCache : Type := mkAddressCache {
  ac_table : list (LocalAddress * MacAddr);
  ac_myMac : MacAddr;
  ac_myLocalAddr : LocalAddress
}.
#[export] Instance Eta_AddressCache : Eta AddressCache := λ c,
  mkAddressCache (ac_table c) (ac_myMac c) (ac_myLocalAddr c).

Module cache.
(** [m_myMac] is not initialised; it is read only once an address is known. *)
Definition newAddressCache (garbage : MacAddr) : AddressCache :=
  mkAddressCache [] garbage null_addr.

(** [std::find_if] over the table, by a property of an entry. *)
Definition find_entry (P : Entry → Prop) `{!∀ e, Decision (P e)} (c : AddressCache) :
    option (nat * Entry) :=
  list_find P (ac_table c).

Definition getLocalAddress (addr : MacAddr) (c : AddressCache) : LocalAddress :=
  if decide (addr = broadcastMac) then broadcast
  else if decide (ac_myLocalAddr c ≠ null_addr ∧ ac_myMac c = addr) then ac_myLocalAddr c
  else match find_entry (λ el, addr = el.2) c with
       | None => null_addr
       | Some (_, iter) => iter.1
       end.

Definition setAddress (loc : LocalAddress) (mac : MacAddr) (c : AddressCache) :
    AddressCache :=
  if decide (loc = broadcast) then c
  else match find_entry (λ el, loc = el.1) c with
       | Some (iter, _) => c <| ac_table ::= <[iter := (loc, mac)]> |>
       | None => c <| ac_table ::= λ t, t ++ [(loc, mac)] |>
       end.

Definition updateMyMAC (loc : LocalAddress) (mac : MacAddr) (c : AddressCache) :
    AddressCache :=
  if decide (ac_myLocalAddr c ≠ null_addr) then c
  else c <| ac_myMac := mac |> <| ac_myLocalAddr := loc |>.

Definition getMac (loc : LocalAddress) (c : AddressCache) : bool * MacAddr :=
  if decide (loc = broadcast) then (true, broadcastMac)
  else match find_entry (λ el, loc = el.1) c with
       | Some (_, iter) => (true, iter.2)
       | None => (false, illegalMac)
       end.
End cache.

(** ** The reference: a finite map *)

(** The calls that change a cache. *)
Inductive cache_op : Type :=
  | SetAddress (loc : LocalAddress) (mac : MacAddr)
  | UpdateMyMAC (loc : LocalAddress) (mac : MacAddr).

Definition cache_run (op : cache_op) (c : AddressCache) : AddressCache :=
  match op with
  | SetAddress loc mac => cache.setAddress loc mac c
  | UpdateMyMAC loc mac => cache.updateMyMAC loc mac c
  end.

Definition cache_runs (ops : list cache_op) (c : AddressCache) : AddressCache :=
  foldl (λ c op, cache_run op c) c ops.

(** What was learnt: the last hardware address announced for each address. *)
Definition learn (m : gmap Z MacAddr) (op : cache_op) : gmap Z MacAddr :=
  match op with
  | SetAddress loc mac => if decide (loc = broadcast) then m else <[loc := mac]> m
  | UpdateMyMAC _ _ => m
  end.
Definition learnt (ops : list cache_op) : gmap Z MacAddr := foldl learn ∅ ops.

Definition table_of (c : AddressCache) : gmap Z MacAddr := list_to_map (ac_table c).

(** Every address has at most one entry, and broadcast has none. *)
Definition cache_ok (c : AddressCache) : Prop :=
  NoDup (ac_table c).*1 ∧ broadcast ∉ (ac_table c).*1.

Section lookups.
Implicit Types (c : AddressCache) (loc : LocalAddress) (mac : MacAddr).

Lemma find_key_Some c loc i e :
  cache.find_entry (λ el, loc = el.1) c = Some (i, e) →
  ac_table c !! i = Some e ∧ e.1 = loc.
Proof.
  unfold cache.find_entry. intros (Hi & He & _)%list_find_Some. by split.
Qed.

Lemma find_key_None c loc :
  cache.find_entry (λ el, loc = el.1) c = None → loc ∉ (ac_table c).*1.
Proof.
  unfold cache.find_entry. intros Hn Hin.
  apply list_elem_of_fmap in Hin as (e & -> & Hin).
  apply list_find_None in Hn. rewrite Forall_forall in Hn. by apply (Hn e).
Qed.

Lemma table_of_lookup c loc mac :
  cache_ok c → table_of c !! loc = Some mac ↔ (loc, mac) ∈ ac_table c.
Proof. intros [Hnd _]. symmetry. by apply elem_of_list_to_map. Qed.

Lemma find_key_lookup c loc i e :
  cache_ok c → cache.find_entry (λ el, loc = el.1) c = Some (i, e) →
  table_of c !! loc = Some e.2.
Proof.
  intros Hok (Hi & <-)%find_key_Some. apply table_of_lookup; [done|].
  apply list_elem_of_lookup_2 in Hi. by destruct e.
Qed.

Lemma find_key_lookup_None c loc :
  cache.find_entry (λ el, loc = el.1) c = None → table_of c !! loc = None.
Proof.
  intros Hn%find_key_None. by apply not_elem_of_list_to_map_1.
Qed.

(** Replacing an entry under the same key, in the list and in the map. *)
Lemma replace_entry (t : list (Z * MacAddr)) i loc mac mac' :
  NoDup t.*1 → t !! i = Some (loc, mac') →
  (<[i := (loc, mac)]> t).*1 = t.*1 ∧
  list_to_map (M:=gmap Z MacAddr) (<[i := (loc, mac)]> t)
  = <[loc := mac]> (list_to_map t).
Proof.
  intros Hnd Hi.
  assert ((<[i := (loc, mac)]> t).*1 = t.*1) as Hk.
  { rewrite list_fmap_insert. apply list_insert_id. by rewrite list_lookup_fmap, Hi. }
  split; [done|]. apply map_eq. intros l.
  destruct (decide (l = loc)) as [->|Hne].
  - rewrite lookup_insert_eq. apply elem_of_list_to_map; [by rewrite Hk|].
    eapply list_elem_of_lookup_2, list_lookup_insert_eq.
    by apply lookup_lt_Some in Hi.
  - rewrite lookup_insert_ne by done. apply option_eq. intros m.
    rewrite <-!elem_of_list_to_map by (rewrite ?Hk; done).
    rewrite !list_elem_of_lookup. split; intros [j Hj]; exists j.
    + apply list_lookup_insert_Some in Hj as [(_ & ? & _)|[_ ?]]; [congruence|done].
    + rewrite list_lookup_insert_ne; [done|]. intros ->. congruence.
Qed.

(** Appending an entry under a new key. *)
Lemma append_entry (t : list (Z * MacAddr)) loc mac :
  loc ∉ t.*1 →
  list_to_map (M:=gmap Z MacAddr) (t ++ [(loc, mac)])
  = <[loc := mac]> (list_to_map t).
Proof.
  intros Hn. apply map_eq. intros l.
  rewrite list_to_map_app, list_to_map_cons, list_to_map_nil, lookup_union.
  destruct (decide (l = loc)) as [->|Hne].
  - rewrite not_elem_of_list_to_map_1 by done. by rewrite !lookup_insert_eq.
  - rewrite !lookup_insert_ne, lookup_empty by done. by destruct (_ !! l).
Qed.

Lemma setAddress_refines loc mac c :
  cache_ok c →
  cache_ok (cache.setAddress loc mac c) ∧
  table_of (cache.setAddress loc mac c) = learn (table_of c) (SetAddress loc mac).
Proof.
  intros [Hnd Hb]. unfold cache.setAddress, cache_ok, table_of. simpl.
  destruct (decide (loc = broadcast)) as [|Hne]; [done|].
  destruct (cache.find_entry _ c) as [[i [l m]]|] eqn:Hf; simpl_rec.
  - apply find_key_Some in Hf as [Hi Hl]. simpl in Hl. subst l.
    destruct (replace_entry _ i loc mac m Hnd Hi) as [Hk Hm].
    by rewrite Hk, Hm.
  - apply find_key_None in Hf. rewrite append_entry by done. split; [|done].
    rewrite fmap_app. simpl. split.
    + apply NoDup_app. split_and!; [done| |apply NoDup_singleton].
      intros x Hx. rewrite list_elem_of_singleton. by intros ->.
    + rewrite elem_of_app, list_elem_of_singleton. intros [?|?]; done.
Qed.

Lemma cache_op_refines op c :
  cache_ok c → cache_ok (cache_run op c) ∧ table_of (cache_run op c) = learn (table_of c) op.
Proof.
  intros Hok. destruct op as [loc mac|loc mac]; simpl; [by apply setAddress_refines|].
  unfold cache.updateMyMAC, cache_ok, table_of.
  destruct (decide _); simpl_rec; by split.
Qed.

Lemma cache_ops_refines ops c :
  cache_ok c →
  cache_ok (cache_runs ops c) ∧ table_of (cache_runs ops c) = foldl learn (table_of c) ops.
Proof.
  revert c. induction ops as [|op ops IH]; intros c Hok; simpl; [done|].
  destruct (cache_op_refines op c Hok) as [Hok' <-]. by apply IH.
Qed.
End lookups.


