(* ===== verification/MsgToByteAdapter.v ===== *)
(** * The byte adapter (core/MsgToByteAdapter.h, MsgToByteAdapter.cpp)

    Sits between the byte driver and the frame layer: packets out are framed,
    bytes in are decoded, and a frame that does not go on for 100 ms is dropped.
    [m_ts.now()] is the argument [now_]: the time is the same for all of one
    callback of the event loop. *)

From S2P Require Import Prelude SerialProtocol Config FrameCodec Interfaces.

Record MsgToByteAdapter (B : Type) : Type := mkMsgToByteAdapter {
  mb_beIf : option B;
  mb_codec : FrameCodec;
  mb_lastUpdate : Time
}.
Arguments mkMsgToByteAdapter {B}.
Arguments mb_beIf {B} _.
Arguments mb_codec {B} _.
Arguments mb_lastUpdate {B} _.
#[export] Instance Eta_MsgToByteAdapter {B} : Eta (MsgToByteAdapter B) := λ a,
  mkMsgToByteAdapter (mb_beIf a) (mb_codec a) (mb_lastUpdate a).

#[export] Program Instance Lens_codec {B} : Lens (MsgToByteAdapter B) FrameCodec := {
  view := mb_codec;
  set_view c a := a <| mb_codec := c |>
}.
Solve Obligations with (by intros B; repeat intros []).

Module adapter.
(** The timeout of [checkTimeout], 0.1 seconds. *)
Definition frameTimeout : Time := milliseconds 100.

Definition newMsgToByteAdapter {B} : MsgToByteAdapter B :=
  mkMsgToByteAdapter None (newFrameCodec false) 0.

Section adapter.
Context {B S : Type} `{LA : !Lens S (MsgToByteAdapter B)} `{!ByteEtherIf B S}.
(** The registered [MsgEtherIf::RxIf]. *)
Context (decodeCB : ByteVec → M S ()).

#[local] Instance codec_lens : Lens S FrameCodec := lens_comp LA _.

Definition sendMsg (msg : ByteVec) : M S () :=
  a ← load;
  '(_, raw) ← lift_result (encodePacket msg []);
  beIf ← deref "m_beIf is null" (mb_beIf a);
  sendBytes beIf raw.

Definition addClient (cb : bool) : M S () :=
  a ← load;
  store (a <| mb_codec ::= setRxCB cb |>).

Definition setByteIf (beIf : option B) : M S () :=
  a ← load;
  match mb_beIf a with
  | Some old => Interfaces.addClient old false
  | None => skip
  end ;;
  a ← load;
  store (a <| mb_beIf := beIf |>) ;;
  match beIf with
  | Some new =>
      a ← load;
      store (a <| mb_codec ::= reset |>) ;;
      Interfaces.addClient new true
  | None => skip
  end.

(** [checkTimeout] only touches the adapter. *)
Definition checkTimeout (now_ : Time) (a : MsgToByteAdapter B) : MsgToByteAdapter B :=
  if rxInProgress (mb_codec a) then
    (if decide (frameTimeout < now_ - mb_lastUpdate a)
     then a <| mb_codec ::= reset |> else a)
    <| mb_lastUpdate := now_ |>
  else a.

Definition packetRxInProgress (now_ : Time) : M S bool :=
  a ← load;
  let a := checkTimeout now_ a in
  store a ;;
  mret (rxInProgress (mb_codec a)).

Definition receiveBytes (now_ : Time) (bytes : ByteVec) : M S () :=
  a ← load;
  store ((checkTimeout now_ a) <| mb_lastUpdate := now_ |>) ;;
  for_each (decodeByte decodeCB) bytes.

(** The adapter's side of [MsgEtherIf]. *)
Definition adapter_ether : MsgEtherIf S := {|
  ether_sendMsg := sendMsg;
  ether_packetRxInProgress := packetRxInProgress
|}.
End adapter.
End adapter.
