(* ===== verification/PacketTypeCodec.v ===== *)
(** * The packet layer (core/PacketTypeCodec.h, PacketTypeCodec.cpp,
    ClientAddress.h, ClientAddress.cpp)

    Every packet from the medium is dispatched by its type: tokens make the
    client send, data packets go to the host drivers, addresses are negotiated,
    and the master, where there is one, is told. The log is not modelled. *)

From S2P Require Import Prelude SerialProtocol Config Interfaces TxQueue AddressCache.

(** ** The client's side of the address negotiation *)

(** [m_txQueue] is the node's queue. *)
Record ClientAddress : Type := mkClientAddress {
  ca_uniqueId : UniqueId
}.

Module client_address.
(** [setupUniqueId]: eight draws of the random number generator, whose numbers
    are between 0 and 255. *)
Definition setupUniqueId (distr : nat → Z) : UniqueId :=
  (λ i, to_uint8 (distr i)) <$> seq 0 8.

Definition newClientAddress (distr : nat → Z) : ClientAddress :=
  mkClientAddress (setupUniqueId distr).

Section client_address.
Context {H S : Type} `{LQ : !Lens S (TxQueue H)} `{!HostCallbacks H S} `{!MsgEtherIf S}
  `{!Lens S ClientAddress}.

Definition rxToken (packet : packet.GrantToken) : M S () := skip.

(** The channel type and the checksum of the request [p] are not initialised:
    they are those of [garbage]. *)
Definition rxDiscoveryPacket (garbage : S → packet.AddressRequest)
    (packet : packet.AddressDiscovery) : M S () :=
  q ← load (T := TxQueue H);
  if negb (tx_queue.msgHostTx_clientAddress q =? null_addr) then skip
  else
    ca ← load;
    s ← get;
    let p := packet.mkAddressRequest address_request (ca_uniqueId ca)
               (packet.arq_channelType (garbage s)) (packet.arq_crc32 (garbage s)) in
    tx_queue.sendMasterPacket (fromHeader p).

Definition rxAddrReplyPacket (packet : packet.AddressReply) : M S () :=
  ca ← load;
  if decide (packet.arp_uniqueId packet = ca_uniqueId ca)
  then tx_queue.setAddress (H := H) (packet.arp_assigned packet)
  else skip.
End client_address.
End client_address.

(** ** The dispatcher *)

Definition longEnough (packet : ByteVec) : bool :=
  match packet with
  | [] => false
  | cmd :: _ =>
      let size := length packet in
      match byte2MessageType cmd with
      | grant_token => bool_decide (sizeof packet.GrantToken ≤ size)%nat
      | return_token => bool_decide (sizeof packet.ReturnToken ≤ size)%nat
      | master_started => bool_decide (sizeof packet.MasterStarted ≤ size)%nat
      | master_ended => bool_decide (sizeof packet.MasterEnded ≤ size)%nat
      | send_packet => bool_decide (sizeof packet.SendPacket ≤ size)%nat
      | mac_update => bool_decide (sizeof packet.MacUpdate ≤ size)%nat
      | address_discovery => bool_decide (sizeof packet.AddressDiscovery ≤ size)%nat
      | address_request => bool_decide (sizeof packet.AddressRequest ≤ size)%nat
      | address_reply => bool_decide (sizeof packet.AddressReply ≤ size)%nat
      | other_type _ => false
      end
  end.

(** The pointers [m_master], [m_wsDump], [m_cache] and the function
    [m_masterEndedCB] are set or not; what they refer to is in the rest of the
    state. *)
Record PacketTypeCodec : Type := mkPacketTypeCodec {
  pt_master : bool;
  pt_wsDump : bool;
  pt_rxMsg : list ByteVec;
  pt_masterEndedCB : bool;
  pt_cache : bool
}.
#[export] Instance Eta_PacketTypeCodec : Eta PacketTypeCodec := λ p,
  mkPacketTypeCodec (pt_master p) (pt_wsDump p) (pt_rxMsg p) (pt_masterEndedCB p)
    (pt_cache p).

Module codec.
Definition newPacketTypeCodec : PacketTypeCodec :=
  mkPacketTypeCodec false false [] false false.

Definition setMasterEndedCB (fkn : bool) (p : PacketTypeCodec) : PacketTypeCodec :=
  p <| pt_masterEndedCB := fkn |>.
Definition setWsDump (wsDump : bool) (p : PacketTypeCodec) : PacketTypeCodec :=
  p <| pt_wsDump := wsDump |>.
Definition setAddressCache (ac : bool) (p : PacketTypeCodec) : PacketTypeCodec :=
  p <| pt_cache := ac |>.
Definition regMasterRx (rxIf : bool) (p : PacketTypeCodec) : PacketTypeCodec :=
  p <| pt_master := rxIf |>.
Definition empty (p : PacketTypeCodec) : bool := bool_decide (pt_rxMsg p = []).

(** The packet is for this node: its address, or broadcast on either side. *)
Definition addressed_to (ownAddress destAddr : LocalAddress) : bool :=
  ((destAddr =? ownAddress) && negb (ownAddress =? null_addr))
  || (ownAddress =? broadcast) || (destAddr =? broadcast).

Section codec.
Context {H S : Type} `{LQ : !Lens S (TxQueue H)} `{!HostCallbacks H S} `{!MsgEtherIf S}
  `{!Lens S ClientAddress} `{!Lens S PacketTypeCodec} `{!Lens S AddressCache}.
(** The stack where an address request is made, [m_wsDump->rxPacket],
    [m_masterEndedCB] and [m_master->masterPacketReceived]. *)
Context (garbage : S → packet.AddressRequest) (dump_rxPacket : ByteVec → M S ())
  (masterEnded : M S ()) (masterPacketReceived : MessageType → ByteVec → M S ()).

Definition packetRxInProgress (now_ : Time) : M S bool := ether_packetRxInProgress now_.

(** One iteration of the loop; the front of the queue is taken off at the end. *)
Definition deliverFront : M S () :=
  p ← load;
  f ← deref "front() of an empty deque" (head (pt_rxMsg p));
  assert (bool_decide (sizeof packet.SendPacket ≤ length f)%nat) ;;
  h ← lift_result (toHeader (H := packet.SendPacket) f);
  let res := drop (sizeof packet.SendPacket) f in
  q ← load (T := TxQueue H);
  match tx_queue.getRxIf (packet.sp_chType h) q with
  | Some rxIf =>
      packetReceivedFromNet rxIf res (packet.sp_srcAddr h) (packet.sp_destAddr h)
        (packet.sp_chType h)
  | None => skip
  end ;;
  p ← load;
  store (p <| pt_rxMsg ::= tail |>).

(** The loop runs once per queued packet, unless a driver's callback makes the
    node receive another one. *)
Definition deliverRxQueue : M S () :=
  p ← load;
  while_ (length (pt_rxMsg p)) (p ← load; mret (negb (empty p))) deliverFront.

(** The switch over the packet types. *)
Definition rxCommand (cmd : MessageType) (bb : ByteVec) : M S () :=
  q ← load (T := TxQueue H);
  let ownAddress := tx_queue.clientAddress q in
  match cmd with
  | grant_token =>
      p ← lift_result (toHeader (H := packet.GrantToken) bb);
      if packet.gt_tokenReceiver p =? ownAddress then
        client_address.rxToken p ;;
        tx_queue.sendClientPacketOrReturnToken (H := H)
      else skip
  | send_packet =>
      p ← lift_result (toHeader (H := packet.SendPacket) bb);
      if addressed_to ownAddress (packet.sp_destAddr p) then
        c ← load;
        store (c <| pt_rxMsg ::= λ l, l ++ [bb] |>)
      else skip
  | address_discovery =>
      p ← lift_result (toHeader (H := packet.AddressDiscovery) bb);
      client_address.rxDiscoveryPacket (H := H) garbage p
  | address_request => skip
  | address_reply =>
      p ← lift_result (toHeader (H := packet.AddressReply) bb);
      client_address.rxAddrReplyPacket (H := H) p
  | return_token => skip
  | master_started => tx_queue.masterStarted (H := H)
  | master_ended =>
      c ← load;
      if pt_masterEndedCB c then masterEnded else skip
  | mac_update =>
      c ← load;
      if pt_cache c then
        let localAddr := toLocalAddress (byte_at 3 bb) in
        ac ← load;
        store (cache.setAddress localAddr (array_at 4 6 bb) ac)
      else skip
  | other_type _ => skip
  end.

Definition rxRawPacket (bb : ByteVec) : M S () :=
  match bb with
  | [] => skip
  | b :: _ =>
      let cmd := byte2MessageType b in
      c ← load;
      (if pt_wsDump c then dump_rxPacket bb else skip) ;;
      if longEnough bb then
        rxCommand cmd bb ;;
        c ← load;
        (if pt_master c then masterPacketReceived cmd bb else skip) ;;
        deliverRxQueue
      else skip
  end.

Definition msgEtherRx_newMsg (packet : ByteVec) : M S () := rxRawPacket packet.
End codec.
End codec.
