(* ===== verification/Node.v ===== *)
(** * A node (mains/serialnet/SerialNet.h, SerialNet.cpp)

    The objects of the core, wired as [SerialNet::start] wires them: the byte
    driver under the adapter, the adapter under the transmit queue and the packet
    layer. The node's operations run in any state that contains it, so that the
    host drivers and the master above it can be called back; sending needs the
    node alone, and that is what the master is given as its environment. *)

From S2P Require Import Prelude SerialProtocol Config FrameCodec Interfaces TxQueue.
From S2P Require Import AddressCache MsgToByteAdapter PacketTypeCodec MasterState.

(** [B] are the byte drivers, whose state is [D]; [H] are the host drivers. *)
Record Node (B H D : Type) : Type := mkNode {
  nd_adapter : MsgToByteAdapter B;
  nd_txQueue : TxQueue H;
  nd_client : ClientAddress;
  nd_codec : PacketTypeCodec;
  nd_cache : AddressCache;
  nd_driver : D
}.
Arguments mkNode {B H D}.
Arguments nd_adapter {B H D} _.
Arguments nd_txQueue {B H D} _.
Arguments nd_client {B H D} _.
Arguments nd_codec {B H D} _.
Arguments nd_cache {B H D} _.
Arguments nd_driver {B H D} _.
#[export] Instance Eta_Node {B H D} : Eta (Node B H D) := λ n,
  mkNode (nd_adapter n) (nd_txQueue n) (nd_client n) (nd_codec n) (nd_cache n)
    (nd_driver n).

(** ** The parts of a node, in a state that contains it *)

Section lenses.
Context {B H D : Type}.
Abbreviation N := (Node B H D).

#[program] Definition adapter_of : Lens N (MsgToByteAdapter B) :=
  {| view := nd_adapter; set_view x n := n <| nd_adapter := x |> |}.
Solve Obligations with (repeat intros []; intros; try done; by destruct s).
#[program] Definition txQueue_of : Lens N (TxQueue H) :=
  {| view := nd_txQueue; set_view x n := n <| nd_txQueue := x |> |}.
Solve Obligations with (repeat intros []; intros; try done; by destruct s).
#[program] Definition client_of : Lens N ClientAddress :=
  {| view := nd_client; set_view x n := n <| nd_client := x |> |}.
Solve Obligations with (repeat intros []; intros; try done; by destruct s).
#[program] Definition codec_of : Lens N PacketTypeCodec :=
  {| view := nd_codec; set_view x n := n <| nd_codec := x |> |}.
Solve Obligations with (repeat intros []; intros; try done; by destruct s).
#[program] Definition cache_of : Lens N AddressCache :=
  {| view := nd_cache; set_view x n := n <| nd_cache := x |> |}.
Solve Obligations with (repeat intros []; intros; try done; by destruct s).
#[program] Definition driver_of : Lens N D :=
  {| view := nd_driver; set_view x n := n <| nd_driver := x |> |}.
Solve Obligations with (repeat intros []; intros; try done; by destruct s).
End lenses.

Module node.
Section node.
Context {B H D S : Type} `{!ByteEtherIf B D} `{LN : !Lens S (Node B H D)}.

#[local] Instance on_adapter : Lens S (MsgToByteAdapter B) := lens_comp LN adapter_of.
#[local] Instance on_txQueue : Lens S (TxQueue H) := lens_comp LN txQueue_of.
#[local] Instance on_client : Lens S ClientAddress := lens_comp LN client_of.
#[local] Instance on_codec : Lens S PacketTypeCodec := lens_comp LN codec_of.
#[local] Instance on_cache : Lens S AddressCache := lens_comp LN cache_of.
#[local] Instance on_driver : Lens S D := lens_comp LN driver_of.

(** The adapter's driver, and the frame layer that the adapter is. *)
#[local] Instance node_bytes : ByteEtherIf B S := {
  sendBytes beIf l := zoom (sendBytes beIf l : M D ());
  addClient beIf cb := zoom (addClient beIf cb : M D ())
}.
#[local] Instance node_ether : MsgEtherIf S := adapter.adapter_ether (B := B).

(** *** What the master and the host use *)

Definition sendMasterPacket (p : ByteVec) : M S () := tx_queue.sendMasterPacket p.
Definition sendClientPacket : M S () := tx_queue.sendClientPacket (H := H).
Definition packetRxInProgress (now_ : Time) : M S bool := codec.packetRxInProgress now_.
Definition host : MsgHostIf H S := tx_queue.tx_queue_host.

(** *** Receiving *)

Context `{!HostCallbacks H S}.
Context (garbage : S → packet.AddressRequest) (dump_rxPacket : ByteVec → M S ())
  (masterEnded : M S ()) (masterPacketReceived : MessageType → ByteVec → M S ()).

Definition rxRawPacket (pkt : ByteVec) : M S () :=
  codec.rxRawPacket (H := H) garbage dump_rxPacket masterEnded masterPacketReceived pkt.

(** The byte driver hands over what it has read. *)
Definition receiveBytes (now_ : Time) (l : ByteVec) : M S () :=
  adapter.receiveBytes (B := B) rxRawPacket now_ l.

(** The wiring in [SerialNet::start]: the adapter gets its driver and the packet
    layer as its client. *)
Definition connect (beIf : B) : M S () :=
  adapter.setByteIf (Some beIf) ;;
  adapter.addClient (B := B) true.
End node.

(** The objects as their constructors leave them. *)
Definition newNode {B H D} (ownAddr : LocalAddress) (distr : nat → Z) (mac : MacAddr)
    (driver : D) : Node B H D :=
  mkNode adapter.newMsgToByteAdapter (tx_queue.newTxQueue ownAddr)
    (client_address.newClientAddress distr) codec.newPacketTypeCodec
    (cache.newAddressCache mac) driver.
End node.

(** ** Sending *)

(** A byte driver that works: it puts what it is given on the wire, at the end of
    [transmitted]. [driver_ok] says that it is open. *)
Class ByteEtherLaws (B D : Type) `{!ByteEtherIf B D} := {
  driver_ok : D → Prop;
  transmitted : D → ByteVec;
  sendBytes_ok (beIf : B) (l : ByteVec) (d : D) :
    driver_ok d →
    ∃ d', sendBytes beIf l d = Ok ((), d') ∧ driver_ok d' ∧
      transmitted d' = transmitted d ++ l
}.

(** The node has a byte driver, and the driver is open. *)
Definition connected {B H D} `{!ByteEtherIf B D, !ByteEtherLaws B D} (n : Node B H D) : Prop :=
  (∃ b, mb_beIf (nd_adapter n) = Some b) ∧ driver_ok (nd_driver n).

(** A packet goes out in a frame, and nothing but the driver changes. *)
Lemma node_sends {B H D S} `{!ByteEtherIf B D, !ByteEtherLaws B D, LN : !Lens S (Node B H D)}
    b p s :
  mb_beIf (nd_adapter (view s)) = Some b → driver_ok (nd_driver (view s)) →
  ∃ d', @ether_sendMsg S (node.node_ether (LN := LN)) p s
      = Ok ((), set_view ((view s : Node B H D) <| nd_driver := d' |>) s) ∧
    driver_ok d' ∧ transmitted d' = transmitted (nd_driver (view s)) ++ frame p.
Proof.
  intros Hb Hdrv. pose proof (encodePacket_frame p []) as Hf. revert Hf.
  generalize (frame p). intros l Hf.
  destruct (sendBytes_ok b l (nd_driver (view s)) Hdrv) as (d' & Hs & Hd' & Ht).
  exists d'. split; [|done]. unfold ether_sendMsg. cbn. unfold adapter.sendMsg, load.
  eapply bind_step; [done|]. eapply bind_step; [unfold lift_result; by rewrite Hf|].
  cbn. rewrite Hb. eapply bind_step; [done|].
  cbn [sendBytes node.node_bytes]. unfold zoom. cbn. by rewrite Hs.
Qed.

(** A wire that keeps what is sent. *)
#[export] Instance wire_bytes : ByteEtherIf () ByteVec := {
  sendBytes _ l := modify (λ d, d ++ l);
  addClient _ _ := skip
}.
#[export] Program Instance wire_laws : ByteEtherLaws () ByteVec := {
  driver_ok _ := True;
  transmitted d := d
}.
Next Obligation. intros [] l d _. by exists (d ++ l). Qed.
