(* ===== verification/Client.v ===== *)
(** * The client of a node: specification and refinement

    What a node without a master promises: an abstract machine whose state is
    the transmit queue, the identity, the bytes on the wire and what the host got,
    and whose step is one received packet. The node's layers refine it, packet by
    packet and byte by byte, whatever the chunks the bytes arrive in. *)

From S2P Require Import Prelude SerialProtocol Config FrameCodec Interfaces TxQueue.
From S2P Require Import AddressCache MsgToByteAdapter PacketTypeCodec MasterState Node.

(** ** What is relied on below and above the node *)

(** A packet as a host driver gets it. *)
Record Delivery (H : Type) : Type := mkDelivery {
  dl_host : H;
  dl_data : ByteVec;
  dl_src : LocalAddress;
  dl_dest : LocalAddress;
  dl_chType : ChannelType
}.
Arguments mkDelivery {H}.

(** Host drivers that work: they take the packet, at the end of [delivered], and
    leave the node alone; told about a new address they may queue packets, their
    [greeting]. Both may write to the address cache. *)
Class HostLaws {H S B D} `{!HostCallbacks H S} `{LN : !Lens S (Node B H D)} := {
  delivered : S → list (Delivery H);
  greeting : H → LocalAddress → list ByteVec;
  delivered_set (n : Node B H D) s : delivered (set_view n s) = delivered s;
  packetReceivedFromNet_ok h data src dest chType s :
    ∃ s' ac, packetReceivedFromNet h data src dest chType s = Ok ((), s') ∧
      view s' = (view s : Node B H D) <| nd_cache := ac |> ∧
      delivered s' = delivered s ++ [mkDelivery h data src dest chType];
  newAddr_ok h addr s :
    ∃ s' ac, msgHostRx_newAddr h addr s = Ok ((), s') ∧
      view s' = (view s : Node B H D) <| nd_cache := ac |>
                <| nd_txQueue ::= λ q, q <| tq_txMsg ::= (.++ greeting h addr) |> |> ∧
      delivered s' = delivered s
}.
Arguments HostLaws H S B D {_ _}.

(** ** The abstract client *)

Record Client (H : Type) : Type := mkClient {
  cl_tx : TxQueue H;
  cl_uid : UniqueId;
  cl_wire : ByteVec;
  cl_got : list (Delivery H)
}.
Arguments mkClient {H}.
Arguments cl_tx {H} _.
Arguments cl_uid {H} _.
Arguments cl_wire {H} _.
Arguments cl_got {H} _.
#[export] Instance Eta_Client {H} : Eta (Client H) := λ c,
  mkClient (cl_tx c) (cl_uid c) (cl_wire c) (cl_got c).

Section client.
Context {H : Type} (greeting : H → LocalAddress → list ByteVec)
  (garbage : packet.AddressRequest).

Definition cl_addr (c : Client H) : LocalAddress := tx_queue.clientAddress (cl_tx c).

(** The packet goes out in a frame. *)
Definition cl_send (p : ByteVec) (c : Client H) : Client H :=
  c <| cl_wire ::= (.++ frame p) |>.

(** A change of the address, of which the listener is told. *)
Definition cl_set_addr (addr : LocalAddress) (c : Client H) : Client H :=
  let c1 := c <| cl_tx ::= λ q, q <| tq_ownAddress ::= λ a, a <| oa_addr := addr |> |> |> in
  match oa_addrChangeIf (tq_ownAddress (cl_tx c)) with
  | Some h =>
      if cl_addr c =? addr then c1
      else c1 <| cl_tx ::= λ q, q <| tq_txMsg ::= (.++ greeting h addr) |> |>
  | None => c1
  end.

(** The request for an address. *)
Definition cl_request (c : Client H) : ByteVec :=
  fromHeader (packet.mkAddressRequest address_request (cl_uid c)
    (packet.arq_channelType garbage) (packet.arq_crc32 garbage)).

(** One packet from the wire, as a list of bytes. *)
Definition client_rx (pkt : ByteVec) (c : Client H) : Client H :=
  if longEnough pkt then
    match byte2MessageType (byte_at 0 pkt) with
    | grant_token =>
        if byte_at 1 pkt =? cl_addr c then
          match tq_txMsg (cl_tx c) with
          | [] => cl_send [1; cl_addr c] c
          | p :: q => cl_send p (c <| cl_tx ::= λ t, t <| tq_txMsg := q |> |>)
          end
        else c
    | send_packet =>
        let chType := byte2ChannelType (byte_at 1 pkt) in
        if codec.addressed_to (cl_addr c) (byte_at 2 pkt) then
          match tx_queue.getRxIf chType (cl_tx c) with
          | Some h => c <| cl_got ::=
              (.++ [mkDelivery h (drop 4 pkt) (byte_at 3 pkt) (byte_at 2 pkt) chType]) |>
          | None => c
          end
        else c
    | address_discovery =>
        if cl_addr c =? null_addr then cl_send (cl_request c) c else c
    | address_reply =>
        if decide (array_at 2 8 pkt = cl_uid c) then cl_set_addr (byte_at 1 pkt) c else c
    | master_started =>
        if oa_dynamic (tq_ownAddress (cl_tx c)) then cl_set_addr null_addr c else c
    | _ => c
    end
  else c.

(** The host hands over a packet to be sent. *)
Definition client_tx (data : ByteVec) (dest : LocalAddress) (chType : ChannelType)
    (c : Client H) : Client H :=
  if cl_addr c =? null_addr then c
  else c <| cl_tx ::= tx_queue.push_back
              ([4; channelType2Byte chType; dest; cl_addr c] ++ data) |>.
End client.

(** ** The refinement *)

(** A computation that always succeeds and does [f] to the abstract state. *)
Lemma sim_of_wp {S T} (R R' : S → T → Prop) (m : M S ()) (f : T → T) :
  (∀ s t, R s t → wp m never (λ _ s', R' s' (f t)) s) → psim R R' m (modify f).
Proof.
  intros Hm s t HR. simpl. destruct (wp_ok _ _ _ (Hm s t HR)) as ([] & s' & ? & ?). eauto.
Qed.

Section refinement.
Context {B H D S : Type} `{!ByteEtherIf B D, !ByteEtherLaws B D}.
Context `{!HostCallbacks H S, LN : !Lens S (Node B H D), HL : !HostLaws H S B D}.
Context (garbage : packet.AddressRequest) (dump_rxPacket : ByteVec → M S ())
  (masterEnded : M S ()) (masterPacketReceived : MessageType → ByteVec → M S ()).

(** The node is set up and works as the abstract client [c], with [k] its byte
    adapter and [m] the packets it has yet to deliver. *)
Record node_rel (m : list ByteVec) (n : Node B H D) (k : MsgToByteAdapter B) (c : Client H) : Prop := {
  nr_beIf : ∃ b, mb_beIf k = Some b;
  nr_driver : driver_ok (nd_driver n);
  nr_adapter : nd_adapter n = k;
  nr_idle : pt_rxMsg (nd_codec n) = m;
  nr_master : pt_master (nd_codec n) = false;
  nr_dump : pt_wsDump (nd_codec n) = false;
  nr_tx : nd_txQueue n = cl_tx c;
  nr_uid : ca_uniqueId (nd_client n) = cl_uid c;
  nr_wire : transmitted (nd_driver n) = cl_wire c
}.

Definition rel_with (m : list ByteVec) (s : S) (t : MsgToByteAdapter B * Client H) : Prop :=
  node_rel m (view s) t.1 t.2 ∧ delivered s = cl_got t.2.
Definition client_rel : S → MsgToByteAdapter B * Client H → Prop := rel_with [].


Abbreviation rxRawPacket :=
  (node.rxRawPacket (B := B) (D := D) (λ _, garbage) dump_rxPacket masterEnded
     masterPacketReceived).

#[local] Instance on_adapter : Lens S (MsgToByteAdapter B) := node.on_adapter (LN := LN).
#[local] Instance on_txQueue : Lens S (TxQueue H) := node.on_txQueue (LN := LN).
#[local] Instance on_client : Lens S ClientAddress := node.on_client (LN := LN).
#[local] Instance on_codec : Lens S PacketTypeCodec := node.on_codec (LN := LN).
#[local] Instance on_cache : Lens S AddressCache := node.on_cache (LN := LN).
#[local] Instance on_driver : Lens S D := node.on_driver (LN := LN).
#[local] Instance bytes_node : ByteEtherIf B S := node.node_bytes (LN := LN).
#[local] Instance ether_node : MsgEtherIf S := node.node_ether (LN := LN).

(** Only the node changes. *)
Lemma client_rel_set m m' n s k c k' c' :
  rel_with m s (k, c) → node_rel m' n k' c' → cl_got c' = cl_got c →
  rel_with m' (set_view n s) (k', c').
Proof.
  intros [_ Hd] Hn Hg. split; simpl; [by rewrite view_set|].
  by rewrite delivered_set, Hg.
Qed.

Ltac use_rel Hrel :=
  pose proof Hrel as [[[?b ?Hb] ?Hdrv ?Hk ?Hidle ?Hmaster ?Hdump ?Htx ?Huid ?Hwire] ?Hgot];
  cbn [fst snd] in *.

Lemma wp_send p s k c :
  client_rel s (k, c) →
  wp (ether_sendMsg p) never (λ _ s', client_rel s' (k, cl_send p c)) s.
Proof.
  intros Hrel. use_rel Hrel.
  destruct (node_sends b p s) as (d' & Hs & Hdrv' & Ht); [by rewrite Hk|done|].
  eapply wp_eq; [exact Hs|]. eapply client_rel_set; [done| |done].
  constructor; try done; [by exists b|]. simpl_rec. by rewrite Ht, Hwire.
Qed.

(** The queue is replaced. *)
Lemma rel_set_tx q s k c :
  client_rel s (k, c) →
  client_rel (set_view (q : TxQueue H) s) (k, c <| cl_tx := q |>).
Proof.
  intros Hrel. use_rel Hrel. eapply (client_rel_set); [done| |done].
  constructor; try done. by exists b.
Qed.

Lemma wp_set_addr addr s k c :
  client_rel s (k, c) →
  wp (tx_queue.setAddress (H := H) addr) never
    (λ _ s', client_rel s' (k, cl_set_addr greeting addr c)) s.
Proof.
  intros Hrel. use_rel Hrel.
  unfold tx_queue.setAddress, own_address.set, load, store. wp_step. apply wp_gets.
  wp_step. apply wp_modify. cbn [view set_view tx_queue.own_lens lens_comp Lens_ownAddress
    on_txQueue node.on_txQueue txQueue_of]. rewrite Htx.
  unfold cl_set_addr, cl_addr, tx_queue.clientAddress.
  set (q := (cl_tx c) <| tq_ownAddress ::= λ a, a <| oa_addr := addr |> |>).
  pose proof (rel_set_tx q s k c Hrel) as H1.
  match goal with |- wp _ _ _ ?x => change x with (set_view q s) end.
  destruct (oa_addrChangeIf (tq_ownAddress (cl_tx c))) as [h|].
  2:{ apply wp_skip. exact H1. }
  destruct (oa_addr (tq_ownAddress (cl_tx c)) =? addr); cbn [negb].
  { apply wp_skip. exact H1. }
  clear Hb Hdrv Hk Hidle Hmaster Hdump Htx Huid Hwire Hgot b. use_rel H1.
  destruct (newAddr_ok h addr (set_view q s)) as (s' & ac & Hs & Hv & Hd).
  eapply wp_eq; [exact Hs|]. split; [|by rewrite Hd].
  rewrite Hv. constructor; try done; [by exists b|].
  simpl in *. by rewrite Htx.
Qed.

Lemma wp_token s k c :
  client_rel s (k, c) →
  wp (tx_queue.sendClientPacketOrReturnToken (H := H)) never
    (λ _ s', client_rel s' (k, match tq_txMsg (cl_tx c) with
      | [] => cl_send [1; cl_addr c] c
      | p :: q => cl_send p (c <| cl_tx ::= λ t, t <| tq_txMsg := q |> |>)
      end)) s.
Proof.
  intros Hrel. use_rel Hrel.
  unfold tx_queue.sendClientPacketOrReturnToken, load. wp_step. apply wp_gets.
  unfold tx_queue.txQueueEmpty. cbn. rewrite Htx.
  destruct (tq_txMsg (cl_tx c)) as [|p q] eqn:Hq; cbn.
  - unfold tx_queue.sendReturnToken, load. wp_step. apply wp_gets. cbn. rewrite Htx.
    by apply wp_send.
  - unfold tx_queue.sendClientPacket, load, store. wp_step. apply wp_gets. cbn.
    rewrite Htx, Hq. wp_step. apply wp_deref. wp_step.
    eapply wp_mono; [by apply wp_send|done|]. intros [] s1 H1. cbn.
    wp_step. apply wp_gets. apply wp_modify.
    clear Hb Hdrv Hk Hidle Hmaster Hdump Huid Hwire Hgot b. use_rel H1.
    eapply client_rel_set; [done| |done].
    constructor; try done; [by exists b|]. simpl_rec. rewrite Htx0.
    unfold cl_send, update. cbn. by rewrite Hq.
Qed.

Lemma wp_discovery pkt s k c :
  client_rel s (k, c) →
  wp (client_address.rxDiscoveryPacket (H := H) (λ _, garbage) pkt) never
    (λ _ s', client_rel s'
       (k, if cl_addr c =? null_addr then cl_send (cl_request garbage c) c else c)) s.
Proof.
  intros Hrel. use_rel Hrel.
  unfold client_address.rxDiscoveryPacket, load. wp_step. apply wp_gets. cbn.
  rewrite Htx. unfold cl_addr, tx_queue.clientAddress, tx_queue.msgHostTx_clientAddress.
  destruct (_ =? null_addr); cbn [negb]; [|by apply wp_skip].
  wp_step. apply wp_gets. wp_step. apply wp_get. cbn. rewrite Huid. by apply wp_send.
Qed.

Lemma wp_reply p s k c :
  client_rel s (k, c) →
  wp (client_address.rxAddrReplyPacket (H := H) p) never
    (λ _ s', client_rel s'
       (k, if decide (packet.arp_uniqueId p = cl_uid c)
           then cl_set_addr greeting (packet.arp_assigned p) c else c)) s.
Proof.
  intros Hrel. use_rel Hrel.
  unfold client_address.rxAddrReplyPacket, load. wp_step. apply wp_gets. cbn. rewrite Huid.
  destruct (decide _); [by apply wp_set_addr|by apply wp_skip].
Qed.

Lemma wp_started s k c :
  client_rel s (k, c) →
  wp (tx_queue.masterStarted (H := H)) never
    (λ _ s', client_rel s' (k, if oa_dynamic (tq_ownAddress (cl_tx c))
       then cl_set_addr greeting null_addr c else c)) s.
Proof.
  intros Hrel. use_rel Hrel.
  unfold tx_queue.masterStarted, own_address.masterStarted, load. wp_step. apply wp_gets.
  cbn. rewrite Htx.
  destruct (oa_dynamic _); [|by apply wp_skip]. by apply (wp_set_addr null_addr).
Qed.

(** The length of a packet is checked before its header is read. *)
Definition header_size (t : MessageType) : nat :=
  match t with
  | grant_token | return_token => 2
  | master_started | master_ended => 1
  | send_packet => 4
  | mac_update => 10
  | address_discovery => 3
  | address_request => 14
  | address_reply => 10
  | other_type _ => 0
  end.

Lemma longEnough_size b l :
  longEnough (b :: l) = true → (header_size (byte2MessageType b) ≤ length (b :: l))%nat.
Proof.
  unfold longEnough, header_size.
  destruct (byte2MessageType b); try done; intros Hl%bool_decide_eq_true_1; exact Hl.
Qed.

Lemma wp_toHeader {h} `{!Header h} pkt (f : h → M S ()) E Q s :
  (sizeof h ≤ length pkt)%nat → wp (f (readHeader pkt)) E Q s →
  wp (p ← lift_result (toHeader pkt); f p) E Q s.
Proof.
  intros Hl Hf. wp_step. eapply wp_eq; [|exact Hf].
  unfold lift_result, toHeader. by rewrite decide_True.
Qed.

(** The packet waits for its host driver. *)
Definition accepted (pkt : ByteVec) (c : Client H) : list ByteVec :=
  match byte2MessageType (byte_at 0 pkt) with
  | send_packet => if codec.addressed_to (cl_addr c) (byte_at 2 pkt) then [pkt] else []
  | _ => []
  end.

(** What the switch does to the abstract client; a packet it accepts is delivered
    later. *)
Definition client_command (pkt : ByteVec) (c : Client H) : Client H :=
  match byte2MessageType (byte_at 0 pkt) with
  | send_packet => c
  | _ => client_rx greeting garbage pkt c
  end.

(** What [SerialNet] does when the master ends, stop the event loop, concerns
    neither the node nor the host drivers. *)
Context (masterEnded_ok : ∀ s, ∃ s', masterEnded s = Ok ((), s') ∧
  view s' = (view s : Node B H D) ∧ delivered s' = delivered s).
#[local] Set Default Proof Using "Type masterEnded_ok".

Abbreviation rxCommand := (codec.rxCommand (H := H) (λ _, garbage) masterEnded).

Lemma wp_command b l s k c :
  client_rel s (k, c) → longEnough (b :: l) = true →
  wp (rxCommand (byte2MessageType b) (b :: l)) never
    (λ _ s', rel_with (accepted (b :: l) c) s' (k, client_command (b :: l) c)) s.
Proof.
  intros Hrel Hlong. pose proof (longEnough_size b l Hlong) as Hsize. use_rel Hrel.
  unfold codec.rxCommand, load. wp_step. apply wp_gets. cbn. rewrite Htx.
  change (tx_queue.clientAddress (cl_tx c)) with (cl_addr c).
  unfold accepted, client_command, client_rx. rewrite Hlong.
  change (byte_at 0 (b :: l)) with b.
  destruct (byte2MessageType b) eqn:Ht; simpl in Hsize.
  - apply wp_toHeader; [exact Hsize|]. simpl.
    destruct (_ =? cl_addr c); [|by apply wp_skip].
    unfold client_address.rxToken. wp_step. apply wp_skip. by apply wp_token.
  - by apply wp_skip.
  - by apply wp_started.
  - wp_step. apply wp_gets. destruct (pt_masterEndedCB _); [|by apply wp_skip].
    destruct (masterEnded_ok s) as (s' & Hs & Hv & Hd).
    eapply wp_eq; [exact Hs|]. destruct Hrel. split; [by rewrite Hv|by rewrite Hd].
  - apply wp_toHeader; [exact Hsize|]. simpl.
    destruct (codec.addressed_to _ _); [|by apply wp_skip].
    wp_step. apply wp_gets. apply wp_modify.
    eapply client_rel_set; [done| |done]. constructor; try done; [by exists b0|].
    cbn. by rewrite Hidle.
  - wp_step. apply wp_gets. destruct (pt_cache _); [|by apply wp_skip].
    wp_step. apply wp_gets. apply wp_modify. 
    eapply client_rel_set; [done| |done]. constructor; try done; by exists b0.
  - apply wp_toHeader; [exact Hsize|]. by apply wp_discovery.
  - by apply wp_skip.
  - apply wp_toHeader; [exact Hsize|]. by apply wp_reply.
  - by apply wp_skip.
Qed.

(** A packet reaches its host driver. *)
Definition client_deliver (c : Client H) (pkt : ByteVec) : Client H :=
  let chType := byte2ChannelType (byte_at 1 pkt) in
  match tx_queue.getRxIf chType (cl_tx c) with
  | Some h => c <| cl_got ::=
      (.++ [mkDelivery h (drop 4 pkt) (byte_at 3 pkt) (byte_at 2 pkt) chType]) |>
  | None => c
  end.

(** The front of the queue is dropped. *)
Lemma rel_pop p m s k c :
  rel_with (p :: m) s (k, c) →
  rel_with m (set_view ((nd_codec (view s)) <| pt_rxMsg ::= tail |>) s) (k, c).
Proof.
  intros Hrel. use_rel Hrel. eapply client_rel_set; [done| |done].
  constructor; try done; [by exists b|]. cbn. by rewrite Hidle.
Qed.

Lemma wp_deliverFront p m s k c :
  rel_with (p :: m) s (k, c) → (4 ≤ length p)%nat →
  wp (codec.deliverFront (H := H)) never
    (λ _ s', rel_with m s' (k, client_deliver c p)) s.
Proof.
  intros Hrel Hl. use_rel Hrel. unfold codec.deliverFront, load, store.
  wp_step. apply wp_gets. cbn. rewrite Hidle. cbn. wp_step. apply wp_deref.
  wp_step. apply wp_assert; [by apply bool_decide_eq_true_2|].
  apply wp_toHeader; [exact Hl|]. wp_step. apply wp_gets. cbn. rewrite Htx.
  unfold client_deliver. wp_step.
  destruct (tx_queue.getRxIf _ _) as [h|].
  2:{ apply wp_skip. wp_step. apply wp_gets. apply wp_modify. by eapply rel_pop. }
  destruct (packetReceivedFromNet_ok h (drop 4 p) (byte_at 3 p) (byte_at 2 p)
    (byte2ChannelType (byte_at 1 p)) s) as (s' & ac & Hs & Hv & Hd).
  eapply wp_eq; [exact Hs|]. wp_step. apply wp_gets. apply wp_modify. cbn.
  eapply (rel_pop p m). split; [|simpl; by rewrite Hd, Hgot].
  rewrite Hv. constructor; try done. by exists b.
Qed.

Lemma wp_deliverRxQueue m s k c :
  rel_with m s (k, c) → Forall (λ p, 4 ≤ length p)%nat m →
  wp (codec.deliverRxQueue (H := H)) never
    (λ _ s', client_rel s' (k, foldl client_deliver c m)) s.
Proof.
  intros Hrel Hm. unfold codec.deliverRxQueue, load. wp_step. apply wp_gets.
  assert (pt_rxMsg (nd_codec (view s)) = m) as Hq by (by use_rel Hrel).
  cbn. rewrite Hq. clear Hq. revert s c Hrel Hm.
  induction m as [|p m IH]; intros s c Hrel Hm; simpl; wp_step; wp_step; apply wp_gets;
    unfold codec.empty; cbn;
    (assert (pt_rxMsg (nd_codec (view s)) = ltac:(match type of Hrel with rel_with ?m _ _ => exact m end))
      as -> by (by use_rel Hrel)); cbn.
  - exact Hrel.
  - apply Forall_cons in Hm as [Hp Hm]. wp_step.
    eapply wp_mono; [by apply wp_deliverFront|done|]. intros [] s1 H1.
    by apply IH.
Qed.

Lemma client_rx_split pkt c :
  longEnough pkt = true →
  foldl client_deliver (client_command pkt c) (accepted pkt c)
  = client_rx greeting garbage pkt c.
Proof.
  intros Hl. unfold client_command, accepted, client_rx. rewrite Hl.
  destruct (byte2MessageType _); try done.
  by destruct (codec.addressed_to _ _).
Qed.

(** One packet: the node does what the abstract client does. *)
Lemma wp_rxRawPacket pkt s k c :
  client_rel s (k, c) →
  wp (rxRawPacket pkt) never
    (λ _ s', client_rel s' (k, client_rx greeting garbage pkt c)) s.
Proof.
  intros Hrel. unfold node.rxRawPacket, codec.rxRawPacket.
  destruct pkt as [|b l]; [by apply wp_skip|]. unfold load. wp_step. apply wp_gets.
  cbn [view node.on_codec lens_comp codec_of]. use_rel Hrel. rewrite Hdump. wp_step. apply wp_skip.
  destruct (longEnough (b :: l)) eqn:Hlong.
  2:{ apply wp_skip. unfold client_rx. by rewrite Hlong. }
  wp_step. eapply wp_mono; [by apply wp_command|done|]. intros [] s1 H1.
  wp_step. apply wp_gets.
  cbn [view node.on_codec lens_comp codec_of].
  assert (pt_master (nd_codec (view s1)) = false) as ->.
  { clear -H1. by use_rel H1. }
  wp_step. apply wp_skip. rewrite <-client_rx_split by done.
  apply wp_deliverRxQueue; [done|]. pose proof (longEnough_size b l Hlong) as Hsize.
  unfold accepted. change (byte_at 0 (b :: l)) with b.
  destruct (byte2MessageType b); try done. destruct (codec.addressed_to _ _); [|done].
  by apply Forall_singleton.
Qed.

(** *** Byte by byte *)

Abbreviation T := (MsgToByteAdapter B * Client H)%type.
#[local] Instance codec_S : Lens S FrameCodec := adapter.codec_lens (LA := on_adapter).
#[local] Instance codec_T : Lens T FrameCodec := adapter.codec_lens (LA := Lens_fst).

(** The abstract client behind a byte adapter of its own. *)
Definition abs_rx (pkt : ByteVec) : M T () :=
  modify (λ t, (t.1, client_rx greeting garbage pkt t.2)).
Definition abs_receiveBytes (now_ : Time) (l : ByteVec) : M T () :=
  adapter.receiveBytes (B := B) abs_rx now_ l.

#[local] Instance same_codec : SameView client_rel FrameCodec.
Proof.
  split.
  - intros s [k c] Hrel. use_rel Hrel. cbn. by rewrite Hk.
  - intros s [k c] v Hrel. cbn. use_rel Hrel. eapply client_rel_set; [done| |done].
    constructor; try done; [by exists b|]. cbn. by rewrite Hk.
Qed.

Lemma sim_load_codec : sim client_rel (load (T := FrameCodec)) (load (T := FrameCodec)).
Proof.
  intros s t HR. exists s. split; [|done]. unfold load, gets. by rewrite (same_view _ s t HR).
Qed.

Lemma sim_store_codec (v : FrameCodec) : sim client_rel (store v) (store v).
Proof. intros s t HR. exists (set_view v s). split; [done|]. exact (same_set _ s t v HR). Qed.

Lemma sim_rx pkt : sim client_rel (rxRawPacket pkt) (abs_rx pkt).
Proof. apply sim_of_wp. intros s [k c] HR. by apply wp_rxRawPacket. Qed.

Lemma sim_decodeByte b : sim client_rel (decodeByte rxRawPacket b) (decodeByte abs_rx b).
Proof.
  unfold decodeByte. apply sim_bind; [apply sim_load_codec|]. intros c.
  destruct (fc_state c); repeat first
    [ apply sim_store_codec | apply sim_load_codec | apply sim_rx
    | apply sim_bind; [|intros ?] | apply sim_skip | apply sim_fail
    | match goal with |- psim _ _ (if ?x then _ else _) _ => destruct x end
    | progress cbv zeta ].
Qed.

(** The node does, on the bytes it gets, what the abstract client does. *)
Lemma sim_receiveBytes now_ l :
  sim client_rel (node.receiveBytes (λ _, garbage) dump_rxPacket masterEnded
    masterPacketReceived now_ l) (abs_receiveBytes now_ l).
Proof.
  unfold node.receiveBytes, abs_receiveBytes, adapter.receiveBytes.
  intros s [k c] HR. rewrite !load_store.
  apply (sim_for_each client_rel _ _ l sim_decodeByte).
  use_rel HR. cbn [view set_view on_adapter node.on_adapter lens_comp adapter_of Lens_fst fst].
  rewrite Hk. eapply client_rel_set; [done| |done]. constructor; try done.
  exists b. unfold adapter.checkTimeout. simpl_rec.
  destruct (rxInProgress _); [destruct (decide _)|]; done.
Qed.
End refinement.
