(* ===== verification/ClientProps.v ===== *)
(** * Properties of clients

    What the refinement of Client.v gives for one node and for two nodes on a
    wire: received packets are handled without a failure, a client speaks only
    when it is asked to, and what the host of one node sends reaches the hosts of
    the others unchanged and in order. *)

From S2P Require Import Prelude SerialProtocol Config FrameCodec Interfaces TxQueue.
From S2P Require Import AddressCache MsgToByteAdapter PacketTypeCodec MasterState Node.
From S2P Require Import Client.

Section props.
Context {B H D S : Type} `{!ByteEtherIf B D, !ByteEtherLaws B D}.
Context `{!HostCallbacks H S, LN : !Lens S (Node B H D), HL : !HostLaws H S B D}.
Context (garbage : packet.AddressRequest) (dump_rxPacket : ByteVec → M S ())
  (masterEnded : M S ()) (masterPacketReceived : MessageType → ByteVec → M S ()).
Context (masterEnded_ok : ∀ s, ∃ s', masterEnded s = Ok ((), s') ∧
  view s' = (view s : Node B H D) ∧ delivered s' = delivered s).
#[local] Set Default Proof Using "Type masterEnded_ok".

Abbreviation rxRawPacket :=
  (node.rxRawPacket (B := B) (D := D) (λ _, garbage) dump_rxPacket masterEnded
     masterPacketReceived).
Abbreviation receiveBytes :=
  (node.receiveBytes (B := B) (D := D) (λ _, garbage) dump_rxPacket masterEnded
     masterPacketReceived).
Abbreviation client_rx := (client_rx greeting garbage).
Abbreviation T := (MsgToByteAdapter B * Client H)%type.
#[local] Instance codec_T : Lens T FrameCodec := adapter.codec_lens (LA := Lens_fst).
#[local] Instance tx_S : Lens S (TxQueue H) := node.on_txQueue (LN := LN).

(** ** Bytes in chunks *)

(** What the byte driver hands over, and when. *)
Abbreviation Chunks := (list (Time * ByteVec)).
Definition receive_chunks (chunks : Chunks) : M S () :=
  for_each (λ c, receiveBytes c.1 c.2) chunks.

(** No chunk comes later than the frame timeout after the one before. *)
Fixpoint timely (last : Time) (chunks : Chunks) : Prop :=
  match chunks with
  | [] => True
  | c :: rest => c.1 - last ≤ adapter.frameTimeout ∧ timely c.1 rest
  end.

(** The abstract client has handled the packets of the log. *)
Definition logs (last : Time) (c0 : Client H) (t : T) (cl : FrameCodec * list ByteVec) : Prop :=
  mb_codec t.1 = cl.1 ∧ mb_lastUpdate t.1 = last ∧
  t.2 = foldl (λ c p, client_rx p c) c0 cl.2.

Lemma sim_log_decode last c0 b :
  sim (logs last c0) (decodeByte (abs_rx garbage) b) (decodeByte log_packet b).
Proof.
  assert (∀ v, sim (logs last c0) (store (v : FrameCodec)) (store v)) as Hstore.
  { intros v [a c] [k l] (Hk & Hu & Hc). eexists. split; [done|]. by split_and!. }
  assert (sim (logs last c0) (load (T := FrameCodec)) (load (T := FrameCodec))) as Hload.
  { intros [a c] [k l] (Hk & Hu & Hc). exists (a, c). simpl in *. split; [|done].
    unfold load, gets. cbn. by rewrite Hk. }
  assert (∀ p, sim (logs last c0) (abs_rx (B := B) garbage p) (log_packet p)) as Hrx.
  { intros p [a c] [k l] (Hk & Hu & Hc). simpl in *. eexists. split; [done|].
    split_and!; [done|done|]. simpl. by rewrite foldl_app, Hc. }
  unfold decodeByte. apply sim_bind; [apply Hload|]. intros c.
  destruct (fc_state c); repeat first
    [ apply Hstore | apply Hload | apply Hrx | apply sim_bind; [|intros ?]
    | apply sim_skip | apply sim_fail
    | match goal with |- psim _ _ (if ?x then _ else _) _ => destruct x end
    | progress cbv zeta ].
Qed.

(** A chunk in time goes to the decoder as it is. *)
Lemma abs_receive_log now_ l c0 last t cl cl' :
  logs last c0 t cl →
  (rxInProgress cl.1 = true → now_ - last ≤ adapter.frameTimeout) →
  receiveData log_packet l cl = Ok ((), cl') →
  ∃ t', abs_receiveBytes garbage now_ l t = Ok ((), t') ∧ logs now_ c0 t' cl'.
Proof.
  intros (Hk & Hu & Hc) Ht Hrun. destruct t as [a c]. simpl in *. subst.
  unfold abs_receiveBytes, adapter.receiveBytes. rewrite load_store.
  cbn [view set_view Lens_fst fst snd].
  pose proof (sim_for_each (logs now_ c0) _ _ l (sim_log_decode now_ c0)) as Hsim.
  assert (adapter.checkTimeout now_ a = a ∨
    adapter.checkTimeout now_ a = a <| mb_lastUpdate := now_ |>) as Ha.
  { unfold adapter.checkTimeout. rewrite Hk.
    destruct (rxInProgress cl.1); [right|by left]. by rewrite decide_False by (specialize (Ht eq_refl); lia). }
  specialize (Hsim (((adapter.checkTimeout now_ a) <| mb_lastUpdate := now_ |>),
    foldl (λ c p, client_rx p c) c0 cl.2) cl).
  unfold receiveData in Hrun. rewrite Hrun in Hsim.
  destruct Hsim as (t' & Hrun' & Hlog); [by destruct Ha as [-> | ->]|by exists t'].
Qed.

(** The bytes arrive without a gap that is longer than the frame timeout. *)
Definition steady (chunks : Chunks) : Prop :=
  match chunks with [] => True | c :: rest => timely c.1 rest end.

Lemma receive_app_inv l1 l2 (cl cl' : FrameCodec * list ByteVec) :
  receiveData log_packet (l1 ++ l2) cl = Ok ((), cl') →
  ∃ cl1, receiveData log_packet l1 cl = Ok ((), cl1) ∧
    receiveData log_packet l2 cl1 = Ok ((), cl').
Proof.
  unfold receiveData. rewrite for_each_app. unfold mbind, M_bind.
  destruct (for_each _ l1 cl) as [[[] cl1]|e]; [|done]. eauto.
Qed.

Lemma abs_chunks_log chunks c0 last t cl cl' :
  logs last c0 t cl → steady chunks →
  match chunks with
  | [] => True
  | c :: _ => rxInProgress cl.1 = true → c.1 - last ≤ adapter.frameTimeout
  end →
  receiveData log_packet (concat chunks.*2) cl = Ok ((), cl') →
  ∃ t' last', for_each (λ c, abs_receiveBytes garbage c.1 c.2) chunks t = Ok ((), t') ∧
    logs last' c0 t' cl'.
Proof.
  revert last t cl. induction chunks as [|[now_ l] rest IH]; intros last t cl Hl Ht Hfirst Hrun.
  { injection Hrun as <-. by exists t, last. }
  cbn [fmap list_fmap concat fst snd] in Hrun.
  apply receive_app_inv in Hrun as (cl1 & H1 & H2).
  destruct (abs_receive_log now_ l c0 last t cl cl1 Hl Hfirst H1) as (t1 & Ht1 & Hl1).
  destruct (IH now_ t1 cl1 Hl1) as (t2 & last2 & Ht2 & Hl2);
    [by destruct rest; [|apply Ht]|by destruct rest; [|intros _; apply Ht]|done|].
  exists t2, last2. split; [|done]. simpl. unfold mbind, M_bind. by rewrite Ht1.
Qed.

(** The packets of a stream reach the abstract client, in order. *)
Lemma receive_packets ps chunks s k c :
  client_rel s (k, c) → listening (mb_codec k) → Forall small_packet ps →
  concat chunks.*2 = concat (frame <$> ps) → steady chunks →
  ∃ s' k', receive_chunks chunks s = Ok ((), s') ∧
    client_rel s' (k', foldl (λ c p, client_rx p c) c ps).
Proof.
  intros HR Hk Hps Hbytes Hst.
  destruct (log_stream ((λ _, []) <$> ps) ps (mb_codec k) [] Hk Hps) as (k' & Hrun & Hk').
  { by rewrite length_fmap. }
  { apply Forall_fmap, Forall_true. intros p. apply not_elem_of_nil. }
  assert (zip_with (λ n p, n ++ frame p) ((λ _, []) <$> ps) ps = frame <$> ps) as Hz.
  { rewrite zip_with_fmap_l. clear. induction ps as [|p ps IH]; [done|]. simpl. f_equal. exact IH. }
  rewrite Hz, <-Hbytes in Hrun.
  destruct (abs_chunks_log chunks c (mb_lastUpdate k) (k, c) (mb_codec k, []) (k', ps))
    as (t' & last' & Ht' & (_ & _ & Hc)); [done|done| |done|].
  { destruct chunks; [done|]. unfold rxInProgress. destruct Hk as [Hidle _].
    intros Hx%bool_decide_eq_true_1. done. }
  pose proof (sim_for_each client_rel _ _ chunks (λ c, sim_receiveBytes garbage dump_rxPacket
    masterEnded masterPacketReceived masterEnded_ok c.1 c.2) s (k, c) HR) as Hsim.
  rewrite Ht' in Hsim. destruct Hsim as (s' & Hs' & HR').
  exists s', t'.1. split; [done|]. destruct t' as [k1 c1]. simpl in *. by subst.
Qed.

(** ** From host to host *)

#[local] Instance host_node : MsgHostIf H S := node.host (LN := LN).

(** What a host sends. *)
Record Message : Type := mkMessage {
  mg_data : ByteVec;
  mg_dest : LocalAddress;
  mg_chType : ChannelType
}.
(** Its length, with the header's four bytes, fits the length field of a frame. *)
Definition message_ok (m : Message) : Prop :=
  bytes (mg_data m) ∧ is_byte (mg_dest m) ∧ wf_ChannelType (mg_chType m) ∧
  Z.of_nat (length (mg_data m)) + 4 < 2 ^ 14.

(** The packet on the wire. *)
Definition on_wire (src : LocalAddress) (m : Message) : ByteVec :=
  fromHeader (packet.mkSendPacket send_packet (mg_chType m) (mg_dest m) src) ++ mg_data m.

(** What the hosts of a client get of it. *)
Definition for_host (src : LocalAddress) (c : Client H) (m : Message) : list (Delivery H) :=
  if codec.addressed_to (cl_addr c) (mg_dest m) then
    match tx_queue.getRxIf (mg_chType m) (cl_tx c) with
    | Some h => [mkDelivery h (mg_data m) src (mg_dest m) (mg_chType m)]
    | None => []
    end
  else [].

Definition send_all (ms : list Message) : M S () :=
  for_each (λ m, host_sendPacket (mg_data m) (mg_dest m) (mg_chType m)) ms.
(** The client is granted the token [n] times. *)
Definition grant_tokens (n : nat) (addr : LocalAddress) : M S () :=
  for_each rxRawPacket (replicate n (fromHeader (packet.newGrantToken addr))).

Lemma wp_host_send m s k c :
  client_rel s (k, c) →
  wp (host_sendPacket (mg_data m) (mg_dest m) (mg_chType m)) never
    (λ _ s', client_rel s'
       (k, client_tx (mg_data m) (mg_dest m) (mg_chType m) c)) s.
Proof.
  intros HR. pose proof HR as [[_ _ _ _ _ _ Htx _ _] _]. cbn [fst snd] in Htx.
  unfold host_sendPacket. cbn [host_node node.host tx_queue.tx_queue_host].
  unfold tx_queue.msgHostTx_sendPacket, load. wp_step. apply wp_gets.
  cbn [view node.on_txQueue lens_comp txQueue_of]. rewrite Htx.
  unfold own_address.valid, client_tx, cl_addr, tx_queue.clientAddress.
  destruct (oa_addr _ =? null_addr); cbn [negb]; [by apply wp_skip|].
  unfold tx_queue.sendPacket, load, store. wp_step. apply wp_gets. apply wp_modify.
  cbn [view node.on_txQueue lens_comp txQueue_of]. rewrite Htx.
  exact (rel_set_tx _ s k c HR).
Qed.

(** Sequences of operations refine sequences of abstract steps. *)
Lemma run_steps {A} (m : A → M S ()) (f : A → Client H → Client H) l s k c :
  (∀ x s c, client_rel s (k, c) → wp (m x) never (λ _ s', client_rel s' (k, f x c)) s) →
  client_rel s (k, c) →
  ∃ s', for_each m l s = Ok ((), s') ∧ client_rel s' (k, foldl (λ c x, f x c) c l).
Proof.
  intros Hstep. revert s c. induction l as [|x l IH]; intros s c HR; simpl.
  { by exists s. }
  destruct (wp_ok _ _ _ (Hstep x s c HR)) as ([] & s1 & Hs1 & HR1).
  destruct (IH _ _ HR1) as (s' & Hs' & HR'). exists s'. split; [|done].
  by rewrite (bind_ok _ _ _ _ _ Hs1).
Qed.

(** Sending and tokens, on the abstract client. *)
Lemma abs_send_all ms (c : Client H) :
  cl_addr c ≠ null_addr →
  foldl (λ c m, client_tx (mg_data m) (mg_dest m) (mg_chType m) c) c ms
  = c <| cl_tx ::= λ q, q <| tq_txMsg ::= (.++ (on_wire (cl_addr c) <$> ms)) |> |>.
Proof.
  intros Ha. revert c Ha. induction ms as [|m ms IH]; intros c Ha; simpl.
  { destruct c as [[] ? ? ?]. unfold update. cbn. by rewrite app_nil_r. }
  assert (client_tx (mg_data m) (mg_dest m) (mg_chType m) c
    = c <| cl_tx ::= tx_queue.push_back (on_wire (cl_addr c) m) |>) as ->.
  { unfold client_tx. by rewrite (proj2 (Z.eqb_neq _ _) Ha). }
  rewrite IH by done. destruct c as [[q own r1 r2 r3] u w g].
  unfold tx_queue.push_back, cl_addr, update. cbn. by rewrite <-app_assoc.
Qed.

Lemma abs_tokens (c : Client H) :
  foldl (λ c p, client_rx p c) c
    (replicate (length (tq_txMsg (cl_tx c))) [0; cl_addr c])
  = c <| cl_tx ::= λ q, q <| tq_txMsg := [] |> |>
      <| cl_wire ::= (.++ concat (frame <$> tq_txMsg (cl_tx c))) |>.
Proof.
  destruct c as [[q own r1 r2 r3] u w g]. cbn [cl_tx tq_txMsg].
  change (cl_addr _) with (oa_addr own).
  revert w. induction q as [|p q IH]; intros w; simpl.
  { unfold update. cbn. by rewrite app_nil_r. }
  assert (client_rx [0; oa_addr own] (mkClient (mkTxQueue (p :: q) own r1 r2 r3) u w g)
    = mkClient (mkTxQueue q own r1 r2 r3) u (w ++ frame p) g) as ->.
  { unfold Client.client_rx. cbn. unfold byte_at, cl_addr, tx_queue.clientAddress. cbn.
    by rewrite Z.eqb_refl. }
  rewrite IH. unfold update. cbn. by rewrite <-app_assoc.
Qed.

(** A queue of messages goes out with one token each. *)
Lemma abs_round ms (c : Client H) :
  cl_addr c ≠ null_addr → tq_txMsg (cl_tx c) = [] →
  foldl (λ c p, client_rx p c)
    (foldl (λ c m, client_tx (mg_data m) (mg_dest m) (mg_chType m) c) c ms)
    (replicate (length ms) (fromHeader (packet.newGrantToken (cl_addr c))))
  = c <| cl_wire ::= (.++ concat (frame <$> (on_wire (cl_addr c) <$> ms))) |>.
Proof.
  intros Ha Hq. rewrite abs_send_all by done.
  destruct c as [[q own r1 r2 r3] u w g]. cbn [cl_tx tq_txMsg] in Hq. subst q.
  set (addr := cl_addr _).
  pose proof (abs_tokens (mkClient (mkTxQueue (on_wire addr <$> ms) own r1 r2 r3) u w g)) as Ht.
  cbn [cl_tx tq_txMsg] in Ht. rewrite length_fmap in Ht. exact Ht.
Qed.

(** Receiving, on the abstract client. *)
Lemma abs_deliver src ms (c : Client H) :
  Forall message_ok ms →
  foldl (λ c p, client_rx p c) c (on_wire src <$> ms)
  = c <| cl_got ::= (.++ concat (for_host src c <$> ms)) |>.
Proof.
  intros Hms. revert c. induction ms as [|m ms IH]; intros c; simpl.
  { destruct c. unfold update. cbn. by rewrite app_nil_r. }
  apply Forall_cons in Hms as [(_ & _ & Hct & _) Hms].
  assert (client_rx (on_wire src m) c = c <| cl_got ::= (.++ for_host src c m) |>) as ->.
  { unfold Client.client_rx. cbn. unfold byte_at, for_host. cbn.
    rewrite byte2ChannelType2Byte, drop_0 by done.
    destruct c. unfold update. cbn.
    destruct (codec.addressed_to _ _); [destruct (tx_queue.getRxIf _ _)|];
      cbn; by rewrite ?app_nil_r. }
  rewrite IH by done. destruct c. unfold update. cbn. by rewrite <-app_assoc.
Qed.

Lemma small_on_wire src m : message_ok m → small_packet (on_wire src m).
Proof.
  intros (_ & _ & _ & Hl). split; [done|]. unfold on_wire. rewrite length_app. simpl. lia.
Qed.

(** C3. From host to host. The host of a client with an address and an empty queue
    sends messages; the client is granted the token once for each of them. All of
    this succeeds, and when the bytes that went out reach another client, in chunks
    of any size without a gap longer than the frame timeout, the hosts there get
    exactly the messages that are addressed to them, each once, in the order they
    were sent in, unchanged and with the right sender. *)
Theorem net_delivers (ms : list Message) (s1 s2 : S) (k1 k2 : MsgToByteAdapter B)
    (c1 c2 : Client H) :
  client_rel s1 (k1, c1) → client_rel s2 (k2, c2) → listening (mb_codec k2) →
  cl_addr c1 ≠ null_addr → tq_txMsg (cl_tx c1) = [] → Forall message_ok ms →
  ∃ s1' out,
    (send_all ms ;; grant_tokens (length ms) (cl_addr c1)) s1 = Ok ((), s1') ∧
    transmitted (nd_driver (view s1')) = transmitted (nd_driver (view s1)) ++ out ∧
    ∀ chunks, concat chunks.*2 = out → steady chunks →
      ∃ s2', receive_chunks chunks s2 = Ok ((), s2') ∧
        delivered s2' = delivered s2 ++ concat (for_host (cl_addr c1) c2 <$> ms).
Proof.
  intros HR1 HR2 Hk2 Ha Hq Hms.
  destruct (run_steps _ _ ms s1 k1 c1 (λ m s c, wp_host_send m s k1 c) HR1) as (sa & Hsa & HRa).
  destruct (run_steps _ _ (replicate (length ms) (fromHeader (packet.newGrantToken (cl_addr c1))))
    sa k1 _ (λ p s c, wp_rxRawPacket garbage dump_rxPacket masterEnded
      masterPacketReceived masterEnded_ok p s k1 c) HRa)
    as (s1' & Hs1' & HR1').
  rewrite abs_round in HR1' by done.
  exists s1', (concat (frame <$> (on_wire (cl_addr c1) <$> ms))).
  split_and!.
  - unfold send_all, grant_tokens. by rewrite (bind_ok _ _ _ _ _ Hsa).
  - destruct HR1 as [[] _], HR1' as [[] _]. simpl in *. congruence.
  - intros chunks Hb Hst.
    destruct (receive_packets (on_wire (cl_addr c1) <$> ms) chunks s2 k2 c2 HR2 Hk2)
      as (s2' & k2' & Hs2' & HR2'); [|done|done|].
    { apply Forall_fmap. eapply Forall_impl; [done|]. intros m. apply small_on_wire. }
    exists s2'. split; [done|]. rewrite abs_deliver in HR2' by done.
    destruct HR2 as [_ ->], HR2' as [_ ->]. done.
Qed.

(** ** One node *)

(** C12. A client refines the abstract client: whatever packets it receives, it
    handles each of them without a failure, delivers what is to be delivered before
    the next one, and ends as the abstract client does: the same queue, address,
    bytes on the wire and packets at the hosts. *)
Theorem client_refines pkts s k c :
  client_rel s (k, c) →
  ∃ s', for_each rxRawPacket pkts s = Ok ((), s') ∧
    client_rel s' (k, foldl (λ c p, client_rx p c) c pkts) ∧
    pt_rxMsg (nd_codec (view s')) = [].
Proof.
  intros HR.
  destruct (run_steps _ _ pkts s k c (λ p s c, wp_rxRawPacket garbage dump_rxPacket masterEnded
      masterPacketReceived masterEnded_ok p s k c) HR) as (s' & Hs & HR').
  exists s'. split_and!; [done|done|]. by destruct HR' as [[] _].
Qed.

(** The packet asks this client for something. *)
Definition grants (c : Client H) (pkt : ByteVec) : bool :=
  longEnough pkt && bool_decide (byte2MessageType (byte_at 0 pkt) = grant_token)
    && (byte_at 1 pkt =? cl_addr c).
Definition asks_address (c : Client H) (pkt : ByteVec) : bool :=
  longEnough pkt && bool_decide (byte2MessageType (byte_at 0 pkt) = address_discovery)
    && (cl_addr c =? null_addr).

(** C21. A client speaks only when it is asked to: a received packet makes it send
    nothing, unless it grants the token to the client's address, which takes the
    oldest packet off the queue and sends it, or returns the token when there is
    none, or unless it is a discovery packet and the client has no address, which
    makes it send a request. *)
Theorem client_speaks_when_asked pkt s k c :
  client_rel s (k, c) →
  ∃ s', rxRawPacket pkt s = Ok ((), s') ∧
    let said := transmitted (nd_driver (view s)) in
    let said' := transmitted (nd_driver (view s')) in
    let queue := tq_txMsg (nd_txQueue (view s)) in
    if grants c pkt then
      said' = said ++ frame (default [1; cl_addr c] (head queue)) ∧
      tq_txMsg (nd_txQueue (view s')) = tail queue
    else if asks_address c pkt then said' = said ++ frame (cl_request garbage c)
    else said' = said.
Proof.
  intros HR.
  destruct (wp_ok _ _ _ (wp_rxRawPacket garbage dump_rxPacket masterEnded
    masterPacketReceived masterEnded_ok pkt s k c HR)) as ([] & s' & Hs & HR').
  exists s'. split; [done|]. cbv zeta.
  destruct HR as [[_ _ _ _ _ _ Htx _ Hw] _], HR' as [[_ _ _ _ _ _ Htx' _ Hw'] _].
  cbn [fst snd] in *. rewrite Htx, Hw, Htx', Hw'. clear.
  unfold grants, asks_address, Client.client_rx.
  destruct (longEnough pkt); [|done]. cbn [andb].
  destruct (byte2MessageType (byte_at 0 pkt)); cbn [andb bool_decide];
    repeat first [rewrite bool_decide_eq_true_2 by done | rewrite bool_decide_eq_false_2 by done];
    cbn [andb]; try done.
  - destruct (byte_at 1 pkt =? cl_addr c); [|done]. destruct (tq_txMsg (cl_tx c)) eqn:Hq; cbn; by rewrite ?Hq.
  - destruct (oa_dynamic _); [|done]. unfold cl_set_addr.
    destruct (oa_addrChangeIf _); [|done]. by destruct (_ =? _).
  - destruct (codec.addressed_to _ _); [|done]. by destruct (tx_queue.getRxIf _ _).
  - by destruct (_ =? null_addr).
  - destruct (decide _); [|done]. unfold cl_set_addr.
    destruct (oa_addrChangeIf _); [|done]. by destruct (_ =? _).
Qed.
End props.

(** ** Two stations *)

(** A node on a wire, with hosts, named by numbers, that keep what they get. *)
Abbreviation Station := (Node () nat ByteVec * list (Delivery nat))%type.

#[export] Instance station_hosts : HostCallbacks nat Station := {
  packetReceivedFromNet h data src dest chType :=
    modify (λ s, (s.1, s.2 ++ [mkDelivery h data src dest chType]));
  msgHostRx_newAddr _ _ := skip
}.

#[export] Program Instance station_laws : HostLaws nat Station () ByteVec := {
  delivered s := s.2;
  greeting _ _ := []
}.
Next Obligation. done. Qed.
Next Obligation.
  intros h data src dest ct s. eexists _, (nd_cache (view s : Node _ _ _)). split; [done|].
  split; [|done]. destruct s as [[] ?]. done.
Qed.
Next Obligation.
  intros h addr s. exists s, (nd_cache (view s : Node _ _ _)). split; [done|]. split; [|done].
  destruct s as [[? [] ? ? ? ?] ?]. unfold update. cbn. by rewrite app_nil_r.
Qed.

(** A station with an address, an identity and a host for raw packets. *)
Definition station_tx (addr : LocalAddress) (h : nat) : TxQueue nat :=
  tx_queue.setRxHandler (Some h) raw_stream (tx_queue.newTxQueue addr).
Definition station_adapter : MsgToByteAdapter () :=
  mkMsgToByteAdapter (Some ()) (newFrameCodec true) 0.
Definition station (addr : LocalAddress) (h : nat) : Station :=
  ((node.newNode addr (λ i, Z.of_nat i + addr) [] [])
     <| nd_adapter := station_adapter |> <| nd_txQueue := station_tx addr h |>, []).
Definition station_client (addr : LocalAddress) (h : nat) : Client nat :=
  mkClient (station_tx addr h)
    (client_address.setupUniqueId (λ i, Z.of_nat i + addr)) [] [].

Lemma station_rel addr h : client_rel (station addr h) (station_adapter, station_client addr h).
Proof. split; [|done]. constructor; try done. by exists (). Qed.

Definition no_request : packet.AddressRequest :=
  packet.mkAddressRequest address_request [] illegal_type [0; 0; 0; 0].
Lemma station_ended (s : Station) : ∃ s' : Station, skip s = Ok ((), s') ∧
  view s' = (view s : Node _ _ _) ∧ delivered s' = delivered s.
Proof. by exists s. Qed.

Abbreviation station_receives := (node.rxRawPacket (B := ()) (D := ByteVec) (S := Station)
  (λ _, no_request) (λ _, skip) skip (λ _ _, skip)).

Lemma client_refines_witness :
  let pkts := [[4; 1; 2; 9; 42]; [0; 2]; [7]] in
  ∃ s', for_each station_receives pkts (station 2 5) = Ok ((), s') ∧
    delivered s' = [mkDelivery 5%nat [42] 9 2 raw_stream] ∧
    transmitted (nd_driver (view s')) = frame [1; 2].
Proof.
  intros pkts.
  destruct (client_refines no_request (λ _, skip) skip (λ _ _, skip) station_ended pkts
    (station 2 5) station_adapter (station_client 2 5) (station_rel 2 5))
    as (s' & Hs & [Hn Hgot] & _).
  exists s'. split; [exact Hs|]. split; [exact Hgot|exact (nr_wire _ _ _ _ Hn)].
Defined.

Lemma client_speaks_when_asked_witness :
  ∃ s', station_receives [0; 3] (station 3 5) = Ok ((), s') ∧
    transmitted (nd_driver (view s')) = frame [1; 3].
Proof.
  destruct (client_speaks_when_asked no_request (λ _, skip) skip (λ _ _, skip) station_ended
    [0; 3] (station 3 5) station_adapter (station_client 3 5) (station_rel 3 5))
    as (s' & Hs & Hw).
  exists s'. split; [exact Hs|exact (proj1 Hw)].
Defined.

(** The station 2 sends two messages to the station 3, one to the station 4 and
    one to all; the bytes arrive in three chunks, cut in the middle of frames. *)
Definition example_messages : list Message :=
  [mkMessage [1; 2; 3] 3 raw_stream; mkMessage [4] 4 raw_stream;
   mkMessage [5; 253] 3 raw_stream; mkMessage [6] 255 raw_stream].
Definition example_bytes : ByteVec :=
  concat (frame <$> (on_wire 2 <$> example_messages)).
Definition example_chunks : list (Time * ByteVec) :=
  [(0, take 6 example_bytes); (milliseconds 80, drop 6 (take 20 example_bytes));
   (milliseconds 160, drop 20 example_bytes)].

Lemma net_delivers_witness :
  ∃ s2', receive_chunks no_request (λ _, skip) skip (λ _ _, skip) example_chunks (station 3 7)
    = Ok ((), s2') ∧
  delivered s2' = [mkDelivery 7%nat [1; 2; 3] 2 3 raw_stream;
    mkDelivery 7%nat [5; 253] 2 3 raw_stream; mkDelivery 7%nat [6] 2 255 raw_stream].
Proof.
  destruct (net_delivers no_request (λ _, skip) skip (λ _ _, skip) station_ended
    example_messages (station 2 5) (station 3 7) station_adapter station_adapter
    (station_client 2 5) (station_client 3 7)) as (s1' & out & Hs1 & Hout & Hdel).
  - apply station_rel.
  - apply station_rel.
  - done.
  - done.
  - done.
  - repeat (apply Forall_cons; split; [|]); try apply Forall_nil_2;
      (split; [by apply (bool_decide_unpack _)|]; split_and!; done).
  - assert (out = example_bytes) as ->.
    { revert Hs1 Hout. vm_compute. intros Hs1 Hout. injection Hs1 as <-. by simpl in Hout. }
    destruct (Hdel example_chunks) as (s2' & Hs2 & Hd2); [by vm_compute|by vm_compute|].
    exists s2'. split; [exact Hs2|exact Hd2].
Defined.
