(* ===== verification/NodeMaster.v ===== *)
(** * A master on its node

    The node of Node.v is what the master of Master.v sends through, and
    satisfies what the master relies on. Together they show how the two time-outs
    interact, and how a client gets its address. *)

From S2P Require Import Prelude SerialProtocol VecQueue StateChart RootChart Config.
From S2P Require Import TimeService MasterScheduler MasterState DynamicHandler.
From S2P Require Import MasterFSM Master MasterInvariant MasterSafety MasterEvents.
From S2P Require Import MasterRuns MasterProps.
From S2P Require Import FrameCodec Interfaces TxQueue AddressCache MsgToByteAdapter.
From S2P Require Import PacketTypeCodec Node.

(** The memory where the uninitialised identities lie. *)
Class Memory := memory : LocalAddress → UniqueId.

Section node_env.
Context {B H D : Type} `{!ByteEtherIf B D, !ByteEtherLaws B D, !Memory}.
Abbreviation N := (Node B H D).

#[export] Instance node_env : MasterEnv N := {
  env_ok := connected;
  sendMasterPacket p := node.sendMasterPacket (LN := Lens_id) p;
  sendClientPacket := node.sendClientPacket (LN := Lens_id);
  txQueueEmpty n := tx_queue.txQueueEmpty (nd_txQueue n);
  clientAddress n := tx_queue.clientAddress (nd_txQueue n);
  packetRxInProgress now_ := node.packetRxInProgress (LN := Lens_id) now_;
  uninitialised := memory
}.

Lemma packetRxInProgress_node now_ (n : N) :
  packetRxInProgress now_ n
  = let a := adapter.checkTimeout now_ (nd_adapter n) in
    Ok (rxInProgress (mb_codec a), n <| nd_adapter := a |>).
Proof. done. Qed.

Lemma checkTimeout_beIf now_ (a : MsgToByteAdapter B) :
  mb_beIf (adapter.checkTimeout now_ a) = mb_beIf a.
Proof.
  unfold adapter.checkTimeout. destruct (rxInProgress _); [|done]. by destruct (decide _).
Qed.

#[export] Instance node_laws : MasterEnvLaws N.
Proof.
  split.
  - intros p n [[b Hb] Hdrv] _ _.
    destruct (node_sends (LN := Lens_id) b p n Hb Hdrv) as (d' & Hs & Hd' & _).
    exists (n <| nd_driver := d' |>). split; [exact Hs|]. do 2 (split; [done|]).
    by split; [exists b|].
  - intros n [[b Hb] Hdrv] Hq. cbn [txQueueEmpty node_env] in Hq.
    unfold tx_queue.txQueueEmpty in Hq. apply bool_decide_eq_false_1 in Hq.
    destruct (tq_txMsg (nd_txQueue n)) as [|p q] eqn:Htx; [done|].
    destruct (node_sends (LN := Lens_id) b p n Hb Hdrv) as (d' & Hs & Hd' & _).
    eexists. split.
    { cbn [sendClientPacket node_env]. unfold node.sendClientPacket, tx_queue.sendClientPacket.
      eapply bind_step; [done|]. cbn. rewrite Htx. eapply bind_step; [done|].
      eapply bind_step; [exact Hs|]. done. }
    split; [done|]. by split; [exists b|].
  - intros now_ n [[b Hb] Hdrv]. rewrite packetRxInProgress_node. eexists _, _.
    split; [done|]. split; [done|]. split; [|done]. exists b.
    cbn. by rewrite checkTimeout_beIf.
Qed.
End node_env.

(** ** A frame that is cut off *)

(** The states that wait longer while a packet is coming in. *)
Definition waits (k : StateId) : Prop :=
  match k with
  | StateId.waitClientPacketDone | StateId.queryAddress | StateId.waitAddressReply => True
  | _ => False
  end.

Section stall.
Context {B H D Q : Type} `{!ByteEtherIf B D, !ByteEtherLaws B D, !Memory}.
Context `{!PriorityQueue Q}.
Abbreviation N := (Node B H D).
Abbreviation Master := (Master (E := N) (Q := Q)).
Abbreviation T := (Chart StateId Event * World N Q)%type.
Abbreviation start_event := (chart_start (root_state master_setup)).
Implicit Types (s : Master) (w : World N Q).

(** The time-out of a waiting state while the node is receiving: the timer is
    armed again, and the node has been asked. *)
Definition waited w : World N Q :=
  let now_ := ts_now (w_ts w) in
  w <| w_env ::= λ n, n <| nd_adapter ::= adapter.checkTimeout now_ |> |>
    <| w_ts ::= arm (now_ + Config.masterTokenClientTimeout) FsmTimeout |>
    <| w_fsm ::= λ m, m <| mf_timer := Some (ts_next (w_ts w)) |> |>.

Lemma wait_more k (m : M T ()) w :
  rxInProgress (mb_codec (adapter.checkTimeout (ts_now (w_ts w)) (nd_adapter (w_env w)))) = true →
  wp (rx ← zoom clientSending;
      (if rx : bool then zoom (startTimer Config.masterTokenClientTimeout) else m) ;;
      mret true) never
    (λ _ t, t = (mkChart k [newEvent Event.timer_timeout] None, waited w))
    (mkChart k [newEvent Event.timer_timeout] None, w).
Proof.
  intros Hrx. wp_step. wp_step. cbn [view Lens_snd snd]. unfold clientSending. wp_step.
  apply wp_get. eapply wp_eq; [apply on_env_ok, packetRxInProgress_node|].
  cbn [set_view Lens_snd fst]. rewrite Hrx. wp_step. wp_step.
  cbn [view set_view Lens_snd fst snd]. eapply wp_eq; [apply startTimer_spec|].
  apply wp_ret. unfold waited. by destruct w.
Qed.

Lemma keeps_waiting k w :
  waits k →
  rxInProgress (mb_codec (adapter.checkTimeout (ts_now (w_ts w)) (nd_adapter (w_env w)))) = true →
  start_event chart_fuel (newEvent Event.timer_timeout) (mkChart k [] None, w)
  = Ok ((), (mkChart k [] None, waited w)).
Proof.
  intros Hk Hrx.
  assert (wp (start_event chart_fuel (newEvent Event.timer_timeout)) never
    (λ _ t, t = (mkChart k [] None, waited w)) (mkChart k [] None, w)) as Hwp.
  2:{ by destruct (wp_ok _ _ _ Hwp) as ([] & t & Ht & ->). }
  unfold chart_start. wp_step. apply wp_gets. wp_step. apply wp_modify.
  cbn [compose fst snd ch_state ch_queue ch_target app chart_run chart_fuel].
  wp_step. apply wp_gets. cbn [compose ch_queue fst]. wp_step.
  eapply (wp_event k); [done|].
  assert (wp (state_event chart_post chart_transition k (newEvent Event.timer_timeout)) never
    (λ _ t, t = (mkChart k [newEvent Event.timer_timeout] None, waited w))
    (mkChart k [newEvent Event.timer_timeout] None, w)) as Hev.
  { destruct k; try done; by apply wait_more. }
  eapply wp_mono; [exact Hev|done|]. intros ? t ->.
  cbn [fst snd ch_state ch_queue ch_target]. apply wp_stay.
  cbn [fst snd ch_state ch_queue ch_target tail chart_run].
  wp_step. apply wp_gets. by apply wp_skip.
Qed.

(** The master waits in the state [k], the node in the middle of a frame, and the
    machine's timer is due before the frame's time-out. *)
Definition stalled (k : StateId) s : Prop :=
  let a := nd_adapter (w_env s.2) in
  master_ok s ∧ master_state s = Some k ∧ waits k ∧ rxInProgress (mb_codec a) = true ∧
  ∃ i at_, armed_for FsmTimeout (w_ts s.2) = [(i, at_)] ∧ ts_now (w_ts s.2) ≤ at_ ∧
    at_ - mb_lastUpdate a ≤ adapter.frameTimeout.

(** What happens while no byte arrives: timers fire, and time passes, but the loop
    does not let the machine's timer wait. *)
Definition no_bytes (i : input (E := N)) s : Prop :=
  match i with
  | Received _ _ => False
  | Fires _ _ => True
  | Passes delta n =>
      nd_adapter n = nd_adapter (w_env s.2) ∧
      ∀ p, p ∈ armed_for FsmTimeout (w_ts s.2) → ts_now (w_ts s.2) + delta ≤ p.2
  end.

Lemma stalled_timeout k i s s' :
  stalled k s → due (w_ts s.2) i FsmTimeout → timer_fires i FsmTimeout s = Ok ((), s') →
  stalled k s'.
Proof.
  intros (Hok & Hk & Hw & Hrx & j & at_ & Harm & Hnow & Hlast) Hdue Hs.
  assert (master_ok s') as Hok' by exact (proj1 (handle_ok (Fires i FsmTimeout) s s' Hok Hdue Hs)).
  destruct Hdue as (at' & Hin & Hle).
  assert ((i, at') ∈ armed_for FsmTimeout (w_ts s.2)) as Hin' by by apply elem_of_armed_for.
  assert (at' = at_) as ->.
  { rewrite Harm in Hin'. apply list_elem_of_singleton in Hin'. congruence. }
  assert (ts_now (w_ts s.2) = at_) as Ht by lia.
  set (a := nd_adapter (w_env s.2)) in *.
  assert (adapter.checkTimeout at_ a = a <| mb_lastUpdate := at_ |>) as Hcheck.
  { unfold adapter.checkTimeout. rewrite Hrx. by rewrite decide_False by lia. }
  destruct Hok as (k' & HR & Hk' & _). rewrite Hk in Hk'. injection Hk' as <-.
  pose proof (at_rest_world _ _ (expired i s.2) HR) as HR'.
  assert (start_event chart_fuel (newEvent Event.timer_timeout) (mkChart k [] None, expired i s.2)
    = Ok ((), (mkChart k [] None, waited (expired i s.2)))) as Hrun.
  { apply keeps_waiting; [done|]. change (ts_now (w_ts (expired i s.2))) with (ts_now (w_ts s.2)).
    change (nd_adapter (w_env (expired i s.2))) with a. rewrite Ht, Hcheck. exact Hrx. }
  destruct (machine_result _ _ _ _ _ (sim_postEvent _) HR' Hrun) as (s1 & Hs1 & HR1).
  assert (timer_fires i FsmTimeout s = Ok ((), s1)) as Hf.
  { unfold timer_fires. apply (bind_step _ _ _ () (s.1, expired i s.2)); [|exact Hs1].
    by destruct s as [? []]. }
  assert (s' = s1) as -> by congruence.
  destruct (at_rest_parts _ _ HR1) as [Hw1 Hm]. cbn [snd fst ch_state] in Hw1, Hm.
  assert (nd_adapter (w_env s1.2) = a <| mb_lastUpdate := at_ |>) as Ha1.
  { rewrite Hw1. rewrite <-Hcheck, <-Ht. done. }
  split; [done|]. split; [done|]. split; [done|]. rewrite Ha1. split; [exact Hrx|].
  exists (ts_next (w_ts s.2)), (at_ + Config.masterTokenClientTimeout).
  rewrite Hw1. split; [|split].
  - change (w_ts (waited (expired i s.2))) with
      (arm (ts_now (w_ts s.2) + Config.masterTokenClientTimeout) FsmTimeout
         (w_ts (expired i s.2))).
    rewrite armed_for_arm_same, Ht. by rewrite (expired_last _ _ at_ _ _ Harm).
  - change (ts_now (w_ts s.2) ≤ at_ + Config.masterTokenClientTimeout). rewrite Ht.
    unfold Config.masterTokenClientTimeout, milliseconds. lia.
  - change (at_ + Config.masterTokenClientTimeout - at_ ≤ adapter.frameTimeout).
    unfold Config.masterTokenClientTimeout, adapter.frameTimeout, milliseconds. lia.
Qed.

Lemma stalled_step k i s s' :
  stalled k s → no_bytes i s → enabled i s → handle i s = Ok ((), s') → stalled k s'.
Proof.
  intros Hst Hi Hen Hs. destruct i as [|i c|delta n]; [done| |].
  - destruct c; [by eapply stalled_timeout| |].
    + destruct Hst as ((k' & _ & Hk' & Hset) & Hk & Hw & _).
      rewrite Hk in Hk'. injection Hk' as <-. destruct (due_armed _ _ _ Hen) as [at_ Hin].
      by destruct (settled_delay_timer _ _ _ _ Hset Hin) as [-> _].
    + pose proof (handle_ok _ _ _ (proj1 Hst) Hen Hs) as [Hok' _].
      destruct Hst as ((k' & _ & _ & a & _ & Hok & _) & Hk & Hw & Hrx & j & at' & Harm & Hnow & Hlast).
      destruct (due_armed _ _ _ Hen) as [at_ Hin].
      destruct (query_fires _ _ _ _ _ Hok Hin) as (w' & Hf & [] & _).
      change (timer_fires i QueryPeriod s = Ok ((), s')) in Hs.
      assert (s' = (s.1, w')) as -> by congruence.
      split; [done|]. cbn [snd] in *. rewrite sm_env. do 3 (split; [done|]).
      exists j, at'. split_and!; [congruence|lia|done].
  - pose proof (handle_ok _ _ _ (proj1 Hst) Hen Hs) as [Hok' _].
    destruct Hst as (_ & Hk & Hw & Hrx & j & at' & Harm & Hnow & Hlast).
    destruct Hi as [Ha Htime].
    assert (s' = (s.1, s.2 <| w_ts ::= advance delta |> <| w_env := n |>)) as ->.
    { destruct s as [f w]. cbn in Hs. injection Hs as <-. by destruct w. }
    split; [done|]. change (w_env (s.1, _).2) with n. rewrite Ha. do 3 (split; [done|]).
    exists j, at'. split; [exact Harm|]. split; [|done].
    specialize (Htime (j, at')). rewrite Harm in Htime.
    change (delta + ts_now (w_ts s.2) ≤ at'). specialize (Htime (list_elem_of_here _ _)).
    simpl in Htime. lia.
Qed.

(** A run without a byte from the medium. *)
Inductive silently : Master → Master → Prop :=
  | silently_refl s : silently s s
  | silently_step s i s1 s2 :
      no_bytes i s → enabled i s → handle i s = Ok ((), s1) → silently s1 s2 →
      silently s s2.

End stall.

(** ** A concrete node *)

#[export] Instance no_memory : Memory := λ _, [].

Abbreviation WireNode := (Node () () ByteVec).

#[export] Instance wire_connected_dec (n : WireNode) : Decision (env_ok n).
Proof.
  destruct (mb_beIf (nd_adapter n)) as [b|] eqn:Hb; [left|right].
  - split; [by exists b|exact I].
  - intros [[b Hb'] _]. by rewrite Hb in Hb'.
Defined.

(** A node with the address 7, its adapter idle or in the middle of a frame. *)
Definition wire_node (st : DecodeState) (last : Time) : WireNode :=
  (node.newNode 7 (λ _, 0) [] [])
    <| nd_adapter := mkMsgToByteAdapter (Some ())
         ((newFrameCodec true) <| fc_state := st |>) last |>.

Abbreviation WireMaster := (Master (E := WireNode) (Q := list QueueEl)).
Definition no_master : WireMaster := (newFsm, newWorld 0 (wire_node getKW 0)).
Definition wire_master (l : list (input (E := WireNode))) : WireMaster :=
  after no_master (newMaster (seconds 100) (wire_node getKW 0)) l.

(** The client takes the token and starts a frame 10 ms later. *)
Definition frame_begun : list (input (E := WireNode)) :=
  [Received master_started []; Received grant_token [];
   Passes (milliseconds 10) (wire_node getData (seconds 100 + milliseconds 10))].

Lemma wire_reachable l :
  is_Some (run_on (newMaster (seconds 100) (wire_node getKW 0)) l) → reachable (wire_master l).
Proof.
  apply after_reachable. intros s0 Hs.
  refine (reach_start _ (wire_node getKW 0) _ _ _ Hs); [by vm_compute|].
  split; [by exists ()|exact I].
Qed.

Ltac wire := apply wire_reachable, (bool_decide_unpack _); by vm_compute.

Lemma frame_begun_stalled : stalled StateId.waitClientPacketDone (wire_master frame_begun).
Proof.
  split; [apply reachable_ok; wire|]. split; [by vm_compute|]. split; [exact I|].
  split; [by vm_compute|].
  exists 2%nat, (seconds 100 + Config.masterTokenClientTimeout). split_and!; by vm_compute.
Qed.

(** Eighty milliseconds after the token the timer fires, and the master goes on
    waiting. *)
Definition still_waiting : list (input (E := WireNode)) :=
  frame_begun ++ [Passes (milliseconds 70)
    (wire_node getData (seconds 100 + milliseconds 10)); Fires 2 FsmTimeout].

