(* ===== verification/Handshake.v ===== *)
(** * The negotiation of an address, from both sides

    A client without an address answers the master's discovery packet, the master
    answers the request, and the client takes the address it is given: the two
    ends of the protocol, whose layers are modelled in Client.v and Master.v, put
    together. *)

From S2P Require Import Prelude SerialProtocol VecQueue StateChart RootChart Config.
From S2P Require Import TimeService MasterScheduler MasterState DynamicHandler.
From S2P Require Import MasterFSM Master MasterInvariant MasterSafety MasterEvents.
From S2P Require Import MasterRuns MasterProps.
From S2P Require Import FrameCodec Interfaces TxQueue AddressCache MsgToByteAdapter.
From S2P Require Import PacketTypeCodec Node Client ClientProps.

Section handshake.
Context {B H D S : Type} `{!ByteEtherIf B D, !ByteEtherLaws B D}.
Context `{!HostCallbacks H S, LN : !Lens S (Node B H D), HL : !HostLaws H S B D}.
Context (garbage : packet.AddressRequest) (dump_rxPacket : ByteVec → M S ())
  (masterEnded : M S ()) (masterPacketReceived : MessageType → ByteVec → M S ()).
Context (masterEnded_ok : ∀ s, ∃ s', masterEnded s = Ok ((), s') ∧
  view s' = (view s : Node B H D) ∧ delivered s' = delivered s).
#[local] Set Default Proof Using "Type masterEnded_ok".
Context {E Q : Type} `{!MasterEnv E} `{!PriorityQueue Q} `{Hlaws : !MasterEnvLaws E}.

Abbreviation rxRawPacket :=
  (node.rxRawPacket (B := B) (D := D) (λ _, garbage) dump_rxPacket masterEnded
     masterPacketReceived).
Abbreviation client_rx := (client_rx greeting garbage).

Lemma run_rx pkt s k c :
  client_rel s (k, c) →
  ∃ s', rxRawPacket pkt s = Ok ((), s') ∧ client_rel s' (k, client_rx pkt c).
Proof.
  intros HR. destruct (wp_ok _ _ _ (wp_rxRawPacket garbage dump_rxPacket masterEnded
    masterPacketReceived masterEnded_ok pkt s k c HR)) as ([] & s' & ? & ?). eauto.
Qed.

(** The three packets, as bytes. *)
Definition discovery (delay holdOff : byte) : ByteVec :=
  fromHeader (packet.mkAddressDiscovery address_discovery delay holdOff).
Definition reply (addr : LocalAddress) (uid : UniqueId) : ByteVec :=
  fromHeader (packet.mkAddressReply address_reply addr uid).

Lemma client_discovers delay holdOff (c : Client H) :
  cl_addr c = null_addr →
  client_rx (discovery delay holdOff) c = cl_send (cl_request garbage c) c.
Proof. intros Ha. unfold Client.client_rx. cbn. by rewrite Ha. Qed.

Lemma client_takes addr uid c :
  is_array 8 uid →
  client_rx (reply addr uid) c
  = if decide (uid = cl_uid c) then cl_set_addr greeting addr c else c.
Proof.
  intros [Hl _]. do 9 (destruct uid as [|? uid]; try done). 
Qed.

Lemma set_addr_addr addr c : cl_addr (cl_set_addr greeting addr c) = addr.
Proof.
  unfold cl_set_addr. destruct (oa_addrChangeIf _); [|done]. by destruct (_ =? _).
Qed.

(** The master reads the client's identity from the request. *)
Lemma request_read (c : Client H) :
  is_array 8 (cl_uid c) → (length (packet.arq_crc32 garbage) = 4)%nat →
  ∃ aReq, toHeader (cl_request garbage c) = Ok aReq ∧ packet.arq_uniqueId aReq = cl_uid c.
Proof.
  intros [Hl _] Hcrc. unfold cl_request.
  set (crc := packet.arq_crc32 garbage) in *. destruct (cl_uid c) as [|u0 uid]; [done|].
  do 8 (destruct uid as [|? uid]; try done).
  do 5 (destruct crc as [|? crc]; try done). eexists. by split.
Qed.

Lemma rel_addr s k c :
  client_rel s (k, c) → tx_queue.clientAddress (nd_txQueue (view s)) = cl_addr c.
Proof. intros [[_ _ _ _ _ _ Htx _ _] _]. cbn in Htx. by rewrite Htx. Qed.
Lemma rel_wire s k c :
  client_rel s (k, c) → transmitted (nd_driver (view s)) = cl_wire c.
Proof. intros [[] _]. done. Qed.

End handshake.

