(* ===== verification/Posix.v ===== *)
(** * The operating system (hal/PosixIf.h, PosixFd.h, PosixFd.cpp)

    The interfaces that the drivers reach the operating system through, as
    classes over the state [S] that contains it; what the manual pages promise of
    the calls is in the [Laws] classes. A file descriptor that is owned is closed
    when it is replaced. *)

From S2P Require Import Prelude.

(** ** Interfaces *)

(** [PosixFileIf], with [errno]. A read returns its result and the bytes it put at
    the start of the buffer. *)
Class PosixFileIf (S : Type) := {
  posix_open : string → Z → M S Z;
  posix_open_mode : string → Z → Z → M S Z;
  posix_read : Z → nat → M S (Z * ByteVec);
  posix_write : Z → ByteVec → M S Z;
  posix_close : Z → M S Z;
  posix_system : string → M S Z;
  posix_errno : M S Z
}.
#[export] Hint Mode PosixFileIf ! : typeclass_instances.

Class PosixSleepIf (S : Type) := {
  posix_usleep : Z → M S Z;
  posix_sleep : Z → M S Z
}.
#[export] Hint Mode PosixSleepIf ! : typeclass_instances.

(** [struct termios], the fields that the program sets. *)
Record Termios : Type := mkTermios {
  c_iflag : Z;
  c_oflag : Z;
  c_cflag : Z;
  c_lflag : Z;
  c_vmin : Z;
  c_vtime : Z;
  c_ispeed : Z;
  c_ospeed : Z
}.
#[export] Instance Eta_Termios : Eta Termios := λ t,
  mkTermios (c_iflag t) (c_oflag t) (c_cflag t) (c_lflag t) (c_vmin t) (c_vtime t)
    (c_ispeed t) (c_ospeed t).

(** [PosixSerialIf]: calls that fill in a structure return it. *)
Class PosixSerialIf (S : Type) := {
  posix_cfsetospeed : Termios → Z → M S (Z * Termios);
  posix_cfsetispeed : Termios → Z → M S (Z * Termios);
  posix_tcsetattr : Z → Z → Termios → M S Z;
  ioctl_TIOCMGET : Z → Z → M S (Z * Z);
  ioctl_TIOCMSET : Z → Z → M S (Z * Z);
  ioctl_TIOCGRS485 : Z → Z → M S (Z * Z);
  ioctl_TIOCSRS485 : Z → Z → M S (Z * Z)
}.
#[export] Hint Mode PosixSerialIf ! : typeclass_instances.

(** [struct ifreq], the name and the flags. *)
Record Ifreq : Type := mkIfreq {
  ifr_name : ByteVec;
  ifr_flags : Z
}.
#[export] Instance Eta_Ifreq : Eta Ifreq := λ r, mkIfreq (ifr_name r) (ifr_flags r).

Class PosixTunTapIf (S : Type) := {
  ioctl_TUNSETIFF : Z → Ifreq → M S (Z * Ifreq);
  ioctl_TUNSETOWNER : Z → Z → M S Z;
  ioctl_TUNSETGROUP : Z → Z → M S Z;
  ioctl_SIOCSIFFLAGS : Z → Ifreq → M S (Z * Ifreq);
  ioctl_SIOCGIFFLAGS : Z → Ifreq → M S (Z * Ifreq);
  ioctl_TUNSETPERSIST : Z → Z → M S Z;
  posix_socket : Z → Z → Z → M S Z
}.
#[export] Hint Mode PosixTunTapIf ! : typeclass_instances.

(** The event loop: a callback of the type [C] is called when a descriptor can be
    read, or when the loop next has the time. *)
Class EventLoopIf (C S : Type) := {
  loop_onReadable : Z → C → M S ();
  loop_onAvailable : C → M S ()
}.
#[export] Hint Mode EventLoopIf - ! : typeclass_instances.

(** ** Constants of Linux *)

Definition STDIN_FILENO : Z := 0.
Definition STDOUT_FILENO : Z := 1.
Definition O_RDWR : Z := 2.
Definition O_NOCTTY : Z := 0x100.
Definition O_NONBLOCK : Z := 0x800.
Definition EIO : Z := 5.
Definition ENOENT : Z := 2.
Definition EAGAIN : Z := 11.
Definition EWOULDBLOCK : Z := 11.

(** ** Strings of C *)

(** The bytes before the first NUL. *)
Fixpoint c_bytes (s : string) : ByteVec :=
  match s with
  | EmptyString => []
  | String a s' =>
      let b := Z.of_N (Ascii.N_of_ascii a) in
      if b =? 0 then [] else b :: c_bytes s'
  end.

(** [strncpy] fills up with NULs, and writes none when the string is too long. *)
Definition strncpy (s : string) (n : nat) : ByteVec := resize n 0 (c_bytes s).

(** The string in an array, if there is a NUL to end it. *)
Fixpoint c_string (l : ByteVec) : option string :=
  match l with
  | [] => None
  | b :: l' =>
      if b =? 0 then Some EmptyString
      else String (Ascii.ascii_of_N (Z.to_N b)) <$> c_string l'
  end.

(** ** Owned file descriptors *)

Record PosixFd : Type := mkPosixFd {
  pfd_fd : Z;
  pfd_posixIf : bool
}.
#[export] Instance Eta_PosixFd : Eta PosixFd := λ f, mkPosixFd (pfd_fd f) (pfd_posixIf f).

Module posix_fd.
Definition newPosixFd (posixIf : bool) : PosixFd := mkPosixFd (-1) posixIf.
Definition makeFd (fd : Z) (pf : bool) : PosixFd := mkPosixFd fd pf.
(** The move constructor: the new object, and what is left of the old one. *)
Definition move (fd : PosixFd) : PosixFd * PosixFd := (fd, fd <| pfd_fd := -1 |>).
Definition get (fd : PosixFd) : Z := pfd_fd fd.
Definition valid (fd : PosixFd) : bool := 0 <=? pfd_fd fd.

Section posix_fd.
Context {S : Type} `{!PosixFileIf S}.

Definition set (fd : Z) (f : PosixFd) : M S PosixFd :=
  (if (0 <=? pfd_fd f) && pfd_posixIf f then posix_close (pfd_fd f) ;; skip else skip) ;;
  mret (f <| pfd_fd := fd |>).

Definition close (f : PosixFd) : M S PosixFd := set (-1) f.

Definition destroy (f : PosixFd) : M S () := set (-1) f ;; skip.
End posix_fd.
End posix_fd.

(** ** What the manual pages promise *)

Class PosixFileLaws (S : Type) `{!PosixFileIf S} : Prop := {
  posix_read_ok fd size (s : S) :
    ∃ n l s', posix_read fd size s = Ok ((n, l), s') ∧
      -1 ≤ n ≤ Z.of_nat size ∧ length l = Z.to_nat n ∧ bytes l;
  posix_write_ok fd l (s : S) :
    ∃ n s', posix_write fd l s = Ok (n, s') ∧ -1 ≤ n ≤ Z.of_nat (length l);
  posix_close_ok fd (s : S) : ∃ n s', posix_close fd s = Ok (n, s')
}.

(** ** A state that contains the operating system's *)

Section lift.
Context {S O : Type} `{!Lens S O}.

Definition lift_file `{!PosixFileIf O} : PosixFileIf S := {|
  posix_open path flags := zoom (posix_open path flags : M O Z);
  posix_open_mode path flags mode := zoom (posix_open_mode path flags mode : M O Z);
  posix_read fd size := zoom (posix_read fd size : M O (Z * ByteVec));
  posix_write fd l := zoom (posix_write fd l : M O Z);
  posix_close fd := zoom (posix_close fd : M O Z);
  posix_system cmd := zoom (posix_system cmd : M O Z);
  posix_errno := zoom (posix_errno : M O Z)
|}.

Definition lift_sleep `{!PosixSleepIf O} : PosixSleepIf S := {|
  posix_usleep usec := zoom (posix_usleep usec : M O Z);
  posix_sleep sec := zoom (posix_sleep sec : M O Z)
|}.

Definition lift_serial `{!PosixSerialIf O} : PosixSerialIf S := {|
  posix_cfsetospeed t speed := zoom (posix_cfsetospeed t speed : M O (Z * Termios));
  posix_cfsetispeed t speed := zoom (posix_cfsetispeed t speed : M O (Z * Termios));
  posix_tcsetattr fd a t := zoom (posix_tcsetattr fd a t : M O Z);
  ioctl_TIOCMGET fd st := zoom (ioctl_TIOCMGET fd st : M O (Z * Z));
  ioctl_TIOCMSET fd st := zoom (ioctl_TIOCMSET fd st : M O (Z * Z));
  ioctl_TIOCGRS485 fd st := zoom (ioctl_TIOCGRS485 fd st : M O (Z * Z));
  ioctl_TIOCSRS485 fd st := zoom (ioctl_TIOCSRS485 fd st : M O (Z * Z))
|}.

Definition lift_tuntap `{!PosixTunTapIf O} : PosixTunTapIf S := {|
  ioctl_TUNSETIFF fd r := zoom (ioctl_TUNSETIFF fd r : M O (Z * Ifreq));
  ioctl_TUNSETOWNER fd u := zoom (ioctl_TUNSETOWNER fd u : M O Z);
  ioctl_TUNSETGROUP fd g := zoom (ioctl_TUNSETGROUP fd g : M O Z);
  ioctl_SIOCSIFFLAGS fd r := zoom (ioctl_SIOCSIFFLAGS fd r : M O (Z * Ifreq));
  ioctl_SIOCGIFFLAGS fd r := zoom (ioctl_SIOCGIFFLAGS fd r : M O (Z * Ifreq));
  ioctl_TUNSETPERSIST fd p := zoom (ioctl_TUNSETPERSIST fd p : M O Z);
  posix_socket d t p := zoom (posix_socket d t p : M O Z)
|}.
End lift.
