(* ===== verification/SerialDriver.v ===== *)
(** * The serial port driver (drivers/serial/PosixSerialUtils.h,
    PosixSerialUtils.cpp, SerialByteEther.h, SerialByteEther.cpp)

    The byte driver on a Linux serial port, and the helpers that set up the port:
    speed, the RTS line and the RS485 mode. *)

From S2P Require Import Prelude Config SerialProtocol Interfaces Posix.

(** Constants of <termios.h>, <asm/ioctls.h> and <linux/serial.h>. *)
Definition CS8 : Z := 0x30.
Definition CREAD : Z := 0x80.
Definition CLOCAL : Z := 0x800.
Definition TCSANOW : Z := 0.
Definition TIOCM_RTS : Z := 0x4.
Definition SER_RS485_ENABLED : Z := 0x1.
Definition SER_RS485_RTS_ON_SEND : Z := 0x2.
Definition SER_RS485_RTS_AFTER_SEND : Z := 0x4.
Definition SER_RS485_RX_DURING_TX : Z := 0x10.

Module PosixSerialUtils.
Inductive IOState : Type := negated | asserted.
#[global] Instance IOState_eq_dec : EqDecision IOState.
Proof. solve_decision. Defined.

Inductive Baudrate : Type :=
  | BR_1200 | BR_2400 | BR_4800 | BR_9600 | BR_19200 | BR_38400 | BR_57600 | BR_115200
  | BR_230400 | BR_460800.

(** The constants [B1200] to [B460800] of <termios.h>. *)
Definition getPosixBaudrate (br : Baudrate) : Z :=
  match br with
  | BR_1200 => 9
  | BR_2400 => 11
  | BR_4800 => 12
  | BR_9600 => 13
  | BR_19200 => 14
  | BR_38400 => 15
  | BR_57600 => 0x1001
  | BR_115200 => 0x1002
  | BR_230400 => 0x1003
  | BR_460800 => 0x1004
  end.

(** The flags of [setRS485Mode]. *)
Definition rs485_flags (enable rxEnabledDuringTx : bool) (duringTx afterTx : IOState) : Z :=
  if enable then
    let flags := Z.lor 0 SER_RS485_ENABLED in
    let flags := if rxEnabledDuringTx then Z.lor flags SER_RS485_RX_DURING_TX else flags in
    let flags :=
      if decide (duringTx = asserted) then Z.lor flags SER_RS485_RTS_ON_SEND else flags in
    if decide (afterTx = asserted) then Z.lor flags SER_RS485_RTS_AFTER_SEND else flags
  else 0.

Section utils.
Context {S : Type} `{!PosixSerialIf S}.

(** [status] is not initialised before the call that fills it in: [garbage]. The
    result of [TIOCMSET] is dropped, and that of [TIOCMGET] checked again. *)
Definition setRTS (garbage : Z) (fd : Z) (state : IOState) : M S Z :=
  '(res, status) ← ioctl_TIOCMGET fd garbage;
  if res =? -1 then mret res
  else
    let status :=
      match state with
      | asserted => Z.lor status TIOCM_RTS
      | negated => Z.land status (Z.lnot TIOCM_RTS)
      end in
    ioctl_TIOCMSET fd status ;;
    (if res =? -1 then mret res else mret res).

Definition setRS485Mode (fd : Z) (enable rxEnabledDuringTx : bool)
    (duringTx afterTx : IOState) : M S Z :=
  '(res, _) ← ioctl_TIOCSRS485 fd (rs485_flags enable rxEnabledDuringTx duringTx afterTx);
  mret res.

Definition set8N1Termios (fd : Z) (br : Baudrate) : M S Z :=
  let tio := mkTermios 0 0 (Z.lor (Z.lor CS8 CREAD) CLOCAL) 0 1 1 0 0 in
  let speed := getPosixBaudrate br in
  '(_, tio) ← posix_cfsetospeed tio speed;
  '(_, tio) ← posix_cfsetispeed tio speed;
  posix_tcsetattr fd TCSANOW tio.
End utils.
End PosixSerialUtils.

(** ** The driver *)

Inductive RtsOptions : Type := RtsNone | pulldown | rs485_te.
#[export] Instance RtsOptions_eq_dec : EqDecision RtsOptions.
Proof. solve_decision. Defined.

Record SerialByteEther : Type := mkSerialByteEther {
  sb_fd : PosixFd;
  sb_rxCB : bool
}.
#[export] Instance Eta_SerialByteEther : Eta SerialByteEther := λ d,
  mkSerialByteEther (sb_fd d) (sb_rxCB d).

Module serial.
(** The events of the loop that the driver registers for. *)
Inductive callback : Type := Readable.

Section serial.
Context {S : Type} `{!Lens S SerialByteEther} `{!PosixFileIf S, !PosixSleepIf S,
  !PosixSerialIf S, !EventLoopIf callback S}.
(** [m_rxCB->receiveBytes] *)
Context (receiveBytes : ByteVec → M S ()).

(** The object before its constructor's body. *)
Definition newSerialByteEther : SerialByteEther :=
  mkSerialByteEther (posix_fd.newPosixFd true) false.

Definition setup (deviceName : string) : M S () :=
  d ← load;
  fd ← posix_open deviceName (Z.lor O_RDWR O_NONBLOCK);
  m_fd ← posix_fd.set fd (sb_fd d);
  d ← load;
  store (d <| sb_fd := m_fd |>) ;;
  if posix_fd.get m_fd <=? 0 then fail (Exception "Failed opening serial port.")
  else
    PosixSerialUtils.set8N1Termios (posix_fd.get m_fd) PosixSerialUtils.BR_115200 ;;
    skip.

(** The constructor of an object that [newSerialByteEther] set up. *)
Definition construct (device : string) : M S () := setup device.

Definition registerReadCB : M S () :=
  d ← load;
  loop_onReadable (posix_fd.get (sb_fd d)) Readable.

Definition sendBytes (bytes : ByteVec) : M S () :=
  d ← load;
  let len := Z.of_nat (length bytes) in
  res ← posix_write (posix_fd.get (sb_fd d)) bytes;
  if res =? len then skip else fail (Exception "Failed serial write.").

Definition addClient (cb : bool) : M S () :=
  d ← load;
  store (d <| sb_rxCB := cb |>).

Definition readSerial : M S bool :=
  let readBufSize := 2048%nat in
  d ← load;
  '(size, rxBuf) ← posix_read (posix_fd.get (sb_fd d)) readBufSize;
  d ← load;
  if (0 <? size) && sb_rxCB d then
    receiveBytes (take (Z.to_nat size) rxBuf) ;;
    mret true
  else
    myErrno ← posix_errno;
    if (size =? -1) && ((myErrno =? EAGAIN) || (myErrno =? EWOULDBLOCK)) then mret false
    else fail (Exception "Unexpected value in serial read").

Definition on_readable : M S bool := readSerial ;; mret true.

Definition setupRts (garbage : Z) (rts : RtsOptions) : M S () :=
  d ← load;
  let fd := posix_fd.get (sb_fd d) in
  match rts with
  | RtsNone => skip
  | pulldown =>
      PosixSerialUtils.setRTS garbage fd PosixSerialUtils.negated ;;
      posix_usleep 20000 ;;
      posix_read fd 4 ;;
      skip
  | rs485_te =>
      PosixSerialUtils.setRS485Mode fd true true PosixSerialUtils.asserted
        PosixSerialUtils.negated ;;
      skip
  end.
End serial.
End serial.
