(* ===== verification/SerialProps.v ===== *)
(** * Properties of the serial port driver

    The driver implements the byte layer that the node relies on, on a port that
    takes what is written; what it does with the results of the system calls; and
    the RTS line. *)

From S2P Require Import Prelude SerialProtocol Config FrameCodec Interfaces TxQueue.
From S2P Require Import AddressCache MsgToByteAdapter PacketTypeCodec MasterState Node.
From S2P Require Import Posix SerialDriver.

(** ** The driver under a node *)

(** A port: what was written to it, and whether it is open and takes all of what is
    written to it, as a blocking write or one into a free buffer does. *)
Class SerialPort (O : Type) `{!PosixFileIf O} := {
  port_out : O → ByteVec;
  port_takes : O → Z → Prop;
  port_write (fd : Z) (l : ByteVec) (o : O) :
    port_takes o fd →
    ∃ o', posix_write fd l o = Ok (Z.of_nat (length l), o') ∧ port_takes o' fd ∧
      port_out o' = port_out o ++ l
}.

Section port.
Context {O : Type} `{!PosixFileIf O, !SerialPort O}.
Abbreviation Driver := (SerialByteEther * O)%type.

#[local] Instance driver_file : PosixFileIf Driver := lift_file (O := O).

#[export] Instance serial_bytes : ByteEtherIf () Driver := {
  sendBytes _ l := serial.sendBytes l;
  addClient _ cb := serial.addClient cb
}.

Lemma serial_sends fd l (d : SerialByteEther) (o : O) :
  posix_fd.get (sb_fd d) = fd → port_takes o fd →
  ∃ o', serial.sendBytes l (d, o) = Ok ((), (d, o')) ∧ port_takes o' fd ∧
    port_out o' = port_out o ++ l.
Proof.
  intros <- Ho. destruct (port_write _ l o Ho) as (o' & Hw & Ho' & Hout).
  exists o'. split; [|done]. unfold serial.sendBytes.
  eapply bind_step; [done|].
  eapply (bind_step _ _ _ (Z.of_nat (length l)) (d, o')).
  { cbn [posix_write driver_file lift_file]. unfold zoom. cbn [view set_view Lens_snd fst snd].
    change (view (d, o)) with d. by rewrite Hw. }
  by rewrite Z.eqb_refl.
Qed.

#[export] Program Instance serial_laws : ByteEtherLaws () Driver := {
  driver_ok d := port_takes d.2 (posix_fd.get (sb_fd d.1));
  transmitted d := port_out d.2
}.
Next Obligation.
  intros [] l [d o] Hd. destruct (serial_sends _ l d o eq_refl Hd) as (o' & ? & ? & ?).
  by exists (d, o').
Qed.
End port.

(** From the packet to the port. A node on a serial port that is open and takes
    what is written to it sends a packet as exactly the bytes of the packet's
    frame, and is ready to send again; nothing of the node but the driver changes. *)
Theorem node_writes_frame {O H : Type} `{!PosixFileIf O, !SerialPort O}
    (n : Node () H (SerialByteEther * O)) p :
  connected n →
  ∃ d', node.sendMasterPacket (LN := Lens_id) p n = Ok ((), n <| nd_driver := d' |>) ∧
    port_out d'.2 = port_out (nd_driver n).2 ++ frame p ∧
    connected (n <| nd_driver := d' |>).
Proof.
  intros [[b Hb] Hd]. destruct (node_sends (LN := Lens_id) b p n Hb Hd) as (d' & Hs & Hd' & Ht).
  exists d'. split; [exact Hs|]. split; [exact Ht|]. by split; [exists b|].
Qed.

(** ** The RTS line *)

Lemma testbit_bit n i : 0 ≤ i → Z.testbit (2 ^ i) n = bool_decide (n = i).
Proof.
  intros Hi. destruct (decide (n = i)) as [->|Hne].
  - rewrite bool_decide_eq_true_2 by done. by apply Z.pow2_bits_true.
  - rewrite bool_decide_eq_false_2 by done. by apply Z.pow2_bits_false.
Qed.

(** [setRTS] sets or clears the RTS bit and leaves every other line of the port as
    it reads it; when the lines can not be read it writes nothing. What it returns
    is the result of the read: that of the write is lost, although a failed write
    was to be reported. *)
Theorem setRTS_changes_one_line {S : Type} `{!PosixSerialIf S} garbage fd state (s s1 : S)
    res status :
  ioctl_TIOCMGET fd garbage s = Ok ((res, status), s1) →
  if decide (res = -1) then PosixSerialUtils.setRTS garbage fd state s = Ok (-1, s1)
  else ∃ lines,
    (∀ i, 0 ≤ i → Z.testbit lines i
       = if decide (i = 2) then bool_decide (state = PosixSerialUtils.asserted)
         else Z.testbit status i) ∧
    ∀ res2 st2 s2, ioctl_TIOCMSET fd lines s1 = Ok ((res2, st2), s2) →
      PosixSerialUtils.setRTS garbage fd state s = Ok (res, s2).
Proof.
  intros Hget. unfold PosixSerialUtils.setRTS. rewrite (bind_ok _ _ _ _ _ Hget).
  destruct (Z.eqb_spec res (-1)) as [->|Hne]; [by rewrite decide_True|].
  rewrite decide_False by done.
  assert (∀ i, Z.testbit TIOCM_RTS i = bool_decide (i = 2)) as Hbit.
  { intros i. by apply (testbit_bit i 2). }
  destruct state; cbv zeta.
  - exists (Z.land status (Z.lnot TIOCM_RTS)). split.
    + intros i Hi. rewrite Z.land_spec, Z.lnot_spec, Hbit by done.
      destruct (decide (i = 2)) as [->|]; [by rewrite andb_false_r|].
      by rewrite bool_decide_eq_false_2, andb_true_r by done.
    + intros res2 st2 s2 Hset. by rewrite (bind_ok _ _ _ _ _ Hset).
  - exists (Z.lor status TIOCM_RTS). split.
    + intros i Hi. rewrite Z.lor_spec, Hbit.
      destruct (decide (i = 2)) as [->|]; [by rewrite orb_true_r|].
      by rewrite bool_decide_eq_false_2, orb_false_r by done.
    + intros res2 st2 s2 Hset. by rewrite (bind_ok _ _ _ _ _ Hset).
Qed.

(** A port that keeps its lines, and whose lines can be set or not. *)
Record Lines : Type := mkLines { ln_status : Z; ln_settable : bool }.
#[export] Instance lines_serial : PosixSerialIf Lines := {
  posix_cfsetospeed t _ := mret (0, t);
  posix_cfsetispeed t _ := mret (0, t);
  posix_tcsetattr _ _ _ := mret 0;
  ioctl_TIOCMGET _ _ := gets (λ s, (0, ln_status s));
  ioctl_TIOCMSET _ l := s ← get;
    if ln_settable s then put (mkLines l true) ;; mret (0, l) else mret (-1, l);
  ioctl_TIOCGRS485 _ f := mret (0, f);
  ioctl_TIOCSRS485 _ f := mret (0, f)
}.

Lemma setRTS_changes_one_line_witness :
  PosixSerialUtils.setRTS 0 3 PosixSerialUtils.negated (mkLines 0x27 true)
    = Ok (0, mkLines 0x23 true) ∧
  PosixSerialUtils.setRTS 0 3 PosixSerialUtils.negated (mkLines 0x27 false)
    = Ok (0, mkLines 0x27 false).
Proof.
  split; [reflexivity|].
  destruct (setRTS_changes_one_line (S := Lines) 0 3 PosixSerialUtils.negated (mkLines 0x27 false)
    (mkLines 0x27 false) 0 0x27) as (lines & _ & Hset); [reflexivity|].
  apply (Hset (-1) lines). reflexivity.
Defined.

(** A file that keeps what is written to it. *)
#[export] Instance buffer_file : PosixFileIf ByteVec := {
  posix_open _ _ := mret 3;
  posix_open_mode _ _ _ := mret 3;
  posix_read _ _ := mret (-1, []);
  posix_write _ l := modify (λ o, o ++ l) ;; mret (Z.of_nat (length l));
  posix_close _ := mret 0;
  posix_system _ := mret 0;
  posix_errno := mret EAGAIN
}.
#[export] Instance buffer_file_laws : PosixFileLaws ByteVec.
Proof.
  split.
  - intros fd size s. exists (-1), [], s. by split_and!; [|lia|lia| |apply Forall_nil_2].
  - intros fd l s. eexists _, _. split; [done|lia].
  - intros fd s. by eexists _, _.
Qed.
#[export] Program Instance buffer_port : SerialPort ByteVec := {
  port_out o := o;
  port_takes _ fd := 0 < fd
}.
Next Obligation. intros fd l o Hfd. by exists (o ++ l). Qed.

Definition port_node : Node () nat (SerialByteEther * ByteVec) :=
  (node.newNode 2 (λ _, 0) [] (mkSerialByteEther (mkPosixFd 3 true) true, []))
    <| nd_adapter := mkMsgToByteAdapter (Some ()) (newFrameCodec true) 0 |>.

Lemma node_writes_frame_witness :
  ∃ d', node.sendMasterPacket (LN := Lens_id) [0; 7] port_node
      = Ok ((), port_node <| nd_driver := d' |>) ∧ d'.2 = [0xfd; 2; 0; 7; 0xf8; 0xff].
Proof.
  destruct (node_writes_frame port_node [0; 7]) as (d' & Hs & Hout & _).
  - split; [by exists ()|reflexivity].
  - exists d'. split; [exact Hs|exact Hout].
Defined.
