(* ===== verification/FolderManager.v ===== *)
(** * The state folder (core/FolderManager.h, FolderManager.cpp)

    Below the program's folder there is a link for each pseudo terminal, named after
    the address of the peer. *)

From stdpp Require Import gmap pretty.
From S2P Require Import Prelude SerialProtocol Posix.

(** The calls of <sys/stat.h>, <unistd.h>, <stdlib.h> and <pwd.h>: [folder_home] is
    the variable HOME, and [folder_pw_dir] the home in the entry of the user, if there
    is one. *)
Class FolderIf (S : Type) := {
  folder_stat : string → M S Z;
  folder_mkdir : string → Z → M S Z;
  folder_unlink : string → M S Z;
  folder_symlink : string → string → M S Z;
  folder_errno : M S Z;
  folder_home : M S (option string);
  folder_pw_dir : M S (option (option string))
}.
#[export] Hint Mode FolderIf ! : typeclass_instances.

Record FolderManager : Type := mkFolderManager { fm_rootPath : string }.
#[export] Instance Eta_FolderManager : Eta FolderManager := λ f,
  mkFolderManager (fm_rootPath f).

Module folder.
(** [std::system_error] *)
Definition system_error {S A} : M S A := fail (Exception "system_error").

(** [path << m_rootPath << "/pty/" << addr] *)
Definition link_path (root : string) (addr : LocalAddress) : string :=
  (root +:+ "/pty/" +:+ pretty addr)%string.
Definition ptyDirPath (root : string) : string := (root +:+ "/pty")%string.

Section folder.
Context {S : Type} `{!FolderIf S}.

Definition setupRootDir (path : string) : M S () :=
  res ← folder_stat path;
  if res =? -1 then
    errno ← folder_errno;
    if errno =? ENOENT then
      res ← folder_mkdir path 0x1ff;
      if res =? -1 then system_error else skip
    else system_error
  else skip.

Definition rootPath (configPath : string) : M S string :=
  if String.prefix "~/" configPath then
    homedir ← folder_home;
    homedir ← (match homedir with
      | Some dir => mret (Some dir)
      | None => entry ← folder_pw_dir; deref "getpwuid returned null" entry
      end);
    match homedir with
    | None => fail (Exception "Failed to read home dir when setting up root dir.")
    | Some dir => mret (dir +:+ String.substring 1 (String.length configPath - 1) configPath)%string
    end
  else mret configPath.

(** The constructor, given the configured path if there is a configuration. *)
Definition newFolderManager (configPath : option string) : M S FolderManager :=
  root ← rootPath (default ""%string configPath);
  setupRootDir root ;;
  mret (mkFolderManager root).

Definition addPtyLink (addr : LocalAddress) (ptyPath : string) (fm : FolderManager) : M S () :=
  let path := link_path (fm_rootPath fm) addr in
  let dir := ptyDirPath (fm_rootPath fm) in
  res ← folder_stat dir;
  (if res =? -1 then
     errno ← folder_errno;
     if errno =? ENOENT then
       res ← folder_mkdir dir 0x1ff;
       if res =? -1 then system_error else skip
     else skip
   else skip) ;;
  res ← folder_stat path;
  (if negb (res =? -1) then
     res ← folder_unlink path;
     if res =? -1 then system_error else skip
   else skip) ;;
  res ← folder_symlink ptyPath path;
  if res =? -1 then system_error else skip.

Definition removePtyLink (addr : LocalAddress) (fm : FolderManager) : M S () :=
  res ← folder_unlink (link_path (fm_rootPath fm) addr);
  if res =? -1 then system_error else skip.
End folder.
End folder.

(** ** File systems *)

Inductive Node : Type := Dir | Link (target : string) | Other.

(** What [stat] finds: a link counts as what it leads to. *)
Definition resolves (m : gmap string Node) (path : string) : bool :=
  match m !! path with
  | Some (Link target) => bool_decide (is_Some (m !! target))
  | Some _ => true
  | None => false
  end.

(** A file system in which the program may write: the nodes, by their paths, and what
    stat(2), mkdir(2), unlink(2) and symlink(2) promise. *)
Class FileSystem (O : Type) `{!FolderIf O} := {
  fs : O → gmap string Node;
  fs_stat path (o : O) :
    ∃ o', folder_stat path o = Ok (if resolves (fs o) path then 0 else -1, o') ∧
      fs o' = fs o ∧
      (resolves (fs o) path = false → folder_errno o' = Ok (ENOENT, o'));
  fs_mkdir dir name mode (o : O) : fs o !! dir = Some Dir →
    fs o !! (dir +:+ "/" +:+ name)%string = None →
    ∃ o', folder_mkdir (dir +:+ "/" +:+ name)%string mode o = Ok (0, o') ∧
      fs o' = <[(dir +:+ "/" +:+ name)%string := Dir]> (fs o);
  fs_unlink path target (o : O) : fs o !! path = Some (Link target) →
    ∃ o', folder_unlink path o = Ok (0, o') ∧ fs o' = delete path (fs o);
  fs_symlink target dir name (o : O) : fs o !! dir = Some Dir →
    ∃ o', folder_symlink target (dir +:+ "/" +:+ name)%string o
        = Ok (if decide (is_Some (fs o !! (dir +:+ "/" +:+ name)%string)) then -1 else 0, o') ∧
      fs o' = match fs o !! (dir +:+ "/" +:+ name)%string with
              | Some _ => fs o
              | None => <[(dir +:+ "/" +:+ name)%string := Link target]> (fs o)
              end
}.

Lemma string_app_assoc (s1 s2 s3 : string) : (s1 +:+ (s2 +:+ s3) = (s1 +:+ s2) +:+ s3)%string.
Proof. induction s1 as [|a s1 IH]; [done|]. by apply (f_equal (String a)). Qed.

Lemma link_path_dir root addr :
  folder.link_path root addr = (folder.ptyDirPath root +:+ "/" +:+ pretty addr)%string.
Proof. unfold folder.link_path, folder.ptyDirPath. by rewrite <-string_app_assoc. Qed.

Lemma path_below (dir name : string) c : (dir +:+ String c name)%string ≠ dir.
Proof. induction dir as [|a dir IH]; [done|]. intros [=]. by apply IH. Qed.

(** A link that leads nowhere. *)
Definition dangling (m : gmap string Node) (path : string) : bool :=
  match m !! path with
  | Some (Link _) => negb (resolves m path)
  | _ => false
  end.

Section links.
Context {O : Type} `{!FolderIf O, !FileSystem O}.
Implicit Types (fm : FolderManager) (o : O) (addr : LocalAddress).

Abbreviation link_of fm addr := (folder.link_path (fm_rootPath fm) addr).
Abbreviation pty_dir fm := (folder.ptyDirPath (fm_rootPath fm)).

(** The root folder is there, and the folder for the links is there or can be. *)
Definition folder_ok fm o : Prop :=
  fs o !! fm_rootPath fm = Some Dir ∧
  (fs o !! pty_dir fm = Some Dir ∨ fs o !! pty_dir fm = None).

Lemma wp_pty_dir fm o :
  folder_ok fm o →
  wp (res ← folder_stat (pty_dir fm);
      (if res =? -1 then
         errno ← folder_errno;
         if errno =? ENOENT then
           res ← folder_mkdir (pty_dir fm) 0x1ff;
           if res =? -1 then folder.system_error else skip
         else skip
       else skip)) never (λ _ o', fs o' = <[pty_dir fm := Dir]> (fs o)) o.
Proof.
  intros [Hroot Hdir]. destruct (fs_stat (pty_dir fm) o) as (o1 & H1 & Hfs1 & He).
  wp_step. eapply wp_eq; [exact H1|]. cbv beta. unfold resolves in *.
  destruct Hdir as [Hdir|Hdir]; rewrite Hdir in *.
  - change (0 =? -1) with false. apply wp_skip. by rewrite Hfs1, insert_id.
  - change (-1 =? -1) with true. cbv iota.
    wp_step. eapply wp_eq; [by apply He|]. cbv beta. change (ENOENT =? ENOENT) with true.
    cbv iota. rewrite <-Hfs1 in Hroot, Hdir.
    destruct (fs_mkdir (fm_rootPath fm) "pty" 0x1ff o1 Hroot Hdir) as (o2 & H2 & Hfs2).
    wp_step. eapply wp_eq; [exact H2|]. apply wp_skip. by rewrite Hfs2, Hfs1.
Qed.

(** At an address there is a link or nothing. *)
Definition link_ok fm addr o : Prop :=
  ∀ t, fs o !! link_of fm addr = Some t → ∃ old, t = Link old.

(** The folder with the one for the links. *)
Definition with_dir fm o : gmap string Node := <[pty_dir fm := Dir]> (fs o).

(** The end of [addPtyLink], which makes the link if nothing is in its way. *)
Lemma new_link addr ptyPath fm o :
  fs o !! pty_dir fm = Some Dir →
  let m := res ← folder_symlink ptyPath (link_of fm addr);
           if res =? -1 then folder.system_error else skip in
  if decide (is_Some (fs o !! link_of fm addr))
  then m o = Fail (Exception "system_error")
  else ∃ o', m o = Ok ((), o') ∧ fs o' = <[link_of fm addr := Link ptyPath]> (fs o).
Proof.
  intros Hdir m. unfold m. rewrite link_path_dir.
  destruct (fs_symlink ptyPath (pty_dir fm) (pretty addr) o Hdir) as (o' & H' & Hfs').
  rewrite (bind_ok _ _ _ _ _ H'). destruct (decide _) as [[x Hx]|Hx]; [done|].
  exists o'. split; [done|]. rewrite Hfs'. by apply eq_None_not_Some in Hx as ->.
Qed.

(** What [addPtyLink] does to the file system. *)
Lemma addPtyLink_spec addr ptyPath fm o :
  folder_ok fm o → link_ok fm addr o →
  if dangling (with_dir fm o) (link_of fm addr)
  then folder.addPtyLink addr ptyPath fm o = Fail (Exception "system_error")
  else ∃ o', folder.addPtyLink addr ptyPath fm o = Ok ((), o') ∧
    fs o' = <[link_of fm addr := Link ptyPath]> (with_dir fm o).
Proof.
  intros Hok Hlink.
  destruct (wp_ok _ _ _ (wp_pty_dir fm o Hok)) as ([] & o1 & H1 & Hfs1).
  fold (with_dir fm o) in Hfs1.
  assert (link_of fm addr ≠ pty_dir fm) as Hne by (rewrite link_path_dir; apply path_below).
  assert (fs o1 !! pty_dir fm = Some Dir) as Hdir by (by rewrite Hfs1; apply lookup_insert_eq).
  destruct (fs_stat (link_of fm addr) o1) as (o2 & H2 & Hfs2 & _).
  unfold folder.addPtyLink. cbv zeta.
  rewrite <-bind_assoc, (bind_ok _ _ _ _ _ H1), (bind_ok _ _ _ _ _ H2).
  rewrite Hfs1 in H2. unfold dangling. rewrite Hfs1, <-Hfs2 in *.
  unfold resolves in *. unfold with_dir.
  assert (fs o2 !! link_of fm addr = fs o !! link_of fm addr) as Hl.
  { unfold with_dir in Hfs2. by rewrite Hfs2, lookup_insert_ne. }
  assert (fs o2 !! pty_dir fm = Some Dir) as Hdir2 by (rewrite Hfs2; apply lookup_insert_eq).
  destruct (fs o2 !! link_of fm addr) as [[| |]|] eqn:Ho2.
  - by destruct (Hlink Dir) as [? [=]].
  - destruct (bool_decide _); cbn [negb].
    + change (negb (0 =? -1)) with true. cbv iota.
      destruct (fs_unlink _ _ _ Ho2) as (o3 & H3 & Hfs3).
      assert (fs o3 !! pty_dir fm = Some Dir) as Hd3 by (by rewrite Hfs3, lookup_delete_ne).
      pose proof (new_link addr ptyPath fm o3 Hd3) as He. cbv zeta in He.
      rewrite decide_False in He by (rewrite Hfs3, lookup_delete_eq; by intros []).
      destruct He as (o' & Hm & Ho'). exists o'. split.
      * rewrite <-Hm. by rewrite (bind_ok _ _ _ _ _ (bind_step _ _ _ _ _ _ H3 eq_refl)).
      * by rewrite Ho', Hfs3, insert_delete_eq.
    + change (negb (-1 =? -1)) with false. cbv iota.
      pose proof (new_link addr ptyPath fm o2 Hdir2) as He. cbv zeta in He.
      rewrite decide_True in He by (rewrite ?Ho2; eauto). exact He.
  - by destruct (Hlink Other) as [? [=]].
  - change (negb (-1 =? -1)) with false. cbv iota.
    pose proof (new_link addr ptyPath fm o2 Hdir2) as He. cbv zeta in He.
    rewrite decide_False in He by (rewrite ?Ho2; by intros []). exact He.
Qed.
(** A link for a terminal. [addPtyLink] makes the folder for the links if it is
    missing and leaves a link from the address to the terminal, which replaces an
    older one that still leads somewhere, and changes nothing else. An older link whose
    terminal is gone, as a program that was killed leaves it, is not seen: the new one
    can not be made and the program ends with an exception. *)
Theorem addPtyLink_links addr ptyPath fm o :
  folder_ok fm o → link_ok fm addr o →
  if dangling (with_dir fm o) (link_of fm addr)
  then folder.addPtyLink addr ptyPath fm o = Fail (Exception "system_error")
  else ∃ o', folder.addPtyLink addr ptyPath fm o = Ok ((), o') ∧
    fs o' = <[link_of fm addr := Link ptyPath]> (with_dir fm o).
Proof. apply addPtyLink_spec. Qed.
End links.

(** A file system that is its nodes. *)
#[export] Instance memory_folder : FolderIf (gmap string Node) := {
  folder_stat path := gets (λ m, if resolves m path then 0 else -1);
  folder_mkdir path _ := m ← get;
    match m !! path with
    | Some _ => mret (-1)
    | None => put (<[path := Dir]> m) ;; mret 0
    end;
  folder_unlink path := m ← get;
    match m !! path with
    | Some (Link _) => put (delete path m) ;; mret 0
    | _ => mret (-1)
    end;
  folder_symlink target path := m ← get;
    match m !! path with
    | Some _ => mret (-1)
    | None => put (<[path := Link target]> m) ;; mret 0
    end;
  folder_errno := mret ENOENT;
  folder_home := mret (Some "/home/user"%string);
  folder_pw_dir := mret None
}.

#[export] Program Instance memory_fs : FileSystem (gmap string Node) := { fs m := m }.
Next Obligation. intros path m. by exists m. Qed.
Next Obligation.
  intros dir name mode m _ Hno. eexists. split; [|done].
  unfold folder_mkdir, memory_folder, mbind, M_bind, get. by rewrite Hno.
Qed.
Next Obligation.
  intros path target m Hl. eexists. split; [|done].
  unfold folder_unlink, memory_folder, mbind, M_bind, get. by rewrite Hl.
Qed.
Next Obligation.
  intros target dir name m _. unfold folder_symlink, memory_folder, mbind, M_bind, get.
  destruct (m !! (dir +:+ "/" +:+ name)%string).
  - exists m. split; [|done]. by rewrite decide_True by eauto.
  - eexists. split; [|done]. by rewrite decide_False by (by intros []).
Qed.

(** The folder of a user, and one with the link of a terminal that is gone. *)
Definition user_folder : gmap string Node := {["/r"%string := Dir; "/dev/pts/4"%string := Other]}.
Definition crashed_folder : gmap string Node :=
  <["/r/pty"%string := Dir]> (<["/r/pty/3"%string := Link "/dev/pts/9"]> user_folder).

Lemma addPtyLink_links_witness :
  folder.addPtyLink 3 "/dev/pts/4" (mkFolderManager "/r") crashed_folder
    = Fail (Exception "system_error") ∧
  ∃ m, folder.addPtyLink 3 "/dev/pts/4" (mkFolderManager "/r") user_folder = Ok ((), m) ∧
    m !! "/r/pty/3"%string = Some (Link "/dev/pts/4").
Proof.
  split.
  - generalize (addPtyLink_links 3 "/dev/pts/4" (mkFolderManager "/r") crashed_folder).
    replace (dangling _ _) with true by (vm_compute; reflexivity). intros H. apply H.
    + split; [reflexivity|left; reflexivity].
    + intros t. vm_compute. intros [= <-]. eexists. reflexivity.
  - generalize (addPtyLink_links 3 "/dev/pts/4" (mkFolderManager "/r") user_folder).
    replace (dangling _ _) with false by (vm_compute; reflexivity). intros H.
    destruct H as (m & Hm & Hfs).
    + split; [reflexivity|right; reflexivity].
    + intros t. vm_compute. discriminate.
    + exists m. split; [exact Hm|]. change (fs m !! "/r/pty/3"%string = Some (Link "/dev/pts/4")).
      rewrite Hfs. vm_compute. reflexivity.
Defined.
