(* ===== verification/DriverHost.v ===== *)
(** * A host driver in a node

    The state that the theorems on host drivers are about: the parts of a node that a
    driver works on, the driver, and the operating system. The calls of the system
    are those of its own state; the core's side of [MsgHostIf] is the transmit queue. *)

From stdpp Require Import gmap.
From S2P Require Import Prelude SerialProtocol Config Interfaces TxQueue AddressCache.
From S2P Require Import PacketTypeCodec Posix FolderManager.

(** [D] is the driver, [O] the state of the operating system. *)
Record HostState (D O : Type) : Type := mkHostState {
  hs_tx : TxQueue ();
  hs_codec : PacketTypeCodec;
  hs_cache : AddressCache;
  hs_fm : FolderManager;
  hs_driver : D;
  hs_os : O
}.
Arguments mkHostState {D O}.
Arguments hs_tx {D O} _.
Arguments hs_codec {D O} _.
Arguments hs_cache {D O} _.
Arguments hs_fm {D O} _.
Arguments hs_driver {D O} _.
Arguments hs_os {D O} _.
#[export] Instance Eta_HostState {D O} : Eta (HostState D O) := λ h,
  mkHostState (hs_tx h) (hs_codec h) (hs_cache h) (hs_fm h) (hs_driver h) (hs_os h).

Ltac host_lens := by intros; repeat match goal with h : HostState _ _ |- _ => destruct h end.
#[export] Program Instance host_tx {D O} : Lens (HostState D O) (TxQueue ()) :=
  {| view := hs_tx; set_view x h := h <| hs_tx := x |> |}.
Solve Obligations with host_lens.
#[export] Program Instance host_codec {D O} : Lens (HostState D O) PacketTypeCodec :=
  {| view := hs_codec; set_view x h := h <| hs_codec := x |> |}.
Solve Obligations with host_lens.
#[export] Program Instance host_cache {D O} : Lens (HostState D O) AddressCache :=
  {| view := hs_cache; set_view x h := h <| hs_cache := x |> |}.
Solve Obligations with host_lens.
#[export] Program Instance host_fm {D O} : Lens (HostState D O) FolderManager :=
  {| view := hs_fm; set_view x h := h <| hs_fm := x |> |}.
Solve Obligations with host_lens.
#[export] Program Instance host_drv {D O} : Lens (HostState D O) D | 10 :=
  {| view := hs_driver; set_view x h := h <| hs_driver := x |> |}.
Solve Obligations with host_lens.
#[program] Definition host_os {D O} : Lens (HostState D O) O :=
  {| view := hs_os; set_view x h := h <| hs_os := x |> |}.
Solve Obligations with host_lens.

Section host.
Context {D O : Type}.
Abbreviation Host := (HostState D O).
Implicit Types (h : Host).

(** A call of the system. *)
Definition os {A} (m : M O A) : M Host A := zoom (Lens0 := host_os) m.

#[export] Instance host_file `{!PosixFileIf O} : PosixFileIf Host :=
  lift_file (O := O) (Lens0 := host_os).
#[export] Instance host_tuntap `{!PosixTunTapIf O} : PosixTunTapIf Host :=
  lift_tuntap (O := O) (Lens0 := host_os).
#[export] Instance host_loop {C} `{!EventLoopIf C O} : EventLoopIf C Host := {
  loop_onReadable fd c := os (loop_onReadable fd c : M O ());
  loop_onAvailable c := os (loop_onAvailable c : M O ())
}.
#[export] Instance host_folder `{!FolderIf O} : FolderIf Host := {
  folder_stat p := os (folder_stat p : M O Z);
  folder_mkdir p mode := os (folder_mkdir p mode : M O Z);
  folder_unlink p := os (folder_unlink p : M O Z);
  folder_symlink t p := os (folder_symlink t p : M O Z);
  folder_errno := os (folder_errno : M O Z);
  folder_home := os (folder_home : M O (option string));
  folder_pw_dir := os (folder_pw_dir : M O (option (option string)))
}.
#[export] Instance host_core : MsgHostIf () Host := tx_queue.tx_queue_host.

Lemma os_step {A} (m : M O A) h a o' :
  m (hs_os h) = Ok (a, o') → os m h = Ok (a, h <| hs_os := o' |>).
Proof. apply (zoom_ok (Lens0 := host_os)). Qed.

Lemma wp_os {A} (m : M O A) E Q h a o' :
  m (hs_os h) = Ok (a, o') → Q a (h <| hs_os := o' |>) → wp (os m) E Q h.
Proof. intros Hm. by apply wp_eq, os_step. Qed.

Lemma host_read `{!PosixFileIf O} fd n h r o' :
  posix_read fd n (hs_os h) = Ok (r, o') → posix_read fd n h = Ok (r, h <| hs_os := o' |>).
Proof. apply (os_step (posix_read fd n)). Qed.

Lemma host_write `{!PosixFileIf O} fd l h r o' :
  posix_write fd l (hs_os h) = Ok (r, o') → posix_write fd l h = Ok (r, h <| hs_os := o' |>).
Proof. apply (os_step (posix_write fd l)). Qed.

(** ** Handing packets to the core *)

Definition own_addr h : LocalAddress := oa_addr (tq_ownAddress (hs_tx h)).
Definition queue_of h : list ByteVec := tq_txMsg (hs_tx h).

(** Packets are added to the node's queue. *)
Definition queued (l : list ByteVec) h : Host :=
  h <| hs_tx ::= λ q, q <| tq_txMsg ::= (.++ l) |> |>.

Lemma queued_nil h : queued [] h = h.
Proof. destruct h as [[m] ?????]. unfold queued, update. cbn. by rewrite app_nil_r. Qed.

Lemma queued_queued l1 l2 h : queued l2 (queued l1 h) = queued (l1 ++ l2) h.
Proof. destruct h as [[m] ?????]. unfold queued, update. cbn. by rewrite app_assoc. Qed.

(** The packet that carries a host's data. *)
Definition data_packet (chType : ChannelType) (own dest : LocalAddress) (data : ByteVec) :
    ByteVec :=
  [4; channelType2Byte chType; dest; own] ++ data.

(** The core takes what it is handed while the node has an address. *)
Lemma sendPacket_queues data dest chType h :
  own_addr h ≠ null_addr →
  host_sendPacket (H := ()) data dest chType h
    = Ok ((), queued [data_packet chType (own_addr h) dest data] h).
Proof.
  intros Hown%Z.eqb_neq. cbn [host_sendPacket host_core tx_queue.tx_queue_host].
  unfold tx_queue.msgHostTx_sendPacket, tx_queue.sendPacket, load, store.
  eapply bind_step; [done|]. unfold own_address.valid. cbn [view host_tx].
  unfold own_addr in Hown. by rewrite Hown.
Qed.

Lemma sendMacUpdate_queues mac h :
  own_addr h ≠ null_addr →
  host_sendMacUpdate (H := ()) mac h
    = Ok ((), queued [[5; broadcast; own_addr h; own_addr h] ++ mac] h).
Proof.
  intros Hown%Z.eqb_neq. cbn [host_sendMacUpdate host_core tx_queue.tx_queue_host].
  unfold tx_queue.msgHostTx_sendMacUpdate, load, store. eapply bind_step; [done|].
  unfold own_address.valid. cbn [view host_tx].
  unfold own_addr in Hown. by rewrite Hown.
Qed.
End host.

(** A node that has just been set up, for examples. *)
Definition new_host {D O} (own : LocalAddress) (ac : AddressCache) (driver : D) (o : O) :
    HostState D O :=
  mkHostState (tx_queue.newTxQueue own) codec.newPacketTypeCodec ac (mkFolderManager "/r") driver o.
