(* ===== verification/TunTapDriver.v ===== *)
(** * Network interfaces (drivers/tap/TunTapDriver.h, TunTapDriver.cpp)

    Creating a TUN or TAP interface, its owner, and taking it up and down. *)

From S2P Require Import Prelude Posix.

Definition IFF_TUN : Z := 0x1.
Definition IFF_TAP : Z := 0x2.
Definition IFF_UP : Z := 0x1.
Definition IFNAMSIZ : nat := 16.
Definition PF_INET : Z := 2.
Definition SOCK_STREAM : Z := 1.
Definition IPPROTO_TCP : Z := 6.

Module TunTap.
Inductive IfType : Type := tun | tap.

Definition toString (t : IfType) : string :=
  match t with tap => "tap" | tun => "tun" end.

Section driver.
Context {S : Type} `{!PosixFileIf S, !PosixTunTapIf S}.

(** [getpwnam] and [getgrnam]: the user's and the group's number. *)
Context (getpwnam getgrnam : string → M S (option Z)).

Definition setUserGroup (fd : Z) (user group : string) : M S () :=
  assert (0 <=? fd) ;;
  pwEntry ← getpwnam user;
  match pwEntry with
  | Some uid => ioctl_TUNSETOWNER fd uid ;; skip
  | None => skip
  end ;;
  grpEntry ← getgrnam group;
  match grpEntry with
  | Some gid => ioctl_TUNSETGROUP fd gid ;; skip
  | None => skip
  end.

Definition persist (fd : Z) (persist : bool) : M S () :=
  ioctl_TUNSETPERSIST fd (if persist then 1 else 0) ;; skip.

(** The descriptor, and the name the system gave the interface. *)
Definition tuntap_alloc (dev : string) (type : IfType) : M S (Z * string) :=
  fd ← posix_open "/dev/net/tun" O_RDWR;
  if fd <? 0 then mret (-1, dev)
  else
    let flags := match type with tap => IFF_TAP | tun => IFF_TUN end in
    '(err, ifr) ← ioctl_TUNSETIFF fd (mkIfreq (strncpy dev IFNAMSIZ) flags);
    if err <? 0 then
      posix_close fd ;;
      mret (err, dev)
    else
      name ← deref "ifr_name is not terminated" (c_string (ifr_name ifr));
      mret (fd, name).

(** The flags with the interface up or down. *)
Definition with_up (up : bool) (flags : Z) : Z :=
  if up then Z.lor flags IFF_UP else Z.land flags (Z.lnot IFF_UP).

Definition setIfUpDown (up : bool) (tapName : string) : M S () :=
  let size := String.length tapName in
  if decide (IFNAMSIZ < size ∨ size = 0)%nat then
    fail (Exception "Tap device name length error.")
  else
    sock ← posix_socket PF_INET SOCK_STREAM IPPROTO_TCP;
    let fd := posix_fd.makeFd sock true in
    if posix_fd.get fd =? -1 then
      fail (Exception "Failed opening socket for TAP handling.")
    else
      '(err, req) ← ioctl_SIOCGIFFLAGS (posix_fd.get fd)
        (mkIfreq (strncpy tapName IFNAMSIZ) 0);
      if err =? -1 then fail (Exception "Failed getting tap interface flags.")
      else
        let oldVal := ifr_flags req in
        let newVal := with_up up oldVal in
        (if negb (newVal =? oldVal) then
           '(err, _) ← ioctl_SIOCSIFFLAGS (posix_fd.get fd) (req <| ifr_flags := newVal |>);
           if err =? -1 then fail (Exception "Failed setting tap interface flags.")
           else skip
         else skip) ;;
        posix_fd.destroy fd.
End driver.
End TunTap.
