(* ===== verification/TapDriver.v ===== *)
(** * The TAP drivers (drivers/tap/TapProtocol.h, TapProtocol.cpp,
    TapHostDriver.h, TapHostDriver.cpp, SocatTapHostDriver.h,
    SocatTapHostDriver.cpp)

    Ethernet frames between a TAP interface, or socat on the standard streams,
    and the net. The address cache maps hardware addresses to local ones; a frame
    for an unknown one is not sent, and ARP traffic makes the node announce its
    hardware address. *)

From S2P Require Import Prelude SerialProtocol Config Interfaces Posix AddressCache.
From S2P Require Import TunTapDriver.

(** ** Frames: four bytes of the TAP layer, then the Ethernet header *)

Definition tap_destMAC (frame : ByteVec) : MacAddr := array_at 4 6 frame.
Definition tap_srcMAC (frame : ByteVec) : MacAddr := array_at 10 6 frame.
Definition tap_type (frame : ByteVec) : ByteVec := array_at 16 2 frame.
Definition arp_ptype (frame : ByteVec) : ByteVec := array_at 20 2 frame.
Definition arp_oper (frame : ByteVec) : ByteVec := array_at 24 2 frame.

Definition ethArpType : ByteVec := [0x08; 0x06].
Definition ptypeIpv4 : ByteVec := [0x08; 0x00].
Definition operReq : ByteVec := [0x00; 0x01].
Definition operReply : ByteVec := [0x00; 0x02].

(** [m_txIf] and [m_cache] are set or not. *)
Record TapProtocol : Type := mkTapProtocol {
  tp_txIf : bool;
  tp_cache : bool
}.
#[export] Instance Eta_TapProtocol : Eta TapProtocol := λ t,
  mkTapProtocol (tp_txIf t) (tp_cache t).

Module tap.
Definition newTapProtocol (ac : bool) : TapProtocol := mkTapProtocol false ac.
Definition setTx (txIf : bool) (t : TapProtocol) : TapProtocol := t <| tp_txIf := txIf |>.

(** An ARP request or reply for IPv4. *)
Definition is_arp (frame : ByteVec) : bool :=
  bool_decide (tap_type frame = ethArpType)
  && bool_decide (arp_ptype frame = ptypeIpv4)
  && (bool_decide (arp_oper frame = operReply) || bool_decide (arp_oper frame = operReq)).

Section tap.
Context {H S : Type} `{!Lens S AddressCache} `{!PosixFileIf S, !MsgHostIf H S}.

Definition checkArp (t : TapProtocol) (frame : ByteVec) : M S () :=
  if negb (tp_txIf t) then skip
  else if is_arp frame then host_sendMacUpdate (tap_srcMAC frame) else skip.

(** The buffer that the header is read from: zeros, with what was read at the
    start. Its size is then set to the length read, which throws for -1, but its
    memory stays. *)
Definition rx_buffer (l : ByteVec) : ByteVec := resize 1600 0 l.

Definition doRead (t : TapProtocol) (fd : Z) : M S () :=
  '(readLen, l) ← posix_read fd 1600;
  let rx := rx_buffer l in
  if readLen <? 0 then fail (Exception "length_error")
  else if negb (tp_cache t) then fail (Undefined "m_cache is null")
  else if negb (tp_txIf t) then fail (Undefined "m_txIf is null")
  else
    own ← host_clientAddress;
    c ← load;
    store (cache.updateMyMAC own (tap_srcMAC rx) c) ;;
    c ← load;
    let destAddr := cache.getLocalAddress (tap_destMAC rx) c in
    if destAddr =? null_addr then skip
    else
      checkArp t rx ;;
      host_sendPacket (take (Z.to_nat readLen) rx) destAddr tap_format.

(** The source address of a frame from the net is looked up in [data], which may
    be too short. *)
Definition packetReceived (t : TapProtocol) (fd : Z) (data : ByteVec)
    (srcAddr destAddr : LocalAddress) : M S () :=
  if negb (tp_cache t) then skip
  else
    c ← load;
    (if negb (srcAddr =? broadcast) then
       let srcMac := cache.getMac srcAddr c in
       if negb srcMac.1 then
         if decide (16 ≤ length data)%nat then
           store (cache.setAddress srcAddr (tap_srcMAC data) c)
         else fail (Undefined "header of a short packet")
       else skip
     else skip) ;;
    c ← load;
    let srcMac := cache.getMac srcAddr c in
    let destMac := cache.getMac destAddr c in
    if negb srcMac.1 || negb destMac.1 then skip
    else
      writeLen ← posix_write fd data;
      if negb (writeLen =? Z.of_nat (length data)) then
        fail (Exception "Unexpected write length")
      else skip.
End tap.
End tap.

(** ** The driver of a TAP interface *)

Record TapHostDriver : Type := mkTapHostDriver {
  td_tap : TapProtocol;
  td_tap_fd : PosixFd;
  td_on_if_up : string;
  td_on_if_down : string;
  td_ifUp : bool;
  td_tapName : string
}.
#[export] Instance Eta_TapHostDriver : Eta TapHostDriver := λ d,
  mkTapHostDriver (td_tap d) (td_tap_fd d) (td_on_if_up d) (td_on_if_down d)
    (td_ifUp d) (td_tapName d).

Module tap_driver.
(** The events of the loop that the driver registers for. *)
Inductive callback : Type := Readable.

Definition newTapHostDriver (ac : bool) : TapHostDriver :=
  mkTapHostDriver (tap.newTapProtocol ac) (posix_fd.newPosixFd true) "" "" false "tap0".

Definition setIfEventCommands (onUp onDown : string) (d : TapHostDriver) : TapHostDriver :=
  d <| td_on_if_up := onUp |> <| td_on_if_down := onDown |>.

Section driver.
Context {H S : Type} `{!Lens S TapHostDriver, !Lens S AddressCache}.
Context `{!PosixFileIf S, !PosixTunTapIf S, !EventLoopIf callback S, !MsgHostIf H S}.
(** This driver, as the core knows it. *)
Context (self : H).

Definition msgHostRx_newAddr (addr : LocalAddress) : M S () :=
  d ← load;
  let newIfUp := negb (addr =? null_addr) in
  if negb (eqb newIfUp (td_ifUp d)) then
    TunTap.setIfUpDown newIfUp (td_tapName d) ;;
    (if newIfUp && negb (bool_decide (td_on_if_up d = ""%string)) then
       posix_system (td_on_if_up d) ;; skip
     else if negb newIfUp && negb (bool_decide (td_on_if_down d = ""%string)) then
       posix_system (td_on_if_down d) ;; skip
     else skip) ;;
    d ← load;
    store (d <| td_ifUp := newIfUp |>)
  else skip.

Definition setupCallback : M S () :=
  d ← load;
  '(fd, name) ← TunTap.tuntap_alloc (td_tapName d) TunTap.tap;
  d ← load;
  m_fd ← posix_fd.set fd (td_tap_fd d);
  store (d <| td_tapName := name |> <| td_tap_fd := m_fd |>) ;;
  if posix_fd.get m_fd <? 0 then fail (Exception "Failed starting tap interface.")
  else loop_onReadable (posix_fd.get m_fd) Readable.

Definition on_readable : M S bool :=
  d ← load;
  tap.doRead (td_tap d) (posix_fd.get (td_tap_fd d)) ;;
  mret true.

Definition startTransfer : M S () :=
  d ← load;
  store (d <| td_tap ::= tap.setTx true |>) ;;
  setupCallback ;;
  host_setRxHandler (Some self) tap_format ;;
  host_setAddrUpdateHandler (Some self) ;;
  addr ← host_clientAddress;
  msgHostRx_newAddr addr.

Definition packetReceivedFromNet (data : ByteVec) (srcAddr destAddr : LocalAddress)
    (chType : ChannelType) : M S () :=
  d ← load;
  tap.packetReceived (td_tap d) (posix_fd.get (td_tap_fd d)) data srcAddr destAddr.

Definition destroy : M S () :=
  d ← load;
  (if td_ifUp d then
     TunTap.setIfUpDown false (td_tapName d) ;;
     d ← load;
     store (d <| td_ifUp := false |>)
   else skip) ;;
  d ← load;
  posix_fd.destroy (td_tap_fd d).
End driver.
End tap_driver.

(** ** socat on the standard streams *)

Record SocatTapHostDriver : Type := mkSocatTapHostDriver { st_tap : TapProtocol }.
#[export] Instance Eta_SocatTapHostDriver : Eta SocatTapHostDriver := λ d,
  mkSocatTapHostDriver (st_tap d).

Module socat_tap.
Inductive callback : Type := Readable.

Definition newSocatTapHostDriver (ac : bool) : SocatTapHostDriver :=
  mkSocatTapHostDriver (tap.newTapProtocol ac).

Section driver.
Context {H S : Type} `{!Lens S SocatTapHostDriver, !Lens S AddressCache}.
Context `{!PosixFileIf S, !EventLoopIf callback S, !MsgHostIf H S}.
Context (self : H).

Definition setupCallback : M S () := loop_onReadable STDIN_FILENO Readable.

Definition on_readable : M S bool :=
  d ← load;
  tap.doRead (st_tap d) STDIN_FILENO ;;
  mret true.

Definition startTransfer : M S () :=
  d ← load;
  store (d <| st_tap ::= tap.setTx true |>) ;;
  setupCallback ;;
  host_setRxHandler (Some self) tap_format.

Definition packetReceivedFromNet (data : ByteVec) (srcAddr destAddr : LocalAddress)
    (chType : ChannelType) : M S () :=
  if decide (chType = tap_format) then
    d ← load;
    tap.packetReceived (st_tap d) STDOUT_FILENO data srcAddr destAddr
  else skip.
End driver.
End socat_tap.
