(* ===== verification/TapProps.v ===== *)
(** * Properties of the TAP driver

    The driver on top of the transmit queue and the address cache of a node, and of
    a kernel with network interfaces: the interface is up exactly while the node
    has an address, and what an Ethernet frame goes through from one interface to
    another. *)

From stdpp Require Import gmap.
From S2P Require Import Prelude SerialProtocol Config Interfaces TxQueue Posix.
From S2P Require Import AddressCache PacketTypeCodec FolderManager DriverHost TunTapDriver TapDriver.

(** ** A kernel with network interfaces *)

(** The part of the kernel's interface that the driver relies on while resources
    last ([net_ready]): what a new interface is like, and that the flags read and
    written are those of the interface that is named. [if_up] tells the interfaces
    that exist, by their names, and whether they are up. *)
Class NetDevice (O : Type) `{!PosixFileIf O, !PosixTunTapIf O,
    !EventLoopIf tap_driver.callback O} := {
  net_ready : O → Prop;
  if_up : O → ByteVec → option bool;
  dev_open (o : O) : net_ready o →
    ∃ fd o', posix_open "/dev/net/tun" O_RDWR o = Ok (fd, o') ∧ 0 ≤ fd ∧
      net_ready o' ∧ if_up o' = if_up o;
  dev_create fd name flags (o : O) : net_ready o → if_up o name = None →
    ∃ fl o', ioctl_TUNSETIFF fd (mkIfreq name flags) o = Ok ((0, mkIfreq name fl), o') ∧
      net_ready o' ∧ if_up o' name = Some false;
  dev_loop fd c (o : O) : net_ready o →
    ∃ o', loop_onReadable fd c o = Ok ((), o') ∧ net_ready o' ∧ if_up o' = if_up o;
  dev_socket (o : O) : net_ready o →
    ∃ fd o', posix_socket PF_INET SOCK_STREAM IPPROTO_TCP o = Ok (fd, o') ∧ 0 ≤ fd ∧
      net_ready o' ∧ if_up o' = if_up o;
  dev_getflags fd name flags up (o : O) : net_ready o → if_up o name = Some up →
    ∃ fl o', ioctl_SIOCGIFFLAGS fd (mkIfreq name flags) o = Ok ((0, mkIfreq name fl), o') ∧
      Z.testbit fl 0 = up ∧ net_ready o' ∧ if_up o' = if_up o;
  dev_setflags fd name flags up (o : O) : net_ready o → if_up o name = Some up →
    ∃ r o', ioctl_SIOCSIFFLAGS fd (mkIfreq name flags) o = Ok ((0, r), o') ∧
      net_ready o' ∧ if_up o' name = Some (Z.testbit flags 0);
  dev_close fd (o : O) : net_ready o →
    ∃ r o', posix_close fd o = Ok (r, o') ∧ net_ready o' ∧ if_up o' = if_up o;
  dev_system cmd (o : O) : net_ready o →
    ∃ r o', posix_system cmd o = Ok (r, o') ∧ net_ready o' ∧ if_up o' = if_up o
}.

(** ** The interface follows the address *)

Section tap_host.
Context {O : Type} `{!PosixFileIf O, !PosixTunTapIf O, !EventLoopIf tap_driver.callback O}.
Abbreviation Host := (HostState TapHostDriver O).

#[export] Instance tap_callbacks : HostCallbacks () Host := {
  packetReceivedFromNet _ data src dest chType :=
    tap_driver.packetReceivedFromNet data src dest chType;
  msgHostRx_newAddr _ addr := tap_driver.msgHostRx_newAddr addr
}.

Context `{ND : !NetDevice O}.

Definition tap0 : ByteVec := strncpy "tap0" IFNAMSIZ.

(** The interface that the driver has is up or down as the driver thinks. *)
Definition if_known (h : Host) : Prop :=
  net_ready (hs_os h) ∧ td_tapName (hs_driver h) = "tap0"%string ∧
  if_up (hs_os h) tap0 = Some (td_ifUp (hs_driver h)).

Lemma testbit_with_up up fl : Z.testbit (TunTap.with_up up fl) 0 = up.
Proof.
  destruct up; unfold TunTap.with_up, IFF_UP.
  - by rewrite Z.lor_spec, orb_true_r.
  - by rewrite Z.land_spec, Z.lnot_spec, andb_false_r by done.
Qed.

Lemma wp_setIfUpDown up was (h : Host) Q :
  net_ready (hs_os h) → if_up (hs_os h) tap0 = Some was →
  (∀ o', net_ready o' → if_up o' tap0 = Some up → Q () (h <| hs_os := o' |>)) →
  wp (TunTap.setIfUpDown up "tap0") never Q h.
Proof.
  intros Hr Hup HQ. unfold TunTap.setIfUpDown.
  rewrite decide_False by (unfold IFNAMSIZ; simpl; lia).
  destruct (dev_socket _ Hr) as (fd & o1 & H1 & Hfd & Hr1 & Hu1).
  wp_step. eapply wp_os; [exact H1|]. cbv beta.
  cbn [posix_fd.makeFd posix_fd.get pfd_fd].
  destruct (Z.eqb_spec fd (-1)); [lia|].
  destruct (dev_getflags fd tap0 0 was o1) as (fl & o2 & H2 & Hbit & Hr2 & Hu2);
    [done|by rewrite Hu1|].
  wp_step. eapply wp_os; [exact H2|]. cbv beta iota. simpl (0 =? -1).
  cbn [ifr_flags]. cbv zeta iota.
  assert (∀ o, net_ready o → if_up o tap0 = Some up →
    wp (posix_fd.destroy (posix_fd.makeFd fd true)) never Q (h <| hs_os := o |>)) as Hend.
  { intros o Hro Huo. unfold posix_fd.destroy, posix_fd.set, posix_fd.makeFd.
    cbn [pfd_fd pfd_posixIf]. destruct (Z.leb_spec 0 fd); [|lia].
    destruct (dev_close fd _ Hro) as (r & o' & Hc & Hro' & Huo').
    cbn [andb]. do 3 wp_step. eapply wp_os; [exact Hc|]. apply wp_skip. apply wp_ret.
    apply wp_skip. apply (HQ o'); [done|]. by rewrite Huo'. }
  wp_step. destruct (Z.eqb_spec (TunTap.with_up up fl) fl) as [He|He]; cbn [negb].
  - apply wp_skip. apply Hend; [done|].
    rewrite Hu2, Hu1, Hup, <-Hbit, <-He. by rewrite testbit_with_up.
  - destruct (dev_setflags fd tap0 (TunTap.with_up up fl) was o2) as (r & o3 & H3 & Hr3 & Hu3);
      [done|by rewrite Hu2, Hu1|].
    wp_step. eapply wp_os; [exact H3|]. cbv beta iota. simpl (0 =? -1).
    apply wp_skip. apply Hend; [done|]. by rewrite Hu3, testbit_with_up.
Qed.

(** A command of the user's, if there is one. *)
Lemma wp_system cmd (h : Host) Q :
  net_ready (hs_os h) →
  (∀ o', net_ready o' → if_up o' = if_up (hs_os h) → Q () (h <| hs_os := o' |>)) →
  wp (posix_system cmd ;; skip) never Q h.
Proof.
  intros Hr HQ. destruct (dev_system cmd _ Hr) as (r & o' & Hs & Hr' & Hu).
  wp_step. eapply wp_os; [exact Hs|]. apply wp_skip. by apply HQ.
Qed.

Lemma wp_newAddr addr (h : Host) :
  if_known h →
  wp (tap_driver.msgHostRx_newAddr addr) never
    (λ _ h', if_known h' ∧ td_ifUp (hs_driver h') = negb (addr =? null_addr) ∧
       hs_tx h' = hs_tx h ∧ hs_cache h' = hs_cache h) h.
Proof.
  intros (Hr & Hname & Hup). unfold tap_driver.msgHostRx_newAddr, load, store.
  wp_step. apply wp_gets. cbn [view host_drv]. cbv zeta.
  destruct (eqb (negb (addr =? null_addr)) (td_ifUp (hs_driver h))) eqn:He; cbn [negb].
  { apply wp_skip. apply eqb_prop in He. by split_and!. }
  rewrite Hname. wp_step. eapply wp_setIfUpDown; [done|done|]. intros o1 Hr1 Hu1.
  assert (∀ o2, net_ready o2 → if_up o2 = if_up o1 →
    wp (d ← gets hs_driver; modify (λ h : Host, h <| hs_driver
         := d <| td_ifUp := negb (addr =? null_addr) |> |>)) never
    (λ _ h', if_known h' ∧ td_ifUp (hs_driver h') = negb (addr =? null_addr) ∧
       hs_tx h' = hs_tx h ∧ hs_cache h' = hs_cache h) (h <| hs_os := o2 |>)) as Hend.
  { intros o2 Hr2 Hu2. wp_step. apply wp_gets. apply wp_modify. split_and!; try done.
    split_and!; [done|exact Hname|]. simpl_rec. by rewrite Hu2. }
  wp_step. wp_step; [by eapply wp_system|].
  wp_step; [by eapply wp_system|]. apply wp_skip. by apply Hend.
Qed.

(** What the core does with the node's address. *)
Inductive addr_op : Type :=
  | SetAddr (addr : LocalAddress)
  | MasterStarted.

Definition run_addr_op (op : addr_op) : M Host () :=
  match op with
  | SetAddr addr => tx_queue.setAddress addr
  | MasterStarted => tx_queue.masterStarted
  end.

(** The address after it, if addresses are given out ([dyn]) or not. *)
Definition next_addr (dyn : bool) (addr : LocalAddress) (op : addr_op) : LocalAddress :=
  match op with
  | SetAddr addr' => addr'
  | MasterStarted => if dyn then null_addr else addr
  end.

(** The driver listens, and the interface is up exactly if there is an address. *)
Definition if_follows (dyn : bool) (addr : LocalAddress) (h : Host) : Prop :=
  if_known h ∧ tq_ownAddress (hs_tx h) = mkOwnAddress addr dyn (Some ()) ∧
  td_ifUp (hs_driver h) = negb (addr =? null_addr).

Lemma wp_own_set dyn old addr (h : Host) :
  if_follows dyn old h →
  wp (tx_queue.setAddress addr) never (λ _, if_follows dyn addr) h.
Proof.
  intros (Hk & Hl & Hv). unfold tx_queue.setAddress, own_address.set, load, store.
  wp_step. apply wp_gets. wp_step. apply wp_modify.
  cbn [view set_view tx_queue.own_lens lens_comp Lens_ownAddress host_tx].
  rewrite Hl. cbn [oa_addrChangeIf oa_addr].
  destruct (Z.eqb_spec old addr) as [<-|Hne]; cbn [negb].
  - apply wp_skip. split_and!; [exact Hk| |exact Hv]. by unfold_rec.
  - eapply wp_mono; [by apply wp_newAddr|done|]. cbv beta.
    intros [] h' (Hk' & Hup & Htx & _). unfold if_follows. rewrite Htx.
    split_and!; [done|by unfold_rec|done].
Qed.

Lemma wp_addr_op dyn addr op (h : Host) :
  if_follows dyn addr h →
  wp (run_addr_op op) never (λ _, if_follows dyn (next_addr dyn addr op)) h.
Proof.
  intros Hf. destruct op as [addr'|]; simpl; [by eapply wp_own_set|].
  unfold tx_queue.masterStarted, own_address.masterStarted, load.
  wp_step. apply wp_gets. pose proof Hf as (_ & Hl & _).
  change (view h : OwnAddress ()) with (tq_ownAddress (hs_tx h)). rewrite Hl. simpl oa_dynamic.
  destruct dyn; [by eapply (wp_own_set true addr null_addr)|by apply wp_skip].
Qed.

Lemma wp_addr_ops dyn ops addr (h : Host) :
  if_follows dyn addr h →
  wp (for_each run_addr_op ops) never
    (λ _, if_follows dyn (foldl (next_addr dyn) addr ops)) h.
Proof.
  revert addr h. induction ops as [|op ops IH]; intros addr h Hf; simpl; [by apply wp_skip|].
  wp_step. eapply wp_mono; [by apply wp_addr_op|done|]. intros [] h' Hf'. by apply IH.
Qed.

(** A driver that has no interface yet. *)
Definition fresh (h : Host) : Prop :=
  td_tap_fd (hs_driver h) = posix_fd.newPosixFd true ∧
  td_tapName (hs_driver h) = "tap0"%string ∧ td_ifUp (hs_driver h) = false ∧
  net_ready (hs_os h) ∧ if_up (hs_os h) tap0 = None.

Lemma wp_setupCallback (h : Host) :
  fresh h →
  wp tap_driver.setupCallback never
    (λ _ h', if_known h' ∧ td_ifUp (hs_driver h') = false ∧ hs_tx h' = hs_tx h) h.
Proof.
  intros (Hfd0 & Hname & Hup & Hr & Hno).
  unfold tap_driver.setupCallback, TunTap.tuntap_alloc, load, store.
  wp_step. apply wp_gets. cbn [view host_drv]. rewrite Hname. do 2 wp_step.
  destruct (dev_open _ Hr) as (fd & o1 & H1 & Hfd & Hr1 & Hu1).
  eapply wp_os; [exact H1|]. destruct (Z.ltb_spec fd 0); [lia|].
  destruct (dev_create fd tap0 IFF_TAP o1 Hr1) as (fl & o2 & H2 & Hr2 & Hu2);
    [by rewrite Hu1|].
  wp_step. eapply wp_os; [exact H2|]. cbv beta iota. change (0 <? 0) with false. cbv iota.
  change (c_string (ifr_name (mkIfreq tap0 fl))) with (Some "tap0"%string).
  do 2 wp_step. apply wp_ret. wp_step. apply wp_gets.
  change (hs_driver (h <| hs_os := o1 |> <| hs_os := o2 |>)) with (hs_driver h). rewrite Hfd0.
  wp_step. unfold posix_fd.set. cbn [pfd_fd pfd_posixIf posix_fd.newPosixFd].
  change (0 <=? -1) with false. cbn [andb].
  wp_step. apply wp_skip. apply wp_ret. wp_step. apply wp_modify.
  cbn [posix_fd.get update pfd_fd]. destruct (Z.ltb_spec fd 0); [lia|].
  destruct (dev_loop fd tap_driver.Readable o2 Hr2) as (o3 & H3 & Hr3 & Hu3).
  eapply wp_os; [exact H3|]. split_and!; [|exact Hup|done]. split_and!; [done|done|].
  simpl_rec. by rewrite Hu3, Hup.
Qed.

Lemma wp_startTransfer (h : Host) :
  fresh h →
  wp (tap_driver.startTransfer ()) never
    (λ _, if_follows (oa_dynamic (tq_ownAddress (hs_tx h))) (own_addr h)) h.
Proof.
  intros Hf. unfold tap_driver.startTransfer, load, store.
  wp_step. apply wp_gets. wp_step. apply wp_modify. wp_step.
  eapply wp_mono; [by apply wp_setupCallback|done|].
  cbv beta. intros [] h1 (Hk & Hup & Htx).
  cbn [host_setRxHandler host_setAddrUpdateHandler host_clientAddress host_core
    tx_queue.tx_queue_host]. unfold load, store.
  do 2 wp_step. apply wp_gets. apply wp_modify. do 2 wp_step. apply wp_gets. apply wp_modify.
  do 2 wp_step. apply wp_gets. apply wp_ret.
  cbn [view set_view host_tx]. eapply wp_mono; [eapply wp_newAddr; exact Hk|done|].
  cbv beta. intros [] h2 (Hk2 & Hup2 & Htx2 & _). split_and!; [done| |].
  - rewrite Htx2. simpl_rec. rewrite Htx. unfold_rec. unfold own_addr. by destruct (tq_ownAddress _).
  - rewrite Hup2. simpl_rec. by rewrite Htx.
Qed.

End tap_host.

(** A kernel with at most one interface, its name and its flags; the packets that are
    to be read, and those that were written. *)
Record Kernel : Type := mkKernel {
  kn_if : option (ByteVec * Z);
  kn_in : list ByteVec;
  kn_out : list ByteVec
}.
#[export] Instance Eta_Kernel : Eta Kernel := λ k, mkKernel (kn_if k) (kn_in k) (kn_out k).

#[export] Instance kernel_file : PosixFileIf Kernel := {
  posix_open _ _ := mret 3;
  posix_open_mode _ _ _ := mret 3;
  posix_read _ _ := k ← get;
    match kn_in k with
    | l :: r => put (k <| kn_in := r |>) ;; mret (Z.of_nat (length l), l)
    | [] => mret (-1, [])
    end;
  posix_write _ l := modify (λ k, k <| kn_out ::= (.++ [l]) |>) ;; mret (Z.of_nat (length l));
  posix_close _ := mret 0;
  posix_system _ := mret 0;
  posix_errno := mret EAGAIN
}.
#[export] Instance kernel_tuntap : PosixTunTapIf Kernel := {
  ioctl_TUNSETIFF _ r := modify (λ k, k <| kn_if := Some (ifr_name r, 0) |>) ;; mret (0, r);
  ioctl_TUNSETOWNER _ _ := mret 0;
  ioctl_TUNSETGROUP _ _ := mret 0;
  ioctl_SIOCSIFFLAGS _ r :=
    modify (λ k, k <| kn_if := Some (ifr_name r, ifr_flags r) |>) ;; mret (0, r);
  ioctl_SIOCGIFFLAGS _ r := k ← get;
    match kn_if k with
    | Some (_, fl) => mret (0, r <| ifr_flags := fl |>)
    | None => mret (-1, r)
    end;
  ioctl_TUNSETPERSIST _ _ := mret 0;
  posix_socket _ _ _ := mret 4
}.
#[export] Instance kernel_loop : EventLoopIf tap_driver.callback Kernel := {
  loop_onReadable _ _ := skip;
  loop_onAvailable _ := skip
}.

Definition kernel_up (k : Kernel) (name : ByteVec) : option bool :=
  match kn_if k with
  | Some (n, fl) => if decide (n = name) then Some (Z.testbit fl 0) else None
  | None => None
  end.

#[export] Program Instance kernel_device : NetDevice Kernel := {
  net_ready _ := True;
  if_up := kernel_up
}.
Next Obligation. intros k _. by exists 3, k. Qed.
Next Obligation.
  intros fd name flags k _ _. eexists _, _. split; [done|]. split; [done|].
  unfold kernel_up. simpl. by rewrite decide_True.
Qed.
Next Obligation. intros fd c k _. by exists k. Qed.
Next Obligation. intros k _. by exists 4, k. Qed.
Next Obligation.
  intros fd name flags up k _. unfold kernel_up. simpl.
  destruct (kn_if k) as [[n fl]|] eqn:Hk; [|done].
  destruct (decide (n = name)) as [->|]; intros [= <-].
  exists fl, k. split; [|by rewrite Hk]. unfold ioctl_SIOCGIFFLAGS, kernel_tuntap, mbind, M_bind, get.
  by rewrite Hk.
Qed.
Next Obligation.
  intros fd name flags up k _ _. eexists _, _. split; [done|]. split; [done|].
  unfold kernel_up. simpl. by rewrite decide_True.
Qed.
Next Obligation. intros fd k _. by exists 0, k. Qed.
Next Obligation. intros cmd k _. by exists 0, k. Qed.

(** A node without an address, whose driver has not started. *)
Definition tap_node : HostState TapHostDriver Kernel :=
  new_host null_addr (cache.newAddressCache [])
    (tap_driver.setIfEventCommands "up" "down" (tap_driver.newTapHostDriver true))
    (mkKernel None [] []).


(** ** Frames from interface to interface *)

Section frames.
Context {O : Type} `{!PosixFileIf O, !PosixTunTapIf O, !EventLoopIf tap_driver.callback O}.
Abbreviation Host := (HostState TapHostDriver O).
Implicit Types (f : ByteVec) (h : Host).

(** The driver has the core and the cache. *)
Definition attached h : Prop := td_tap (hs_driver h) = mkTapProtocol true true.

(** The packet a frame goes out in, and the update of the hardware address that
    goes out before it. *)
Definition tap_packet := data_packet tap_format.
Definition tap_updates (src : LocalAddress) f : list ByteVec :=
  if tap.is_arp f then [[5; broadcast; src; src] ++ tap_srcMAC f] else [].

(** The header is read from the frame, whatever the buffer holds after it. *)
Lemma array_at_app i n f l :
  (i + n ≤ length f)%nat → array_at i n (f ++ l) = array_at i n f.
Proof.
  intros Hl. unfold array_at. rewrite drop_app_le by lia. apply take_app_le.
  rewrite length_drop. lia.
Qed.

Lemma array_at_rx_buffer i n f :
  (length f ≤ 1600)%nat → (i + n ≤ length f)%nat →
  array_at i n (tap.rx_buffer f) = array_at i n f.
Proof.
  intros Hf Hi. unfold tap.rx_buffer. rewrite resize_ge by lia. by apply array_at_app.
Qed.

Lemma is_arp_rx_buffer f :
  (26 ≤ length f ≤ 1600)%nat → tap.is_arp (tap.rx_buffer f) = tap.is_arp f.
Proof.
  intros Hf. unfold tap.is_arp, tap_type, arp_ptype, arp_oper.
  by rewrite !array_at_rx_buffer by lia.
Qed.

(** What reading a frame does. *)
Lemma doRead_frame f h o' :
  let own := own_addr h in
  let ac := cache.updateMyMAC own (tap_srcMAC f) (hs_cache h) in
  let dest := cache.getLocalAddress (tap_destMAC f) ac in
  attached h → (26 ≤ length f ≤ 1600)%nat → own ≠ null_addr →
  posix_read (posix_fd.get (td_tap_fd (hs_driver h))) 1600 (hs_os h)
    = Ok ((Z.of_nat (length f), f), o') →
  tap_driver.on_readable (H := ()) h
    = Ok (true, queued
        (if dest =? null_addr then [] else tap_updates own f ++ [tap_packet own dest f])
        (h <| hs_os := o' |> <| hs_cache := ac |>)).
Proof.
  intros own ac dest Ht Hf Hown Hread. unfold tap_driver.on_readable, tap.doRead, load, store.
  eapply bind_step; [done|]. eapply (bind_step _ _ _ ()); [|done].
  cbn [view host_drv]. rewrite Ht.
  eapply bind_step; [by apply host_read|].
  cbv beta iota zeta. destruct (Z.ltb_spec (Z.of_nat (length f)) 0); [lia|].
  cbn [tp_cache tp_txIf negb].
  do 4 (eapply bind_step; [done|]). cbn [view set_view host_cache].
  unfold tap_srcMAC, tap_destMAC. rewrite !array_at_rx_buffer by lia.
  set (h1 := h <| hs_os := o' |> <| hs_cache := ac |>).
  change ((if dest =? null_addr then skip else
    tap.checkArp (mkTapProtocol true true) (tap.rx_buffer f) ;;
    host_sendPacket (H := ()) (take (Z.to_nat (Z.of_nat (length f))) (tap.rx_buffer f)) dest
      tap_format) h1 = Ok ((), queued
        (if dest =? null_addr then [] else tap_updates own f ++ [tap_packet own dest f]) h1)).
  destruct (dest =? null_addr); [by rewrite queued_nil|].
  rewrite <-queued_queued. eapply (bind_step _ _ _ () (queued (tap_updates own f) h1)).
  - unfold tap.checkArp. cbn [tp_txIf negb]. rewrite is_arp_rx_buffer by done.
    unfold tap_updates, tap_srcMAC. rewrite array_at_rx_buffer by lia.
    destruct (tap.is_arp f); [by apply sendMacUpdate_queues|by rewrite queued_nil].
  - rewrite Nat2Z.id. unfold tap.rx_buffer. rewrite resize_ge, take_app_length by lia.
    by apply (sendPacket_queues f dest _ (queued (tap_updates own f) h1)).
Qed.

(** Known addresses: broadcast, and what was announced. *)
Lemma getMac_known c a :
  cache_ok c →
  (cache.getMac a c).1 = bool_decide (a = broadcast ∨ is_Some (table_of c !! a)).
Proof.
  intros Hok. unfold cache.getMac. destruct (decide (a = broadcast)) as [->|Hne].
  { by rewrite bool_decide_eq_true_2 by auto. }
  destruct (cache.find_entry _ c) as [[i e]|] eqn:Hf; simpl.
  - rewrite (find_key_lookup _ _ _ _ Hok Hf).
    symmetry. apply bool_decide_eq_true_2. eauto.
  - rewrite (find_key_lookup_None _ _ Hf).
    symmetry. apply bool_decide_eq_false_2. intros [?|[? ?]]; done.
Qed.

Lemma getMac_setAddress c src mac a :
  cache_ok c → src ≠ broadcast →
  (cache.getMac a (cache.setAddress src mac c)).1
    = if decide (a = src) then true else (cache.getMac a c).1.
Proof.
  intros Hok Hsrc. destruct (setAddress_refines src mac c Hok) as [Hok' Ht].
  rewrite !getMac_known by done. rewrite Ht. simpl. rewrite decide_False by done.
  destruct (decide (a = src)) as [->|Hne].
  - rewrite lookup_insert_eq. apply bool_decide_eq_true_2. eauto.
  - by rewrite lookup_insert_ne.
Qed.

(** What a driver remembers of the sender of a frame. *)
Definition learn_sender (src : LocalAddress) f (c : AddressCache) : AddressCache :=
  if (src =? broadcast) || (cache.getMac src c).1 then c
  else cache.setAddress src (tap_srcMAC f) c.

Lemma learn_sender_known src f c a :
  cache_ok c →
  (cache.getMac a (learn_sender src f c)).1 = bool_decide (a = src) || (cache.getMac a c).1.
Proof.
  intros Hok. unfold learn_sender. destruct (Z.eqb_spec src broadcast) as [->|Hb]; simpl.
  - case_bool_decide; [subst|done]. rewrite getMac_known by done.
    apply bool_decide_eq_true_2. by left.
  - destruct (cache.getMac src c).1 eqn:Hk; [case_bool_decide; by subst|].
    rewrite getMac_setAddress by done. by do 2 case_decide || case_bool_decide.
Qed.

(** A frame from the net, of a sender that is known or learnt. *)
Lemma receive_frame f src dest h :
  attached h → cache_ok (hs_cache h) → (16 ≤ length f)%nat →
  let h1 := h <| hs_cache := learn_sender src f (hs_cache h) |> in
  packetReceivedFromNet () f src dest tap_format h
    = (if bool_decide (dest = src) || (cache.getMac dest (hs_cache h)).1 then
         n ← posix_write (posix_fd.get (td_tap_fd (hs_driver h))) f;
         if negb (n =? Z.of_nat (length f)) then fail (Exception "Unexpected write length")
         else skip
       else skip) h1.
Proof.
  intros Ht Hok Hf h1. unfold packetReceivedFromNet, tap_callbacks.
  unfold tap_driver.packetReceivedFromNet, tap.packetReceived, load, store.
  eapply bind_step; [done|]. cbn [view host_drv]. rewrite Ht. cbn [tp_cache negb].
  eapply bind_step; [done|]. cbn [view host_cache].
  eapply (bind_step _ _ _ () h1).
  { unfold h1, learn_sender. destruct (src =? broadcast); cbn [negb orb]; [by destruct h|].
    destruct (cache.getMac src (hs_cache h)).1; cbn [negb]; [by destruct h|].
    by rewrite decide_True. }
  eapply bind_step; [done|]. cbn [view host_cache]. unfold h1 at 1 2. cbn [hs_cache update].
  rewrite !learn_sender_known by done. rewrite bool_decide_eq_true_2 by done. cbn [orb negb].
  by destruct (_ || _).
Qed.

(** C18. Ethernet over the net. A frame that a node with an address reads from its
    interface, for a hardware address that it knows the local address of, is queued
    as one packet, after an update of the sender's hardware address if it is ARP;
    and when that packet reaches the driver of another node, which knows the address
    it is for or has just learnt it as the sender's, the frame is written to the
    interface there, unchanged. Nothing is written if the address is not known. *)
Theorem tap_frame_bridged f (a b : Host) oa' ob' :
  let own := own_addr a in
  let dest := cache.getLocalAddress (tap_destMAC f)
                (cache.updateMyMAC own (tap_srcMAC f) (hs_cache a)) in
  attached a → attached b → cache_ok (hs_cache b) → (26 ≤ length f ≤ 1600)%nat →
  own ≠ null_addr → dest ≠ null_addr →
  posix_read (posix_fd.get (td_tap_fd (hs_driver a))) 1600 (hs_os a)
    = Ok ((Z.of_nat (length f), f), oa') →
  posix_write (posix_fd.get (td_tap_fd (hs_driver b))) f (hs_os b)
    = Ok (Z.of_nat (length f), ob') →
  ∃ a' b' p, tap_driver.on_readable (H := ()) a = Ok (true, a') ∧
    tq_txMsg (hs_tx a') = tq_txMsg (hs_tx a) ++ tap_updates own f ++ [p] ∧
    byte2MessageType (byte_at 0 p) = send_packet ∧ byte_at 2 p = dest ∧ byte_at 3 p = own ∧
    packetReceivedFromNet () (drop 4 p) (byte_at 3 p) (byte_at 2 p)
      (byte2ChannelType (byte_at 1 p)) b = Ok ((), b') ∧
    hs_os b' = if decide (dest = own ∨ (cache.getMac dest (hs_cache b)).1 = true)
               then ob' else hs_os b.
Proof.
  intros own dest Ha Hb Hok Hf Hown Hdest Hread Hwrite.
  pose proof (doRead_frame f a oa' Ha Hf Hown Hread) as Hr. cbv zeta in Hr.
  fold own dest in Hr. rewrite (proj2 (Z.eqb_neq dest null_addr)) in Hr by done.
  set (b1 := b <| hs_cache := learn_sender own f (hs_cache b) |>).
  eexists _, (if bool_decide (dest = own) || (cache.getMac dest (hs_cache b)).1
              then b1 <| hs_os := ob' |> else b1), (tap_packet own dest f).
  split; [exact Hr|]. do 4 (split; [done|]). split.
  - change (packetReceivedFromNet () f own dest tap_format b = Ok ((),
      if bool_decide (dest = own) || (cache.getMac dest (hs_cache b)).1
      then b1 <| hs_os := ob' |> else b1)).
    rewrite receive_frame by (done || lia). destruct (_ || _); [|done].
    eapply bind_step; [by apply host_write|]. by rewrite Z.eqb_refl.
  - destruct (decide _) as [Hd|Hd].
    + rewrite (proj2 (orb_true_iff _ _)); [done|].
      destruct Hd; [left; by apply bool_decide_eq_true_2|by right].
    + destruct (_ || _) eqn:Ho; [|done]. apply orb_true_iff in Ho as [Ho|Ho]; [|tauto].
      apply bool_decide_eq_true_1 in Ho. tauto.
Qed.

(** Frames for an unknown address, and not from it. *)
Lemma frames_dropped dest frames (h : Host) :
  attached h → cache_ok (hs_cache h) → table_of (hs_cache h) !! dest = None →
  dest ≠ broadcast →
  Forall (λ '(f, src), 16 ≤ length f ∧ src ≠ dest)%nat frames →
  ∃ h', for_each (λ '(f, src), packetReceivedFromNet () f src dest tap_format) frames h
      = Ok ((), h') ∧ hs_os h' = hs_os h.
Proof.
  revert h. induction frames as [|[f src] frames IH]; intros h Ht Hok Hl Hb Hfr.
  { by exists h. }
  apply Forall_cons in Hfr as [[Hf Hsrc] Hfr]. cbn [for_each].
  assert ((cache.getMac dest (hs_cache h)).1 = false) as Hno.
  { rewrite getMac_known by done. apply bool_decide_eq_false_2.
    rewrite Hl. intros [?|[? ?]]; done. }
  pose proof (receive_frame f src dest h Ht Hok Hf) as Hr. cbv zeta in Hr.
  rewrite Hno, bool_decide_eq_false_2 in Hr by done.
  rewrite (bind_ok _ _ _ _ _ Hr).
  destruct (IH (h <| hs_cache := learn_sender src f (hs_cache h) |>)) as (h' & Hh' & Ho);
    [done| | |done|done|by exists h'].
  - change (cache_ok (learn_sender src f (hs_cache h))). unfold learn_sender.
    destruct ((src =? broadcast) || _); [done|]. by apply setAddress_refines.
  - change (table_of (learn_sender src f (hs_cache h)) !! dest = None). unfold learn_sender.
    destruct ((src =? broadcast) || _) eqn:Hs; [done|].
    destruct (setAddress_refines src (tap_srcMAC f) _ Hok) as [_ Hta].
    apply orb_false_iff in Hs as [Hs%Z.eqb_neq _]. simpl in Hta.
    rewrite Hta, decide_False by done. by rewrite lookup_insert_ne.
Qed.

(** C30. Frames for the own address. What a node's driver needs to write a frame that is
    addressed to the node, an entry for its own address, is not something that it
    makes itself: as long as no announcement of the node's address comes back to it
    from the net, frames of other nodes for it are dropped, however many come. *)
Theorem own_frames_dropped ops garbage frames (h : Host) :
  let own := own_addr h in
  attached h → hs_cache h = cache_runs ops (cache.newAddressCache garbage) →
  learnt ops !! own = None → own ≠ broadcast →
  Forall (λ '(f, src), 16 ≤ length f ∧ src ≠ own)%nat frames →
  ∃ h', for_each (λ '(f, src), packetReceivedFromNet () f src own tap_format) frames h
      = Ok ((), h') ∧ hs_os h' = hs_os h.
Proof.
  intros own Ht Hc Hl Hb Hfr.
  assert (cache_ok (cache.newAddressCache garbage)) as H0
    by (split; [constructor|apply not_elem_of_nil]).
  destruct (cache_ops_refines ops _ H0) as [Hok Hm].
  apply frames_dropped; [done|by rewrite Hc| |done|done].
  by rewrite Hc, Hm.
Qed.
End frames.

(** Two nodes, one with a frame to read and one whose kernel keeps what is written. *)
Definition arp_frame : ByteVec :=
  [0; 0; 8; 6] ++ [0xff; 0xff; 0xff; 0xff; 0xff; 0xff] ++ [2; 0; 0; 0; 0; 1] ++ [8; 6] ++
  [0; 1; 8; 0; 6; 4; 0; 1] ++ replicate 20 7.

Definition station (addr : LocalAddress) (ops : list cache_op) (input : list ByteVec) :
    HostState TapHostDriver Kernel :=
  new_host addr (cache_runs ops (cache.newAddressCache []))
    ((tap_driver.newTapHostDriver true) <| td_tap ::= tap.setTx true |>) (mkKernel None input []).

Lemma tap_frame_bridged_witness :
  ∃ a' b' p, tap_driver.on_readable (H := ()) (station 33 [] [arp_frame]) = Ok (true, a') ∧
    tq_txMsg (hs_tx a') = [[5; 0xff; 33; 33; 2; 0; 0; 0; 0; 1]; p] ∧
    packetReceivedFromNet () (drop 4 p) (byte_at 3 p) (byte_at 2 p)
      (byte2ChannelType (byte_at 1 p)) (station 35 [] []) = Ok ((), b') ∧
    hs_os b' = mkKernel None [] [arp_frame].
Proof.
  destruct (tap_frame_bridged arp_frame (station 33 [] [arp_frame]) (station 35 [] [])
    (mkKernel None [] []) (mkKernel None [] [arp_frame]))
    as (a' & b' & p & Ha & Hq & _ & _ & _ & Hb & Hos);
    [reflexivity|reflexivity|split; [constructor|apply not_elem_of_nil]|cbn; lia|discriminate
    |discriminate|reflexivity|reflexivity|].
  exists a', b', p. split; [exact Ha|]. split; [exact Hq|]. split; [exact Hb|exact Hos].
Defined.

Lemma own_frames_dropped_witness :
  ∃ h', for_each (λ '(f, src), packetReceivedFromNet () f src 35 tap_format)
      [(arp_frame, 33); (arp_frame, 34)]
      (station 35 [UpdateMyMAC 35 [2; 0; 0; 0; 0; 5]; SetAddress 33 [2; 0; 0; 0; 0; 1]] [])
      = Ok ((), h') ∧
    hs_os h' = mkKernel None [] [].
Proof.
  apply (own_frames_dropped [UpdateMyMAC 35 [2; 0; 0; 0; 0; 5]; SetAddress 33 [2; 0; 0; 0; 0; 1]] []
    [(arp_frame, 33); (arp_frame, 34)]
    (station 35 [UpdateMyMAC 35 [2; 0; 0; 0; 0; 5]; SetAddress 33 [2; 0; 0; 0; 0; 1]] []));
    [reflexivity|reflexivity|reflexivity|discriminate|].
  repeat constructor; cbn; (lia || discriminate).
Defined.
