(* ===== verification/TunDriver.v ===== *)
(** * The TUN drivers (drivers/tun/TunProtocol.h, TunProtocol.cpp,
    TunHostDriver.h, TunHostDriver.cpp, SocatTunHostDriver.h,
    SocatTunHostDriver.cpp)

    IP packets between a TUN interface, or socat on the standard streams, and the
    net. The last byte of the destination's IP address is its local address. From a
    stream a packet is read in two steps, its header and then the rest; from an
    interface, whose reads keep packets apart, in one. *)

From S2P Require Import Prelude SerialProtocol Config Interfaces Posix TunTapDriver.

(** ** Packets: four bytes of the TUN layer, then the IPv4 header *)

Definition sizeof_m_tun : nat := 4.
Definition sizeof_TunIpv4Header : nat := 24.

(** [Ipv4Header::getLength], and the last byte of [m_destAddr]. *)
Definition getLength (packet : ByteVec) : nat :=
  Z.to_nat (byte_at 6 packet * 0x100 + byte_at 7 packet).
Definition ip_dest (packet : ByteVec) : LocalAddress := toLocalAddress (byte_at 23 packet).

(** ** Reading from a stream *)

(** What the next read is for. *)
Inductive ReadType : Type := header | data.
#[export] Instance ReadType_eq_dec : EqDecision ReadType.
Proof. solve_decision. Defined.

Definition headerLen : nat := 4 + 20.

(** The members that [TunProtocol] and [SocatTunHostDriver] both read with, by the
    same code. *)
Record TunReader : Type := mkTunReader {
  tr_readHeader : ByteVec;
  tr_rxTunPacket : ByteVec;
  tr_readType : ReadType
}.
#[export] Instance Eta_TunReader : Eta TunReader := λ r,
  mkTunReader (tr_readHeader r) (tr_rxTunPacket r) (tr_readType r).

Module tun_reader.
Definition newTunReader (garbage : ByteVec) : TunReader := mkTunReader garbage [] header.

(** What is read goes over the start of a buffer. *)
Definition overlay (l buffer : ByteVec) : ByteVec := l ++ drop (length l) buffer.

Section reader.
Context {H S : Type} `{!Lens S TunReader} `{!PosixFileIf S, !MsgHostIf H S}.

Definition read_header (fd : Z) : M S () :=
  '(readlen, l) ← posix_read fd headerLen;
  r ← load;
  store (r <| tr_readHeader ::= overlay l |>) ;;
  if negb (readlen =? Z.of_nat headerLen) then fail (Exception "Unexpected read length")
  else
    r ← load;
    let m_readHeader := tr_readHeader r in
    let length_ := getLength m_readHeader in
    let packet := resize (length_ + sizeof_m_tun) 0 (tr_rxTunPacket r) in
    if decide (headerLen ≤ length packet)%nat then
      store (r <| tr_rxTunPacket := overlay m_readHeader packet |> <| tr_readType := data |>)
    else fail (Undefined "m_rxTunPacket is shorter than the header").

Definition read_data (txIf : bool) (fd : Z) : M S () :=
  r ← load;
  let packet := tr_rxTunPacket r in
  let readMaxLen := (length packet - sizeof_TunIpv4Header)%nat in
  let destAddr := ip_dest packet in
  '(readlen, l) ← posix_read fd readMaxLen;
  r ← load;
  store (r <| tr_rxTunPacket ::= λ p,
                take sizeof_TunIpv4Header p ++ overlay l (drop sizeof_TunIpv4Header p) |>
           <| tr_readType := header |>) ;;
  if negb (readlen =? Z.of_nat readMaxLen) then fail (Exception "Unexpected read length")
  else if txIf then
    r ← load;
    host_sendPacket (tr_rxTunPacket r) destAddr tun_format
  else skip.

Definition doRead (txIf : bool) (fd : Z) : M S () :=
  r ← load;
  match tr_readType r with
  | header => read_header fd
  | data => read_data txIf fd
  end.
End reader.
End tun_reader.

(** ** TunProtocol *)

Record TunProtocol : Type := mkTunProtocol {
  tu_txIf : bool;
  tu_reader : TunReader
}.
#[export] Instance Eta_TunProtocol : Eta TunProtocol := λ t,
  mkTunProtocol (tu_txIf t) (tu_reader t).
#[export] Program Instance Lens_reader : Lens TunProtocol TunReader :=
  {| view := tu_reader; set_view x t := t <| tu_reader := x |> |}.
Solve Obligations with (repeat intros []; intros; try done; by destruct s).

Module tun.
Definition newTunProtocol (garbage : ByteVec) : TunProtocol :=
  mkTunProtocol false (tun_reader.newTunReader garbage).
Definition buffLen : nat := 2048.
Definition setTx (txIf : bool) (t : TunProtocol) : TunProtocol := t <| tu_txIf := txIf |>.

Section tun.
Context {H S : Type} `{LT : !Lens S TunProtocol} `{!PosixFileIf S, !MsgHostIf H S}.
#[local] Instance on_reader : Lens S TunReader := lens_comp LT Lens_reader.

Definition doRead (fd : Z) : M S () :=
  t ← load;
  tun_reader.doRead (tu_txIf t) fd.

(** The packet is as long as its header says; what the read did not fill of the
    buffer is uninitialised: [garbage]. *)
Definition doRead2 (garbage : ByteVec) (fd : Z) : M S () :=
  '(readlen, l) ← posix_read fd buffLen;
  let readBuf := resize buffLen 0 (l ++ garbage) in
  if readlen <? Z.of_nat headerLen then fail (Exception "Unexpected read length")
  else
    let length_ := getLength readBuf in
    let destAddr := ip_dest readBuf in
    t ← load;
    if tu_txIf t then
      if decide (length_ + sizeof_m_tun ≤ buffLen)%nat then
        host_sendPacket (take (length_ + sizeof_m_tun) readBuf) destAddr tun_format
      else fail (Undefined "packet longer than the buffer")
    else skip.

Definition packetReceivedFromNet (fd : Z) (data : ByteVec) (srcAddr destAddr : LocalAddress) :
    M S () :=
  writeLen ← posix_write fd data;
  if negb (writeLen =? Z.of_nat (length data)) then
    fail (Exception "Unexpected write length")
  else skip.
End tun.
End tun.

(** ** The driver of a TUN interface *)

Record TunHostDriver : Type := mkTunHostDriver {
  tn_tun_fd : PosixFd;
  tn_tun : TunProtocol;
  tn_on_if_up : string;
  tn_on_if_down : string;
  tn_ifUp : bool;
  tn_tunName : string
}.
#[export] Instance Eta_TunHostDriver : Eta TunHostDriver := λ d,
  mkTunHostDriver (tn_tun_fd d) (tn_tun d) (tn_on_if_up d) (tn_on_if_down d)
    (tn_ifUp d) (tn_tunName d).
#[export] Program Instance Lens_tun : Lens TunHostDriver TunProtocol :=
  {| view := tn_tun; set_view x t := t <| tn_tun := x |> |}.
Solve Obligations with (repeat intros []; intros; try done; by destruct s).

Module tun_driver.
Inductive callback : Type := Readable.

Definition newTunHostDriver (garbage : ByteVec) : TunHostDriver :=
  mkTunHostDriver (posix_fd.newPosixFd true) (tun.newTunProtocol garbage) "" "" false "tun0".

Definition setIfEventCommands (onUp onDown : string) (d : TunHostDriver) : TunHostDriver :=
  d <| tn_on_if_up := onUp |> <| tn_on_if_down := onDown |>.

Section driver.
Context {H S : Type} `{LD : !Lens S TunHostDriver}.
Context `{!PosixFileIf S, !PosixTunTapIf S, !EventLoopIf callback S, !MsgHostIf H S}.
Context (self : H).
#[local] Instance on_protocol : Lens S TunProtocol := lens_comp LD Lens_tun.

Definition msgHostRx_newAddr (addr : LocalAddress) : M S () :=
  d ← load;
  let newIfUp := negb (addr =? null_addr) in
  if negb (eqb newIfUp (tn_ifUp d)) then
    TunTap.setIfUpDown newIfUp (tn_tunName d) ;;
    (if newIfUp && negb (bool_decide (tn_on_if_up d = ""%string)) then
       posix_system (tn_on_if_up d) ;; skip
     else if negb newIfUp && negb (bool_decide (tn_on_if_down d = ""%string)) then
       posix_system (tn_on_if_down d) ;; skip
     else skip) ;;
    d ← load;
    store (d <| tn_ifUp := newIfUp |>)
  else skip.

Definition setupCallback : M S () :=
  d ← load;
  '(fd, name) ← TunTap.tuntap_alloc (tn_tunName d) TunTap.tun;
  d ← load;
  m_fd ← posix_fd.set fd (tn_tun_fd d);
  store (d <| tn_tunName := name |> <| tn_tun_fd := m_fd |>) ;;
  if posix_fd.get m_fd <? 0 then fail (Exception "Failed starting tun interface.")
  else loop_onReadable (posix_fd.get m_fd) Readable.

Definition on_readable (garbage : ByteVec) : M S bool :=
  d ← load;
  tun.doRead2 garbage (posix_fd.get (tn_tun_fd d)) ;;
  mret true.

Definition startTransfer : M S () :=
  d ← load;
  store (d <| tn_tun ::= tun.setTx true |>) ;;
  setupCallback ;;
  host_setRxHandler (Some self) tun_format ;;
  host_setAddrUpdateHandler (Some self) ;;
  addr ← host_clientAddress;
  msgHostRx_newAddr addr.

Definition packetReceivedFromNet (data : ByteVec) (srcAddr destAddr : LocalAddress)
    (chType : ChannelType) : M S () :=
  if decide (chType = tun_format) then
    d ← load;
    tun.packetReceivedFromNet (posix_fd.get (tn_tun_fd d)) data srcAddr destAddr
  else fail (Exception "trying to decode tun packet with wrong packet type.").

Definition destroy : M S () :=
  d ← load;
  (if tn_ifUp d then
     TunTap.setIfUpDown false (tn_tunName d) ;;
     d ← load;
     store (d <| tn_ifUp := false |>)
   else skip) ;;
  d ← load;
  posix_fd.destroy (tn_tun_fd d).
End driver.
End tun_driver.

(** ** socat on the standard streams *)

Record SocatTunHostDriver : Type := mkSocatTunHostDriver {
  su_reader : TunReader;
  su_txIf : bool
}.
#[export] Instance Eta_SocatTunHostDriver : Eta SocatTunHostDriver := λ d,
  mkSocatTunHostDriver (su_reader d) (su_txIf d).
#[export] Program Instance Lens_socat_reader : Lens SocatTunHostDriver TunReader :=
  {| view := su_reader; set_view x t := t <| su_reader := x |> |}.
Solve Obligations with (repeat intros []; intros; try done; by destruct s).

Module socat_tun.
Inductive callback : Type := Readable.

Definition newSocatTunHostDriver (garbage : ByteVec) : SocatTunHostDriver :=
  mkSocatTunHostDriver (tun_reader.newTunReader garbage) false.

Section driver.
Context {H S : Type} `{LD : !Lens S SocatTunHostDriver}.
Context `{!PosixFileIf S, !EventLoopIf callback S, !MsgHostIf H S}.
Context (self : H).
#[local] Instance on_reader : Lens S TunReader := lens_comp LD Lens_socat_reader.

Definition doRead (fd : Z) : M S () :=
  d ← load;
  tun_reader.doRead (su_txIf d) fd.

Definition setupCallback : M S () := loop_onReadable STDIN_FILENO Readable.

Definition on_readable : M S bool :=
  doRead STDIN_FILENO ;;
  mret true.

Definition startTransfer : M S () :=
  d ← load;
  store (d <| su_txIf := true |>) ;;
  setupCallback ;;
  host_setRxHandler (Some self) tun_format.

Definition packetReceivedFromNet (data : ByteVec) (srcAddr destAddr : LocalAddress)
    (chType : ChannelType) : M S () :=
  writeLen ← posix_write STDOUT_FILENO data;
  if negb (writeLen =? Z.of_nat (length data)) then
    fail (Exception "Unexpected write length")
  else skip.
End driver.
End socat_tun.
