(* ===== verification/TunProps.v ===== *)
(** * Properties of the TUN drivers

    A driver on top of the transmit queue of a node. From a stream the packets are
    found again, whatever follows them, and carried to another stream; from an
    interface a packet is taken as its header says, right or wrong. *)

From S2P Require Import Prelude SerialProtocol Config Interfaces TxQueue Posix.
From S2P Require Import AddressCache PacketTypeCodec FolderManager DriverHost.
From S2P Require Import TunTapDriver TunDriver.

(** The packet that carries a packet of the interface. *)
Definition tun_packet := data_packet tun_format.

(** ** One packet from an interface *)

(** C38. A packet from the interface. What a read returns is sent as one packet to the
    address in its header, cut to the length in its header; a read that is shorter
    than a header is an error. When the header claims more than was read, what the
    buffer held before goes out behind it, and beyond the buffer's 2048 bytes the
    behaviour is undefined. *)
Theorem tun_reads_one_packet {O : Type} `{!PosixFileIf O} garbage (h : HostState TunHostDriver O)
    l o' :
  tu_txIf (tn_tun (hs_driver h)) = true → own_addr h ≠ null_addr →
  posix_read (posix_fd.get (tn_tun_fd (hs_driver h))) tun.buffLen (hs_os h)
    = Ok ((Z.of_nat (length l), l), o') →
  (length l + length garbage = tun.buffLen)%nat →
  let size := (getLength l + 4)%nat in
  tun_driver.on_readable (H := ()) garbage h
  = if decide (length l < 24)%nat then Fail (Exception "Unexpected read length")
    else if decide (size ≤ length l)%nat then
      Ok (true, queued [tun_packet (own_addr h) (ip_dest l) (take size l)] (h <| hs_os := o' |>))
    else if decide (size ≤ tun.buffLen)%nat then
      Ok (true, queued [tun_packet (own_addr h) (ip_dest l) (l ++ take (size - length l) garbage)]
                  (h <| hs_os := o' |>))
    else Fail (Undefined "packet longer than the buffer").
Proof.
  intros Htx Hown Hread Hg size. unfold tun_driver.on_readable, tun.doRead2, load.
  rewrite (bind_ok _ _ _ (hs_driver h) h) by done. cbv zeta.
  assert (∀ i, (i < length l)%nat → byte_at i (l ++ garbage) = byte_at i l) as Hbyte.
  { intros i Hi. unfold byte_at. by rewrite lookup_app_l. }
  destruct (decide (length l < 24)%nat) as [Hs|Hs].
  { apply bind_fail. rewrite (bind_ok _ _ _ _ _ (host_read _ _ _ _ _ Hread)).
    destruct (Z.ltb_spec (Z.of_nat (length l)) (Z.of_nat headerLen)); [done|].
    unfold headerLen in *. lia. }
  assert (getLength (l ++ garbage) = getLength l ∧ ip_dest (l ++ garbage) = ip_dest l) as [Hlen Hdest].
  { unfold getLength, ip_dest. by rewrite !Hbyte by lia. }
  set (m := posix_read _ _ ≫= _).
  assert (m h = (if decide (size ≤ tun.buffLen)%nat
    then host_sendPacket (H := ()) (take size (l ++ garbage)) (ip_dest l) tun_format
    else fail (Undefined "packet longer than the buffer")) (h <| hs_os := o' |>)) as Hm.
  { unfold m. rewrite (bind_ok _ _ _ _ _ (host_read _ _ _ _ _ Hread)).
    destruct (Z.ltb_spec (Z.of_nat (length l)) (Z.of_nat headerLen)); [unfold headerLen in *; lia|].
    rewrite (bind_ok _ _ _ (tn_tun (hs_driver h)) (h <| hs_os := o' |>)) by done.
    rewrite Htx, resize_all_alt by (rewrite length_app; lia). by rewrite Hlen, Hdest. }
  destruct (decide (size ≤ length l)%nat) as [Hsz|Hsz].
  - eapply bind_step; [|done]. rewrite Hm, decide_True by lia.
    rewrite take_app_le by lia. by rewrite sendPacket_queues.
  - destruct (decide (size ≤ tun.buffLen)%nat) as [Hb|Hb];
      [|apply bind_fail; rewrite Hm; reflexivity].
    eapply bind_step; [|reflexivity]. rewrite Hm, take_app_ge by lia. by rewrite sendPacket_queues.
Qed.

(** ** Packets from a stream *)

(** Standard streams that deliver what they hold, and take what is written. *)
Class Pipe (O : Type) `{!PosixFileIf O} := {
  pipe_in : O → ByteVec;
  pipe_out : O → ByteVec;
  pipe_read n (o : O) : (n ≤ length (pipe_in o))%nat →
    ∃ o', posix_read STDIN_FILENO n o = Ok ((Z.of_nat n, take n (pipe_in o)), o') ∧
      pipe_in o' = drop n (pipe_in o) ∧ pipe_out o' = pipe_out o;
  pipe_write l (o : O) :
    ∃ o', posix_write STDOUT_FILENO l o = Ok (Z.of_nat (length l), o') ∧
      pipe_in o' = pipe_in o ∧ pipe_out o' = pipe_out o ++ l
}.

(** A packet that is as long as its header says. *)
Definition ip_packet (p : ByteVec) : Prop :=
  (24 ≤ length p)%nat ∧ (getLength p + sizeof_m_tun)%nat = length p.
#[export] Instance ip_packet_dec p : Decision (ip_packet p).
Proof. unfold ip_packet. apply _. Defined.

Section stream.
Context {O : Type} `{!PosixFileIf O, !Pipe O}.
Abbreviation Host := (HostState SocatTunHostDriver O).
Implicit Types (h : Host) (p rest : ByteVec).

(** The driver is between two packets. *)
Definition at_header h : Prop :=
  su_txIf (hs_driver h) = true ∧ tr_readType (su_reader (hs_driver h)) = header ∧
  length (tr_readHeader (su_reader (hs_driver h))) = headerLen.

Lemma getLength_take p : (24 ≤ length p)%nat → getLength (take 24 p) = getLength p.
Proof. intros Hp. unfold getLength, byte_at. by rewrite !lookup_take_lt by lia. Qed.

Lemma overlay_all l buffer : length l = length buffer → tun_reader.overlay l buffer = l.
Proof. intros Hl. unfold tun_reader.overlay. by rewrite Hl, drop_all, app_nil_r. Qed.

(** The first read: the header, and room for the rest. *)
Lemma read_header_ok p rest h :
  at_header h → ip_packet p → pipe_in (hs_os h) = p ++ rest →
  ∃ o' buffer, socat_tun.on_readable (H := ()) h
      = Ok (true, h <| hs_os := o' |> <| hs_driver := mkSocatTunHostDriver
                (mkTunReader (take 24 p) (take 24 p ++ buffer) data) true |>) ∧
    length buffer = (length p - 24)%nat ∧
    pipe_in o' = drop 24 p ++ rest ∧ pipe_out o' = pipe_out (hs_os h).
Proof.
  intros (Htx & Htype & Hhdr) [Hlen Hsize] Hin.
  destruct (pipe_read headerLen (hs_os h)) as (o' & Hr & Hin' & Hout').
  { rewrite Hin, length_app. unfold headerLen. lia. }
  rewrite Hin in Hr, Hin'. change headerLen with 24%nat in *.
  rewrite take_app_le in Hr by lia. rewrite drop_app_le in Hin' by lia.
  destruct h as [tx cod ac fm [[hdr pkt ty] txif] o]. cbn [hs_driver su_txIf su_reader tr_readType
    tr_readHeader hs_os] in *. subst.
  exists o', (drop 24 (resize (length p) 0 pkt)).
  split; [|split; [by rewrite length_drop, length_resize|done]].
  unfold socat_tun.on_readable, socat_tun.doRead, tun_reader.doRead, tun_reader.read_header, load, store.
  eapply (bind_step _ _ _ ()); [|done].
  do 2 (eapply bind_step; [done|]). cbn [tr_readType su_reader view lens_comp Lens_socat_reader host_drv socat_tun.on_reader hs_driver].
  eapply bind_step; [by apply host_read|]. cbv beta iota.
  do 2 (eapply bind_step; [done|]). change headerLen with 24%nat. rewrite Z.eqb_refl. cbn [negb].
  eapply bind_step; [done|]. cbv zeta.
  unfold update. cbn -[take drop resize getLength tun_reader.overlay decide length].
  rewrite overlay_all by (rewrite length_take; lia). rewrite getLength_take by done.
  unfold sizeof_m_tun in *. rewrite Hsize.
  rewrite decide_True by (rewrite length_resize; unfold headerLen; lia).
  unfold tun_reader.overlay. rewrite length_take, Nat.min_l by lia. done.
Qed.

Lemma ip_dest_take p buffer : (24 ≤ length p)%nat → ip_dest (take 24 p ++ buffer) = ip_dest p.
Proof.
  intros Hp. unfold ip_dest, byte_at.
  by rewrite lookup_app_l, lookup_take_lt by (rewrite ?length_take; lia).
Qed.

(** The second read: the rest, and the packet is handed over. *)
Lemma read_data_ok p rest own h buffer :
  ip_packet p → own_addr h = own → own ≠ null_addr →
  hs_driver h = mkSocatTunHostDriver (mkTunReader (take 24 p) (take 24 p ++ buffer) data) true →
  length buffer = (length p - 24)%nat → pipe_in (hs_os h) = drop 24 p ++ rest →
  ∃ o', socat_tun.on_readable (H := ()) h
      = Ok (true, queued [tun_packet own (ip_dest p) p] (h <| hs_os := o' |>
          <| hs_driver := mkSocatTunHostDriver (mkTunReader (take 24 p) p header) true |>)) ∧
    pipe_in o' = rest ∧ pipe_out o' = pipe_out (hs_os h).
Proof.
  intros [Hlen Hsize] <- Hown Hd Hbuf Hin.
  destruct (pipe_read (length p - 24) (hs_os h)) as (o' & Hr & Hin' & Hout').
  { rewrite Hin, length_app, length_drop. lia. }
  rewrite Hin in Hr, Hin'.
  rewrite take_app_length' in Hr by (rewrite length_drop; lia).
  rewrite drop_app_length' in Hin' by (rewrite length_drop; lia).
  exists o'. split; [|done].
  destruct h as [tx cod ac fm drv o]. cbn [hs_driver hs_os] in *. subst drv.
  assert (length (take 24 p) = 24%nat) as Ht by (rewrite length_take; lia).
  unfold socat_tun.on_readable, socat_tun.doRead, tun_reader.doRead, tun_reader.read_data, load, store.
  eapply (bind_step _ _ _ ()); [|done].
  do 3 (eapply bind_step; [done|]).
  cbn [tr_rxTunPacket su_reader view lens_comp Lens_socat_reader host_drv socat_tun.on_reader
    hs_driver]. cbv zeta.
  unfold sizeof_TunIpv4Header. rewrite length_app, Ht, Hbuf.
  replace (24 + (length p - 24) - 24)%nat with (length p - 24)%nat by lia.
  eapply bind_step; [by apply host_read|]. cbv beta iota.
  do 2 (eapply bind_step; [done|]). rewrite Z.eqb_refl. cbn [negb su_txIf].
  rewrite (ip_dest_take p buffer) by done.
  set (h1 := mkHostState tx cod ac fm (mkSocatTunHostDriver (mkTunReader (take 24 p) p header) true) o').
  transitivity (host_sendPacket (H := ()) p (ip_dest p) tun_format h1).
  { unfold update. cbn -[take drop tun_reader.overlay host_sendPacket].
    rewrite drop_app_length', overlay_all by (rewrite ?length_drop; lia).
    rewrite take_app_length' by done. by rewrite take_drop. }
  by rewrite sendPacket_queues.
Qed.

(** The loop finds the stream readable [n] times. *)
Definition read_events (n : nat) : M Host () :=
  for_each (λ _, socat_tun.on_readable (H := ()) ;; skip) (replicate n ()).

Lemma read_packet p rest h :
  at_header h → ip_packet p → own_addr h ≠ null_addr → pipe_in (hs_os h) = p ++ rest →
  ∃ h', read_events 2 h = Ok ((), h') ∧ at_header h' ∧ own_addr h' = own_addr h ∧
    pipe_in (hs_os h') = rest ∧
    queue_of h' = queue_of h ++ [tun_packet (own_addr h) (ip_dest p) p].
Proof.
  intros Hh Hp Hown Hin.
  destruct (read_header_ok p rest h Hh Hp Hin) as (o1 & buffer & H1 & Hbuf & Hin1 & _).
  set (h1 := h <| hs_os := o1 |> <| hs_driver := _ |>) in H1.
  destruct (read_data_ok p rest (own_addr h) h1 buffer Hp eq_refl Hown eq_refl Hbuf Hin1)
    as (o2 & H2 & Hin2 & _).
  eexists. split; [|split_and!].
  - unfold read_events. cbn [replicate for_each].
    rewrite (bind_ok _ _ h () _ (bind_step _ _ _ _ _ _ H1 eq_refl)).
    by rewrite (bind_ok _ _ _ () _ (bind_step _ _ _ _ _ _ H2 eq_refl)).
  - split_and!; [done|done|]. cbn. destruct Hp. rewrite length_take. unfold headerLen. lia.
  - done.
  - exact Hin2.
  - done.
Qed.

Lemma read_packets packets rest h :
  at_header h → Forall ip_packet packets → own_addr h ≠ null_addr →
  pipe_in (hs_os h) = concat packets ++ rest →
  ∃ h', read_events (2 * length packets) h = Ok ((), h') ∧ at_header h' ∧
    pipe_in (hs_os h') = rest ∧
    queue_of h' = queue_of h ++ ((λ p, tun_packet (own_addr h) (ip_dest p) p) <$> packets).
Proof.
  intros Hh Hps Hown. revert h Hh Hown.
  induction Hps as [|p packets Hp Hps IH]; intros h Hh Hown Hin.
  { exists h. split_and!; [done|apply Hh..|done|]. by rewrite app_nil_r. }
  cbn [concat] in Hin. rewrite <-app_assoc in Hin.
  destruct (read_packet p _ h Hh Hp Hown Hin) as (h1 & H1 & Hh1 & Ho1 & Hin1 & Hq1).
  destruct (IH h1 Hh1) as (h2 & H2 & Hh2 & Hin2 & Hq2); [by rewrite Ho1|done|].
  exists h2. split; [|split; [done|split; [done|]]].
  - replace (2 * length (p :: packets))%nat with (2 + 2 * length packets)%nat by (cbn; lia).
    unfold read_events. rewrite replicate_add, for_each_app.
    by eapply bind_step.
  - rewrite Hq2, Hq1, Ho1, <-app_assoc. done.
Qed.

Lemma write_packets own packets h :
  ∃ h', for_each (λ p, socat_tun.packetReceivedFromNet (drop 4 p) (byte_at 3 p) (byte_at 2 p)
           (byte2ChannelType (byte_at 1 p)))
          ((λ p, tun_packet own (ip_dest p) p) <$> packets) h = Ok ((), h') ∧
    pipe_out (hs_os h') = pipe_out (hs_os h) ++ concat packets.
Proof.
  revert h. induction packets as [|p packets IH]; intros h.
  { exists h. split; [done|]. by rewrite app_nil_r. }
  destruct (pipe_write p (hs_os h)) as (o1 & H1 & _ & Hout1).
  destruct (IH (h <| hs_os := o1 |>)) as (h2 & H2 & Hout2).
  exists h2. split; [|rewrite Hout2; cbn [concat]; by rewrite app_assoc, <-Hout1].
  cbn [fmap list_fmap for_each]. eapply bind_step; [|exact H2].
  unfold socat_tun.packetReceivedFromNet.
  change (drop 4 (tun_packet own (ip_dest p) p)) with p.
  eapply bind_step; [by apply host_write|]. by rewrite Z.eqb_refl.
Qed.

(** C19. Packets over streams. A stream of IP packets that socat delivers, with whatever
    follows it, is read two events to a packet: each packet is queued as one, for the
    node that its IP address names, in order, the driver is between two packets
    again and what follows is still to be read; and a driver that receives these
    packets from the net writes the stream again, byte for byte. *)
Theorem tun_stream_roundtrip packets rest (a b : Host) :
  at_header a → own_addr a ≠ null_addr → Forall ip_packet packets →
  pipe_in (hs_os a) = concat packets ++ rest →
  let sent := (λ p, tun_packet (own_addr a) (ip_dest p) p) <$> packets in
  ∃ a' b', read_events (2 * length packets) a = Ok ((), a') ∧
    at_header a' ∧ pipe_in (hs_os a') = rest ∧ queue_of a' = queue_of a ++ sent ∧
    for_each (λ p, socat_tun.packetReceivedFromNet (drop 4 p) (byte_at 3 p) (byte_at 2 p)
      (byte2ChannelType (byte_at 1 p))) sent b = Ok ((), b') ∧
    pipe_out (hs_os b') = pipe_out (hs_os b) ++ concat packets.
Proof.
  intros Hh Hown Hps Hin sent.
  destruct (read_packets packets rest a Hh Hps Hown Hin) as (a' & ? & ? & ? & ?).
  destruct (write_packets (own_addr a) packets b) as (b' & ? & ?).
  by exists a', b'.
Qed.

(** A header that is too short. A stream whose next packet claims to be shorter than
    an IP header, which no sender of IP packets does, leads the driver to write the
    header it has read over the end of a buffer of that size. *)
Theorem short_length_undefined p rest (h : Host) :
  at_header h → length p = 24%nat → (getLength p < 20)%nat → pipe_in (hs_os h) = p ++ rest →
  socat_tun.on_readable (H := ()) h
    = Fail (Undefined "m_rxTunPacket is shorter than the header").
Proof.
  intros (Htx & Htype & Hhdr) Hlen Hsize Hin.
  destruct (pipe_read headerLen (hs_os h)) as (o' & Hr & _ & _).
  { rewrite Hin, length_app. unfold headerLen. lia. }
  rewrite Hin, take_app_length' in Hr by done.
  destruct h as [tx cod ac fm [[hdr pkt ty] txif] o]. cbn [hs_driver su_txIf su_reader tr_readType
    tr_readHeader hs_os] in *. subst.
  unfold socat_tun.on_readable, socat_tun.doRead, tun_reader.doRead, tun_reader.read_header, load, store.
  apply bind_fail. do 2 (eapply bind_step; [done|]).
  cbn [tr_readType su_reader view lens_comp Lens_socat_reader host_drv socat_tun.on_reader
    hs_driver].
  eapply bind_step; [by apply host_read|]. cbv beta iota.
  do 2 (eapply bind_step; [done|]). rewrite Z.eqb_refl. cbn [negb].
  eapply bind_step; [done|]. cbv zeta.
  unfold update. cbn -[take drop resize getLength tun_reader.overlay decide length].
  rewrite overlay_all by (by rewrite Hlen, Hhdr).
  rewrite decide_False; [done|]. rewrite length_resize. unfold headerLen, sizeof_m_tun. lia.
Qed.
End stream.

(** Streams that are what they hold. *)
#[export] Instance pipe_file : PosixFileIf (ByteVec * ByteVec) := {
  posix_open _ _ := mret 3;
  posix_open_mode _ _ _ := mret 3;
  posix_read _ n := s ← get;
    put (drop n s.1, s.2) ;;
    let l := take n s.1 in mret (Z.of_nat (length l), l);
  posix_write _ l := modify (λ s, (s.1, s.2 ++ l)) ;; mret (Z.of_nat (length l));
  posix_close _ := mret 0;
  posix_system _ := mret 0;
  posix_errno := mret EAGAIN
}.
#[export] Program Instance pipe_streams : Pipe (ByteVec * ByteVec) := {
  pipe_in := fst;
  pipe_out := snd
}.
Next Obligation.
  intros n [i o] Hn. simpl in Hn. exists (drop n i, o). split_and!; try done.
  unfold posix_read, pipe_file, mbind, M_bind, get, put, mret, M_ret. cbn [fst snd].
  by rewrite length_take, Nat.min_l by lia.
Qed.
Next Obligation. intros l [i o]. by exists (i, o ++ l). Qed.

(** Two packets, of 21 and of 20 bytes, to the nodes 35 and 3. *)
Definition ip1 : ByteVec := [0; 0; 8; 0; 0x45; 0; 0; 21] ++ replicate 12 0 ++ [10; 0; 0; 35; 77].
Definition ip2 : ByteVec := [0; 0; 8; 0; 0x45; 0; 0; 20] ++ replicate 12 0 ++ [10; 0; 0; 3].

Definition socat_node (addr : LocalAddress) (input : ByteVec) :
    HostState SocatTunHostDriver (ByteVec * ByteVec) :=
  new_host addr (cache.newAddressCache [])
    ((socat_tun.newSocatTunHostDriver (replicate 24 0)) <| su_txIf := true |>) (input, []).

Lemma tun_stream_roundtrip_witness :
  ∃ a' b', read_events 4 (socat_node 33 (ip1 ++ ip2 ++ [0; 0; 8])) = Ok ((), a') ∧
    (hs_os a').1 = [0; 0; 8] ∧
    queue_of a' = [[4; 2; 35; 33] ++ ip1; [4; 2; 3; 33] ++ ip2] ∧ (hs_os b').2 = ip1 ++ ip2 ∧
    for_each (λ p, socat_tun.packetReceivedFromNet (drop 4 p) (byte_at 3 p) (byte_at 2 p)
      (byte2ChannelType (byte_at 1 p))) (queue_of a') (socat_node 35 []) = Ok ((), b').
Proof.
  destruct (tun_stream_roundtrip [ip1; ip2] [0; 0; 8] (socat_node 33 (ip1 ++ ip2 ++ [0; 0; 8]))
    (socat_node 35 [])) as (a' & b' & Ha & _ & Hin & Hq & Hb & Hout);
    [by split_and!|discriminate|apply (bool_decide_eq_true_1 (Forall ip_packet [ip1; ip2])); reflexivity|reflexivity|].
  exists a', b'. split; [exact Ha|]. split; [exact Hin|]. split; [exact Hq|].
  split; [exact Hout|]. rewrite Hq. exact Hb.
Defined.

Lemma short_length_undefined_witness :
  socat_tun.on_readable (H := ()) (socat_node 33 ([0; 0; 8; 0; 0x45; 0; 0; 19] ++ replicate 17 0))
    = Fail (Undefined "m_rxTunPacket is shorter than the header").
Proof.
  apply (short_length_undefined ([0; 0; 8; 0; 0x45; 0; 0; 19] ++ replicate 16 0) [0]);
    [by split_and!|reflexivity|apply Nat.ltb_lt; reflexivity|reflexivity].
Defined.

(** A node with an interface, and a packet that claims to be longer than it is. *)
Definition tun_node (input : ByteVec) : HostState TunHostDriver (ByteVec * ByteVec) :=
  new_host 33 (cache.newAddressCache [])
    ((tun_driver.newTunHostDriver []) <| tn_tun ::= tun.setTx true |>) (input, []).

Lemma tun_reads_one_packet_witness :
  tun_driver.on_readable (H := ()) (replicate 2023 9) (tun_node ip1)
    = Ok (true, queued [[4; 2; 35; 33] ++ ip1] (tun_node [])) ∧
  tun_driver.on_readable (H := ()) (replicate 2024 9) (tun_node (take 24 ip1))
    = Ok (true, queued [[4; 2; 35; 33] ++ take 24 ip1 ++ [9]] (tun_node [])).
Proof.
  split.
  - exact (tun_reads_one_packet (replicate 2023 9) (tun_node ip1) ip1 ([], []) eq_refl
      ltac:(discriminate) eq_refl eq_refl).
  - exact (tun_reads_one_packet (replicate 2024 9) (tun_node (take 24 ip1)) (take 24 ip1) ([], [])
      eq_refl ltac:(discriminate) eq_refl eq_refl).
Defined.
