(* ===== verification/RawDrivers.v ===== *)
(** * The raw drivers (drivers/pty/PtyRawHostDriver.h, PtyRawHostDriver.cpp,
    drivers/stdstream/StdioRawHostDriver.h, StdioRawHostDriver.cpp)

    Plain data between a pseudo terminal, or the standard streams, and one peer. *)

From S2P Require Import Prelude SerialProtocol Config Interfaces Posix FolderManager.

(** The calls of <stdlib.h> and <termios.h> for pseudo terminals. *)
Class PtyIf (S : Type) := {
  pty_openpt : Z → M S Z;
  pty_grantpt : Z → M S Z;
  pty_unlockpt : Z → M S Z;
  pty_tcgetattr : Z → M S (Z * Termios);
  pty_cfmakeraw : Termios → M S Termios;
  pty_tcsetattr : Z → Z → Termios → M S Z;
  pty_ptsname : Z → M S (option string)
}.
#[export] Hint Mode PtyIf ! : typeclass_instances.

(** [&data[0]] *)
Definition address_of_first {S} (data : ByteVec) : M S () :=
  match data with
  | [] => fail (Undefined "data[0] of an empty vector")
  | _ => skip
  end.

(** ** A pseudo terminal *)

Record PtyRawHostDriver : Type := mkPtyRawHostDriver {
  py_pty_fd : PosixFd;
  py_peerAddr : LocalAddress;
  py_txHandler : bool;
  py_fm : bool
}.
#[export] Instance Eta_PtyRawHostDriver : Eta PtyRawHostDriver := λ d,
  mkPtyRawHostDriver (py_pty_fd d) (py_peerAddr d) (py_txHandler d) (py_fm d).

Module pty.
(** The events of the loop that the driver registers for. *)
Inductive callback : Type := Readable | Available.

Definition newPtyRawHostDriver : PtyRawHostDriver :=
  mkPtyRawHostDriver (posix_fd.newPosixFd true) null_addr false false.
Definition setFM (fm : bool) (d : PtyRawHostDriver) : PtyRawHostDriver := d <| py_fm := fm |>.

Section pty.
Context {H S : Type} `{!Lens S PtyRawHostDriver, !Lens S FolderManager}.
Context `{!PosixFileIf S, !PtyIf S, !FolderIf S, !EventLoopIf callback S, !MsgHostIf H S}.
(** This driver, as the core knows it. *)
Context (self : H).

Definition openPty : M S Z :=
  fd ← pty_openpt (Z.lor O_RDWR O_NOCTTY);
  if fd =? -1 then fail (Exception "Failed posix_openpt.")
  else
    res ← pty_grantpt fd;
    if res =? -1 then fail (Exception "Failed grantpt.")
    else
      res ← pty_unlockpt fd;
      if res =? -1 then fail (Exception "Failed unlockpt.")
      else
        '(res, ti) ← pty_tcgetattr fd;
        if res =? -1 then folder.system_error
        else
          ti ← pty_cfmakeraw ti;
          res ← pty_tcsetattr fd 0 ti;
          if res =? -1 then folder.system_error else mret fd.

Definition ptyName (fd : Z) : M S string :=
  name ← pty_ptsname fd;
  match name with
  | None => fail (Exception "No pty name given")
  | Some name => mret name
  end.

Definition packetReceivedFromNet (data : ByteVec) (srcAddr destAddr : LocalAddress)
    (chType : ChannelType) : M S () :=
  if decide (chType = raw_stream) then
    d ← load;
    if (srcAddr =? py_peerAddr d) || (py_peerAddr d =? broadcast) then
      address_of_first data ;;
      posix_write (posix_fd.get (py_pty_fd d)) data ;;
      skip
    else skip
  else skip.

Definition triggerPtyRestart : M S () := loop_onAvailable Available.

Definition doRead : M S bool :=
  let buffLen := 2048%nat in
  d ← load;
  '(readlen, readBuf) ← posix_read (posix_fd.get (py_pty_fd d)) buffLen;
  if readlen =? -1 then
    errno ← posix_errno;
    if errno =? EIO then
      triggerPtyRestart ;;
      mret false
    else mret true
  else
    d ← load;
    (if py_txHandler d then
       host_sendPacket (take (Z.to_nat readlen) readBuf) (py_peerAddr d) raw_stream
     else skip) ;;
    mret true.

Definition closePty : M S () :=
  d ← load;
  (if py_fm d && posix_fd.valid (py_pty_fd d) then
     fm ← load;
     folder.removePtyLink (py_peerAddr d) fm
   else skip) ;;
  d ← load;
  fd ← posix_fd.close (py_pty_fd d);
  d ← load;
  store (d <| py_pty_fd := fd |>).

Definition monitorRead : M S () :=
  fd ← openPty;
  d ← load;
  m_pty_fd ← posix_fd.set fd (py_pty_fd d);
  d ← load;
  store (d <| py_pty_fd := m_pty_fd |>) ;;
  name ← ptyName (posix_fd.get m_pty_fd);
  d ← load;
  (if py_fm d then
     fm ← load;
     folder.addPtyLink (py_peerAddr d) name fm
   else skip) ;;
  d ← load;
  loop_onReadable (posix_fd.get (py_pty_fd d)) Readable.

(** The callbacks, and whether they are to be called again. *)
Definition on_readable : M S bool := doRead.
Definition on_available : M S bool :=
  closePty ;;
  monitorRead ;;
  mret false.

Definition setupCallback (peerAddress : LocalAddress) : M S () :=
  d ← load;
  store (d <| py_peerAddr := peerAddress |> <| py_txHandler := true |>) ;;
  monitorRead ;;
  host_setRxHandler (Some self) raw_stream.

Definition destroy : M S () :=
  closePty ;;
  d ← load;
  posix_fd.destroy (py_pty_fd d).
End pty.
End pty.

(** ** The standard streams *)

Record StdioRawHostDriver : Type := mkStdioRawHostDriver {
  sd_rxAddr : LocalAddress;
  sd_destAddr : LocalAddress;
  sd_txHandler : bool
}.
#[export] Instance Eta_StdioRawHostDriver : Eta StdioRawHostDriver := λ d,
  mkStdioRawHostDriver (sd_rxAddr d) (sd_destAddr d) (sd_txHandler d).

Module stdio.
Inductive callback : Type := Readable.

Definition newStdioRawHostDriver : StdioRawHostDriver :=
  mkStdioRawHostDriver null_addr null_addr false.

Section stdio.
Context {H S : Type} `{!Lens S StdioRawHostDriver}.
Context `{!PosixFileIf S, !EventLoopIf callback S, !MsgHostIf H S}.

Definition startStdout (rxAddress : LocalAddress) : M S () :=
  d ← load;
  store (d <| sd_rxAddr := rxAddress |>).

Definition setupCallback : M S () := loop_onReadable STDIN_FILENO Readable.

Definition startStdin (destAddr : LocalAddress) : M S () :=
  d ← load;
  store (d <| sd_destAddr := destAddr |> <| sd_txHandler := true |>) ;;
  setupCallback.

Definition writeToNet (packet : ByteVec) : M S () :=
  d ← load;
  if sd_txHandler d && negb (sd_destAddr d =? null_addr) then
    host_sendPacket packet (sd_destAddr d) raw_stream
  else skip.

Definition on_readable : M S bool :=
  let maxRead := 2000%nat in
  '(dataRead, buffer) ← posix_read STDIN_FILENO maxRead;
  (if 0 <? dataRead then writeToNet (take (Z.to_nat dataRead) buffer) else skip) ;;
  mret true.

Definition packetReceivedFromNet (data : ByteVec) (srcAddr destAddr : LocalAddress)
    (chType : ChannelType) : M S () :=
  address_of_first data ;;
  posix_write STDOUT_FILENO data ;;
  skip.
End stdio.
End stdio.
