(* ===== verification/RawProps.v ===== *)
(** * Properties of the raw drivers

    Data from terminal to terminal; a terminal that is gone is replaced, and its
    link with it; and the standard streams, which get nothing. *)

From stdpp Require Import gmap pretty.
From S2P Require Import Prelude SerialProtocol Config Interfaces TxQueue PacketTypeCodec.
From S2P Require Import AddressCache Posix FolderManager DriverHost RawDrivers.

(** The calls for terminals, in a state that contains the system's. *)
#[export] Instance host_pty {D O} `{!PtyIf O} : PtyIf (HostState D O) := {
  pty_openpt flags := os (pty_openpt flags : M O Z);
  pty_grantpt fd := os (pty_grantpt fd : M O Z);
  pty_unlockpt fd := os (pty_unlockpt fd : M O Z);
  pty_tcgetattr fd := os (pty_tcgetattr fd : M O (Z * Termios));
  pty_cfmakeraw t := os (pty_cfmakeraw t : M O Termios);
  pty_tcsetattr fd a t := os (pty_tcsetattr fd a t : M O Z);
  pty_ptsname fd := os (pty_ptsname fd : M O (option string))
}.

(** ** Data from terminal to terminal *)

(** The terminal [fd] is read, and written, chunk by chunk. *)
Fixpoint reads {O} `{!PosixFileIf O} (fd : Z) (chunks : list ByteVec) (o o' : O) : Prop :=
  match chunks with
  | [] => o' = o
  | c :: cs => ∃ o1, posix_read fd 2048 o = Ok ((Z.of_nat (length c), c), o1) ∧ reads fd cs o1 o'
  end.
Fixpoint writes {O} `{!PosixFileIf O} (fd : Z) (chunks : list ByteVec) (o o' : O) : Prop :=
  match chunks with
  | [] => o' = o
  | c :: cs => ∃ n o1, posix_write fd c o = Ok (n, o1) ∧ writes fd cs o1 o'
  end.

(** The packet that carries a chunk. *)
Definition raw_packet := data_packet raw_stream.

Section terminals.
Context {O : Type} `{!PosixFileIf O, !EventLoopIf pty.callback O}.
Abbreviation Host := (HostState PtyRawHostDriver O).
Implicit Types (h : Host) (chunks : list ByteVec).

Definition pty_fd_of h : Z := posix_fd.get (py_pty_fd (hs_driver h)).

Lemma pty_doRead c h o1 :
  py_txHandler (hs_driver h) = true → own_addr h ≠ null_addr →
  posix_read (pty_fd_of h) 2048 (hs_os h) = Ok ((Z.of_nat (length c), c), o1) →
  pty.on_readable (H := ()) h
    = Ok (true, queued [raw_packet (own_addr h) (py_peerAddr (hs_driver h)) c]
                  (h <| hs_os := o1 |>)).
Proof.
  intros Htx Hown Hread. unfold pty.on_readable, pty.doRead, load.
  eapply bind_step; [done|].
  eapply bind_step; [by apply host_read|]. cbv beta iota.
  destruct (Z.eqb_spec (Z.of_nat (length c)) (-1)); [lia|].
  eapply bind_step; [done|]. cbn [view host_drv].
  eapply (bind_step _ _ _ ()); [|done].
  change (hs_driver (h <| hs_os := o1 |>)) with (hs_driver h). rewrite Htx.
  rewrite Nat2Z.id, firstn_all. etrans; [by apply sendPacket_queues|done].
Qed.

(** The loop finds the terminal readable [n] times. *)
Definition pty_events (n : nat) : M Host () :=
  for_each (λ _, pty.on_readable (H := ()) ;; skip) (replicate n ()).

Lemma pty_reads chunks h o' :
  py_txHandler (hs_driver h) = true → own_addr h ≠ null_addr →
  reads (pty_fd_of h) chunks (hs_os h) o' →
  pty_events (length chunks) h
    = Ok ((), queued (raw_packet (own_addr h) (py_peerAddr (hs_driver h)) <$> chunks)
                (h <| hs_os := o' |>)).
Proof.
  revert h. induction chunks as [|c cs IH]; intros h Htx Hown Hr; cbn [reads] in Hr.
  { subst. destruct h as [[m] ?????]. unfold queued, update. cbn. by rewrite app_nil_r. }
  destruct Hr as (o1 & Hr1 & Hr).
  eapply bind_step; [eapply bind_step; [by apply pty_doRead|done]|].
  etrans; [apply (IH (queued _ (h <| hs_os := o1 |>))); done|].
  destruct h as [[m] ?????]. unfold queued, update. cbn. by rewrite <-app_assoc.
Qed.

Lemma pty_writes own dest chunks h o' :
  py_peerAddr (hs_driver h) = own ∨ py_peerAddr (hs_driver h) = broadcast →
  Forall (λ c, c ≠ []) chunks →
  writes (pty_fd_of h) chunks (hs_os h) o' →
  for_each (λ c, pty.packetReceivedFromNet c own dest raw_stream) chunks h
    = Ok ((), h <| hs_os := o' |>).
Proof.
  intros Hpeer Hne. revert h Hpeer.
  induction Hne as [|c cs Hc Hne IH]; intros h Hpeer Hw; cbn [writes] in Hw.
  { subst. by destruct h. }
  destruct Hw as (n & o1 & Hw1 & Hw). cbn [for_each].
  eapply (bind_step _ _ _ () (h <| hs_os := o1 |>)); [|etrans; [apply (IH (h <| hs_os := o1 |>)); done|done]].
  unfold pty.packetReceivedFromNet, load. rewrite decide_True by done.
  eapply bind_step; [done|]. cbn [view host_drv].
  replace ((own =? py_peerAddr (hs_driver h)) || (py_peerAddr (hs_driver h) =? broadcast))
    with true
    by (symmetry; apply orb_true_iff; rewrite !Z.eqb_eq; destruct Hpeer as [-> | ->]; auto).
  eapply bind_step; [by destruct c|].
  eapply bind_step; [by apply host_write|]. done.
Qed.

(** C28. Data from terminal to terminal. What a node with an address reads from its
    terminal, chunk by chunk, is queued for the peer as one packet a chunk, in order;
    and the driver of a node that has the sender as its peer, or all, writes exactly
    these chunks to its terminal, in order, if none is empty. *)
Theorem pty_data_transported chunks (a b : Host) oa' ob' :
  py_txHandler (hs_driver a) = true → own_addr a ≠ null_addr →
  py_peerAddr (hs_driver b) = own_addr a ∨ py_peerAddr (hs_driver b) = broadcast →
  Forall (λ c, c ≠ []) chunks →
  reads (pty_fd_of a) chunks (hs_os a) oa' → writes (pty_fd_of b) chunks (hs_os b) ob' →
  let sent := raw_packet (own_addr a) (py_peerAddr (hs_driver a)) <$> chunks in
  ∃ a', pty_events (length chunks) a = Ok ((), a') ∧
    tq_txMsg (hs_tx a') = tq_txMsg (hs_tx a) ++ sent ∧
    for_each (λ p, pty.packetReceivedFromNet (drop 4 p) (byte_at 3 p) (own_addr b)
      (byte2ChannelType (byte_at 1 p))) sent b = Ok ((), b <| hs_os := ob' |>).
Proof.
  intros Htx Hown Hpeer Hne Hr Hw sent. eexists.
  split; [by apply pty_reads|]. split; [done|].
  rewrite <-(pty_writes (own_addr a) (own_addr b) chunks b ob') by done.
  unfold sent. by rewrite for_each_fmap.
Qed.
End terminals.

(** ** A terminal that is gone *)

(** Making terminals while resources last, none of which touches the folder. *)
Class PtyDevices (O : Type) `{!PosixFileIf O, !PtyIf O, !EventLoopIf pty.callback O, !FolderIf O,
    !FileSystem O} := {
  pd_openpt flags (o : O) :
    ∃ fd o', pty_openpt flags o = Ok (fd, o') ∧ 0 < fd ∧ fs o' = fs o;
  pd_grantpt fd (o : O) : ∃ o', pty_grantpt fd o = Ok (0, o') ∧ fs o' = fs o;
  pd_unlockpt fd (o : O) : ∃ o', pty_unlockpt fd o = Ok (0, o') ∧ fs o' = fs o;
  pd_tcgetattr fd (o : O) : ∃ t o', pty_tcgetattr fd o = Ok ((0, t), o') ∧ fs o' = fs o;
  pd_cfmakeraw t (o : O) : ∃ t' o', pty_cfmakeraw t o = Ok (t', o') ∧ fs o' = fs o;
  pd_tcsetattr fd a t (o : O) : ∃ o', pty_tcsetattr fd a t o = Ok (0, o') ∧ fs o' = fs o;
  pd_ptsname fd (o : O) : ∃ name o', pty_ptsname fd o = Ok (Some name, o') ∧ fs o' = fs o;
  pd_close fd (o : O) : ∃ n o', posix_close fd o = Ok (n, o') ∧ fs o' = fs o;
  pd_readable fd c (o : O) : ∃ o', loop_onReadable fd c o = Ok ((), o') ∧ fs o' = fs o
}.

Section restart.
Context {O : Type} `{!PosixFileIf O, !PtyIf O, !EventLoopIf pty.callback O, !FolderIf O}.
Context `{!FileSystem O, PD : !PtyDevices O}.
#[local] Set Default Proof Using "Type PD".
Abbreviation Host := (HostState PtyRawHostDriver O).
Implicit Types (h : Host).

Lemma addPtyLink_zoom addr p fm h :
  folder.addPtyLink addr p fm h = os (folder.addPtyLink addr p fm : M O ()) h.
Proof. unfold os, folder.addPtyLink. symmetry. lift_calls. Qed.

Lemma removePtyLink_zoom addr fm h :
  folder.removePtyLink addr fm h = os (folder.removePtyLink addr fm : M O ()) h.
Proof. unfold os, folder.removePtyLink. symmetry. lift_calls. Qed.

Lemma wp_openPty h (Q : Z → Host → Prop) :
  (∀ fd o', 0 < fd → fs o' = fs (hs_os h) → Q fd (h <| hs_os := o' |>)) →
  wp pty.openPty never Q h.
Proof.
  intros HQ. unfold pty.openPty.
  destruct (pd_openpt (Z.lor O_RDWR O_NOCTTY) (hs_os h)) as (fd & o1 & H1 & Hfd & F1).
  wp_step. eapply wp_os; [exact H1|]. cbv beta.
  destruct (Z.eqb_spec fd (-1)); [lia|].
  destruct (pd_grantpt fd o1) as (o2 & H2 & F2).
  wp_step. eapply wp_os; [exact H2|]. change (0 =? -1) with false. cbv beta iota.
  destruct (pd_unlockpt fd o2) as (o3 & H3 & F3).
  wp_step. eapply wp_os; [exact H3|]. change (0 =? -1) with false. cbv beta iota.
  destruct (pd_tcgetattr fd o3) as (t & o4 & H4 & F4).
  wp_step. eapply wp_os; [exact H4|]. cbv beta iota.
  change (0 =? -1) with false. cbv beta iota.
  destruct (pd_cfmakeraw t o4) as (t' & o5 & H5 & F5).
  wp_step. eapply wp_os; [exact H5|]. cbv beta.
  destruct (pd_tcsetattr fd 0 t' o5) as (o6 & H6 & F6).
  wp_step. eapply wp_os; [exact H6|]. change (0 =? -1) with false. cbv beta iota.
  apply wp_ret. apply (HQ fd o6); [done|]. congruence.
Qed.

(** The terminal's link is there. *)
Definition linked h : Prop :=
  let link := folder.link_path (fm_rootPath (hs_fm h)) (py_peerAddr (hs_driver h)) in
  fs (hs_os h) !! fm_rootPath (hs_fm h) = Some Dir ∧
  fs (hs_os h) !! folder.ptyDirPath (fm_rootPath (hs_fm h)) = Some Dir ∧
  ∃ old, fs (hs_os h) !! link = Some (Link old).

Lemma wp_closePty fd h :
  py_fm (hs_driver h) = true → py_pty_fd (hs_driver h) = mkPosixFd fd true → 0 ≤ fd →
  linked h →
  let link := folder.link_path (fm_rootPath (hs_fm h)) (py_peerAddr (hs_driver h)) in
  wp pty.closePty never
    (λ _ h', ∃ o', fs o' = delete link (fs (hs_os h)) ∧
       h' = h <| hs_os := o' |> <| hs_driver ::= λ d, d <| py_pty_fd := mkPosixFd (-1) true |> |>) h.
Proof.
  intros Hfm Hpty Hfd (_ & _ & old & Hlink) link. unfold pty.closePty, load, store.
  wp_step. apply wp_gets. cbn [view host_drv]. rewrite Hfm, Hpty.
  unfold posix_fd.valid. cbn [pfd_fd]. destruct (Z.leb_spec 0 fd); [|lia]. cbn [andb].
  do 2 wp_step. apply wp_gets. cbn [view host_fm].
  destruct (fs_unlink _ _ _ Hlink) as (o1 & H1 & F1).
  eapply (wp_eq _ _ _ _ () (h <| hs_os := o1 |>)).
  { rewrite removePtyLink_zoom. apply os_step. unfold folder.removePtyLink.
    by rewrite (bind_ok _ _ _ _ _ H1). }
  wp_step. apply wp_gets. cbn [view host_drv].
  change (hs_driver (h <| hs_os := o1 |>)) with (hs_driver h). rewrite Hpty.
  unfold posix_fd.close, posix_fd.set. cbn [pfd_fd pfd_posixIf].
  destruct (Z.leb_spec 0 fd); [|lia]. cbn [andb].
  destruct (pd_close fd o1) as (n & o2 & H2 & F2).
  do 3 wp_step. eapply wp_os; [exact H2|]. apply wp_skip. apply wp_ret.
  wp_step. apply wp_gets. apply wp_modify. exists o2. split; [by rewrite F2|].
  destruct h as [????[]?]. cbn in Hpty. by subst.
Qed.

Lemma wp_monitorRead h :
  py_fm (hs_driver h) = true → py_pty_fd (hs_driver h) = mkPosixFd (-1) true →
  folder_ok (hs_fm h) (hs_os h) → link_ok (hs_fm h) (py_peerAddr (hs_driver h)) (hs_os h) →
  let link := folder.link_path (fm_rootPath (hs_fm h)) (py_peerAddr (hs_driver h)) in
  fs (hs_os h) !! link = None →
  wp pty.monitorRead never
    (λ _ h', ∃ fd' name o', 0 < fd' ∧ (∃ o1 o2 : O, pty_ptsname fd' o1 = Ok (Some name, o2)) ∧
       fs o' = <[link := Link name]> (with_dir (hs_fm h) (hs_os h)) ∧
       h' = h <| hs_os := o' |> <| hs_driver ::= λ d, d <| py_pty_fd := mkPosixFd fd' true |> |>) h.
Proof.
  destruct h as [tx codec ac fm [pfd peer txh fmb] o]. cbn [hs_driver hs_fm hs_os py_fm py_pty_fd py_peerAddr].
  intros -> -> Hok Hlink Hno. set (link := folder.link_path _ _) in *. unfold pty.monitorRead, load, store.
  wp_step. apply wp_openPty. intros fd' o2 Hfd' F2. cbn [hs_os] in F2.
  wp_step. apply wp_gets. cbn [view host_drv]. unfold posix_fd.set.
  cbn [pfd_fd pfd_posixIf hs_driver update py_pty_fd]. change (0 <=? -1) with false. cbn [andb].
  do 2 wp_step. apply wp_skip. apply wp_ret. wp_step. apply wp_gets. wp_step. apply wp_modify.
  cbn [view set_view host_drv]. unfold pty.ptyName.
  destruct (pd_ptsname fd' o2) as (name & o3 & H3 & F3).
  do 2 wp_step. eapply wp_os; [exact H3|]. apply wp_ret.
  set (h3 := mkHostState tx codec ac fm (mkPtyRawHostDriver (mkPosixFd fd' true) peer txh true) o3).
  match goal with |- wp _ _ _ ?s => change s with h3 end.
  wp_step. apply wp_gets. cbn [view host_drv]. change (py_fm (hs_driver h3)) with true. cbv iota.
  wp_step. wp_step. apply wp_gets. change (view h3 : FolderManager) with fm.
  change (py_peerAddr (hs_driver h3)) with peer.
  assert (fs o3 = fs o) as Ho by (by rewrite F3, F2).
  assert (folder_ok fm o3 ∧ link_ok fm peer o3) as [Hok3 Hl3].
  { unfold folder_ok, link_ok. by rewrite Ho. }
  pose proof (addPtyLink_spec peer name fm o3 Hok3 Hl3) as Hadd.
  replace (dangling (with_dir fm o3) (folder.link_path (fm_rootPath fm) peer)) with false in Hadd.
  2:{ unfold dangling, with_dir. fold link. rewrite lookup_insert_ne, Ho; [by rewrite Hno|].
      unfold link.
      rewrite link_path_dir. intros He. by apply (path_below _ _ _ (eq_sym He)). }
  destruct Hadd as (o4 & H4 & F4). fold link in F4.
  eapply (wp_eq _ _ _ _ () (h3 <| hs_os := o4 |>)).
  { rewrite addPtyLink_zoom. by apply os_step. }
  wp_step. apply wp_gets. destruct (pd_readable fd' pty.Readable o4) as (o5 & H5 & F5).
  eapply wp_os; [exact H5|]. exists fd', name, o5.
  split; [done|]. split; [by exists o2, o3|]. split; [|done].
  unfold with_dir in *. by rewrite F5, F4, Ho.
Qed.

End restart.

(** ** The standard streams *)

Section streams.
Context {O : Type} `{!PosixFileIf O, !EventLoopIf stdio.callback O}.
Abbreviation Host := (HostState StdioRawHostDriver O).

#[export] Instance stdio_callbacks : HostCallbacks () Host := {
  packetReceivedFromNet _ data src dest chType :=
    stdio.packetReceivedFromNet data src dest chType;
  msgHostRx_newAddr _ _ := skip
}.

(** What the program does for the standard streams. *)
Definition start_std_io (peerAddr : LocalAddress) : M Host () :=
  stdio.startStdout broadcast ;;
  stdio.startStdin peerAddr.

Lemma no_delivery msgs (h : Host) :
  tq_rxIfRaw (hs_tx h) = None → tq_rxIfTap (hs_tx h) = None → tq_rxIfTun (hs_tx h) = None →
  pt_rxMsg (hs_codec h) = msgs → Forall (λ p, 4 ≤ length p)%nat msgs →
  codec.deliverRxQueue (H := ()) h = Ok ((), h <| hs_codec ::= λ c, c <| pt_rxMsg := [] |> |>).
Proof.
  intros Hraw Htap Htun Hm Hl. unfold codec.deliverRxQueue.
  eapply bind_step; [done|]. cbn [view host_codec]. rewrite Hm.
  revert h Hraw Htap Htun Hm. induction Hl as [|p msgs Hp Hl IH]; intros h Hraw Htap Htun Hm.
  { cbn [while_ length]. unfold load. eapply bind_step; [done|]. cbn [view host_codec].
    unfold codec.empty. rewrite Hm. unfold skip. do 2 f_equal.
    destruct h as [? [] ????]. cbn in Hm. by subst. }
  cbn [while_ length]. unfold load at 1. cbv beta.
  eapply (bind_step _ _ _ true h).
  { eapply bind_step; [done|]. unfold codec.empty. cbn [view host_codec]. by rewrite Hm. }
  cbv iota.
  eapply (bind_step _ _ _ () (h <| hs_codec ::= λ c, c <| pt_rxMsg := msgs |> |>)); [|].
  - unfold codec.deliverFront, load, store. eapply bind_step; [done|]. cbn [view host_codec].
    rewrite Hm. cbn [head]. eapply bind_step; [done|].
    eapply bind_step; [by unfold assert; rewrite bool_decide_eq_true_2|].
    eapply bind_step; [by unfold lift_result, toHeader; rewrite decide_True|].
    eapply bind_step; [done|]. cbn [view host_tx].
    replace (tx_queue.getRxIf _ (hs_tx h)) with (None : option ())
      by (symmetry; unfold tx_queue.getRxIf; by destruct (packet.sp_chType _)).
    do 2 (eapply bind_step; [done|]). unfold modify. cbn [view set_view host_codec].
    do 2 f_equal. unfold update. cbn. by rewrite Hm.
  - etrans; [by apply (IH (h <| hs_codec ::= λ c, c <| pt_rxMsg := msgs |> |>))|].
    done.
Qed.

(** The standard streams get nothing. The driver for them tells the core where its
    input goes, but not that it is there: a node that is started for the standard
    streams, and has no other driver, drops the packets of its peer that it accepts,
    and nothing of them reaches the standard output. *)
Theorem std_io_receives_nothing ownAddr peerAddr msgs codec ac fm (o o' : O) :
  loop_onReadable STDIN_FILENO stdio.Readable o = Ok ((), o') →
  Forall (λ p, 4 ≤ length p)%nat msgs →
  ∃ h, (start_std_io peerAddr ;;
        c ← load; store (c <| pt_rxMsg := msgs |>) ;;
        codec.deliverRxQueue (H := ()))
       (mkHostState (tx_queue.newTxQueue ownAddr) codec ac fm stdio.newStdioRawHostDriver o)
     = Ok ((), h) ∧ hs_os h = o'.
Proof.
  intros Hloop Hm. set (h0 := mkHostState _ _ _ _ _ _).
  assert (start_std_io peerAddr h0 = Ok ((), h0 <| hs_os := o' |>
    <| hs_driver := mkStdioRawHostDriver broadcast peerAddr true |>)) as Hstart.
  { unfold start_std_io, stdio.startStdout, stdio.startStdin, stdio.setupCallback, load, store.
    do 3 (eapply bind_step; [done|]). cbn [loop_onReadable host_loop].
    etrans; [apply os_step; exact Hloop|]. done. }
  eexists. split.
  - eapply bind_step; [exact Hstart|]. do 2 (eapply bind_step; [done|]).
    by apply (no_delivery msgs).
  - done.
Qed.
End streams.

(** ** Examples *)

(** Two terminals: what is typed at one, in chunks, and what was written to the other. *)
#[local] Instance typed_file : PosixFileIf (list ByteVec * list ByteVec) := {
  posix_open _ _ := mret 3;
  posix_open_mode _ _ _ := mret 3;
  posix_read _ _ := s ← get;
    match s.1 with
    | c :: cs => put (cs, s.2) ;; mret (Z.of_nat (length c), c)
    | [] => mret (-1, [])
    end;
  posix_write _ l := modify (λ s, (s.1, s.2 ++ [l])) ;; mret (Z.of_nat (length l));
  posix_close _ := mret 0;
  posix_system _ := mret 0;
  posix_errno := mret EAGAIN
}.
#[local] Instance idle_loop {C O} : EventLoopIf C O := {
  loop_onReadable _ _ := skip;
  loop_onAvailable _ := skip
}.

Definition pty_node {O} (own peer : LocalAddress) (o : O) : HostState PtyRawHostDriver O :=
  new_host own (cache.newAddressCache [])
    (mkPtyRawHostDriver (mkPosixFd 3 true) peer true true) o.

Lemma pty_data_transported_witness :
  ∃ a', pty_events 2 (pty_node 33 35 ([[104; 105]; [10]], [])) = Ok ((), a') ∧
    tq_txMsg (hs_tx a') = [[4; 1; 35; 33; 104; 105]; [4; 1; 35; 33; 10]] ∧
    for_each (λ p, pty.packetReceivedFromNet (drop 4 p) (byte_at 3 p) 35
        (byte2ChannelType (byte_at 1 p))) (tq_txMsg (hs_tx a')) (pty_node 35 33 ([], []))
      = Ok ((), pty_node 35 33 ([], [[104; 105]; [10]])).
Proof.
  destruct (pty_data_transported [[104; 105]; [10]] (pty_node 33 35 ([[104; 105]; [10]], []))
    (pty_node 35 33 ([], [])) ([], []) ([], [[104; 105]; [10]])) as (a' & Ha & Hq & Hb);
    [reflexivity|discriminate|left; reflexivity|repeat constructor; discriminate
    |repeat eexists|repeat eexists|].
  exists a'. split; [exact Ha|]. split; [exact Hq|]. rewrite Hq. exact Hb.
Defined.

Lemma std_io_receives_nothing_witness :
  ∃ h, (start_std_io 33 ;;
        c ← load; store (c <| pt_rxMsg := [[4; 1; 35; 33; 104; 105]] |>) ;;
        codec.deliverRxQueue (H := ()))
       (new_host 35 (cache.newAddressCache []) stdio.newStdioRawHostDriver ([], []))
     = Ok ((), h) ∧ hs_os h = ([], []).
Proof.
  apply (std_io_receives_nothing (O := list ByteVec * list ByteVec) 35 33 [[4; 1; 35; 33; 104; 105]]).
  - reflexivity.
  - repeat constructor.
Defined.

(** A folder, and terminals that have a name and nothing else. *)
#[local] Instance memory_file : PosixFileIf (gmap string Node) := {
  posix_open _ _ := mret 3;
  posix_open_mode _ _ _ := mret 3;
  posix_read _ _ := mret (-1, []);
  posix_write _ l := mret (Z.of_nat (length l));
  posix_close _ := mret 0;
  posix_system _ := mret 0;
  posix_errno := mret EIO
}.
#[local] Instance memory_pty : PtyIf (gmap string Node) := {
  pty_openpt _ := mret 7;
  pty_grantpt _ := mret 0;
  pty_unlockpt _ := mret 0;
  pty_tcgetattr _ := mret (0, mkTermios 0 0 0 0 0 0 0 0);
  pty_cfmakeraw t := mret t;
  pty_tcsetattr _ _ _ := mret 0;
  pty_ptsname fd := mret (Some ("/dev/pts/" +:+ pretty fd)%string)
}.
#[local] Program Instance memory_devices : PtyDevices (gmap string Node).
Solve Obligations with (intros; eauto 10 with lia).

