(* ===== verification/SNConfig.v ===== *)
(** * The configuration (mains/serialnet/SNConfig.h, SNConfig.cpp)

    From the options of the command line, which [boost::program_options] has parsed,
    to the configuration of a node; and what the master makes of the address in it. *)

From S2P Require Import Prelude SerialProtocol VecQueue Config SerialDriver.
From S2P Require Import TimeService MasterScheduler MasterState DynamicHandler Master.
From S2P Require Import MasterInvariant MasterRuns MasterProps.

Module SNConfig.
Inductive Mode : Type :=
  | unknown | none | std_io | raw_pty | socat_tun | socat_tap | tun | tap | setup_tap | remove_tap
  | mode_max_num.
#[global] Instance Mode_eq_dec : EqDecision Mode.
Proof. solve_decision. Defined.

Definition toString (mode : Mode) : string :=
  match mode with
  | unknown => "unknown"
  | none => "none"
  | std_io => "std_io"
  | raw_pty => "raw_pty"
  | socat_tun => "socat_tun"
  | socat_tap => "socat_tap"
  | tun => "tun"
  | tap => "tap"
  | setup_tap => "setup_tap"
  | remove_tap => "remove_tap"
  | mode_max_num => "mode_max_num"
  end.

Definition toMode (mode : string) : Mode :=
  if decide (mode = "unknown"%string) then unknown
  else if decide (mode = "none"%string) then none
  else if decide (mode = "std_io"%string) then std_io
  else if decide (mode = "raw_pty"%string) then raw_pty
  else if decide (mode = "socat_tun"%string) then socat_tun
  else if decide (mode = "socat_tap"%string) then socat_tap
  else if decide (mode = "tun"%string) then tun
  else if decide (mode = "tap"%string) then tap
  else if decide (mode = "setup_tap"%string) then setup_tap
  else if decide (mode = "remove_tap"%string) then remove_tap
  else unknown.

Definition toOption (str : string) : RtsOptions :=
  if decide (str = "None"%string) then RtsNone
  else if decide (str = "pulldown"%string) then pulldown
  else if decide (str = "rs485_te"%string) then rs485_te
  else RtsNone.

Definition RtsOptions_toString (option : RtsOptions) : string :=
  match option with RtsNone => "None" | pulldown => "pulldown" | rs485_te => "rs485_te" end.

(** The parsed options: those without a default may be missing. *)
Record Options : Type := mkOptions {
  vm_serial_device : option string;
  vm_mode : option string;
  vm_on_if_up : string;
  vm_on_if_down : string;
  vm_master : bool;
  vm_serial_options : string;
  vm_user : string;
  vm_group : string;
  vm_tap_name : string;
  vm_wsdump : option string;
  vm_address : Z;
  vm_peer_address : option Z;
  vm_mtimeout : Z
}.

Record SNConfig : Type := mkSNConfig {
  sn_etherPath : string;
  sn_mode : Mode;
  sn_on_if_up : string;
  sn_on_if_down : string;
  sn_startMaster : bool;
  sn_rtsOption : RtsOptions;
  sn_wsDumpPath : string;
  sn_tapName : string;
  sn_staticAddr : LocalAddress;
  sn_peerAddr : LocalAddress;
  sn_masterTimeout : Z;
  sn_user : string;
  sn_group : string;
  sn_rootPath : string
}.

Definition newSNConfig : SNConfig :=
  mkSNConfig "" unknown "" "" false RtsNone "" "" null_addr null_addr 0 "" "" "~/.serialnet".

(** [as<T>()] throws for an option that is missing. *)
Definition setupSNConfig (vm : Options) (c : SNConfig) : result SNConfig :=
  match vm_mode vm with
  | None => Fail (Exception "bad_any_cast")
  | Some mode =>
      let wsDumpPath := default (sn_wsDumpPath c) (vm_wsdump vm) in
      let myAddr := vm_address vm in
      if (myAddr <? 0) || (myAddr >? 32) then Fail (Exception "Illegal static address.")
      else
        let myAddr := if (myAddr =? 0) && vm_master vm then 1 else myAddr in
        let peerAddr := match vm_peer_address vm with
                        | Some a => toLocalAddress a
                        | None => broadcast
                        end in
        Ok (mkSNConfig (default "" (vm_serial_device vm))%string (toMode mode) (vm_on_if_up vm)
          (vm_on_if_down vm) (vm_master vm) (toOption (vm_serial_options vm)) wsDumpPath
          (vm_tap_name vm) (to_uint8 myAddr) peerAddr (vm_mtimeout vm) (vm_user vm) (vm_group vm)
          (sn_rootPath c))
  end.
End SNConfig.
Import SNConfig (toMode, toOption, setupSNConfig, newSNConfig).

(** Names of the modes. The name of every mode is read back as that mode, but for
    the marker [mode_max_num]; whatever is not a name of a mode is read as [unknown].
    The same for the options of the RTS line, with [None]. *)
Theorem mode_roundtrip :
  (∀ m, toMode (SNConfig.toString m)
     = if decide (m = SNConfig.mode_max_num) then SNConfig.unknown else m) ∧
  (∀ s, SNConfig.toString (toMode s) = s ∨
     toMode s = SNConfig.unknown ∧ ∀ m, m ≠ SNConfig.mode_max_num → SNConfig.toString m ≠ s) ∧
  (∀ o, toOption (SNConfig.RtsOptions_toString o) = o) ∧
  (∀ s, SNConfig.RtsOptions_toString (toOption s) = s ∨
     toOption s = RtsNone ∧ ∀ o, SNConfig.RtsOptions_toString o ≠ s).
Proof.
  split_and!.
  - by intros [].
  - intros s. unfold toMode. repeat case_decide; subst; auto.
    right. split; [done|]. intros [] Hm; simpl; congruence.
  - by intros [].
  - intros s. unfold toOption. repeat case_decide; subst; auto.
    right. split; [done|]. intros []; simpl; congruence.
Qed.

Section addresses.
Context {E Q : Type} `{!MasterEnv E} `{!PriorityQueue Q} `{Hlaws : !MasterEnvLaws E}.
Abbreviation Master := (Master (E := E) (Q := Q)).
#[local] Set Default Proof Using "Type Hlaws".

(** Static addresses. An address from the command line is accepted up to 32, and a
    node with a master never goes without one; but the masters only ever poll the
    addresses 1 to 3 of these, so that a node with an accepted address from 4 to 32
    never gets a token from any master. *)
Theorem static_address_polled vm c c' (s : Master) :
  setupSNConfig vm c = Ok c' → reachable s →
  let addr := SNConfig.sn_staticAddr c' in
  0 ≤ addr ≤ 32 ∧ (SNConfig.sn_startMaster c' = true → addr ≠ null_addr) ∧
  (addr ∈ addresses s.2 ↔ 1 ≤ addr ≤ 3).
Proof.
  intros Hset Hr addr.
  assert (0 ≤ addr ≤ 32 ∧ (SNConfig.sn_startMaster c' = true → addr ≠ null_addr)) as [Hb Hm].
  { revert Hset. unfold addr, setupSNConfig. destruct (SNConfig.vm_mode vm); [|done].
    destruct (_ || _) eqn:Hrange; [done|]. intros [= <-]. simpl.
    apply orb_false_iff in Hrange as [?%Z.ltb_ge Hgt].
    rewrite Z.gtb_ltb, Z.ltb_ge in Hgt.
    destruct (SNConfig.vm_address vm =? 0) eqn:H0; [destruct (SNConfig.vm_master vm)|]; simpl;
      rewrite to_uint8_small by (unfold is_byte; lia); unfold null_addr; lia. }
  split; [done|]. split; [done|].
  destruct (reachable_settled s Hr) as (k & a & _ & _ & Hok & _). split.
  - intros Hin. destruct (wo_table _ _ _ Hok) as [Hp _ _ _].
    assert (addr ∈ static_addresses ++ dynamic_addresses) as Hin'.
    { rewrite <-Hp. apply elem_of_app. by left. }
    apply elem_of_app in Hin' as [Hin'|Hin']; [|].
    + unfold static_addresses in Hin'. set_unfold in Hin'. lia.
    + apply elem_of_seqZ in Hin'. lia.
  - intros Ha. eapply static_in_table; [exact Hok|]. unfold static_addresses. set_unfold. lia.
Qed.
End addresses.

(** A client that is given the address 20, on a net with a master that runs. *)
Definition client20 : SNConfig.Options :=
  SNConfig.mkOptions (Some "/dev/ttyUSB0"%string) (Some "raw_pty"%string) "" "" false "" "" ""
    "tap0" None 20 (Some 1) (-1).

Lemma static_address_polled_witness :
  ∃ c, setupSNConfig client20 newSNConfig = Ok c ∧ SNConfig.sn_staticAddr c = 20 ∧
    20 ∉ addresses (example_master quiet_node asked).2.
Proof.
  destruct (setupSNConfig client20 newSNConfig) as [c|e] eqn:Hc; [|discriminate Hc].
  destruct (static_address_polled client20 newSNConfig c (example_master quiet_node asked) Hc)
    as (_ & _ & Hiff); [apply example_reachable; eexists; vm_compute; reflexivity|].
  exists c. split; [reflexivity|]. injection Hc as <-. split; [reflexivity|].
  intros Hin. apply Hiff in Hin. vm_compute in Hin. destruct Hin as [_ Hin]. by apply Hin.
Defined.
