(* ===== verification/EventLoop.v ===== *)
(** * The event loop wrapper (eventwrapper/, hal/TimeServiceEv)

    Watchers are objects that shared pointers own. While one is registered with libev
    it owns itself, by [m_self] ([m_tw] in a TimeWatcher), and its address is what
    libev gives back to the callback. Objects are kept in a heap with their count of
    other owners; using one that is gone is undefined. libev is the class [LibEv]. *)

From stdpp Require Import gmap.
From S2P Require Import Prelude Config TimeService Posix.

(** ** libev *)

(** What a watcher is initialised with, and what it is registered for: a timer is given
    a time span and is registered for a point in time. The function that libev calls is
    the one that [ev_io_init], [ev_signal_init] or [ev_timer_init] was given. *)
Inductive ev_watcher : Type :=
  | ev_io (fd : Z)
  | ev_signal (signal : Z)
  | ev_timer (after : Time).

Definition registered_at (now_ : Time) (w : ev_watcher) : ev_watcher :=
  match w with ev_timer after => ev_timer (now_ + after) | w => w end.

Class LibEv (L : Type) := {
  ev_start : nat → ev_watcher → L → L;
  ev_stop : nat → L → L;
  ev_break : L → L;
  ev_now : L → Time;
  ev_now_update : L → L;
  (** What is seen of its state: the registered watchers, and a call of [ev_break]. *)
  ev_active : L → nat → option ev_watcher;
  ev_broken : L → bool;
  (** In [ev_run] the time advances, and a watcher with an event is taken to be called. *)
  ev_wait : L → L → Prop;
  ev_take : L → nat → ev_watcher → L → Prop
}.
#[export] Hint Mode LibEv ! : typeclass_instances.

(** The documentation of libev, for watchers that are started while they are inactive:
    a timer without repetition is stopped before it is called. Points in time mean what
    they say as long as nobody sets the clock. *)
Class LibEvLaws (L : Type) `{!LibEv L} : Prop := {
  active_start (l : L) p w q : ev_active l p = None →
    ev_active (ev_start p w l) q
    = if decide (q = p) then Some (registered_at (ev_now l) w) else ev_active l q;
  active_stop (l : L) p q :
    ev_active (ev_stop p l) q = if decide (q = p) then None else ev_active l q;
  active_break (l : L) : ev_active (ev_break l) = ev_active l;
  active_update (l : L) : ev_active (ev_now_update l) = ev_active l;
  active_wait (l l' : L) : ev_wait l l' → ev_active l' = ev_active l;
  take_active (l l' : L) p w : ev_take l p w l' → ev_active l p = Some w;
  active_take (l l' : L) p w q : ev_take l p w l' →
    ev_active l' q
    = match w with
      | ev_timer _ => if decide (q = p) then None else ev_active l q
      | _ => ev_active l q
      end;
  take_due (l l' : L) p at_ : ev_take l p (ev_timer at_) l' → at_ ≤ ev_now l;
  now_start (l : L) p w : ev_now (ev_start p w l) = ev_now l;
  now_stop (l : L) p : ev_now (ev_stop p l) = ev_now l;
  now_break (l : L) : ev_now (ev_break l) = ev_now l;
  now_take (l l' : L) p w : ev_take l p w l' → ev_now l' = ev_now l;
  broken_start (l : L) p w : ev_broken (ev_start p w l) = ev_broken l;
  broken_stop (l : L) p : ev_broken (ev_stop p l) = ev_broken l;
  broken_break (l : L) : ev_broken (ev_break l) = true;
  broken_update (l : L) : ev_broken (ev_now_update l) = ev_broken l;
  broken_take (l l' : L) p w : ev_take l p w l' → ev_broken l' = ev_broken l;
  broken_wait (l l' : L) : ev_wait l l' → ev_broken l' = ev_broken l
}.

(** ** The objects *)

(** A callback is an element of the client's type [C], as in the time service. *)
Record TimeoutData (C : Type) : Type := mkTimeoutData {
  td_watcher : bool;
  td_fkn : option C;
  td_active : bool
}.
Arguments mkTimeoutData {C}.
Arguments td_watcher {C} _.
Arguments td_fkn {C} _.
Arguments td_active {C} _.
#[export] Instance Eta_TimeoutData {C} : Eta (TimeoutData C) := λ d,
  mkTimeoutData (td_watcher d) (td_fkn d) (td_active d).

Definition newTimeoutData {C} : TimeoutData C := mkTimeoutData false None false.

Inductive Watcher (C : Type) : Type :=
  | IoWatcher (fd : Z) (fkn : C)
  | SignalWatcher (signal : Z) (fkn : C)
  | TimeoutWatcher (m_data : TimeoutData C)
  | TimeWatcher (m_data : TimeoutData C).
Arguments IoWatcher {C}.
Arguments SignalWatcher {C}.
Arguments TimeoutWatcher {C}.
Arguments TimeWatcher {C}.

Record Object (C : Type) : Type := mkObject {
  ob_watcher : Watcher C;
  ob_self : bool;
  ob_refs : nat
}.
Arguments mkObject {C}.
Arguments ob_watcher {C} _.
Arguments ob_self {C} _.
Arguments ob_refs {C} _.
#[export] Instance Eta_Object {C} : Eta (Object C) := λ o,
  mkObject (ob_watcher o) (ob_self o) (ob_refs o).

Record EventLoop (C L : Type) : Type := mkEventLoop {
  el_heap : gmap nat (Object C);
  el_next : nat;
  m_loop : L
}.
Arguments mkEventLoop {C L}.
Arguments el_heap {C L} _.
Arguments el_next {C L} _.
Arguments m_loop {C L} _.
#[export] Instance Eta_EventLoop {C L} : Eta (EventLoop C L) := λ s,
  mkEventLoop (el_heap s) (el_next s) (m_loop s).

(** The default loop of libev is made once, in [setup]. *)
Definition newEventLoop {C L} (ev_default_loop : L) : EventLoop C L :=
  mkEventLoop ∅ 0 ev_default_loop.

Definition use_after_free : Failure := Undefined "use of an object that is freed".
Definition wrong_class : Failure := Undefined "static_cast to another class".

(** ** Operations *)

Section operations.
Context {C L : Type} `{!LibEv L}.
Abbreviation Loop := (EventLoop C L).
Implicit Types (p : nat) (o : Object C) (d : TimeoutData C).

Definition libev (f : L → L) : M Loop () := modify (λ s, s <| m_loop ::= f |>).

Definition object p : M Loop (Object C) :=
  h ← gets el_heap;
  match h !! p with Some o => mret o | None => fail use_after_free end.

Definition set_object p o : M Loop () := modify (λ s, s <| el_heap ::= <[p := o]> |>).

(** [std::make_shared]: one owner, the pointer that is returned. *)
Definition make_shared (w : Watcher C) : M Loop nat :=
  p ← gets el_next;
  modify (λ s, s <| el_next ::= Datatypes.S |> <| el_heap ::= <[p := mkObject w false 1]> |>) ;;
  mret p.

Definition m_data (w : Watcher C) : option (TimeoutData C) :=
  match w with TimeoutWatcher d | TimeWatcher d => Some d | _ => None end.

Definition with_data (d : TimeoutData C) (w : Watcher C) : Watcher C :=
  match w with
  | TimeoutWatcher _ => TimeoutWatcher d
  | TimeWatcher _ => TimeWatcher d
  | w => w
  end.

(** The destructors: only that of [TimeoutData] does anything. *)
Definition destroy p : M Loop () :=
  o ← object p;
  (if default false (td_active <$> m_data (ob_watcher o)) then libev (ev_stop p) else skip) ;;
  modify (λ s, s <| el_heap ::= delete p |>).

Definition owned o : bool := ob_self o || (0 <? ob_refs o)%nat.

(** The object goes with its last owner. *)
Definition collect p : M Loop () :=
  o ← object p;
  if owned o then skip else destroy p.

(** [m_self.reset()] *)
Definition reset_self p : M Loop () :=
  o ← object p;
  set_object p (o <| ob_self := false |>) ;;
  collect p.

Definition set_self p : M Loop () :=
  o ← object p;
  set_object p (o <| ob_self := true |>).

(** Another owner of a shared pointer comes or goes. *)
Definition retain p : M Loop () :=
  o ← object p;
  set_object p (o <| ob_refs ::= Datatypes.S |>).

Definition release p : M Loop () :=
  o ← object p;
  set_object p (o <| ob_refs ::= pred |>) ;;
  collect p.
End operations.

Module io_watcher.
Section io_watcher.
Context {C L : Type} `{!LibEv L}.

Definition setup (p : nat) (fd : Z) : M (EventLoop C L) () :=
  set_self p ;;
  libev (ev_start p (ev_io fd)).

Definition mkIoWatch (fd : Z) (fkn : C) : M (EventLoop C L) nat :=
  t ← make_shared (IoWatcher fd fkn);
  setup t fd ;;
  mret t.

Definition active (p : nat) : M (EventLoop C L) bool :=
  o ← object p;
  mret (ob_self o).

Definition cb {S} `{!Lens S (EventLoop C L)} (call : C → M S bool) (p : nat) : M S () :=
  o ← zoom (object p);
  match ob_watcher o with
  | IoWatcher _ m_fkn =>
      res ← call m_fkn;
      if negb res then
        zoom (object p) ;;
        zoom (libev (ev_stop p)) ;;
        zoom (reset_self p)
      else skip
  | _ => fail wrong_class
  end.
End io_watcher.
End io_watcher.

Module signal_watcher.
Section signal_watcher.
Context {C L : Type} `{!LibEv L}.

Definition setup (p : nat) (signal : Z) : M (EventLoop C L) () :=
  set_self p ;;
  libev (ev_start p (ev_signal signal)).

Definition mkSignalWatch (signal : Z) (fkn : C) : M (EventLoop C L) nat :=
  t ← make_shared (SignalWatcher signal fkn);
  setup t signal ;;
  mret t.

Definition active (p : nat) : M (EventLoop C L) bool :=
  o ← object p;
  mret (ob_self o).

Definition cb {S} `{!Lens S (EventLoop C L)} (call : C → M S bool) (p : nat) : M S () :=
  o ← zoom (object p);
  match ob_watcher o with
  | SignalWatcher _ m_fkn =>
      res ← call m_fkn;
      if negb res then
        zoom (object p) ;;
        zoom (libev (ev_stop p)) ;;
        zoom (reset_self p)
      else skip
  | _ => fail wrong_class
  end.
End signal_watcher.
End signal_watcher.

(** [TimeoutData], a part of a TimeoutWatcher or of a TimeWatcher. *)
Module timeout_data.
Section timeout_data.
Context {C L : Type} `{!LibEv L}.

Definition data (p : nat) : M (EventLoop C L) (TimeoutData C) :=
  o ← object p;
  match m_data (ob_watcher o) with Some d => mret d | None => fail wrong_class end.

Definition set_data (p : nat) (f : TimeoutData C → TimeoutData C) : M (EventLoop C L) () :=
  d ← data p;
  o ← object p;
  set_object p (o <| ob_watcher ::= with_data (f d) |>).

Definition setup (p : nat) (timespan : Time) : M (EventLoop C L) () :=
  set_data p (λ d, d <| td_active := true |>) ;;
  libev (ev_start p (ev_timer timespan)).

Definition start (p : nat) (timespan : Time) (fkn : C) : M (EventLoop C L) () :=
  set_data p (λ d, d <| td_fkn := Some fkn |>) ;;
  setup p timespan.

Definition cancel (p : nat) : M (EventLoop C L) () :=
  libev (ev_stop p) ;;
  set_data p (λ d, d <| td_active := false |>).

Definition setWatcher (p : nat) : M (EventLoop C L) () :=
  set_data p (λ d, d <| td_watcher := true |>).

Definition active (p : nat) : M (EventLoop C L) bool :=
  d ← data p;
  mret (td_active d).
End timeout_data.
End timeout_data.

Module timeout_watcher.
Section timeout_watcher.
Context {C L : Type} `{!LibEv L}.

Definition setup (p : nat) (fkn : C) (delay : Time) : M (EventLoop C L) () :=
  set_self p ;;
  timeout_data.start p delay fkn ;;
  timeout_data.setWatcher p.

Definition mkTimeoutWatch (delay : Time) (fkn : C) : M (EventLoop C L) nat :=
  t ← make_shared (TimeoutWatcher newTimeoutData);
  setup t fkn delay ;;
  mret t.

Definition active (p : nat) : M (EventLoop C L) bool := timeout_data.active p.

Definition cancel (p : nat) : M (EventLoop C L) () :=
  timeout_data.cancel p ;;
  reset_self p.

Definition clear (p : nat) : M (EventLoop C L) () := reset_self p.
End timeout_watcher.
End timeout_watcher.

(** The class [TimeWatcher] of the time service. What it gives to [TimeoutData] is the
    closure that calls [fkn] and then resets [m_tw]. *)
Module time_watcher.
Section time_watcher.
Context {C L : Type} `{!LibEv L}.

Definition makeTimeout (p : nat) (timespan : Time) (fkn : C) : M (EventLoop C L) () :=
  set_self p ;;
  timeout_data.start p timespan fkn.

Definition closure {S} `{!Lens S (EventLoop C L)} (call : C → M S bool)
    (p : nat) (fkn : C) : M S () :=
  call fkn ;;
  zoom (reset_self p).

Definition cancel (p : nat) : M (EventLoop C L) () := timeout_data.cancel p.
End time_watcher.
End time_watcher.

(** [TimeoutData::cb]. The function it calls has the type of a [void] function: the
    result of a callback is dropped. *)
Section timeout_cb.
Context {C L S : Type} `{!LibEv L, !Lens S (EventLoop C L)} (call : C → M S bool).

Definition m_fkn (p : nat) : M S () :=
  o ← zoom (object p);
  match ob_watcher o with
  | TimeoutWatcher d => c ← deref "bad_function_call" (td_fkn d); call c ;; skip
  | TimeWatcher d => c ← deref "bad_function_call" (td_fkn d); time_watcher.closure call p c
  | _ => fail wrong_class
  end.

Definition TimeoutData_cb (p : nat) : M S () :=
  d ← zoom (timeout_data.data p);
  if td_active d then
    zoom (timeout_data.cancel p) ;;
    m_fkn p ;;
    d ← zoom (timeout_data.data p);
    if td_watcher d then zoom (timeout_watcher.clear p) else skip
  else skip.
End timeout_cb.

(** [EventLoop] *)
Module event_loop.
Section event_loop.
Context {C L : Type} `{!LibEv L}.

Definition onReadable (fd : Z) (cb : C) : M (EventLoop C L) nat := io_watcher.mkIoWatch fd cb.

Definition onTimeout (delay : Time) (cb : C) : M (EventLoop C L) nat :=
  timeout_watcher.mkTimeoutWatch delay cb.

Definition onAvailable (cb : C) : M (EventLoop C L) nat := timeout_watcher.mkTimeoutWatch 0 cb.

Definition onSignal (signal : Z) (cb : C) : M (EventLoop C L) nat :=
  signal_watcher.mkSignalWatch signal cb.

Definition stop : M (EventLoop C L) () := libev ev_break.

Definition now : M (EventLoop C L) Time := gets (λ s, ev_now (m_loop s)).

Definition updateNow : M (EventLoop C L) () := libev ev_now_update.
End event_loop.

(** [run]: libev calls one watcher after another until it is told to stop or none is
    left. A step is one callback, or time that passes. *)
Section run.
Context {C L S : Type} `{!LibEv L, !Lens S (EventLoop C L)} (call : C → M S bool).

(** [stdin_cb], [signal_cb] and [timeout_cb]. *)
Definition ev_callback (w : ev_watcher) (p : nat) : M S () :=
  match w with
  | ev_io _ => io_watcher.cb call p
  | ev_signal _ => signal_watcher.cb call p
  | ev_timer _ => TimeoutData_cb call p
  end.

Definition loop_of (s : S) : EventLoop C L := view s.
Definition with_ev (l : L) (s : S) : S := set_view ((loop_of s) <| m_loop := l |>) s.

Inductive step (s : S) : S → Prop :=
  | step_event p w l s' :
      ev_take (m_loop (loop_of s)) p w l →
      ev_callback w p (with_ev l s) = Ok ((), s') →
      step s s'
  | step_wait l :
      ev_wait (m_loop (loop_of s)) l → step s (with_ev l s).

Definition finished (s : S) : Prop :=
  ev_broken (m_loop (loop_of s)) = true ∨ ∀ p, ev_active (m_loop (loop_of s)) p = None.

Definition run (s s' : S) : Prop := rtc step s s' ∧ finished s'.
End run.
End event_loop.

(** [TimeServiceIf::Timer] over shared pointers: a handle is a pointer or null. *)
Module timer.
Section timer.
Context {C L : Type} `{!LibEv L}.

Definition cancel (m_timer : Timer) : M (EventLoop C L) Timer :=
  match m_timer with
  | Some p => time_watcher.cancel p ;; release p
  | None => skip
  end ;;
  mret None.

Definition destroy (m_timer : Timer) : M (EventLoop C L) () :=
  match m_timer with
  | Some p => time_watcher.cancel p ;; release p
  | None => skip
  end.

(** The copy constructor. *)
Definition copy (t : Timer) : M (EventLoop C L) Timer :=
  match t with Some p => retain p | None => skip end ;;
  mret t.

Definition move_assign (m_timer t : Timer) : M (EventLoop C L) Timer :=
  match m_timer with Some p => release p | None => skip end ;;
  mret t.

Definition copy_assign (m_timer t : Timer) : M (EventLoop C L) Timer :=
  tt ← copy t;
  destroy m_timer ;;
  mret tt.
End timer.
End timer.

Module TimeServiceEv.
Section TimeServiceEv.
Context {C L : Type} `{!LibEv L}.

Definition now : M (EventLoop C L) Time := event_loop.now.

(** The pointers [tw] and [ti] of the function go when it returns, the one in the
    [Timer] stays. *)
Definition makeTimeout (timespan : Time) (fkn : C) : M (EventLoop C L) Timer :=
  tw ← make_shared (TimeWatcher newTimeoutData);
  time_watcher.makeTimeout tw timespan fkn ;;
  mret (Some tw).

Definition makeTimeoutAbs (timepoint : Time) (fkn : C) : M (EventLoop C L) Timer :=
  tw ← make_shared (TimeWatcher newTimeoutData);
  t ← now;
  time_watcher.makeTimeout tw (timepoint - t) fkn ;;
  mret (Some tw).

Definition cancel (t : Timer) : M (EventLoop C L) Timer := timer.cancel t.
End TimeServiceEv.
End TimeServiceEv.

(** What the drivers use, which keep no pointer to their watchers. *)
#[export] Instance event_loop_if {C L} `{!LibEv L} : EventLoopIf C (EventLoop C L) := {
  loop_onReadable fd c := p ← event_loop.onReadable fd c; release p;
  loop_onAvailable c := p ← event_loop.onAvailable c; release p
}.
