(* ===== verification/EventLoopProps.v ===== *)
(** * What the event loop promises

    The invariant of the watchers, slot by slot: what libev has registered is an object
    that exists, owns itself and is of the class whose callback libev calls. Then what
    a callback does to its watcher, and what a run of the loop keeps. *)

From stdpp Require Import gmap.
From S2P Require Import Prelude Config TimeService Posix EventLoop.

Section slots.
Context {C L : Type} `{!LibEv L}.
Abbreviation Loop := (EventLoop C L).
Implicit Types (s : Loop) (o : Object C) (d : TimeoutData C) (p : nat).

(** ** The invariant *)

Definition timer_ok o d (a : option ev_watcher) : Prop :=
  is_Some (td_fkn d) ∧
  (if td_active d then ob_self o = true ∧ ∃ at_, a = Some (ev_timer at_) else a = None).

Definition watcher_ok o (a : option ev_watcher) : Prop :=
  match ob_watcher o with
  | IoWatcher fd _ => a = if ob_self o then Some (ev_io fd) else None
  | SignalWatcher n _ => a = if ob_self o then Some (ev_signal n) else None
  | TimeoutWatcher d => td_watcher d = true ∧ timer_ok o d a
  | TimeWatcher d => td_watcher d = false ∧ timer_ok o d a
  end.

(** An address, the object there and what libev has registered there. *)
Definition slot_ok (oo : option (Object C)) (a : option ev_watcher) : Prop :=
  match oo with
  | Some o => owned o = true ∧ watcher_ok o a
  | None => a = None
  end.

Abbreviation active s p := (ev_active (m_loop s) p).

Definition loop_ok s : Prop :=
  ∀ p, slot_ok (el_heap s !! p) (active s p) ∧ ((el_next s ≤ p)%nat → el_heap s !! p = None).

(** ** What no operation undoes *)

(** An object that the program cannot let go of by itself: it owns itself, and only
    its own callback ends that. *)
Definition pinned o : bool :=
  ob_self o && match ob_watcher o with TimeoutWatcher _ => false | _ => true end.

(** The same object with the same callback; a timer that is not armed stays so. *)
Definition same_data (d d' : TimeoutData C) : Prop :=
  td_fkn d' = td_fkn d ∧ (td_active d = false → d' = d).

Definition same_code (w w' : Watcher C) : Prop :=
  match w, w' with
  | TimeoutWatcher d, TimeoutWatcher d' | TimeWatcher d, TimeWatcher d' => same_data d d'
  | _, _ => w' = w
  end.

(** Owned by itself only, and not armed: nobody can reach it any more. *)
Definition leaked o : bool :=
  ob_self o && (ob_refs o =? 0)%nat &&
  match ob_watcher o with
  | TimeoutWatcher d | TimeWatcher d => negb (td_active d)
  | _ => false
  end.

Record slot_kept (oo : option (Object C)) (a : option ev_watcher)
    (oo' : option (Object C)) (a' : option ev_watcher) : Prop := {
  kept_inactive : a = None → a' = None;
  kept_gone : oo = None → oo' = None;
  kept_code o o' : oo = Some o → oo' = Some o' → same_code (ob_watcher o) (ob_watcher o');
  kept_pinned o : oo = Some o → pinned o = true → ∃ o', oo' = Some o' ∧ pinned o' = true;
  kept_leaked o : oo = Some o → leaked o = true → oo' = Some o
}.

Definition kept s s' : Prop :=
  (el_next s ≤ el_next s')%nat ∧
  ∀ p, (p < el_next s)%nat →
    slot_kept (el_heap s !! p) (active s p) (el_heap s' !! p) (active s' p).

Definition good s s' : Prop := loop_ok s' ∧ kept s s'.

Lemma same_code_refl w : same_code w w.
Proof. by destruct w. Qed.

Lemma same_data_trans d1 d2 d3 : same_data d1 d2 → same_data d2 d3 → same_data d1 d3.
Proof.
  intros [Hf H1] [Hf' H2]. split; [congruence|].
  intros Ha. rewrite H2; [by apply H1|]. by rewrite (H1 Ha).
Qed.

Lemma same_code_trans w1 w2 w3 : same_code w1 w2 → same_code w2 w3 → same_code w1 w3.
Proof.
  destruct w1, w2; simpl; intros H1 H2; simplify_eq; try done; destruct w3; try done;
    by eapply same_data_trans.
Qed.

Lemma slot_kept_refl oo a : slot_kept oo a oo a.
Proof. split; [done|done|..|done]; intros; simplify_eq; eauto using same_code_refl. Qed.

Lemma slot_kept_trans oo1 a1 oo2 a2 oo3 a3 :
  slot_kept oo1 a1 oo2 a2 → slot_kept oo2 a2 oo3 a3 → slot_kept oo1 a1 oo3 a3.
Proof.
  intros [Ha Hg Hc Hp Hl] [Ha' Hg' Hc' Hp' Hl']. split; [by auto|by auto|..|by eauto].
  - intros o1 o3 H1 H3. destruct oo2 as [o2|]; [|by rewrite Hg' in H3].
    eauto using same_code_trans.
  - intros o Ho Hpin. destruct (Hp o Ho Hpin) as (o2 & Ho2 & Hpin2). eauto.
Qed.

#[export] Instance kept_preorder : PreOrder kept.
Proof.
  split; [by split; eauto using slot_kept_refl|].
  intros s1 s2 s3 [Hn H] [Hn' H']. split; [lia|].
  intros p Hp. eapply slot_kept_trans; [by apply H|]. apply H'. lia.
Qed.

Lemma good_trans s1 s2 s3 : good s1 s2 → good s2 s3 → good s1 s3.
Proof. intros [_ H1] [H2 H3]. split; [done|]. by etrans. Qed.

Lemma good_refl s : loop_ok s → good s s.
Proof. done. Qed.

Lemma loop_ok_alloc s p o : loop_ok s → el_heap s !! p = Some o → (p < el_next s)%nat.
Proof.
  intros Hok Ho. destruct (decide (p < el_next s)%nat); [done|].
  destruct (Hok p) as [_ Hn]. rewrite Hn in Ho by lia. done.
Qed.

(** ** One slot changes *)

Definition at_slot p (oo : option (Object C)) (l : L) s : Loop :=
  mkEventLoop (partial_alter (λ _, oo) p (el_heap s)) (el_next s) l.

Lemma at_slot_lookup p oo l s : el_heap (at_slot p oo l s) !! p = oo.
Proof. apply lookup_partial_alter_eq. Qed.

Lemma at_slot_lookup_ne p q oo l s : q ≠ p → el_heap (at_slot p oo l s) !! q = el_heap s !! q.
Proof. intros Hq. apply lookup_partial_alter_ne. congruence. Qed.

Lemma at_slot_loop p oo l s : m_loop (at_slot p oo l s) = l.
Proof. done. Qed.

Lemma at_slot_twice p oo oo' l l' s : at_slot p oo' l' (at_slot p oo l s) = at_slot p oo' l' s.
Proof.
  unfold at_slot. simpl. f_equal. apply map_eq. intros q. destruct (decide (q = p)) as [->|].
  - by rewrite !lookup_partial_alter_eq.
  - by rewrite !lookup_partial_alter_ne.
Qed.

Lemma at_slot_same p s : at_slot p (el_heap s !! p) (m_loop s) s = s.
Proof.
  unfold at_slot. destruct s as [h n l]. simpl. f_equal.
  apply map_eq. intros q. destruct (decide (q = p)) as [->|].
  - by rewrite lookup_partial_alter_eq.
  - by rewrite lookup_partial_alter_ne.
Qed.

Lemma good_slot s p oo l :
  loop_ok s → (p < el_next s)%nat →
  (∀ q, q ≠ p → ev_active l q = active s q) →
  slot_ok oo (ev_active l p) →
  slot_kept (el_heap s !! p) (active s p) oo (ev_active l p) →
  good s (at_slot p oo l s).
Proof.
  intros Hok Hp Hne Hslot Hkept. split.
  - intros q. destruct (decide (q = p)) as [->|Hq].
    + rewrite at_slot_lookup. split; [done|]. simpl. lia.
    + rewrite at_slot_lookup_ne by done. simpl. rewrite Hne by done. apply Hok.
  - split; [done|]. intros q Hlt. destruct (decide (q = p)) as [->|Hq].
    + by rewrite at_slot_lookup.
    + rewrite at_slot_lookup_ne by done. simpl. rewrite Hne by done. apply slot_kept_refl.
Qed.

(** The slot of the next object. *)
Definition new_slot o (l : L) s : Loop :=
  mkEventLoop (<[el_next s := o]> (el_heap s)) (Datatypes.S (el_next s)) l.

Lemma loop_ok_fresh s : loop_ok s → active s (el_next s) = None.
Proof.
  intros Hok. destruct (Hok (el_next s)) as [Hslot Hn]. by rewrite Hn in Hslot.
Qed.

Lemma good_new s o l :
  loop_ok s →
  (∀ q, q ≠ el_next s → ev_active l q = active s q) →
  slot_ok (Some o) (ev_active l (el_next s)) →
  good s (new_slot o l s).
Proof.
  intros Hok Hne Hslot. split.
  - intros q. unfold new_slot. simpl. destruct (decide (q = el_next s)) as [->|Hq].
    + rewrite lookup_insert_eq. split; [done|lia].
    + rewrite lookup_insert_ne, Hne by done. split; [apply Hok|]. intros Hle. apply Hok. lia.
  - split; [simpl; lia|]. intros q Hlt. unfold new_slot. simpl.
    rewrite lookup_insert_ne, Hne by lia. apply slot_kept_refl.
Qed.
End slots.
#[global] Arguments at_slot : simpl never.
#[global] Arguments new_slot : simpl never.

(** ** What the operations do to a slot *)

Section operations.
Context {C L : Type} `{!LibEv L}.
Abbreviation Loop := (EventLoop C L).
Implicit Types (s : Loop) (o : Object C) (d : TimeoutData C) (p : nat).

Lemma object_at s p o : el_heap s !! p = Some o → object p s = Ok (o, s).
Proof. intros Ho. unfold object, mbind, M_bind, gets. by rewrite Ho. Qed.

Lemma object_gone s p : el_heap s !! p = None → object p s = Fail use_after_free.
Proof. intros Ho. unfold object, mbind, M_bind, gets. by rewrite Ho. Qed.

Lemma set_object_at s p o : set_object p o s = Ok ((), at_slot p (Some o) (m_loop s) s).
Proof. done. Qed.

Lemma libev_at s p (f : L → L) :
  libev f s = Ok ((), at_slot p (el_heap s !! p) (f (m_loop s)) s).
Proof.
  unfold libev, modify. do 2 f_equal. rewrite <-(at_slot_same p s) at 1. done.
Qed.

(** The object with one owner less: itself, or nothing. *)
Definition drop_slot p o s : Loop :=
  if owned o then at_slot p (Some o) (m_loop s) s
  else at_slot p None
    (if default false (td_active <$> m_data (ob_watcher o)) then ev_stop p (m_loop s)
     else m_loop s) s.

Lemma collect_at p o l s : collect p (at_slot p (Some o) l s) = Ok ((), drop_slot p o (at_slot p (Some o) l s)).
Proof.
  unfold collect, drop_slot. rewrite (bind_ok _ _ _ _ _ (object_at _ _ _ (at_slot_lookup _ _ _ _))).
  destruct (owned o).
  - by rewrite at_slot_twice.
  - unfold destroy. rewrite (bind_ok _ _ _ _ _ (object_at _ _ _ (at_slot_lookup _ _ _ _))).
    by destruct (default false _).
Qed.

Lemma drop_at_slot p o oo l s :
  drop_slot p o (at_slot p oo l s) = drop_slot p o (at_slot p None l s).
Proof. unfold drop_slot. by rewrite !at_slot_twice. Qed.

Lemma drop_at_own p o l s :
  l = m_loop s → drop_slot p o (at_slot p (Some o) l s) = drop_slot p o s.
Proof. intros ->. unfold drop_slot. by rewrite !at_slot_twice. Qed.

Lemma reset_self_at s p o :
  el_heap s !! p = Some o → reset_self p s = Ok ((), drop_slot p (o <| ob_self := false |>) s).
Proof.
  intros Ho. unfold reset_self. rewrite (bind_ok _ _ _ _ _ (object_at _ _ _ Ho)).
  rewrite (bind_ok _ _ _ _ _ (set_object_at _ _ _)), collect_at. by rewrite drop_at_own.
Qed.

Lemma release_at s p o :
  el_heap s !! p = Some o → release p s = Ok ((), drop_slot p (o <| ob_refs ::= pred |>) s).
Proof.
  intros Ho. unfold release. rewrite (bind_ok _ _ _ _ _ (object_at _ _ _ Ho)).
  rewrite (bind_ok _ _ _ _ _ (set_object_at _ _ _)), collect_at. by rewrite drop_at_own.
Qed.

Lemma retain_at s p o :
  el_heap s !! p = Some o →
  retain p s = Ok ((), at_slot p (Some (o <| ob_refs ::= Datatypes.S |>)) (m_loop s) s).
Proof. intros Ho. unfold retain. by rewrite (bind_ok _ _ _ _ _ (object_at _ _ _ Ho)). Qed.

Lemma data_at s p o d :
  el_heap s !! p = Some o → m_data (ob_watcher o) = Some d →
  timeout_data.data p s = Ok (d, s).
Proof.
  intros Ho Hd. unfold timeout_data.data. rewrite (bind_ok _ _ _ _ _ (object_at _ _ _ Ho)).
  by rewrite Hd.
Qed.

Definition stopped o : Object C :=
  o <| ob_watcher ::= λ w, match m_data w with
    Some d => with_data (d <| td_active := false |>) w | None => w end |>.

Lemma data_cancel_at s p o :
  el_heap s !! p = Some o → is_Some (m_data (ob_watcher o)) →
  timeout_data.cancel p s = Ok ((), at_slot p (Some (stopped o)) (ev_stop p (m_loop s)) s).
Proof.
  intros Ho [d Hd]. unfold timeout_data.cancel, timeout_data.set_data.
  rewrite (bind_ok _ _ _ _ _ (libev_at _ p _)), Ho.
  rewrite (bind_ok _ _ _ _ _ (data_at _ _ _ _ (at_slot_lookup _ _ _ _) Hd)).
  rewrite (bind_ok _ _ _ _ _ (object_at _ _ _ (at_slot_lookup _ _ _ _))), set_object_at.
  rewrite at_slot_twice. unfold stopped. do 4 f_equal. destruct o as [w b n]. unfold_rec. cbn in Hd.
  by rewrite Hd.
Qed.

Lemma watcher_cancel_at s p o :
  el_heap s !! p = Some o → is_Some (m_data (ob_watcher o)) →
  timeout_watcher.cancel p s
  = Ok ((), drop_slot p ((stopped o) <| ob_self := false |>)
              (at_slot p None (ev_stop p (m_loop s)) s)).
Proof.
  intros Ho Hd. unfold timeout_watcher.cancel.
  rewrite (bind_ok _ _ _ _ _ (data_cancel_at _ _ _ Ho Hd)).
  by rewrite (reset_self_at _ _ _ (at_slot_lookup _ _ _ _)), drop_at_slot.
Qed.

(** New watchers. *)
Definition io_object fd c : Object C := mkObject (IoWatcher fd c) true 1.
Definition signal_object n c : Object C := mkObject (SignalWatcher n c) true 1.
Definition timeout_object c : Object C :=
  mkObject (TimeoutWatcher (mkTimeoutData true (Some c) true)) true 1.
Definition timer_object c : Object C :=
  mkObject (TimeWatcher (mkTimeoutData false (Some c) true)) true 1.

Definition started o w s : Loop := new_slot o (ev_start (el_next s) w (m_loop s)) s.

(** Run on the slot that was just made. *)
Ltac run_new :=
  repeat first
    [ progress cbv [mbind M_bind mret M_ret gets modify]
    | progress unfold_rec
    | rewrite lookup_insert_eq
    | rewrite insert_insert_eq ].

Ltac run_watcher :=
  unfold event_loop.onReadable, io_watcher.mkIoWatch, io_watcher.setup,
    event_loop.onSignal, signal_watcher.mkSignalWatch, signal_watcher.setup,
    event_loop.onTimeout, timeout_watcher.mkTimeoutWatch, timeout_watcher.setup,
    TimeServiceEv.makeTimeout, time_watcher.makeTimeout,
    timeout_data.setWatcher, timeout_data.start, timeout_data.setup, timeout_data.set_data,
    timeout_data.data, set_self, set_object, make_shared, object, libev;
  run_new.

Lemma onReadable_at fd c s :
  event_loop.onReadable fd c s = Ok (el_next s, started (io_object fd c) (ev_io fd) s).
Proof. run_watcher. done. Qed.

Lemma onSignal_at n c s :
  event_loop.onSignal n c s = Ok (el_next s, started (signal_object n c) (ev_signal n) s).
Proof. run_watcher. done. Qed.

Lemma onTimeout_at delay c s :
  event_loop.onTimeout delay c s
  = Ok (el_next s, started (timeout_object c) (ev_timer delay) s).
Proof. run_watcher. done. Qed.

Lemma makeTimeout_at delay c s :
  TimeServiceEv.makeTimeout delay c s
  = Ok (Some (el_next s), started (timer_object c) (ev_timer delay) s).
Proof. run_watcher. done. Qed.

Lemma makeTimeoutAbs_at at_ c s :
  TimeServiceEv.makeTimeoutAbs at_ c s
  = Ok (Some (el_next s),
        started (timer_object c) (ev_timer (at_ - ev_now (m_loop s))) s).
Proof. unfold TimeServiceEv.makeTimeoutAbs, TimeServiceEv.now, event_loop.now. run_watcher. done. Qed.
End operations.

(** ** Every operation keeps the invariant *)

Section preserve.
Context {C L : Type} `{!LibEv L, !LibEvLaws L}.
#[local] Set Default Proof Using "Type LibEvLaws0".
Abbreviation Loop := (EventLoop C L).
Implicit Types (s : Loop) (o : Object C) (p : nat).

Lemma not_pinned_timeout o d : ob_watcher o = TimeoutWatcher d → pinned o = false.
Proof. unfold pinned. intros ->. apply andb_false_r. Qed.

Lemma not_leaked o : (0 < ob_refs o)%nat → leaked o = false.
Proof. unfold leaked. intros Hr. destruct (ob_refs o); [lia|]. by rewrite andb_false_r. Qed.

(** What does not own itself is not registered. *)
Lemma disowned_inactive o a :
  watcher_ok o a → ob_self o = false →
  a = None ∧ default false (td_active <$> m_data (ob_watcher o)) = false.
Proof.
  destruct o as [[fd c|n c|[w f []]|[w f []]] [] refs]; unfold watcher_ok, timer_ok; cbn;
    intros; destruct_and?; by simplify_eq.
Qed.

Lemma slot_ok_at s p o :
  loop_ok s → el_heap s !! p = Some o → slot_ok (Some o) (ev_active (m_loop s) p).
Proof. intros Hok Ho. rewrite <-Ho. apply Hok. Qed.

Lemma started_good o w s :
  loop_ok s → slot_ok (Some o) (Some (registered_at (ev_now (m_loop s)) w)) →
  good s (started o w s).
Proof.
  intros Hok Hslot. unfold started. pose proof (loop_ok_fresh s Hok) as Hn.
  apply good_new; [done|..].
  - intros q Hq. by rewrite active_start, decide_False.
  - by rewrite active_start, decide_True.
Qed.

(** One owner less, when the others, or libev, still own the object. *)
Lemma drop_slot_good s p o o' :
  loop_ok s → el_heap s !! p = Some o → ob_watcher o' = ob_watcher o →
  slot_ok (Some (o' <| ob_refs := 1%nat |>)) (ev_active (m_loop s) p) →
  (ob_self o' = ob_self o ∨ pinned o = false) → leaked o = false →
  good s (drop_slot p o' s).
Proof.
  intros Hok Ho Hw Hslot Hself Hleak. pose proof (loop_ok_alloc _ _ _ Hok Ho) as Hlt.
  pose proof (slot_ok_at _ _ _ Hok Ho) as Hold.
  unfold drop_slot. destruct (owned o') eqn:Howned.
  - apply good_slot; [done..| |].
    + split; [done|]. apply Hslot.
    + rewrite Ho. split; [done|done|..|intros ? [= <-]; congruence].
      * intros ? ? [= <-] [= <-]. rewrite Hw. apply same_code_refl.
      * intros ? [= <-] Hpin. exists o'. split; [done|].
        unfold pinned in *. rewrite Hw. destruct Hself as [->|]; [done|congruence].
  - unfold owned in Howned. apply orb_false_iff in Howned as [Hs _].
    destruct (disowned_inactive o' _ (proj2 Hslot) Hs) as [Hnone ->].
    apply good_slot; [done..|]. rewrite Ho, Hnone.
    split; [done..| |intros ? [= <-]; congruence].
    intros ? [= <-] Hpin. exfalso. unfold pinned in *. rewrite Hs in Hself.
    destruct Hself as [Hself|]; [|congruence]. by rewrite <-Hself in Hpin.
Qed.

(** The operations that the program may use at any time, or on a pointer it owns. *)
Definition api {A} (m : M Loop A) s : Prop := wp m never (λ _ s', good s s') s.

Lemma api_ok {A} (m : M Loop A) s a s' : m s = Ok (a, s') → good s s' → api m s.
Proof. intros Hm Hg. by eapply wp_eq. Qed.

Lemma onReadable_api s fd c : loop_ok s → api (event_loop.onReadable fd c) s.
Proof. intros Hok. eapply api_ok; [apply onReadable_at|]. by apply started_good. Qed.

Lemma onSignal_api s n c : loop_ok s → api (event_loop.onSignal n c) s.
Proof. intros Hok. eapply api_ok; [apply onSignal_at|]. by apply started_good. Qed.

Lemma timeout_started s o d after :
  loop_ok s → ob_self o = true → td_active d = true → is_Some (td_fkn d) →
  (ob_watcher o = TimeoutWatcher d ∧ td_watcher d = true
   ∨ ob_watcher o = TimeWatcher d ∧ td_watcher d = false) →
  good s (started o (ev_timer after) s).
Proof.
  intros Hok Hs Ha Hf Hw. apply started_good; [done|]. unfold slot_ok, watcher_ok, timer_ok, owned.
  rewrite Hs. destruct Hw as [[-> ->]|[-> ->]]; rewrite Ha; cbn; eauto 10.
Qed.

Lemma onTimeout_api s delay c : loop_ok s → api (event_loop.onTimeout delay c) s.
Proof.
  intros Hok. eapply api_ok; [apply onTimeout_at|].
  by apply (timeout_started _ _ (mkTimeoutData true (Some c) true)); auto.
Qed.

Lemma makeTimeout_api s delay c : loop_ok s → api (TimeServiceEv.makeTimeout delay c) s.
Proof.
  intros Hok. eapply api_ok; [apply makeTimeout_at|].
  by apply (timeout_started _ _ (mkTimeoutData false (Some c) true)); auto.
Qed.

Lemma makeTimeoutAbs_api s at_ c : loop_ok s → api (TimeServiceEv.makeTimeoutAbs at_ c) s.
Proof.
  intros Hok. eapply api_ok; [apply makeTimeoutAbs_at|].
  by apply (timeout_started _ _ (mkTimeoutData false (Some c) true)); auto.
Qed.

(** libev changes, but not what is registered. *)
Lemma same_active_good s l :
  loop_ok s → (∀ p, ev_active l p = ev_active (m_loop s) p) → good s (s <| m_loop := l |>).
Proof.
  intros Hok Hl. split; [intros p|split; [done|intros p Hp]]; cbn; rewrite Hl.
  - apply Hok.
  - apply slot_kept_refl.
Qed.

Lemma stop_api s : loop_ok s → api event_loop.stop s.
Proof. intros Hok. eapply api_ok; [done|]. apply same_active_good; [done|]. intros p. by rewrite active_break. Qed.

Lemma updateNow_api s : loop_ok s → api event_loop.updateNow s.
Proof. intros Hok. eapply api_ok; [done|]. apply same_active_good; [done|]. intros p. by rewrite active_update. Qed.

Lemma now_api s : loop_ok s → api event_loop.now s.
Proof. intros Hok. by eapply api_ok. Qed.

Lemma release_api s p o :
  loop_ok s → el_heap s !! p = Some o → api (release p) s.
Proof.
  intros Hok Ho. eapply api_ok; [by apply release_at|]. destruct (decide (0 < ob_refs o)%nat) as [Hr|Hr].
  - eapply drop_slot_good; [done..| |by left|].
    + split; [|apply (slot_ok_at _ _ _ Hok Ho)]. unfold owned. cbn. by rewrite orb_true_r.
    + by apply not_leaked.
  - assert (o <| ob_refs ::= pred |> = o) as ->.
    { destruct o as [w self [|n]]; [done|cbn in Hr; lia]. }
    unfold drop_slot. pose proof (slot_ok_at _ _ _ Hok Ho) as [-> _].
    rewrite <-Ho, at_slot_same. by apply good_refl.
Qed.

Lemma retain_api s p o :
  loop_ok s → el_heap s !! p = Some o → (0 < ob_refs o)%nat → api (retain p) s.
Proof.
  intros Hok Ho Hr. eapply api_ok; [by apply retain_at|].
  apply good_slot; [done|by eapply loop_ok_alloc|done|..].
  - split; [|apply (slot_ok_at _ _ _ Hok Ho)]. unfold owned. cbn. by rewrite orb_true_r.
  - rewrite Ho. split; [done|done|..].
    + intros ? ? [= <-] [= <-]. apply same_code_refl.
    + intros ? [= <-] Hpin. by eexists.
    + intros ? [= <-]. by rewrite not_leaked.
Qed.

(** A timer that is stopped, and perhaps let go of. *)
Lemma stopped_code o : same_code (ob_watcher o) (ob_watcher (stopped o)).
Proof.
  destruct o as [[| |[w f a]|[w f a]] self refs]; try done; (split; [done|]); cbn; by intros ->.
Qed.

Lemma stopped_ok o a : slot_ok (Some o) a → is_Some (m_data (ob_watcher o)) → slot_ok (Some (stopped o)) None.
Proof.
  intros [Hown Hw] [d Hd]. split; [done|].
  destruct o as [[| |[w f b]|[w f b]] self refs]; try done;
    unfold watcher_ok, timer_ok in *; cbn in *; tauto.
Qed.

Lemma stopped_good s p o l :
  loop_ok s → el_heap s !! p = Some o → is_Some (m_data (ob_watcher o)) →
  (∀ q, ev_active l q = if decide (q = p) then None else ev_active (m_loop s) q) →
  leaked o = false → good s (at_slot p (Some (stopped o)) l s).
Proof.
  intros Hok Ho Hd Hl Hleak. pose proof (slot_ok_at _ _ _ Hok Ho) as Hslot.
  apply good_slot; [done|by eapply loop_ok_alloc|..].
  - intros q Hq. by rewrite Hl, decide_False.
  - rewrite Hl, decide_True by done. by eapply stopped_ok.
  - rewrite Hl, decide_True, Ho by done. split; [done|done|..].
    + intros ? ? [= <-] [= <-]. apply stopped_code.
    + intros ? [= <-] Hpin. eexists. split; [done|]. by destruct o as [[] [] ?].
    + intros ? [= <-]. congruence.
Qed.

Lemma watcher_cancel_api s p o d :
  loop_ok s → el_heap s !! p = Some o → ob_watcher o = TimeoutWatcher d → (0 < ob_refs o)%nat →
  api (timeout_watcher.cancel p) s.
Proof.
  intros Hok Ho Hw Hr. assert (is_Some (m_data (ob_watcher o))) as Hd by by rewrite Hw.
  assert (ob_watcher (stopped o) = TimeoutWatcher (d <| td_active := false |>)) as Hw'.
  { destruct o as [w self refs]. cbn in Hw. by subst w. }
  unfold api, timeout_watcher.cancel. apply wp_bind.
  eapply wp_eq; [by apply data_cancel_at|].
  assert (good s (at_slot p (Some (stopped o)) (ev_stop p (m_loop s)) s)) as Hg.
  { apply stopped_good; [done..| |].
    - intros q. apply active_stop.
    - by apply not_leaked. }
  eapply wp_eq; [by apply reset_self_at, at_slot_lookup|]. eapply good_trans; [done|].
  apply (drop_slot_good _ _ (stopped o)); [apply Hg|apply at_slot_lookup|done|..].
  - change (m_loop (at_slot p _ (ev_stop p (m_loop s)) s)) with (ev_stop p (m_loop s)).
    rewrite active_stop, decide_True by done. split; [done|].
    pose proof (slot_ok_at _ _ _ Hok Ho) as Hslot. apply stopped_ok in Hslot as [_ Hslot]; [|done].
    unfold watcher_ok, timer_ok in *. cbn [ob_watcher update] in *. rewrite Hw' in *. exact Hslot.
  - right. by eapply not_pinned_timeout.
  - by apply not_leaked.
Qed.

(** A handle of the program: a timer that it owns. *)
Definition handle_ok s (t : Timer) : Prop :=
  match t with
  | Some p => ∃ o d, el_heap s !! p = Some o ∧ ob_watcher o = TimeWatcher d ∧ (0 < ob_refs o)%nat
  | None => True
  end.

Lemma timer_destroy_api s t : loop_ok s → handle_ok s t → api (timer.destroy t) s.
Proof.
  destruct t as [p|]; intros Hok; [|by intros _; eapply api_ok].
  intros (o & d & Ho & Hw & Hr). unfold timer.destroy, api, time_watcher.cancel.
  assert (m_data (ob_watcher o) = Some d) as Hd by by rewrite Hw.
  apply wp_bind. eapply wp_eq; [apply data_cancel_at; [done|by eexists]|].
  assert (good s (at_slot p (Some (stopped o)) (ev_stop p (m_loop s)) s)) as Hg.
  { apply stopped_good; [done..| | |].
    - by eexists.
    - intros q. apply active_stop.
    - by apply not_leaked. }
  eapply wp_mono; [by eapply release_api; [apply Hg|apply at_slot_lookup]|done|].
  intros ? s' Hs'. by eapply good_trans.
Qed.

Lemma timer_cancel_api s t : loop_ok s → handle_ok s t → api (timer.cancel t) s.
Proof.
  intros Hok Ht. apply wp_bind. eapply wp_mono; [by apply timer_destroy_api|done|].
  by intros [] s'.
Qed.

Lemma timer_copy_api s t : loop_ok s → handle_ok s t → api (timer.copy t) s.
Proof.
  intros Hok Ht. apply wp_bind. destruct t as [p|]; [|by apply wp_skip].
  destruct Ht as (o & d & Ho & _ & Hr). eapply wp_mono; [by eapply retain_api|done|].
  by intros [] s'.
Qed.

Lemma timer_move_assign_api s t t' : loop_ok s → handle_ok s t → api (timer.move_assign t t') s.
Proof.
  intros Hok Ht. apply wp_bind. destruct t as [p|]; [|by apply wp_skip].
  destruct Ht as (o & d & Ho & _ & _). eapply wp_mono; [by eapply release_api|done|].
  by intros [] s'.
Qed.
End preserve.

(** ** Runs and callbacks *)

Section lasting.
Context {C L : Type} `{!LibEv L, !LibEvLaws L}.
#[local] Set Default Proof Using "Type LibEvLaws0".
Implicit Types (e : EventLoop C L) (o : Object C) (p : nat).

(** What a run of the loop never undoes. *)
Record slot_lasting (oo : option (Object C)) (a : option ev_watcher)
    (oo' : option (Object C)) (a' : option ev_watcher) : Prop := {
  lasting_inactive : a = None → a' = None;
  lasting_gone : oo = None → oo' = None;
  lasting_leaked o : oo = Some o → leaked o = true → oo' = Some o
}.

Definition lasting e e' : Prop :=
  (el_next e ≤ el_next e')%nat ∧
  ∀ p, (p < el_next e)%nat →
    slot_lasting (el_heap e !! p) (ev_active (m_loop e) p)
      (el_heap e' !! p) (ev_active (m_loop e') p).

#[export] Instance lasting_preorder : PreOrder lasting.
Proof.
  split; [by split|]. intros e1 e2 e3 [Hn H] [Hn' H']. split; [lia|].
  intros p Hp. destruct (H p Hp) as [Ha Hg Hl], (H' p ltac:(lia)) as [Ha' Hg' Hl'].
  split; eauto.
Qed.

Lemma kept_lasting e e' : kept e e' → lasting e e'.
Proof. intros [Hn H]. split; [done|]. intros p Hp. by destruct (H p Hp). Qed.

(** The callback of the watcher [p]: its slot may change before and after the handler,
    the others only as the handler leaves them. *)
Lemma callback_lasting e e1 e2 e3 p w :
  ev_active (m_loop e) p = Some w → loop_ok e →
  el_next e1 = el_next e → el_next e3 = el_next e2 →
  (∀ q, q ≠ p → el_heap e1 !! q = el_heap e !! q ∧ ev_active (m_loop e1) q = ev_active (m_loop e) q) →
  (∀ q, q ≠ p → el_heap e3 !! q = el_heap e2 !! q ∧ ev_active (m_loop e3) q = ev_active (m_loop e2) q) →
  kept e1 e2 → lasting e e3.
Proof.
  intros Hw Hok Hn1 Hn3 H1 H3 [Hn H2]. split; [lia|]. intros q Hq. destruct (decide (q = p)) as [->|Hqp].
  - destruct (Hok p) as [Hslot _]. rewrite Hw in Hslot |- *.
    destruct (el_heap e !! p) as [o|] eqn:Ho; [|done]. split; [done..|].
    intros ? [= <-] Hleak. exfalso. destruct Hslot as [_ Hslot].
    destruct o as [[| |[w' f []]|[w' f []]] self refs]; unfold leaked, watcher_ok, timer_ok in *;
      cbn in *; rewrite ?andb_false_r in Hleak; destruct_and?; done.
  - destruct (H1 q Hqp) as [<- <-], (H3 q Hqp) as [-> ->]. rewrite <-Hn1 in Hq.
    by destruct (H2 q Hq).
Qed.

Lemma loop_ok_slot e p oo l :
  loop_ok e → (p < el_next e)%nat →
  (∀ q, q ≠ p → ev_active l q = ev_active (m_loop e) q) → slot_ok oo (ev_active l p) →
  loop_ok (at_slot p oo l e).
Proof.
  intros Hok Hp Hne Hslot q. destruct (decide (q = p)) as [->|Hq].
  - rewrite at_slot_lookup. split; [done|]. simpl. lia.
  - rewrite at_slot_lookup_ne by done. simpl. rewrite Hne by done. apply Hok.
Qed.

(** After a callback the object has no self any more, and goes if nobody else has it. *)
Definition let_go p o e : EventLoop C L :=
  at_slot p (if (0 <? ob_refs o)%nat then Some (o <| ob_self := false |>) else None)
    (m_loop e) e.

Lemma reset_self_let_go p o e :
  el_heap e !! p = Some o → watcher_ok (o <| ob_self := false |>) None →
  reset_self p e = Ok ((), let_go p o e).
Proof.
  intros Ho Hw. rewrite (reset_self_at _ _ _ Ho). unfold let_go, drop_slot.
  change (owned (o <| ob_self := false |>)) with (0 <? ob_refs o)%nat.
  destruct (disowned_inactive _ _ Hw eq_refl) as [_ ->]. by destruct (0 <? ob_refs o)%nat.
Qed.

Lemma let_go_ok p o e :
  loop_ok e → (p < el_next e)%nat → ev_active (m_loop e) p = None →
  watcher_ok (o <| ob_self := false |>) None → loop_ok (let_go p o e).
Proof.
  intros Hok Hp Ha Hw. apply loop_ok_slot; [done..|]. rewrite Ha.
  destruct (0 <? ob_refs o)%nat eqn:Hr; [|done]. by split.
Qed.

Lemma let_go_ne p q o e :
  q ≠ p → el_heap (let_go p o e) !! q = el_heap e !! q
  ∧ ev_active (m_loop (let_go p o e)) q = ev_active (m_loop e) q.
Proof. intros Hq. split; [by apply at_slot_lookup_ne|done]. Qed.

(** No new objects, and none with an owner that it did not have. *)
Definition refs_within e e' : Prop :=
  ∀ q o', el_heap e' !! q = Some o' → ∃ o, el_heap e !! q = Some o ∧ ob_refs o' = ob_refs o ∧
    same_code (ob_watcher o) (ob_watcher o').

Lemma refs_within_refl e : refs_within e e.
Proof using. intros q o' Ho'. eauto using same_code_refl. Qed.

Lemma refs_within_slot e p o oo l :
  el_heap e !! p = Some o →
  (∀ o', oo = Some o' → ob_refs o' = ob_refs o ∧ same_code (ob_watcher o) (ob_watcher o')) →
  refs_within e (at_slot p oo l e).
Proof using.
  intros Ho Hoo q o' Ho'. destruct (decide (q = p)) as [->|Hq].
  - rewrite at_slot_lookup in Ho'. exists o. by destruct (Hoo o' Ho').
  - rewrite at_slot_lookup_ne in Ho' by done. eauto using same_code_refl.
Qed.

Lemma refs_within_let_go e p o : el_heap e !! p = Some o → refs_within e (let_go p o e).
Proof using.
  intros Ho. apply (refs_within_slot _ _ o); [done|]. intros o'.
  destruct (0 <? ob_refs o)%nat; intros [= <-]. auto using same_code_refl.
Qed.

(** What libev has registered. *)
Definition class_of o (w : ev_watcher) : Prop :=
  match w with
  | ev_io fd => ∃ c, ob_watcher o = IoWatcher fd c
  | ev_signal n => ∃ c, ob_watcher o = SignalWatcher n c
  | ev_timer _ => ∃ c, ob_watcher o = TimeoutWatcher (mkTimeoutData true (Some c) true)
      ∨ ob_watcher o = TimeWatcher (mkTimeoutData false (Some c) true)
  end.

Lemma registered_object e p w :
  loop_ok e → ev_active (m_loop e) p = Some w →
  ∃ o, el_heap e !! p = Some o ∧ (p < el_next e)%nat ∧ ob_self o = true ∧ class_of o w.
Proof.
  intros Hok Ha. pose proof (Hok p) as [Hslot _]. rewrite Ha in Hslot.
  destruct (el_heap e !! p) as [o|] eqn:Ho; [|done]. exists o. destruct Hslot as [_ Hw].
  split_and!; [done|by eapply loop_ok_alloc|..];
    destruct o as [[fd c|n c|[w' f []]|[w' f []]] [] refs]; unfold watcher_ok, timer_ok in Hw; cbn in *;
    destruct_and?; simplify_eq; try done; [by eexists..| |];
    destruct f as [c|]; [|by destruct select (is_Some _)| |by destruct select (is_Some _)];
    destruct select (∃ _, _) as [at_ [= ->]]; exists c; auto.
Qed.

(** libev takes a descriptor or a signal: nothing has changed. *)
Lemma take_lasting_good e p w l :
  loop_ok e → ev_take (m_loop e) p w l → (∀ at_, w ≠ ev_timer at_) →
  good e (e <| m_loop := l |>).
Proof.
  intros Hok Ht Hw. apply same_active_good; [done|]. intros q.
  rewrite (active_take _ _ _ _ q Ht). destruct w as [| |at_]; [done..|by destruct (Hw at_)].
Qed.

(** The end of a watcher of a descriptor or a signal. *)
Definition ended p o e : EventLoop C L := let_go p o (at_slot p (Some o) (ev_stop p (m_loop e)) e).

Lemma end_watcher e p o :
  el_heap e !! p = Some o → m_data (ob_watcher o) = None →
  (object p ;; libev (ev_stop p) ;; reset_self p) e = Ok ((), ended p o e).
Proof.
  intros Ho Hd. rewrite (bind_ok _ _ _ _ _ (object_at _ _ _ Ho)).
  rewrite (bind_ok _ _ _ _ _ (libev_at e p _)), Ho. apply reset_self_let_go; [apply at_slot_lookup|].
  by destruct o as [[] self refs].
Qed.

Lemma ended_ok e p o :
  loop_ok e → el_heap e !! p = Some o → m_data (ob_watcher o) = None → loop_ok (ended p o e).
Proof.
  intros Hok Ho Hd. unfold ended, let_go. rewrite at_slot_twice. apply loop_ok_slot; [done|by eapply loop_ok_alloc|..].
  - intros q Hq. change (m_loop (at_slot p (Some o) ?l e)) with l. by rewrite active_stop, decide_False.
  - change (m_loop (at_slot p (Some o) ?l e)) with l. rewrite active_stop, decide_True by done.
    destruct (0 <? ob_refs o)%nat eqn:Hr; [|done]. split; [done|]. by destruct o as [[] self refs].
Qed.

Lemma refs_within_ended e p o : el_heap e !! p = Some o → refs_within e (ended p o e).
Proof using.
  intros Ho. unfold ended, let_go. rewrite at_slot_twice. apply (refs_within_slot _ _ o); [done|].
  intros o'. destruct (0 <? ob_refs o)%nat; intros [= <-]. auto using same_code_refl.
Qed.

Lemma ended_ne e p q o :
  q ≠ p → el_heap (ended p o e) !! q = el_heap e !! q
  ∧ ev_active (m_loop (ended p o e)) q = ev_active (m_loop e) q.
Proof.
  intros Hq. unfold ended, let_go. rewrite at_slot_twice, at_slot_lookup_ne by done.
  split; [done|]. change (m_loop (at_slot p _ _ e)) with (ev_stop p (m_loop e)).
  by rewrite active_stop, decide_False.
Qed.
End lasting.

Section callbacks.
Context {C L S : Type} `{!LibEv L, !LibEvLaws L, !Lens S (EventLoop C L)}.
#[local] Set Default Proof Using "Type LibEvLaws0".
Implicit Types (s : S) (o : Object C) (d : TimeoutData C) (p : nat).

Abbreviation lp s := (event_loop.loop_of (C:=C) (L:=L) s).
Abbreviation heap s := (el_heap (lp s)).

(** A computation of the program that uses the loop by its operations only. *)
Definition handler_ok (E : Failure → Prop) {A} (m : M S A) : Prop :=
  ∀ s, loop_ok (lp s) → wp m E (λ _ s', good (lp s) (lp s')) s.

Lemma handler_ok_ret E {A} (a : A) : handler_ok E (mret a).
Proof. intros s Hok. by apply wp_ret. Qed.

Lemma handler_ok_bind E {A B} (m : M S A) (f : A → M S B) :
  handler_ok E m → (∀ a, handler_ok E (f a)) → handler_ok E (m ≫= f).
Proof.
  intros Hm Hf s Hok. apply wp_bind. eapply wp_mono; [by apply Hm|done|].
  intros a s' Hg. eapply wp_mono; [apply Hf, Hg|done|]. intros b s'' Hg'. exact (good_trans _ _ _ Hg Hg').
Qed.

Lemma handler_ok_zoom E {A} (m : M (EventLoop C L) A) :
  (∀ e, loop_ok e → api m e) → handler_ok E (zoom m).
Proof.
  intros Hm s Hok. apply wp_zoom. eapply wp_mono; [by apply Hm|done|].
  intros a e Hg. unfold event_loop.loop_of. by rewrite view_set.
Qed.


Lemma zoom_at {A} (m : M (EventLoop C L) A) s a e :
  m (lp s) = Ok (a, e) → zoom m s = Ok (a, set_view e s).
Proof. apply zoom_ok. Qed.

Lemma lp_set e s : lp (set_view e s) = e.
Proof. apply view_set. Qed.

Context (call : C → M S bool) (E : Failure → Prop) (call_ok : ∀ c, handler_ok E (call c)).

(** The callback of a descriptor or a signal, after the handler. *)
Lemma finish_watcher (res : bool) s2 p o :
  loop_ok (lp s2) → heap s2 !! p = Some o → m_data (ob_watcher o) = None →
  wp (if negb res then zoom (object p) ;; zoom (libev (ev_stop p)) ;; zoom (reset_self p) else skip)
    never (λ _ s3, lp s3 = if res then lp s2 else ended p o (lp s2)) s2.
Proof.
  intros Hok Ho Hd. destruct res; cbn [negb]; [done|].
  pose proof (end_watcher _ _ _ Ho Hd) as Hend. eapply (wp_eq _ _ _ _ () (set_view (ended p o (lp s2)) s2)).
  - rewrite <-(zoom_at _ _ _ _ Hend). symmetry. rewrite zoom_bind.
    apply bind_ext; [done|]. intros ? ?. apply zoom_bind.
  - apply lp_set.
Qed.

Lemma zoom_object_at s p o : heap s !! p = Some o → zoom (object p) s = Ok (o, s).
Proof.
  intros Ho. rewrite (zoom_at _ _ _ _ (object_at _ _ _ Ho)). do 2 f_equal. apply set_get.
Qed.

(** Its own handler leaves a pinned object where it is, with its callback. *)
Lemma pinned_after (e1 e2 : EventLoop C L) p o :
  kept e1 e2 → (p < el_next e1)%nat → el_heap e1 !! p = Some o → pinned o = true →
  ∃ o2, el_heap e2 !! p = Some o2 ∧ ob_self o2 = true ∧ same_code (ob_watcher o) (ob_watcher o2).
Proof.
  intros [_ Hk] Hp Ho Hpin. destruct (Hk p Hp) as [_ _ Hc Hpk _].
  destruct (Hpk o Ho Hpin) as (o2 & Ho2 & Hpin2). exists o2. split_and!; [done| |by apply Hc].
  unfold pinned in Hpin2. by destruct (ob_self o2).
Qed.

(** The watcher that was called ends, and nothing else happens. *)
Record only_at p (e e' : EventLoop C L) : Prop := {
  oa_refs : refs_within e e';
  oa_broken : ev_broken (m_loop e') = ev_broken (m_loop e);
  oa_ne q : q ≠ p →
    el_heap e' !! q = el_heap e !! q ∧ ev_active (m_loop e') q = ev_active (m_loop e) q
}.

Lemma only_at_refl p e : only_at p e e.
Proof using. split; [apply refs_within_refl|done..]. Qed.

Lemma only_at_let_go p o e : el_heap e !! p = Some o → only_at p e (let_go p o e).
Proof using LibEvLaws0. split; [by apply refs_within_let_go|done|intros q; apply let_go_ne]. Qed.

Lemma only_at_ended p o e : el_heap e !! p = Some o → only_at p e (ended p o e).
Proof using LibEvLaws0.
  split; [by apply refs_within_ended| |by intros q; apply ended_ne]. apply broken_stop.
Qed.

(** What a callback leaves behind. *)
Definition handled (s : S) (p : nat) (c : C) (s1 s' : S) (Q : bool → Prop) : Prop :=
  loop_ok (lp s') ∧ lasting (lp s) (lp s') ∧ ∃ res s2, call c s1 = Ok (res, s2) ∧ Q res ∧
    only_at p (lp s2) (lp s').

Lemma handle_watcher s s1 p o w c :
  loop_ok (lp s) → ev_active (m_loop (lp s)) p = Some w → good (lp s) (lp s1) →
  heap s !! p = Some o → ob_self o = true → m_data (ob_watcher o) = None →
  wp (res ← call c;
      if negb res then zoom (object p) ;; zoom (libev (ev_stop p)) ;; zoom (reset_self p)
      else skip) E
    (λ _ s', handled s p c s1 s' (λ res,
      ev_active (m_loop (lp s')) p = if res then Some w else None)) s1.
Proof using Type LibEvLaws0 call_ok.
  intros Hok Ha [Hok1 Hk1] Ho Hself Hd.
  pose proof (loop_ok_alloc _ _ _ Hok Ho) as Hlt.
  apply wp_bind. pose proof (call_ok c s1 Hok1) as Hcall. revert Hcall. unfold wp at 1 2.
  destruct (call c s1) as [[res s2]|] eqn:Hres; [|done]. intros [Hok2 Hk2].
  assert (kept (lp s) (lp s2)) as Hk by by etrans.
  destruct (pinned_after _ _ p o Hk) as (o2 & Ho2 & Hself2 & Hc); [done..| |].
  { unfold pinned. rewrite Hself. by destruct (ob_watcher o). }
  assert (m_data (ob_watcher o2) = None) as Hd2.
  { by destruct (ob_watcher o), (ob_watcher o2). }
  eapply wp_mono; [by apply finish_watcher|done|]. intros [] s'. unfold handled.
  destruct res; intros ->.
  - split_and!; [done|by apply kept_lasting|]. eexists _, _. split; [done|].
    split; [|apply only_at_refl]. destruct (Hok p) as [Hs _], (Hok2 p) as [Hs2 _]. rewrite Ho, Ha in Hs. rewrite Ho2 in Hs2.
    destruct Hs as [_ Hs], Hs2 as [_ Hs2]. unfold watcher_ok in *. rewrite Hself in Hs. rewrite Hself2 in Hs2.
    by destruct (ob_watcher o), (ob_watcher o2); simplify_eq/=.
  - split_and!; [by apply ended_ok|..].
    + eapply (callback_lasting (lp s) (lp s) (lp s2)); [done..|by intros| |done].
      intros q Hq. by apply ended_ne.
    + eexists _, _. split; [done|]. split; [|by apply only_at_ended].
      unfold ended, let_go. rewrite at_slot_twice.
      change (m_loop (at_slot p _ _ (lp s2))) with (ev_stop p (m_loop (lp s2))).
      by rewrite active_stop, decide_True.
Qed.

(** The state in which the callback of a timer runs: it is not armed any more. *)
Definition expired p o (l : L) s : S := set_view (at_slot p (Some (stopped o)) (ev_stop p l) (lp s)) s.

Lemma expired_lp p o l s : lp (expired p o l s) = at_slot p (Some (stopped o)) (ev_stop p l) (lp s).
Proof. apply lp_set. Qed.

Lemma armed_not_leaked o : default false (td_active <$> m_data (ob_watcher o)) = true → leaked o = false.
Proof.
  unfold leaked. destruct (ob_watcher o) as [| |d|d]; cbn; intros Ha; rewrite ?Ha, ?andb_false_r; done.
Qed.

Lemma expired_good s p o l at_ :
  loop_ok (lp s) → heap s !! p = Some o → is_Some (m_data (ob_watcher o)) → leaked o = false →
  ev_take (m_loop (lp s)) p (ev_timer at_) l → good (lp s) (lp (expired p o l s)).
Proof.
  intros Hok Ho Hd Hleak Ht. rewrite expired_lp. apply stopped_good; [done..| |done].
  intros q. rewrite active_stop, (active_take _ _ _ _ q Ht). by destruct (decide (q = p)).
Qed.

(** The callback of a timer up to the call of its handler. *)
Lemma timeout_cb_starts s p o d l :
  heap s !! p = Some o → m_data (ob_watcher o) = Some d → td_active d = true →
  TimeoutData_cb call p (event_loop.with_ev l s)
  = (m_fkn call p ;;
     d' ← zoom (timeout_data.data p);
     if td_watcher d' then zoom (timeout_watcher.clear p) else skip) (expired p o l s).
Proof.
  intros Ho Hd Ha. unfold TimeoutData_cb.
  set (s1 := event_loop.with_ev l s).
  assert (lp s1 = (lp s) <| m_loop := l |>) as Hlp by apply lp_set.
  assert (heap s1 !! p = Some o) as Ho1 by by rewrite Hlp.
  rewrite (bind_ok _ _ _ _ _ (zoom_at _ _ _ _ (data_at _ _ _ _ Ho1 Hd))), Ha.
  assert (set_view (lp s1) s1 = s1) as -> by apply set_get.
  rewrite (bind_ok _ _ _ _ _ (zoom_at _ _ _ _ (data_cancel_at _ _ _ Ho1 (mk_is_Some _ _ Hd)))).
  unfold expired. f_equal. rewrite Hlp. unfold s1, event_loop.with_ev. by rewrite set_set.
Qed.

Lemma stopped_lookup p o l s : heap (expired p o l s) !! p = Some (stopped o).
Proof. rewrite expired_lp. apply at_slot_lookup. Qed.

Lemma stopped_timeout o c :
  ob_watcher o = TimeoutWatcher (mkTimeoutData true (Some c) true) →
  ob_watcher (stopped o) = TimeoutWatcher (mkTimeoutData true (Some c) false).
Proof. destruct o as [w self refs]. cbn. by intros ->. Qed.

Lemma stopped_time o c :
  ob_watcher o = TimeWatcher (mkTimeoutData false (Some c) true) →
  ob_watcher (stopped o) = TimeWatcher (mkTimeoutData false (Some c) false).
Proof. destruct o as [w self refs]. cbn. by intros ->. Qed.

(** The two kinds of timers: what the handler may have done to the watcher decides. *)
Lemma timeout_watcher_outcome s p o c l s2 r :
  heap s !! p = Some o → ob_watcher o = TimeoutWatcher (mkTimeoutData true (Some c) true) →
  call c (expired p o l s) = Ok (r, s2) →
  (∀ o2, heap s2 !! p = Some o2 → same_code (ob_watcher (stopped o)) (ob_watcher o2)) →
  TimeoutData_cb call p (event_loop.with_ev l s)
  = match heap s2 !! p with
    | Some o2 => Ok ((), set_view (let_go p o2 (lp s2)) s2)
    | None => Fail use_after_free
    end.
Proof.
  intros Ho Hw Hcall Hcode. pose proof (stopped_timeout _ _ Hw) as Hsw.
  erewrite timeout_cb_starts; [|done|by rewrite Hw|done].
  unfold m_fkn. rewrite bind_assoc.
  rewrite (bind_ok _ _ _ _ _ (zoom_object_at _ _ _ (stopped_lookup _ _ _ _))), Hsw. cbn [td_fkn].
  rewrite (bind_step _ _ _ () s2 _ (bind_step _ _ _ _ _ _ (eq_refl : deref _ (Some c) _ = _)
    (bind_step _ _ _ _ _ _ Hcall eq_refl)) eq_refl).
  destruct (heap s2 !! p) as [o2|] eqn:Ho2.
  - specialize (Hcode o2 eq_refl). rewrite Hsw in Hcode.
    destruct (ob_watcher o2) as [| |d2|] eqn:Hw2; [done..| |done].
    destruct Hcode as [_ Hd2]. rewrite (Hd2 eq_refl) in Hw2.
    assert (m_data (ob_watcher o2) = Some (mkTimeoutData true (Some c) false)) as Hm by by rewrite Hw2.
    rewrite (bind_ok _ _ _ _ _ (zoom_at _ _ _ _ (data_at _ _ _ _ Ho2 Hm))). cbn [td_watcher].
    assert (set_view (lp s2) s2 = s2) as -> by apply set_get.
    apply zoom_at, reset_self_let_go; [done|]. by unfold watcher_ok, timer_ok; cbn; rewrite Hw2; eauto.
  - apply bind_fail. unfold zoom, timeout_data.data. fold (event_loop.loop_of (C:=C) (L:=L) s2).
    by rewrite (bind_fail _ _ _ _ (object_gone _ _ Ho2)).
Qed.

Lemma time_watcher_outcome s p o c l s2 o2 r :
  heap s !! p = Some o → ob_watcher o = TimeWatcher (mkTimeoutData false (Some c) true) →
  call c (expired p o l s) = Ok (r, s2) → heap s2 !! p = Some o2 →
  same_code (ob_watcher (stopped o)) (ob_watcher o2) →
  TimeoutData_cb call p (event_loop.with_ev l s)
  = if (0 <? ob_refs o2)%nat then Ok ((), set_view (let_go p o2 (lp s2)) s2)
    else Fail use_after_free.
Proof.
  intros Ho Hw Hcall Ho2 Hcode. pose proof (stopped_time _ _ Hw) as Hsw.
  erewrite timeout_cb_starts; [|done|by rewrite Hw|done].
  unfold m_fkn. rewrite bind_assoc.
  rewrite (bind_ok _ _ _ _ _ (zoom_object_at _ _ _ (stopped_lookup _ _ _ _))), Hsw. cbn [td_fkn].
  assert (ob_watcher o2 = TimeWatcher (mkTimeoutData false (Some c) false)) as Hw2.
  { rewrite Hsw in Hcode. destruct (ob_watcher o2); [done..|].
    destruct Hcode as [_ Hd2]. by rewrite (Hd2 eq_refl). }
  assert (reset_self p (lp s2) = Ok ((), let_go p o2 (lp s2))) as Hreset.
  { apply reset_self_let_go; [done|]. by unfold watcher_ok, timer_ok; cbn; rewrite Hw2; eauto. }
  erewrite (bind_ok _ _ _ () (set_view (let_go p o2 (lp s2)) s2)); last first.
  { eapply bind_step; [done|]. unfold time_watcher.closure.
    eapply bind_step; [done|]. by apply zoom_at. }
  set (s3 := set_view _ s2). assert (lp s3 = let_go p o2 (lp s2)) as Hlp by apply lp_set.
  destruct (0 <? ob_refs o2)%nat eqn:Hr.
  - assert (heap s3 !! p = Some (o2 <| ob_self := false |>)) as Ho3.
    { rewrite Hlp. unfold let_go. by rewrite Hr, at_slot_lookup. }
    assert (m_data (ob_watcher (o2 <| ob_self := false |>)) = Some (mkTimeoutData false (Some c) false)) as Hm
      by by cbn; rewrite Hw2.
    rewrite (bind_ok _ _ _ _ _ (zoom_at _ _ _ _ (data_at _ _ _ _ Ho3 Hm))). cbn [td_watcher].
    unfold skip. do 2 f_equal. apply set_get.
  - apply bind_fail. assert (heap s3 !! p = None) as Ho3.
    { rewrite Hlp. unfold let_go. by rewrite Hr, at_slot_lookup. }
    unfold zoom, timeout_data.data. fold (event_loop.loop_of (C:=C) (L:=L) s3).
    by rewrite (bind_fail _ _ _ _ (object_gone _ _ Ho3)).
Qed.

(** The end of a timer, whatever the handler did in between. *)
Lemma timer_disowned o b c o2 a :
  m_data (ob_watcher o) = Some (mkTimeoutData b (Some c) true) →
  slot_ok (Some o) a →
  same_code (ob_watcher (stopped o)) (ob_watcher o2) →
  watcher_ok (o2 <| ob_self := false |>) None.
Proof.
  intros Hd [_ Hw] Hcode. destruct o as [w self refs], o2 as [w2 self2 refs2].
  unfold watcher_ok, timer_ok in *. cbn in *.
  destruct w; simplify_eq/=; destruct w2 as [| |d2|d2]; try done;
    destruct Hcode as [_ Hd2]; rewrite (Hd2 eq_refl); cbn; destruct_and?; by eauto.
Qed.

(** A handler that fails. *)
Lemma timer_handler_fails s p o b c l e :
  heap s !! p = Some o → m_data (ob_watcher o) = Some (mkTimeoutData b (Some c) true) →
  call c (expired p o l s) = Fail e →
  TimeoutData_cb call p (event_loop.with_ev l s) = Fail e.
Proof.
  intros Ho Hd Hcall. erewrite timeout_cb_starts; [|done..].
  apply bind_fail. unfold m_fkn.
  rewrite (bind_ok _ _ _ _ _ (zoom_object_at _ _ _ (stopped_lookup _ _ _ _))).
  destruct o as [[| |d'|d'] self refs]; try done; injection Hd as ->; cbn;
    (eapply bind_step; [done|]); by apply bind_fail.
Qed.

(** What a failure of a callback may be: one of the handler, or that of a timer that
    nobody holds any more when its handler returns. *)
Definition callback_fails (p : nat) (w : ev_watcher) (e : Failure) : Prop :=
  E e ∨ (e = use_after_free ∧ ∃ at_, w = ev_timer at_).

Lemma timer_cb_ok s p at_ l o c :
  loop_ok (lp s) → ev_take (m_loop (lp s)) p (ev_timer at_) l →
  heap s !! p = Some o →
  ob_watcher o = TimeoutWatcher (mkTimeoutData true (Some c) true)
  ∨ ob_watcher o = TimeWatcher (mkTimeoutData false (Some c) true) →
  ob_self o = true →
  wp (TimeoutData_cb call p) (callback_fails p (ev_timer at_))
    (λ _ s', handled s p c (expired p o l s) s' (λ _, ev_active (m_loop (lp s')) p = None))
    (event_loop.with_ev l s).
Proof using Type LibEvLaws0 call_ok.
  intros Hok Ht Ho Hw Hself. pose proof (loop_ok_alloc _ _ _ Hok Ho) as Hlt.
  assert (∃ b, m_data (ob_watcher o) = Some (mkTimeoutData b (Some c) true)) as [b Hd]
    by (destruct Hw as [->| ->]; eauto).
  assert (leaked o = false) as Hleak by (apply armed_not_leaked; by rewrite Hd).
  pose proof (expired_good s p o l at_ Hok Ho (mk_is_Some _ _ Hd) Hleak Ht) as [Hok1 Hk1].
  pose proof (call_ok c _ Hok1) as Hcall. revert Hcall. unfold wp.
  destruct (call c (expired p o l s)) as [[r s2]|e] eqn:Hres; last first.
  { intros He. rewrite (timer_handler_fails _ _ _ _ _ _ _ Ho Hd Hres). by left. }
  intros [Hok2 Hk2]. assert (kept (lp s) (lp s2)) as Hk by by etrans.
  assert (slot_kept (Some (stopped o)) None (heap s2 !! p) (ev_active (m_loop (lp s2)) p)) as Hs2.
  { destruct Hk2 as [_ Hk2]. rewrite expired_lp in Hk2. specialize (Hk2 p Hlt).
    by rewrite at_slot_lookup, at_slot_loop, active_stop, decide_True in Hk2. }
  pose proof (kept_inactive _ _ _ _ Hs2 eq_refl) as Ha2.
  assert (∀ o2, heap s2 !! p = Some o2 → same_code (ob_watcher (stopped o)) (ob_watcher o2)) as Hcode
    by (intros; by eapply kept_code).
  assert (∀ o2, heap s2 !! p = Some o2 →
    handled s p c (expired p o l s) (set_view (let_go p o2 (lp s2)) s2)
      (λ _, ev_active (m_loop (lp (set_view (let_go p o2 (lp s2)) s2))) p = None)) as Hend.
  { intros o2 Ho2. unfold handled. rewrite lp_set.
    split_and!; [..|by eexists _, _; split_and!; [done|done|apply only_at_let_go]].
    - apply let_go_ok; [done|by eapply loop_ok_alloc|done|]. eapply timer_disowned; [done|exact (slot_ok_at _ _ _ Hok Ho)|by apply Hcode].
    - eapply (callback_lasting (lp s) (lp s) (lp s2)); [by eapply take_active|done..|by intros| |done].
      intros q Hq. by apply let_go_ne. }
  destruct Hw as [Hw|Hw].
  - rewrite (timeout_watcher_outcome _ _ _ _ _ _ _ Ho Hw Hres Hcode).
    destruct (heap s2 !! p) as [o2|] eqn:Ho2; [by apply Hend|]. right. eauto.
  - destruct (pinned_after _ _ p o Hk) as (o2 & Ho2 & _ & _); [done..| |].
    { unfold pinned. by rewrite Hself, Hw. }
    rewrite (time_watcher_outcome _ _ _ _ _ _ _ _ Ho Hw Hres Ho2) by by apply Hcode.
    destruct (0 <? ob_refs o2)%nat; [by apply Hend|]. right. eauto.
Qed.
End callbacks.
