(* ===== verification/EventRuns.v ===== *)
(** * Runs of the event loop

    From a state that is as it should be, whatever libev delivers and whatever the
    handlers do with the operations of the loop: callbacks find their watchers, timers
    are called at most once, and what a timer's owner may do in its own handler. *)

From stdpp Require Import gmap.
From S2P Require Import Prelude Config TimeService Posix EventLoop EventLoopProps.

Section runs.
Context {C L S : Type} `{!LibEv L, !LibEvLaws L, !Lens S (EventLoop C L)}.
Context (call : C → M S bool) (E : Failure → Prop) (call_ok : ∀ c, handler_ok E (call c)).
#[local] Set Default Proof Using "Type LibEvLaws0 call_ok".
Implicit Types (s : S) (o : Object C) (p : nat).
Abbreviation lp s := (event_loop.loop_of (C:=C) (L:=L) s).
Abbreviation heap s := (el_heap (lp s)).
Abbreviation taken s p w l := (ev_take (m_loop (lp s)) p w l).

(** The callback of an object of any class. *)
Definition code_of o : option C :=
  match ob_watcher o with
  | IoWatcher _ c | SignalWatcher _ c => Some c
  | TimeoutWatcher d | TimeWatcher d => td_fkn d
  end.

(** The state in which a handler is called. *)
Definition called s p o w l : S :=
  match w with
  | ev_timer _ => expired p o l s
  | _ => event_loop.with_ev l s
  end.

Lemma with_ev_lp l s : lp (event_loop.with_ev l s) = (lp s) <| m_loop := l |>.
Proof using. apply view_set. Qed.

Lemma callback_ok s p w l :
  loop_ok (lp s) → taken s p w l →
  ∃ o c, heap s !! p = Some o ∧ ob_self o = true ∧ class_of o w ∧ code_of o = Some c ∧
    wp (event_loop.ev_callback call w p) (callback_fails E p w)
      (λ _ s', handled call s p c (called s p o w l) s' (λ res,
         ev_active (m_loop (lp s')) p
         = match w with ev_timer _ => None | _ => if res then Some w else None end))
      (event_loop.with_ev l s).
Proof.
  intros Hok Ht. pose proof (take_active _ _ _ _ Ht) as Ha.
  destruct (registered_object _ _ _ Hok Ha) as (o & Ho & Hlt & Hself & Hc). exists o.
  assert (heap (event_loop.with_ev l s) !! p = Some o) as Ho1 by by rewrite with_ev_lp.
  destruct w as [fd|n|at_]; destruct Hc as [c Hw]; exists c.
  3: { split_and!; [done..|by exists c| |by apply timer_cb_ok].
       unfold code_of. by destruct Hw as [->| ->]. }
  all: split_and!; [done..|by exists c|by unfold code_of; rewrite Hw|].
  all: assert (m_data (ob_watcher o) = None) as Hd by by rewrite Hw.
  all: apply wp_bind; eapply wp_eq; [by apply zoom_object_at|]; rewrite Hw.
  all: eapply wp_mono; [eapply handle_watcher; [done|done|done| |done..]|by left|done].
  all: rewrite with_ev_lp; by eapply take_lasting_good.
Qed.

Lemma step_ok s s' : loop_ok (lp s) → event_loop.step call s s' → loop_ok (lp s') ∧ lasting (lp s) (lp s').
Proof.
  intros Hok [p w l s2 Ht Hcb|l Hw].
  - destruct (callback_ok s p w l Hok Ht) as (o & c & _ & _ & _ & _ & Hwp).
    destruct (wp_run _ _ _ _ _ _ Hwp Hcb) as (? & ? & _). done.
  - rewrite with_ev_lp. destruct (same_active_good (lp s) l Hok) as [Hok' Hk].
    { intros q. by rewrite (active_wait _ _ Hw). }
    split; [done|]. by apply kept_lasting.
Qed.

Lemma steps_ok s s' :
  loop_ok (lp s) → rtc (event_loop.step call) s s' → loop_ok (lp s') ∧ lasting (lp s) (lp s').
Proof.
  intros Hok Hsteps. induction Hsteps as [s|s1 s2 s3 Hstep _ IH]; [done|].
  destruct (step_ok _ _ Hok Hstep) as [Hok2 Hl]. destruct (IH Hok2) as [Hok3 Hl'].
  split; [done|by etrans].
Qed.

(** ** What other watchers' callbacks leave alone *)

Lemma called_ne s p q o w l : q ≠ p → heap (called s p o w l) !! q = heap s !! q.
Proof using LibEvLaws0.
  intros Hq. destruct w; cbn [called]; rewrite ?with_ev_lp; [done..|].
  rewrite expired_lp. by apply at_slot_lookup_ne.
Qed.

Lemma called_next s p o w l : el_next (lp (called s p o w l)) = el_next (lp s).
Proof using LibEvLaws0. destruct w; cbn [called]; by rewrite ?with_ev_lp, ?expired_lp. Qed.

Lemma called_ok s p w l :
  loop_ok (lp s) → taken s p w l → ∃ o, heap s !! p = Some o ∧ loop_ok (lp (called s p o w l)).
Proof.
  intros Hok Ht. pose proof (take_active _ _ _ _ Ht) as Ha.
  destruct (registered_object _ _ _ Hok Ha) as (o & Ho & _ & _ & Hc). exists o. split; [done|].
  destruct w as [fd|n|at_]; cbn [called]; rewrite ?with_ev_lp;
    [by eapply take_lasting_good..|].
  assert (∃ b c, m_data (ob_watcher o) = Some (mkTimeoutData b (Some c) true)) as (b & c & Hd)
    by (destruct Hc as [c [->| ->]]; eauto).
  by apply (expired_good s p o l at_); [..|apply armed_not_leaked; rewrite Hd|].
Qed.

Lemma called_refs_within s p o w l : heap s !! p = Some o → refs_within (lp s) (lp (called s p o w l)).
Proof using LibEvLaws0.
  intros Ho. destruct w as [fd|n|at_]; cbn [called]; rewrite ?with_ev_lp;
    [intros q o' Ho'; eauto using same_code_refl..|].
  rewrite expired_lp. apply (refs_within_slot _ _ o); [done|].
  intros o' [= <-]. split; [done|]. apply stopped_code.
Qed.

(** A watcher that only its own callback ends is as it was, whoever is called. *)
Lemma step_pinned s s' p o :
  loop_ok (lp s) → event_loop.step call s s' → heap s !! p = Some o → pinned o = true →
  (∃ o', heap s' !! p = Some o' ∧ pinned o' = true ∧ same_code (ob_watcher o) (ob_watcher o'))
  ∨ ∃ w l, taken s p w l ∧ event_loop.ev_callback call w p (event_loop.with_ev l s) = Ok ((), s').
Proof.
  intros Hok [q w l s2 Ht Hcb|l Hw] Ho Hpin; last first.
  { left. rewrite with_ev_lp. eauto using same_code_refl. }
  destruct (decide (p = q)) as [->|Hpq]; [by right; eauto|]. left.
  destruct (callback_ok s q w l Hok Ht) as (oq & c & Hoq & _ & _ & _ & Hwp).
  destruct (wp_run _ _ _ _ _ _ Hwp Hcb) as (_ & _ & res & s1 & Hres & _ & [_ _ Hne]).
  destruct (called_ok s q w l Hok Ht) as (o' & Ho' & Hok1). simplify_eq.
  destruct (wp_run _ _ _ _ _ _ (call_ok c _ Hok1) Hres) as [_ Hk].
  destruct (pinned_after _ _ p o Hk) as (o2 & Ho2 & Hself2 & Hcode); [|by rewrite called_ne|done|].
  { rewrite called_next. by eapply loop_ok_alloc. }
  exists o2. destruct (Hne p Hpq) as [-> _]. split_and!; [done| |done].
  unfold pinned in *. rewrite Hself2. destruct (ob_self o); [|done].
  by destruct (ob_watcher o), (ob_watcher o2).
Qed.

(** Once told to stop, the loop stays so. *)
Lemma step_broken s s' :
  (∀ c s1 res s2, loop_ok (lp s1) → call c s1 = Ok (res, s2) →
     ev_broken (m_loop (lp s1)) = true → ev_broken (m_loop (lp s2)) = true) →
  loop_ok (lp s) → event_loop.step call s s' →
  ev_broken (m_loop (lp s)) = true → ev_broken (m_loop (lp s')) = true.
Proof.
  intros Hcall Hok [q w l s2 Ht Hcb|l Hw] Hb; last first.
  { rewrite with_ev_lp. cbn. by rewrite (broken_wait _ _ Hw). }
  destruct (callback_ok s q w l Hok Ht) as (oq & c & Hoq & _ & _ & _ & Hwp).
  destruct (wp_run _ _ _ _ _ _ Hwp Hcb) as (_ & _ & res & s1 & Hres & _ & [_ -> _]).
  destruct (called_ok s q w l Hok Ht) as (o' & Ho' & Hok1). simplify_eq.
  apply (Hcall _ _ _ _ Hok1 Hres). rewrite <-Hb.
  pose proof (broken_take _ _ _ _ Ht) as Hl.
  destruct w; cbn [called]; rewrite ?with_ev_lp, ?expired_lp, ?at_slot_loop, ?broken_stop;
    exact Hl.
Qed.

(** ** Callbacks are made on watchers of their class *)

(** C27. Whatever happens in a run of the loop, each watcher that libev calls back is an
    object that exists, still owns itself, and is of the class that the callback casts
    it to; the callback runs the handler and leaves the loop as it should be. It fails
    only if the handler fails, or for a timer nobody holds when its handler is done. *)
Theorem callbacks_typed s s' p w l :
  loop_ok (lp s) → rtc (event_loop.step call) s s' → taken s' p w l →
  ∃ o c, heap s' !! p = Some o ∧ ob_self o = true ∧ class_of o w ∧ code_of o = Some c ∧
    wp (event_loop.ev_callback call w p) (callback_fails E p w)
      (λ _ s2, loop_ok (lp s2) ∧ ∃ res s1, call c (called s' p o w l) = Ok (res, s1))
      (event_loop.with_ev l s').
Proof.
  intros Hok Hsteps Ht. destruct (steps_ok _ _ Hok Hsteps) as [Hok' _].
  destruct (callback_ok _ _ _ _ Hok' Ht) as (o & c & Ho & Hself & Hc & Hcode & Hwp).
  exists o, c. split_and!; [done..|]. eapply wp_mono; [exact Hwp|done|].
  intros [] s2 (Hok2 & _ & res & s1 & Hres & _). eauto.
Qed.

(** ** Who is called again *)

Lemma inactive_not_taken s s' p w l :
  loop_ok (lp s) → rtc (event_loop.step call) s s' →
  (p < el_next (lp s))%nat → ev_active (m_loop (lp s)) p = None → ¬ taken s' p w l.
Proof.
  intros Hok Hsteps Hp Ha Ht. destruct (steps_ok _ _ Hok Hsteps) as [_ [_ Hl]].
  pose proof (lasting_inactive _ _ _ _ (Hl p Hp) Ha) as Ha'.
  by rewrite (take_active _ _ _ _ Ht) in Ha'.
Qed.

(** C33. A watcher of a descriptor or a signal is called until its handler returns false,
    and never after that; a timer is called at most once, whatever its handler returns,
    though the interface says that true means to watch on. *)
Theorem called_again s p w l s1 :
  loop_ok (lp s) → taken s p w l →
  event_loop.ev_callback call w p (event_loop.with_ev l s) = Ok ((), s1) →
  ∃ o c res s2, heap s !! p = Some o ∧ code_of o = Some c ∧
    call c (called s p o w l) = Ok (res, s2) ∧
    (if res && match w with ev_timer _ => false | _ => true end
     then ev_active (m_loop (lp s1)) p = Some w
     else ∀ s' w' l', rtc (event_loop.step call) s1 s' → ¬ taken s' p w' l').
Proof.
  intros Hok Ht Hcb. destruct (callback_ok _ _ _ _ Hok Ht) as (o & c & Ho & _ & _ & Hcode & Hwp).
  destruct (wp_run _ _ _ _ _ _ Hwp Hcb) as (Hok1 & [Hn _] & res & s2 & Hres & Ha & _).
  exists o, c, res, s2. split_and!; [done..|].
  assert (p < el_next (lp s1))%nat as Hp.
  { pose proof (loop_ok_alloc _ _ _ Hok Ho). lia. }
  destruct w; rewrite ?andb_false_r, ?andb_true_r; try destruct res; try done;
    intros s' w' l' Hsteps; by eapply inactive_not_taken.
Qed.

Lemma drop_slot_inactive (e : EventLoop C L) p o :
  ev_active (m_loop e) p = None → ev_active (m_loop (drop_slot p o e)) p = None.
Proof using LibEvLaws0.
  intros Ha. unfold drop_slot. destruct (owned o); [done|]. rewrite at_slot_loop.
  destruct (default false _); [|done]. by rewrite active_stop, decide_True.
Qed.

Lemma cancel_inactive (e : EventLoop C L) p o :
  loop_ok e → el_heap e !! p = Some o →
  (∃ d, ob_watcher o = TimeoutWatcher d) → (0 < ob_refs o)%nat →
  wp (timeout_watcher.cancel p) never (λ _ e', good e e' ∧ ev_active (m_loop e') p = None) e.
Proof using LibEvLaws0.
  intros Hok Ho [d Hw] Hr. pose proof (watcher_cancel_api _ _ _ _ Hok Ho Hw Hr) as Hg. revert Hg.
  unfold api, wp. rewrite (watcher_cancel_at _ _ _ Ho) by by rewrite Hw.
  intros Hg. split; [done|]. apply drop_slot_inactive.
  by rewrite at_slot_loop, active_stop, decide_True.
Qed.

Lemma destroy_inactive (e : EventLoop C L) p o :
  loop_ok e → el_heap e !! p = Some o →
  (∃ d, ob_watcher o = TimeWatcher d) → (0 < ob_refs o)%nat →
  wp (timer.destroy (Some p)) never (λ _ e', good e e' ∧ ev_active (m_loop e') p = None) e.
Proof using LibEvLaws0.
  intros Hok Ho [d Hw] Hr.
  pose proof (timer_destroy_api e (Some p) Hok ltac:(by exists o, d)) as Hg. revert Hg.
  unfold api, wp, timer.destroy, time_watcher.cancel.
  assert (is_Some (m_data (ob_watcher o))) as Hd by by rewrite Hw.
  rewrite (bind_ok _ _ _ _ _ (data_cancel_at _ _ _ Ho Hd)), (release_at _ _ _ (at_slot_lookup _ _ _ _)).
  intros Hg. split; [done|]. apply drop_slot_inactive.
  by rewrite at_slot_loop, active_stop, decide_True.
Qed.

(** C34. A timer that is cancelled, by its watcher or by a [Timer] that holds it, is not
    called any more. *)
Theorem cancelled_not_called s p o (cancel : M (EventLoop C L) ()) s1 s2 w l :
  loop_ok (lp s) → heap s !! p = Some o → (0 < ob_refs o)%nat →
  ((∃ d, ob_watcher o = TimeoutWatcher d) ∧ cancel = timeout_watcher.cancel p
   ∨ (∃ d, ob_watcher o = TimeWatcher d) ∧ cancel = timer.destroy (Some p)) →
  zoom cancel s = Ok ((), s1) → rtc (event_loop.step call) s1 s2 → ¬ taken s2 p w l.
Proof.
  intros Hok Ho Hr Hc Hz Hsteps.
  assert (wp cancel never (λ _ e, good (lp s) e ∧ ev_active (m_loop e) p = None) (lp s)) as Hwp.
  { destruct Hc as [[? ->]|[? ->]]; [by eapply cancel_inactive|by eapply destroy_inactive]. }
  apply wp_ok in Hwp as ([] & e & He & Hg & Ha).
  rewrite (zoom_at _ _ _ _ He) in Hz. injection Hz as <-. destruct Hg as [Hok1 [Hn _]].
  eapply inactive_not_taken; [|done|..]; rewrite lp_set; [done| |done].
  pose proof (loop_ok_alloc _ _ _ Hok Ho). lia.
Qed.

(** ** Who goes away *)

(** What is left of an armed timer that its only owner cancels. *)
Definition abandoned o : Object C := (stopped o) <| ob_refs ::= pred |>.

Lemma timer_cancel_at (e : EventLoop C L) p o d :
  el_heap e !! p = Some o → ob_watcher o = TimeWatcher d → ob_self o = true →
  TimeServiceEv.cancel (Some p) e
  = Ok (None, at_slot p (Some (abandoned o)) (ev_stop p (m_loop e)) e).
Proof using.
  intros Ho Hw Hself. unfold TimeServiceEv.cancel, timer.cancel, time_watcher.cancel.
  assert (is_Some (m_data (ob_watcher o))) as Hd by by rewrite Hw.
  rewrite bind_assoc, (bind_ok _ _ _ _ _ (data_cancel_at _ _ _ Ho Hd)).
  rewrite (bind_ok _ _ _ _ _ (release_at _ _ _ (at_slot_lookup _ _ _ _))).
  fold (abandoned o). unfold drop_slot. assert (owned (abandoned o) = true) as ->.
  { unfold abandoned, owned. cbn. by rewrite Hself. }
  by rewrite at_slot_twice.
Qed.

Lemma abandoned_leaked o d :
  ob_watcher o = TimeWatcher d → ob_self o = true → ob_refs o = 1%nat → leaked (abandoned o) = true.
Proof using. destruct o as [w self refs]. cbn. by intros -> -> ->. Qed.

(** A timer of the time service that is cancelled before it expires is never freed:
    it goes on owning itself, and nothing can reach it any more. *)
Theorem cancelled_timer_leaks s p o d s1 s2 :
  loop_ok (lp s) → heap s !! p = Some o → ob_watcher o = TimeWatcher d → td_active d = true →
  ob_refs o = 1%nat →
  zoom (TimeServiceEv.cancel (Some p)) s = Ok (None, s1) → rtc (event_loop.step call) s1 s2 →
  ∃ o', heap s2 !! p = Some o' ∧ ob_self o' = true ∧ ob_refs o' = 0%nat ∧
    ev_active (m_loop (lp s2)) p = None.
Proof.
  intros Hok Ho Hw Ha Hr Hz Hsteps.
  assert (ob_self o = true) as Hself.
  { pose proof (slot_ok_at _ _ _ Hok Ho) as [_ Hs]. unfold watcher_ok, timer_ok in Hs.
    rewrite Hw, Ha in Hs. by destruct Hs as (_ & _ & ? & _). }
  pose proof (timer_cancel_at _ _ _ _ Ho Hw Hself) as Hc.
  assert (api (timer.cancel (Some p)) (lp s)) as Hg.
  { apply timer_cancel_api; [done|]. exists o, d. rewrite Hr. auto. }
  unfold api, wp in Hg. fold (TimeServiceEv.cancel (C:=C) (L:=L) (Some p)) in Hg.
  rewrite Hc in Hg. destruct Hg as [Hok1 [Hn _]].
  rewrite (zoom_at _ _ _ _ Hc) in Hz. injection Hz as <-.
  destruct (steps_ok _ s2 ltac:(by rewrite lp_set) Hsteps) as [_ [_ Hl]]. rewrite lp_set in Hl.
  pose proof (loop_ok_alloc _ _ _ Hok Ho) as Hp. specialize (Hl p ltac:(cbn in *; lia)).
  rewrite at_slot_lookup, at_slot_loop, active_stop, decide_True in Hl by done.
  exists (abandoned o). split_and!.
  - eapply lasting_leaked; [done..|]. by eapply abandoned_leaked.
  - done.
  - unfold abandoned. cbn. by rewrite Hr.
  - by eapply lasting_inactive.
Qed.

(** A handler after which its own timer has one owner less. *)
Lemma own_timer_dropped s p o c at_ l s2 o2 res :
  loop_ok (lp s) → taken s p (ev_timer at_) l → heap s !! p = Some o →
  ob_watcher o = TimeWatcher (mkTimeoutData false (Some c) true) → (0 < ob_refs o)%nat →
  call c (expired p o l s) = Ok (res, s2) → heap s2 !! p = Some o2 →
  ob_refs o2 = pred (ob_refs o) →
  match event_loop.ev_callback call (ev_timer at_) p (event_loop.with_ev l s) with
  | Ok (_, s') => (1 < ob_refs o)%nat ∧ loop_ok (lp s')
  | Fail e => ob_refs o = 1%nat ∧ e = use_after_free
  end.
Proof.
  intros Hok Ht Ho Hw Hr Hres Ho2 Hr2. pose proof (loop_ok_alloc _ _ _ Hok Ho) as Hlt.
  destruct (callback_ok _ _ _ _ Hok Ht) as (? & ? & Ho' & Hself & _ & _ & Hwp).
  simplify_eq. unfold wp in Hwp. cbn [event_loop.ev_callback] in *.
  assert (loop_ok (lp (expired p o l s))) as Hok1.
  { apply (expired_good s p o l at_); [done..| |by apply not_leaked|done]. by rewrite Hw. }
  pose proof (wp_run _ _ _ _ _ _ (call_ok c _ Hok1) Hres) as [_ [_ Hk]].
  rewrite expired_lp in Hk. specialize (Hk p Hlt). rewrite at_slot_lookup, Ho2 in Hk.
  rewrite (time_watcher_outcome _ _ _ _ _ _ _ _ _ Ho Hw Hres Ho2) in Hwp |- *
    by by eapply kept_code.
  rewrite Hr2 in Hwp |- *. destruct (ob_refs o) as [|[|n]]; [lia|done|]. cbn in Hwp |- *.
  split; [lia|]. by destruct Hwp.
Qed.

Lemma release_armed (e : EventLoop C L) p o :
  el_heap e !! p = Some o → ob_self o = true →
  release p e = Ok ((), at_slot p (Some (o <| ob_refs ::= pred |>)) (m_loop e) e).
Proof using.
  intros Ho Hself. rewrite (release_at _ _ _ Ho). unfold drop_slot.
  assert (owned (o <| ob_refs ::= pred |>) = true) as ->; [|done].
  unfold owned. cbn. by rewrite Hself.
Qed.

(** C16. A handler that gives its own timer a new value or cancels it, as those of the
    master do, frees the watcher in its own callback, which then reads it; only with a
    second owner the callback returns. *)
Theorem dropped_timer_used_after_free s p o c at_ l span c' res :
  loop_ok (lp s) → taken s p (ev_timer at_) l → heap s !! p = Some o →
  ob_watcher o = TimeWatcher (mkTimeoutData false (Some c) true) → (0 < ob_refs o)%nat →
  call c = (t ← zoom (TimeServiceEv.makeTimeout span c');
            zoom (timer.move_assign (Some p) t) ;; mret res)
  ∨ call c = (zoom (TimeServiceEv.cancel (Some p)) ;; mret res) →
  match event_loop.ev_callback call (ev_timer at_) p (event_loop.with_ev l s) with
  | Ok (_, s') => (1 < ob_refs o)%nat ∧ loop_ok (lp s')
  | Fail e => ob_refs o = 1%nat ∧ e = use_after_free
  end.
Proof.
  intros Hok Ht Ho Hw Hr Hcall. pose proof (loop_ok_alloc _ _ _ Hok Ho) as Hlt.
  assert (ob_self o = true) as Hself.
  { pose proof (slot_ok_at _ _ _ Hok Ho) as [_ Hs]. unfold watcher_ok, timer_ok in Hs.
    rewrite Hw in Hs. by destruct Hs as (_ & _ & ? & _). }
  pose proof (stopped_lookup (S:=S) p o l s) as Hst.
  destruct Hcall as [Hcall|Hcall].
  - pose proof (makeTimeout_at span c' (lp (expired p o l s))) as Hmk.
    set (e1 := started _ _ _) in Hmk.
    assert (el_heap e1 !! p = Some (stopped o)) as He1.
    { unfold e1, started, new_slot. cbn. rewrite lookup_insert_ne; [done|].
      rewrite expired_lp. unfold at_slot. cbn. lia. }
    eapply own_timer_dropped; [done..| | |]; [rewrite Hcall|..].
    + eapply bind_step; [by apply zoom_at|]. eapply bind_step; [|done].
      apply zoom_at. rewrite lp_set. eapply bind_step; [by apply release_armed|done].
    + rewrite lp_set. apply at_slot_lookup.
    + done.
  - eapply own_timer_dropped; [done..| | |]; [rewrite Hcall|..].
    + eapply bind_step; [|done]. apply zoom_at.
      eapply timer_cancel_at; [exact Hst|by apply stopped_time|done].
    + rewrite lp_set. apply at_slot_lookup.
    + done.
Qed.

(** A timeout whose watcher still exists when its handler is done. *)
Lemma timeout_returns s p o c at_ l res s2 o2 :
  loop_ok (lp s) → taken s p (ev_timer at_) l → heap s !! p = Some o →
  ob_watcher o = TimeoutWatcher (mkTimeoutData true (Some c) true) →
  call c (expired p o l s) = Ok (res, s2) → heap s2 !! p = Some o2 →
  event_loop.ev_callback call (ev_timer at_) p (event_loop.with_ev l s)
  = Ok ((), set_view (let_go p o2 (lp s2)) s2) ∧ loop_ok (let_go p o2 (lp s2)).
Proof.
  intros Hok Ht Ho Hw Hres Ho2. pose proof (loop_ok_alloc _ _ _ Hok Ho) as Hlt.
  assert (is_Some (m_data (ob_watcher o))) as Hd by by rewrite Hw.
  assert (leaked o = false) as Hleak by (apply armed_not_leaked; by rewrite Hw).
  pose proof (expired_good s p o l at_ Hok Ho Hd Hleak Ht) as [Hok1 _].
  pose proof (wp_run _ _ _ _ _ _ (call_ok c _ Hok1) Hres) as [_ [_ Hk]].
  rewrite expired_lp in Hk. specialize (Hk p Hlt). rewrite at_slot_lookup in Hk.
  assert (event_loop.ev_callback call (ev_timer at_) p (event_loop.with_ev l s)
    = Ok ((), set_view (let_go p o2 (lp s2)) s2)) as Hcb.
  { cbn. rewrite (timeout_watcher_outcome call s p o c l s2 res Ho Hw Hres); [by rewrite Ho2|].
    intros o' Ho'. by eapply kept_code. }
  split; [done|]. destruct (callback_ok _ _ _ _ Hok Ht) as (? & ? & _ & _ & _ & _ & Hwp).
  destruct (wp_run _ _ _ _ _ _ Hwp Hcb) as [Hok' _]. by rewrite lp_set in Hok'.
Qed.

(** A timeout whose watcher the program does not keep: nothing but its callback can end it. *)
Lemma unkept_timeout_returns s p o c at_ l res s2 :
  loop_ok (lp s) → taken s p (ev_timer at_) l → heap s !! p = Some o →
  ob_watcher o = TimeoutWatcher (mkTimeoutData true (Some c) true) → ob_refs o = 0%nat →
  call c (expired p o l s) = Ok (res, s2) →
  event_loop.ev_callback call (ev_timer at_) p (event_loop.with_ev l s)
  = Ok ((), set_view (let_go p (stopped o) (lp s2)) s2).
Proof.
  intros Hok Ht Ho Hw Hr Hres. pose proof (loop_ok_alloc _ _ _ Hok Ho) as Hlt.
  assert (is_Some (m_data (ob_watcher o))) as Hd by by rewrite Hw.
  assert (leaked o = false) as Hleak by (apply armed_not_leaked; by rewrite Hw).
  pose proof (expired_good s p o l at_ Hok Ho Hd Hleak Ht) as [Hok1 _].
  pose proof (wp_run _ _ _ _ _ _ (call_ok c _ Hok1) Hres) as [_ [_ Hk]].
  rewrite expired_lp in Hk. specialize (Hk p Hlt). rewrite at_slot_lookup in Hk.
  assert (leaked (stopped o) = true) as Hl.
  { pose proof (slot_ok_at _ _ _ Hok Ho) as [_ Hs]. unfold watcher_ok, timer_ok in Hs.
    rewrite Hw in Hs. destruct Hs as (_ & _ & Hs & _). unfold leaked.
    rewrite (stopped_timeout _ _ Hw). cbn. by rewrite Hs, Hr. }
  pose proof (kept_leaked _ _ _ _ Hk _ eq_refl Hl) as Ho2.
  by destruct (timeout_returns s p o c at_ l res s2 _ Hok Ht Ho Hw Hres Ho2).
Qed.

(** ** Programs that keep none of their watchers *)

(** Nobody but the watchers themselves owns them, and there is no timer of the time
    service. *)
Definition unkept (e : EventLoop C L) : Prop :=
  ∀ p o, el_heap e !! p = Some o → ob_refs o = 0%nat ∧ ∀ d, ob_watcher o ≠ TimeWatcher d.

Lemma unkept_within (e e' : EventLoop C L) : unkept e → refs_within e e' → unkept e'.
Proof using.
  intros Hu Hr p o' Ho'. destruct (Hr p o' Ho') as (o & Ho & -> & Hc).
  destruct (Hu p o Ho) as [? Hw]. split; [done|]. intros d Hd. rewrite Hd in Hc.
  destruct (ob_watcher o) eqn:Ho2; try done. by eapply Hw.
Qed.

Lemma called_unkept s p o w l :
  unkept (lp s) → heap s !! p = Some o → unkept (lp (called s p o w l)).
Proof using LibEvLaws0.
  intros Hu Ho. eapply unkept_within; [done|]. by apply called_refs_within.
Qed.

Context (call_unkept : ∀ c s, loop_ok (lp s) → unkept (lp s) →
  wp (call c) (λ _, True) (λ _ s', unkept (lp s')) s).

Lemma step_unkept s s' :
  loop_ok (lp s) → unkept (lp s) → event_loop.step call s s' → unkept (lp s').
Proof using LibEvLaws0 call_ok call_unkept.
  intros Hok Hu [p w l s2 Ht Hcb|l Hw]; [|by rewrite with_ev_lp].
  destruct (callback_ok s p w l Hok Ht) as (o & c & Ho & _ & _ & _ & Hwp).
  destruct (wp_run _ _ _ _ _ _ Hwp Hcb) as (_ & _ & res & s1 & Hres & _ & [Hrefs _ _]).
  destruct (called_ok s p w l Hok Ht) as (o' & Ho' & Hok1). simplify_eq.
  eapply unkept_within; [|done].
  by apply (wp_run _ _ _ _ _ _ (call_unkept c _ Hok1 (called_unkept _ _ _ _ _ Hu Ho)) Hres).
Qed.

Lemma steps_unkept s s' :
  loop_ok (lp s) → unkept (lp s) → rtc (event_loop.step call) s s' →
  loop_ok (lp s') ∧ unkept (lp s').
Proof using LibEvLaws0 call_ok call_unkept.
  intros Hok Hu Hsteps. induction Hsteps as [s|s1 s2 s3 Hstep _ IH]; [done|].
  apply IH; [by eapply step_ok|by eapply step_unkept].
Qed.

(** A watcher that is not a timer stays as it is while its handler runs. *)
Lemma watcher_after s p o w l c res s2 :
  loop_ok (lp s) → taken s p w l → heap s !! p = Some o → ob_self o = true →
  m_data (ob_watcher o) = None → (∀ at_, w ≠ ev_timer at_) →
  call c (event_loop.with_ev l s) = Ok (res, s2) →
  loop_ok (lp s2) ∧ ∃ o2, heap s2 !! p = Some o2 ∧ m_data (ob_watcher o2) = None.
Proof.
  intros Hok Ht Ho Hself Hd Hw Hres.
  destruct (take_lasting_good _ _ _ _ Hok Ht Hw) as [Hok1 Hk1]. rewrite <-with_ev_lp in Hok1, Hk1.
  destruct (wp_run _ _ _ _ _ _ (call_ok c _ Hok1) Hres) as [Hok2 Hk2]. split; [done|].
  destruct (pinned_after (lp s) (lp s2) p o) as (o2 & Ho2 & _ & Hc); [by etrans|by eapply loop_ok_alloc|done| |].
  - unfold pinned. rewrite Hself. by destruct (ob_watcher o).
  - exists o2. split; [done|]. by destruct (ob_watcher o), (ob_watcher o2).
Qed.

(** A callback returns exactly when its handler does. *)
Lemma unkept_callback s p w l :
  loop_ok (lp s) → unkept (lp s) → taken s p w l →
  ∃ o c, heap s !! p = Some o ∧ class_of o w ∧ code_of o = Some c ∧
    match call c (called s p o w l) with
    | Ok _ => is_ok (event_loop.ev_callback call w p (event_loop.with_ev l s)) = true
    | Fail e => event_loop.ev_callback call w p (event_loop.with_ev l s) = Fail e
    end.
Proof.
  intros Hok Hu Ht. pose proof (take_active _ _ _ _ Ht) as Ha.
  destruct (registered_object _ _ _ Hok Ha) as (o & Ho & Hlt & Hself & Hc). exists o.
  destruct (Hu p o Ho) as [Hr Hnt].
  assert (heap (event_loop.with_ev l s) !! p = Some o) as Ho1 by by rewrite with_ev_lp.
  destruct w as [fd|n|at_]; destruct Hc as [c Hw]; exists c.
  3: { destruct Hw as [Hw|Hw]; [|by destruct (Hnt _ Hw)]. split_and!; [done|by eexists; left|by unfold code_of; rewrite Hw|].
    cbn [called]. destruct (call c (expired p o l s)) as [[res s2]|e] eqn:Hres.
    - by rewrite (unkept_timeout_returns s p o c at_ l res s2 Hok Ht Ho Hw Hr Hres).
    - eapply timer_handler_fails; [done|by rewrite Hw|done]. }
  all: split_and!; [done|by exists c|by unfold code_of; rewrite Hw|].
  all: cbn [event_loop.ev_callback called]; unfold io_watcher.cb, signal_watcher.cb.
  all: rewrite (bind_ok _ _ _ _ _ (zoom_object_at _ _ _ Ho1)), Hw.
  all: destruct (call c (event_loop.with_ev l s)) as [[res s2]|e] eqn:Hres; [|by apply bind_fail].
  all: rewrite (bind_ok _ _ _ _ _ Hres).
  all: eapply watcher_after in Hres as (Hok2 & o2 & Ho2 & Hd2); [|done..|by rewrite Hw|done].
  all: destruct (wp_ok _ _ _ (finish_watcher res s2 p o2 Hok2 Ho2 Hd2)) as ([] & s3 & Hs3 & _).
  all: by rewrite Hs3.
Qed.
End runs.

Lemma loop_ok_new {C L} `{!LibEv L} (l : L) :
  (∀ p, ev_active l p = None) → loop_ok (newEventLoop l : EventLoop C L).
Proof. intros Hl p. cbn. rewrite lookup_empty. split; [apply Hl|done]. Qed.

(** ** A loop to try it on *)

Record Ev : Type := mkEv { ev_registered : gmap nat ev_watcher; ev_time : Time; ev_stopped : bool }.

#[export] Instance table_ev : LibEv Ev := {
  ev_start p w l := mkEv (<[p := registered_at (ev_time l) w]> (ev_registered l)) (ev_time l) (ev_stopped l);
  ev_stop p l := mkEv (delete p (ev_registered l)) (ev_time l) (ev_stopped l);
  ev_break l := mkEv (ev_registered l) (ev_time l) true;
  ev_now := ev_time;
  ev_now_update l := l;
  ev_active l p := ev_registered l !! p;
  ev_broken := ev_stopped;
  ev_wait l l' := ∃ t, 0 ≤ t ∧ l' = mkEv (ev_registered l) (ev_time l + t) (ev_stopped l);
  ev_take l p w l' := ev_registered l !! p = Some w ∧
    match w with
    | ev_timer at_ => at_ ≤ ev_time l ∧ l' = mkEv (delete p (ev_registered l)) (ev_time l) (ev_stopped l)
    | _ => l' = l
    end
}.

#[export] Instance table_laws : LibEvLaws Ev.
Proof.
  split; try done; cbn.
  - intros l p w q _. destruct (decide (q = p)) as [->|]; [apply lookup_insert_eq|by apply lookup_insert_ne].
  - intros l p q. destruct (decide (q = p)) as [->|]; [apply lookup_delete_eq|by apply lookup_delete_ne].
  - by intros l l' (t & _ & ->).
  - by intros l l' p w [? _].
  - intros l l' p [fd|n|at_] q; [by intros [_ ->]..|]. intros (_ & _ & ->). cbn.
    destruct (decide (q = p)) as [->|]; [apply lookup_delete_eq|by apply lookup_delete_ne].
  - by intros l l' p at_ (_ & ? & _).
  - intros l l' p [fd|n|at_]; [by intros [_ ->]..|]. by intros (_ & _ & ->).
  - intros l l' p [fd|n|at_]; [by intros [_ ->]..|]. by intros (_ & _ & ->).
  - by intros l l' (t & _ & ->).
Qed.

Definition empty_ev : Ev := mkEv ∅ 0 false.

(** Handlers: one that is called again, one that is not, one that replaces the timer 0. *)
Inductive Try : Type := Again | Once | Rearm.
Abbreviation TryLoop := (EventLoop Try Ev).

Definition try_call (c : Try) : M TryLoop bool :=
  match c with
  | Again => mret true
  | Once => mret false
  | Rearm =>
      t ← zoom (TimeServiceEv.makeTimeout 10 Once);
      zoom (timer.move_assign (Some 0%nat) t) ;; mret true
  end.

Lemma try_call_ok c : handler_ok (λ _, True) (try_call c).
Proof.
  destruct c; [apply handler_ok_ret..|]. apply handler_ok_bind; [|intros t; apply handler_ok_bind].
  - apply handler_ok_zoom. intros e. apply makeTimeout_api.
  - intros s Hok. apply wp_zoom, wp_bind. unfold event_loop.loop_of in *. cbn [view Lens_id] in *.
    destruct (el_heap s !! 0%nat) as [o|] eqn:Ho.
    + eapply wp_mono; [by eapply release_api|done|]. by intros [] s'.
    + unfold wp. unfold release. by rewrite (bind_fail _ _ _ _ (object_gone _ _ Ho)).
  - intros ?. apply handler_ok_ret.
Qed.

Definition new_loop : TryLoop := newEventLoop empty_ev.
Lemma new_loop_ok : loop_ok new_loop.
Proof. apply loop_ok_new. intros p. apply lookup_empty. Qed.

Definition reading : TryLoop := started (io_object 5 Again) (ev_io 5) new_loop.
Lemma reading_ok : loop_ok reading.
Proof. by apply started_good; [apply new_loop_ok|]. Qed.

Definition timing (c : Try) : TryLoop := started (timer_object c) (ev_timer 0) new_loop.
Lemma timing_ok c : loop_ok (timing c).
Proof.
  apply (timeout_started _ _ (mkTimeoutData false (Some c) true)); [apply new_loop_ok|by eauto..].
Qed.

Lemma callbacks_typed_witness :
  ∃ o c, el_heap reading !! 0%nat = Some o ∧ ob_self o = true ∧ class_of o (ev_io 5) ∧
    code_of o = Some c ∧
    wp (event_loop.ev_callback try_call (ev_io 5) 0) (callback_fails (λ _, True) 0 (ev_io 5))
      (λ _ s2, loop_ok s2 ∧ ∃ res s1, try_call c reading = Ok (res, s1)) reading.
Proof.
  by apply (callbacks_typed try_call (λ _, True) try_call_ok reading reading 0 (ev_io 5) (m_loop reading));
    [apply reading_ok|..].
Defined.

(** A timer that is due, and what its callback leaves. *)
Definition due_ev : Ev := m_loop (timing Again).
Definition taken_ev : Ev := mkEv (delete 0%nat (ev_registered due_ev)) 0 false.
Definition fired : TryLoop :=
  match event_loop.ev_callback try_call (ev_timer 0) 0 (event_loop.with_ev taken_ev (timing Again)) with
  | Ok (_, s) => s
  | Fail _ => new_loop
  end.

Lemma called_again_witness :
  is_Some (el_heap fired !! 0%nat) ∧
  ∀ s' w' l', rtc (event_loop.step try_call) fired s' → ¬ ev_take (m_loop s') 0 w' l'.
Proof.
  split; [by eexists|].
  edestruct (called_again try_call (λ _, True) try_call_ok (timing Again) 0 (ev_timer 0) taken_ev fired)
    as (o & c & res & s2 & _ & _ & _ & Hnever).
  - apply timing_ok.
  - by split.
  - reflexivity.
  - destruct res; exact Hnever.
Defined.

Lemma cancelled_not_called_witness :
  ∃ s1, zoom (S := TryLoop) (timer.destroy (Some 0%nat)) (timing Once) = Ok ((), s1) ∧
    ∀ s2 w l, rtc (event_loop.step try_call) s1 s2 → ¬ ev_take (m_loop s2) 0 w l.
Proof.
  eexists. split; [reflexivity|]. intros s2 w l.
  apply (cancelled_not_called try_call (λ _, True) try_call_ok (timing Once) 0 (timer_object Once)
    (timer.destroy (Some 0%nat))); [apply timing_ok|done|cbn; lia| |done].
  right. split; [by eexists|done].
Defined.

Lemma cancelled_timer_leaks_witness :
  ∃ s1, zoom (S := TryLoop) (TimeServiceEv.cancel (Some 0%nat)) (timing Once) = Ok (None, s1) ∧
    ∀ s2, rtc (event_loop.step try_call) s1 s2 →
      ∃ o', el_heap s2 !! 0%nat = Some o' ∧ ob_self o' = true ∧ ob_refs o' = 0%nat ∧
        ev_active (m_loop s2) 0 = None.
Proof.
  eexists. split; [reflexivity|]. intros s2.
  by apply (cancelled_timer_leaks try_call (λ _, True) try_call_ok (timing Once) 0 (timer_object Once)
    (mkTimeoutData false (Some Once) true)); [apply timing_ok|..].
Defined.

Lemma dropped_timer_used_after_free_witness :
  event_loop.ev_callback try_call (ev_timer 0) 0 (event_loop.with_ev taken_ev (timing Rearm))
  = Fail use_after_free.
Proof.
  pose proof (dropped_timer_used_after_free try_call (λ _, True) try_call_ok (timing Rearm) 0
    (timer_object Rearm) Rearm 0 taken_ev 10 Once true) as H.
  destruct (event_loop.ev_callback _ _ _ _) as [[] |e] eqn:Hcb.
  - destruct H as [Hr _]; [apply timing_ok|by split|done|done|cbn; lia|by left|]. cbn in Hr. lia.
  - destruct H as [_ ->]; [apply timing_ok|by split|done|done|cbn; lia|by left|]. done.
Defined.
