(* ===== verification/TimerRefinement.v ===== *)
(** * The event loop implements the time service

    The master is modelled over [TimeService], a list of armed timers. Here the watchers
    of [TimeServiceEv] in the heap, registered with libev, are shown to be such a list:
    operation by operation, and for a timer that expires. Identifiers are the addresses of
    watchers; other watchers use some up, which no client can tell. *)

From stdpp Require Import gmap.
From S2P Require Import Prelude Config TimeService Posix EventLoop EventLoopProps EventRuns.

Section refinement.
Context {C L : Type} `{!LibEv L, !LibEvLaws L}.
#[local] Set Default Proof Using "Type LibEvLaws0".
Abbreviation Loop := (EventLoop C L).
Implicit Types (e : Loop) (o : Object C) (t : TimeService C) (p q : nat).

(** The watcher [p] is a timer of the time service that is armed. *)
Definition armed_in e p (at_ : Time) (c : C) : Prop :=
  ∃ o d, el_heap e !! p = Some o ∧ ob_watcher o = TimeWatcher d ∧ td_fkn d = Some c ∧
    ev_active (m_loop e) p = Some (ev_timer at_).

Record implements e t : Prop := {
  impl_loop : loop_ok e;
  impl_service : service_ok t;
  impl_now : ev_now (m_loop e) = ts_now t;
  impl_next : el_next e = ts_next t;
  impl_pending p at_ c : (p, (at_, c)) ∈ ts_pending t ↔ armed_in e p at_ c
}.

(** Armed timers own themselves and are below the next address. *)
Lemma armed_slot e p at_ c :
  loop_ok e → armed_in e p at_ c →
  ∃ o, el_heap e !! p = Some o ∧ ob_self o = true ∧
    ob_watcher o = TimeWatcher (mkTimeoutData false (Some c) true).
Proof.
  intros Hok (o & d & Ho & Hw & Hf & Ha).
  destruct (registered_object _ _ _ Hok Ha) as (o' & Ho' & _ & Hself & c' & Hc). simplify_eq.
  exists o. split_and!; [done..|]. rewrite Hw in Hc. by destruct Hc as [Hc|Hc]; simplify_eq/=.
Qed.

(** A new timer. *)
Lemma implements_arm e t span c :
  implements e t →
  implements (started (timer_object c) (ev_timer span) e) (arm (ts_now t + span) c t).
Proof.
  intros [Hok Hs Hnow Hnext Hp].
  assert (good e (started (timer_object c) (ev_timer span) e)) as [Hok' _].
  { apply (timeout_started _ _ (mkTimeoutData false (Some c) true)); eauto. }
  pose proof (loop_ok_fresh e Hok) as Hfresh. split.
  - done.
  - by apply service_ok_arm.
  - unfold started, new_slot. cbn. by rewrite now_start.
  - unfold started, new_slot, arm. cbn. rewrite Hnext. lia.
  - intros q at_ c'. unfold arm. cbn [ts_pending]. rewrite elem_of_app, Hp, list_elem_of_singleton.
    unfold armed_in, started, new_slot. cbn [el_heap m_loop]. rewrite active_start by done.
    rewrite Hnext in *. destruct (decide (q = ts_next t)) as [->|Hq].
    + rewrite lookup_insert_eq. rewrite Hfresh. cbn [registered_at]. rewrite Hnow. split.
      * intros [(? & ? & ? & ? & ? & [=])|[= -> ->]]. by exists (timer_object c), (mkTimeoutData false (Some c) true).
      * intros (o & d & [= <-] & [= <-] & [= <-] & [= <-]). by right.
    + rewrite lookup_insert_ne by done. split; [|by auto]. intros [?|[=]]; done.
Qed.

(** A timer that is not armed any more. *)
Lemma implements_disarm e e' t p :
  implements e t → loop_ok e' → el_next e' = el_next e →
  ev_now (m_loop e') = ev_now (m_loop e) → ev_active (m_loop e') p = None →
  (∀ q, q ≠ p → el_heap e' !! q = el_heap e !! q ∧
    ev_active (m_loop e') q = ev_active (m_loop e) q) →
  implements e' (expire p t).
Proof.
  intros [Hok Hs Hnow Hnext Hp] Hok' Hn Ht Ha Hne. split.
  - done.
  - by apply service_ok_expire.
  - by rewrite Ht.
  - by rewrite Hn.
  - intros q at_ c. rewrite pending_expire, list_elem_of_filter, Hp. unfold armed_in. cbn [fst].
    destruct (decide (q = p)) as [->|Hq].
    + rewrite Ha. naive_solver.
    + destruct (Hne q Hq) as [-> ->]. naive_solver.
Qed.

(** Nothing happens to armed timers. *)
Lemma implements_same e e' t :
  implements e t → loop_ok e' → el_next e' = el_next e →
  ev_now (m_loop e') = ev_now (m_loop e) →
  (∀ q at_ c, armed_in e' q at_ c ↔ armed_in e q at_ c) → implements e' t.
Proof.
  intros [Hok Hs Hnow Hnext Hp] Hok' Hn Ht Harm. split; [done|done|by rewrite Ht|by rewrite Hn|].
  intros q at_ c. by rewrite Hp, Harm.
Qed.

(** The slot [p] gets another object that is the same timer. *)
Lemma armed_same_slot e p o oo :
  el_heap e !! p = Some o →
  (match oo with Some o' => ob_watcher o' = ob_watcher o | None => ev_active (m_loop e) p = None end) →
  ∀ q at_ c, armed_in (at_slot p oo (m_loop e) e) q at_ c ↔ armed_in e q at_ c.
Proof using.
  intros Ho Hoo q at_ c. unfold armed_in. rewrite at_slot_loop. destruct (decide (q = p)) as [->|Hq].
  - rewrite at_slot_lookup, Ho. destruct oo as [o'|].
    + split; intros (? & d & [= <-] & Hw & ?); eexists _, d; (split; [done|]); split; [congruence|done|congruence|done].
    + rewrite Hoo. split; [|]; intros (? & ? & ? & ? & ? & [=]).
  - by rewrite at_slot_lookup_ne.
Qed.

(** ** Operation by operation *)

Lemma sim_makeTimeout span c :
  sim implements (TimeServiceEv.makeTimeout span c) (makeTimeout span c).
Proof.
  intros e t H. rewrite makeTimeout_spec, makeTimeout_at, (impl_next _ _ H).
  eexists. split; [done|]. by apply implements_arm.
Qed.

Lemma sim_makeTimeoutAbs at_ c :
  sim implements (TimeServiceEv.makeTimeoutAbs at_ c) (makeTimeoutAbs at_ c).
Proof.
  intros e t H. rewrite makeTimeoutAbs_spec, makeTimeoutAbs_at, (impl_next _ _ H), (impl_now _ _ H).
  eexists. split; [done|]. replace at_ with (ts_now t + (at_ - ts_now t)) at 2 by lia.
  by apply implements_arm.
Qed.

(** The frame of an operation that stops the timer [p]. *)
Lemma drop_stopped_frame e p o oo :
  let e' := drop_slot p o (at_slot p oo (ev_stop p (m_loop e)) e) in
  el_next e' = el_next e ∧ ev_now (m_loop e') = ev_now (m_loop e) ∧
  ev_active (m_loop e') p = None ∧
  ∀ q, q ≠ p → el_heap e' !! q = el_heap e !! q ∧ ev_active (m_loop e') q = ev_active (m_loop e) q.
Proof.
  cbn zeta. split_and!.
  - unfold drop_slot. by destruct (owned o).
  - unfold drop_slot. destruct (owned o); rewrite !at_slot_loop; [apply now_stop|].
    by destruct (default false _); rewrite ?now_stop.
  - apply drop_slot_inactive. by rewrite at_slot_loop, active_stop, decide_True.
  - intros q Hq. unfold drop_slot. destruct (owned o);
      rewrite !at_slot_lookup_ne, !at_slot_loop by done; (split; [done|]);
      [by rewrite active_stop, decide_False|].
    destruct (default false _); by rewrite !active_stop, !decide_False.
Qed.

Lemma sim_destroy h :
  psim (λ e t, implements e t ∧ handle_ok e h) implements (timer.destroy h) (destroyTimer h).
Proof.
  intros e t [H Hh]. destruct h as [p|]; [|by exists e].
  change (destroyTimer (Some p) t) with (Ok ((), expire p t)).
  pose proof (timer_destroy_api e (Some p) (impl_loop _ _ H) Hh) as Hg. revert Hg.
  destruct Hh as (o & d & Ho & Hw & Hr). unfold api, wp, timer.destroy, time_watcher.cancel.
  assert (is_Some (m_data (ob_watcher o))) as Hd by by rewrite Hw.
  rewrite (bind_ok _ _ _ _ _ (data_cancel_at _ _ _ Ho Hd)), (release_at _ _ _ (at_slot_lookup _ _ _ _)).
  intros [Hok' _]. eexists. split; [done|].
  destruct (drop_stopped_frame e p ((stopped o) <| ob_refs ::= pred |>) (Some (stopped o)))
    as (Hn & Hnow & Ha & Hne). by eapply implements_disarm.
Qed.

Lemma sim_cancel h :
  psim (λ e t, implements e t ∧ handle_ok e h) implements (timer.cancel h) (cancel h).
Proof.
  intros e t H. pose proof (sim_destroy h e t H) as Hd.
  assert (cancel h t = (destroyTimer h ;; mret None) t) as -> by by destruct h.
  unfold timer.cancel. fold (timer.destroy (C:=C) (L:=L) h). revert Hd. unfold mbind, M_bind.
  destruct (destroyTimer h t) as [[[] t']|[]]; try (by intros ->); [|done].
  intros (e' & -> & ?). by exists e'.
Qed.

(** Whoever holds an armed timer may let go of it, or share it. *)
Lemma implements_release e t p o :
  implements e t → el_heap e !! p = Some o → (∃ d, ob_watcher o = TimeWatcher d) →
  implements (drop_slot p (o <| ob_refs ::= pred |>) e) t.
Proof.
  intros H Ho [d Hw]. pose proof (impl_loop _ _ H) as Hok.
  assert (good e (drop_slot p (o <| ob_refs ::= pred |>) e)) as [Hok' _].
  { pose proof (release_api e p o Hok Ho) as Hg. unfold api, wp in Hg.
    by rewrite (release_at _ _ _ Ho) in Hg. }
  assert (ob_self o = false → ev_active (m_loop e) p = None ∧ default false (td_active <$> m_data (ob_watcher o)) = false) as Hdis.
  { intros Hs. pose proof (slot_ok_at _ _ _ Hok Ho) as [_ Hsl]. by apply disowned_inactive. }
  unfold drop_slot in *. destruct (owned (o <| ob_refs ::= pred |>)) eqn:Hown.
  - eapply implements_same; [done..|]. by apply (armed_same_slot e p o (Some _)).
  - unfold owned in Hown. apply orb_false_iff in Hown as [Hs _].
    destruct (Hdis Hs) as [Ha Hf]. revert Hok'.
    assert (default false (td_active <$> m_data (ob_watcher (o <| ob_refs ::= pred |>))) = false) as -> by done.
    intros Hok'. eapply implements_same; [done..|]. by apply (armed_same_slot e p o None).
Qed.

Lemma sim_move_assign h h' :
  psim (λ e t, implements e t ∧ handle_ok e h) implements (timer.move_assign h h') (move_assign h h').
Proof.
  intros e t [H Hh]. destruct h as [p|]; [|by exists e].
  destruct Hh as (o & d & Ho & Hw & Hr). cbn. eexists. split.
  - unfold timer.move_assign. by rewrite (bind_ok _ _ _ _ _ (release_at _ _ _ Ho)).
  - apply implements_release; eauto.
Qed.

Lemma implements_retain e t p o :
  implements e t → el_heap e !! p = Some o → (0 < ob_refs o)%nat →
  implements (at_slot p (Some (o <| ob_refs ::= Datatypes.S |>)) (m_loop e) e) t.
Proof.
  intros H Ho Hr. pose proof (retain_api e p o (impl_loop _ _ H) Ho Hr) as Hg.
  unfold api, wp in Hg. rewrite (retain_at _ _ _ Ho) in Hg. destruct Hg as [Hok' _].
  eapply implements_same; [done..|]. by apply (armed_same_slot e p o (Some _)).
Qed.

Lemma sim_copy_assign h h' :
  psim (λ e t, implements e t ∧ handle_ok e h ∧ handle_ok e h') implements
    (timer.copy_assign h h') (copy_assign h h').
Proof.
  eapply (psim_left _ (λ e t, implements e t ∧ handle_ok e h) _ _ h').
  - intros e t (H & Hh & Hh'). destruct h' as [p|]; [|by exists e].
    destruct Hh' as (o & d & Ho & Hw & Hr). eexists. split.
    { unfold timer.copy. by rewrite (bind_ok _ _ _ _ _ (retain_at _ _ _ Ho)). }
    split; [by apply implements_retain|]. destruct h as [q|]; [|done].
    destruct Hh as (o' & d' & Ho' & Hw' & Hr'). destruct (decide (q = p)) as [->|Hq].
    + eexists _, d. rewrite at_slot_lookup. split_and!; [done|done|cbn; lia].
    + exists o', d'. by rewrite at_slot_lookup_ne.
  - intros e t He. pose proof (sim_destroy h e t He) as Hd.
    assert (copy_assign h h' t = (destroyTimer h ;; mret h') t) as -> by by destruct h.
    revert Hd. unfold mbind, M_bind.
    destruct (destroyTimer h t) as [[[] t']|[]]; try (by intros ->); [|done].
    intros (e' & -> & ?). by exists e'.
Qed.

(** Other watchers use up identifiers. *)
Lemma implements_other e t o w :
  implements e t → (∀ d, ob_watcher o ≠ TimeWatcher d) → loop_ok (started o w e) →
  implements (started o w e) (t <| ts_next ::= Datatypes.S |>).
Proof.
  intros [Hok [Hnd Hlt] Hnow Hnext Hp] Ho Hok'. pose proof (loop_ok_fresh e Hok) as Hfresh. split.
  - done.
  - split; [done|]. eapply Forall_impl; [done|]. cbn. lia.
  - unfold started, new_slot. cbn. by rewrite now_start.
  - unfold started, new_slot. cbn. by rewrite Hnext.
  - intros q at_ c. change (ts_pending (t <| ts_next ::= _ |>)) with (ts_pending t). rewrite Hp.
    unfold armed_in, started, new_slot. cbn [el_heap m_loop]. rewrite active_start by done.
    destruct (decide (q = el_next e)) as [->|Hq].
    + rewrite lookup_insert_eq, Hfresh. naive_solver.
    + by rewrite lookup_insert_ne.
Qed.

(** C25. The timers of the event loop are those of the time service that the master is
    modelled over: making one, cancelling it, assigning and destroying its handle do the
    same to both, and watchers of other kinds change nothing. *)
Theorem time_service_implemented :
  (∀ span c, sim implements (TimeServiceEv.makeTimeout span c) (makeTimeout span c)) ∧
  (∀ at_ c, sim implements (TimeServiceEv.makeTimeoutAbs at_ c) (makeTimeoutAbs at_ c)) ∧
  sim implements TimeServiceEv.now now ∧
  (∀ h, psim (λ e t, implements e t ∧ handle_ok e h) implements
    (TimeServiceEv.cancel h) (cancel h)) ∧
  (∀ h, psim (λ e t, implements e t ∧ handle_ok e h) implements
    (timer.destroy h) (destroyTimer h)) ∧
  (∀ h h', psim (λ e t, implements e t ∧ handle_ok e h) implements
    (timer.move_assign h h') (move_assign h h')) ∧
  (∀ h h', psim (λ e t, implements e t ∧ handle_ok e h ∧ handle_ok e h') implements
    (timer.copy_assign h h') (copy_assign h h')) ∧
  (∀ fd c, psim implements implements (event_loop.onReadable fd c ;; skip)
    (modify (λ t, t <| ts_next ::= Datatypes.S |>))).
Proof.
  split_and!; [apply sim_makeTimeout|apply sim_makeTimeoutAbs| |apply sim_cancel|apply sim_destroy|
    apply sim_move_assign|apply sim_copy_assign|].
  - intros e t H. exists e. split; [|done]. unfold TimeServiceEv.now, event_loop.now, gets.
    by rewrite (impl_now _ _ H).
  - intros fd c e t H. eexists. split; [by rewrite (bind_ok _ _ _ _ _ (onReadable_at _ _ _))|].
    apply implements_other; [done..|]. by apply started_good; [apply (impl_loop _ _ H)|].
Qed.

(** ** A timer that expires *)

Lemma expired_implements {S} `{!Lens S Loop} (s : S) t p at_ c l o :
  implements (event_loop.loop_of s) t →
  ev_take (m_loop (event_loop.loop_of s)) p (ev_timer at_) l →
  el_heap (event_loop.loop_of s) !! p = Some o →
  ob_watcher o = TimeWatcher (mkTimeoutData false (Some c) true) →
  due t p c ∧ implements (event_loop.loop_of (expired p o l s)) (expire p t).
Proof.
  intros H Ht Ho Hw. pose proof (impl_loop _ _ H) as Hok. split.
  - exists at_. split; [|rewrite <-(impl_now _ _ H); by eapply take_due].
    apply (impl_pending _ _ H). eexists o, _. split_and!; [done..|]. by eapply take_active.
  - assert (good (event_loop.loop_of s) (event_loop.loop_of (expired p o l s))) as [Hok' _].
    { apply (expired_good s p o l at_); [done..| | |done].
      - by rewrite Hw.
      - apply armed_not_leaked. by rewrite Hw. }
    rewrite expired_lp in *. eapply implements_disarm; [done|done|done|..]; rewrite ?at_slot_loop.
    + by rewrite now_stop, (now_take _ _ _ _ Ht).
    + by rewrite active_stop, decide_True.
    + intros q Hq. rewrite at_slot_lookup_ne, active_stop, decide_False by done.
      by rewrite (active_take _ _ _ _ q Ht), decide_False.
Qed.

(** C26. A timer of the time service that libev takes is due in the list. Its callback
    takes it off the list and calls its handler; when the handler returns, the callback
    does too if a [Timer] still holds the watcher, and otherwise reads freed memory. *)
Theorem expiry_implemented {S} `{!Lens S Loop} (call : C → M S bool) E (s : S) t p at_ c l o :
  (∀ c, handler_ok E (call c)) →
  implements (event_loop.loop_of s) t →
  ev_take (m_loop (event_loop.loop_of s)) p (ev_timer at_) l →
  el_heap (event_loop.loop_of s) !! p = Some o →
  ob_watcher o = TimeWatcher (mkTimeoutData false (Some c) true) →
  due t p c ∧ implements (event_loop.loop_of (expired p o l s)) (expire p t) ∧
  match call c (expired p o l s) with
  | Fail e => event_loop.ev_callback call (ev_timer at_) p (event_loop.with_ev l s) = Fail e
  | Ok (_, s2) => ∃ o2, el_heap (event_loop.loop_of s2) !! p = Some o2 ∧
      event_loop.ev_callback call (ev_timer at_) p (event_loop.with_ev l s)
      = if (0 <? ob_refs o2)%nat
        then Ok ((), set_view (let_go p o2 (event_loop.loop_of s2)) s2)
        else Fail use_after_free
  end.
Proof.
  intros Hcall H Ht Ho Hw. pose proof (impl_loop _ _ H) as Hok.
  destruct (expired_implements s t p at_ c l o H Ht Ho Hw) as [Hdue Hexp]. split_and!; [done..|].
  pose proof (Hcall c _ (impl_loop _ _ Hexp)) as Hc. revert Hc. unfold wp.
  destruct (call c (expired p o l s)) as [[r s2]|e] eqn:Hres.
  - intros [_ Hk]. assert (m_data (ob_watcher o) = Some (mkTimeoutData false (Some c) true)) as Hd by by rewrite Hw.
    assert (ob_self o = true) as Hself.
    { destruct (armed_slot _ p at_ c Hok) as (o' & Ho' & Hself & _); [|congruence].
      eexists o, _. split_and!; [done..|]. by eapply take_active. }
    assert (∃ o2, el_heap (event_loop.loop_of s2) !! p = Some o2 ∧
      same_code (ob_watcher (stopped o)) (ob_watcher o2)) as (o2 & Ho2 & Hcode).
    { destruct (pinned_after _ _ p (stopped o) Hk) as (o2 & ? & _ & ?); [..|by exists o2].
      - rewrite expired_lp. exact (loop_ok_alloc _ _ _ Hok Ho).
      - rewrite expired_lp. apply at_slot_lookup.
      - unfold pinned. rewrite (stopped_time _ _ Hw). by rewrite andb_true_r. }
    exists o2. split; [done|]. by eapply time_watcher_outcome.
  - intros _. eapply timer_handler_fails; [done|by rewrite Hw|done].
Qed.
End refinement.

Lemma timing_implements c : implements (timing c) (arm 0 c (newTimeService 0)).
Proof.
  apply (implements_arm new_loop (newTimeService 0) 0 c). split.
  - apply new_loop_ok.
  - apply service_ok_new.
  - done.
  - done.
  - intros p at_ c'. split; [by intros ?%not_elem_of_nil|]. by intros (o & d & Ho & _).
Qed.

Lemma time_service_implemented_witness :
  ∃ s', timer.destroy (Some 0%nat) (timing Once) = Ok ((), s') ∧ implements s' (mkTimeService 0 1 []).
Proof.
  destruct (time_service_implemented (C := Try) (L := Ev)) as (_ & _ & _ & _ & Hdestroy & _).
  pose proof (Hdestroy (Some 0%nat) (timing Once) (arm 0 Once (newTimeService 0))) as H.
  destruct H as (s' & Hs' & Himpl); [split; [apply timing_implements|]|by exists s'].
  eexists _, _. split_and!; [reflexivity|reflexivity|cbn; lia].
Defined.

Lemma expiry_implemented_witness :
  implements (timing Once) (arm 0 Once (newTimeService 0)) ∧
  due (arm 0 Once (newTimeService 0)) 0 Once ∧
  is_ok (event_loop.ev_callback try_call (ev_timer 0) 0 (event_loop.with_ev taken_ev (timing Once))) = true.
Proof.
  pose proof (timing_implements Once) as H.
  destruct (expiry_implemented try_call (λ _, True) (timing Once) _ 0 0 Once taken_ev (timer_object Once)
    try_call_ok H) as (Hdue & _ & Hcb); [by split|done|done|].
  split_and!; [done|done|]. cbn [try_call] in Hcb. destruct Hcb as (o2 & Ho2 & ->).
  vm_compute in Ho2. by simplify_eq.
Defined.
