(* ===== verification/UtilityTimer.v ===== *)
(** * The timer utility (utility/Timer)

    An older timer over the event loop. A callback is guarded by a weak pointer to a
    helper that lives as long as the [Timer]: when the timer is gone, a timeout that is
    still under way does nothing. *)

From stdpp Require Import gmap.
From S2P Require Import Prelude Config TimeService Posix EventLoop EventLoopProps EventRuns.

(** The object: [m_timeoutHelper] exists exactly while it does. *)
Record UtilityTimer : Type := mkUtilityTimer { m_tokenTimeout : option nat }.
#[export] Instance Eta_UtilityTimer : Eta UtilityTimer := λ t, mkUtilityTimer (m_tokenTimeout t).

(** The timers that exist, by their addresses. *)
Abbreviation Timers := (gmap nat UtilityTimer).

Module utility_timer.
Section utility_timer.
(** A callback of the loop may be that of a timer, with the function to call. *)
Context {C D L S : Type} (timer_cb : nat → D → C).
Context `{!LibEv L, !Lens S (EventLoop C L), !Lens S Timers}.

Definition this (t : nat) : M S UtilityTimer :=
  ts ← load (T := Timers);
  match ts !! t with Some o => mret o | None => fail use_after_free end.

Definition set_this (t : nat) (o : UtilityTimer) : M S () :=
  zoom (T := Timers) (modify <[t := o]>).

(** The token is assigned or reset: the watcher has one owner less. *)
Definition drop_token (o : UtilityTimer) : M S () :=
  match m_tokenTimeout o with
  | Some p => zoom (T := EventLoop C L) (release p)
  | None => skip
  end.

Definition newTimer (t : nat) : M S () := set_this t (mkUtilityTimer None).

Definition set_token (t : nat) (p : nat) : M S () :=
  o ← this t;
  set_this t (mkUtilityTimer (Some p)) ;;
  drop_token o.

Definition makeTimeout (t : nat) (timeout : Time) (fkn : D) : M S () :=
  p ← zoom (T := EventLoop C L) (event_loop.onTimeout timeout (timer_cb t fkn));
  set_token t p.

Definition makeTimeoutAbs (t : nat) (timeout : Time) (fkn : D) : M S () :=
  n ← zoom (T := EventLoop C L) event_loop.now;
  p ← zoom (T := EventLoop C L) (event_loop.onTimeout (timeout - n) (timer_cb t fkn));
  set_token t p.

(** The callback: [weakPtr.lock()] succeeds while the timer exists. *)
Definition callback (call : D → M S ()) (t : nat) (fkn : D) : M S bool :=
  ts ← load (T := Timers);
  match ts !! t with
  | Some o =>
      set_this t (mkUtilityTimer None) ;;
      drop_token o ;;
      call fkn ;;
      mret false
  | None => mret false
  end.

Definition cleanTimeout (t : nat) : M S () :=
  o ← this t;
  match m_tokenTimeout o with
  | Some p =>
      zoom (T := EventLoop C L) (timeout_watcher.cancel p) ;;
      set_this t (mkUtilityTimer None) ;;
      zoom (T := EventLoop C L) (release p)
  | None => skip
  end.

(** The destructor lets go of the token; it does not cancel. *)
Definition destroy (t : nat) : M S () :=
  o ← this t;
  drop_token o ;;
  zoom (T := Timers) (modify (delete t)).
End utility_timer.
End utility_timer.

Section guard.
Context {C D L S : Type} (timer_cb : nat → D → C).
Context `{!LibEv L, !LibEvLaws L, LE : !Lens S (EventLoop C L), LT : !Lens S Timers}.
(** The loop and the timers are different parts of the state. *)
Context (loop_apart : ∀ (ts : Timers) (s : S), view (set_view ts s) = view s :> EventLoop C L).
Context (timers_apart : ∀ (e : EventLoop C L) (s : S), view (set_view e s) = view s :> Timers).
Context (call : C → M S bool) (call_fkn : D → M S ()) (E : Failure → Prop).
Context (call_ok : ∀ c, handler_ok E (call c)) (fkn_ok : ∀ f, handler_ok E (call_fkn f)).
Context (call_timer : ∀ t f, call (timer_cb t f) = utility_timer.callback (C:=C) (L:=L) call_fkn t f).
#[local] Set Default Proof Using "Type*".
Implicit Types (s : S) (p t : nat) (o : Object C).

Abbreviation lp s := (event_loop.loop_of (C:=C) (L:=L) s).
Abbreviation heap s := (el_heap (lp s)).
Abbreviation timers s := (view s : Timers).

(** What holds of the watcher of a timer: only its timer may have a pointer to it. *)
Definition private (s : S) p o t : Prop :=
  match timers s !! t with
  | Some tm => ob_refs o = (if decide (m_tokenTimeout tm = Some p) then 1%nat else 0%nat) ∧
      ∀ q, m_tokenTimeout tm = Some q → is_Some (heap s !! q)
  | None => ob_refs o = 0%nat
  end.

Lemma set_this_at s t tm : utility_timer.set_this t tm s = Ok ((), set_view (<[t := tm]> (timers s)) s).
Proof using. done. Qed.

(** After the token is dropped nobody has the watcher that is being called back. *)
Lemma drop_token_leaves s p t tm o at_ l fkn :
  loop_ok (lp s) → ev_take (m_loop (lp s)) p (ev_timer at_) l → heap s !! p = Some o →
  ob_watcher o = TimeoutWatcher (mkTimeoutData true (Some (timer_cb t fkn)) true) →
  timers s !! t = Some tm → private s p o t →
  let s1 := set_view (<[t := mkUtilityTimer None]> (timers (expired p o l s))) (expired p o l s) in
  ∃ s2 o2, utility_timer.drop_token (C:=C) (L:=L) tm s1 = Ok ((), s2) ∧ loop_ok (lp s2) ∧
    timers s2 !! t = Some (mkUtilityTimer None) ∧ heap s2 !! p = Some o2 ∧ leaked o2 = true ∧
    (p < el_next (lp s2))%nat.
Proof using LibEvLaws0 loop_apart timers_apart.
  intros Hok Ht Ho Hw Htm Hpriv s1. pose proof (loop_ok_alloc _ _ _ Hok Ho) as Hlt.
  unfold private in Hpriv. rewrite Htm in Hpriv. destruct Hpriv as [Hr Htok].
  assert (is_Some (m_data (ob_watcher o))) as Hd by by rewrite Hw.
  assert (leaked o = false) as Hleak by (apply armed_not_leaked; by rewrite Hw).
  pose proof (expired_good s p o l at_ Hok Ho Hd Hleak Ht) as [Hok1 _].
  assert (lp s1 = at_slot p (Some (stopped o)) (ev_stop p l) (lp s)) as Hlp.
  { unfold s1, event_loop.loop_of. rewrite loop_apart. apply lp_set. }
  assert (ob_self o = true) as Hself.
  { pose proof (slot_ok_at _ _ _ Hok Ho) as [_ Hs]. unfold watcher_ok, timer_ok in Hs.
    rewrite Hw in Hs. by destruct Hs as (_ & _ & ? & _). }
  assert (timers s1 !! t = Some (mkUtilityTimer None)) as Ht1.
  { unfold s1. by rewrite view_set, lookup_insert_eq. }
  rewrite expired_lp, <-Hlp in Hok1.
  assert (heap s1 !! p = Some (stopped o)) as Ho1 by (rewrite Hlp; apply at_slot_lookup).
  assert (∀ o', ob_watcher o' = ob_watcher (stopped o) → ob_self o' = true → ob_refs o' = 0%nat →
    leaked o' = true) as Hl.
  { intros o' Hw' Hs' Hr'. unfold leaked. rewrite Hs', Hr', Hw'. by rewrite (stopped_timeout _ _ Hw). }
  unfold utility_timer.drop_token. destruct (m_tokenTimeout tm) as [q|] eqn:Hq.
  - destruct (Htok q eq_refl) as [oq Hoq].
    assert (∃ oq', heap s1 !! q = Some oq') as [oq' Hoq'].
    { rewrite Hlp. destruct (decide (q = p)) as [->|Hne].
      - rewrite at_slot_lookup. by eexists.
      - rewrite at_slot_lookup_ne by done. by eexists. }
    pose proof (release_api _ _ _ Hok1 Hoq') as (u & e2 & He2 & Hok2 & Hk2)%wp_ok. destruct u.
    assert (∃ o2, el_heap e2 !! p = Some o2 ∧ leaked o2 = true) as (o2 & Ho2 & Hl2).
    { destruct (decide (q = p)) as [->|Hne].
      - rewrite decide_True in Hr by done.
        rewrite (release_armed _ _ _ Ho1 Hself) in He2. injection He2 as <-.
        rewrite at_slot_lookup. eexists. split; [done|]. apply Hl; [done|done|].
        change (pred (ob_refs o) = 0%nat). by rewrite Hr.
      - rewrite decide_False in Hr by congruence. exists (stopped o). split; [|by apply Hl].
        destruct Hk2 as [_ Hk2]. eapply kept_leaked; [apply Hk2|exact Ho1|by apply Hl].
        rewrite Hlp. done. }
    exists (set_view e2 s1), o2. rewrite lp_set. split_and!; [by apply zoom_at|done| |done|done|].
    + by rewrite timers_apart.
    + by eapply loop_ok_alloc.
  - exists s1, (stopped o). rewrite decide_False in Hr by done.
    split_and!; [done..|by apply Hl|by rewrite Hlp].
Qed.

(** C35. When a timeout of a [Timer] expires, its function is called if the timer still
    exists and not at all otherwise; unlike with the time service the callback then
    always returns, whatever the function does with the timer, and frees the watcher. *)
Theorem timer_callback_guarded s p o t at_ l fkn :
  loop_ok (lp s) → ev_take (m_loop (lp s)) p (ev_timer at_) l → heap s !! p = Some o →
  ob_watcher o = TimeoutWatcher (mkTimeoutData true (Some (timer_cb t fkn)) true) →
  private s p o t →
  let cb := event_loop.ev_callback call (ev_timer at_) p (event_loop.with_ev l s) in
  match timers s !! t with
  | None => ∃ s', cb = Ok ((), s') ∧ timers s' = timers s ∧ loop_ok (lp s') ∧ heap s' !! p = None
  | Some _ => ∃ s2, timers s2 !! t = Some (mkUtilityTimer None) ∧
      match call_fkn fkn s2 with
      | Fail e => cb = Fail e
      | Ok (_, s3) => ∃ s', cb = Ok ((), s') ∧ timers s' = timers s3 ∧ loop_ok (lp s') ∧ heap s' !! p = None
      end
  end.
Proof.
  intros Hok Ht Ho Hw Hpriv cb.
  assert (timers (expired p o l s) = timers s) as Hts by apply timers_apart.
  destruct (timers s !! t) as [tm|] eqn:Htm.
  - destruct (drop_token_leaves s p t tm o at_ l fkn Hok Ht Ho Hw Htm Hpriv)
      as (s2 & o2 & Hdrop & Hok2 & Ht2 & Ho2 & Hl2 & Hlt2).
    exists s2. split; [done|].
    assert (∀ r, call_fkn fkn s2 = r → call (timer_cb t fkn) (expired p o l s)
      = match r with Ok (_, s3) => Ok (false, s3) | Fail e => Fail e end) as Hcall.
    { intros r Hr. rewrite call_timer. unfold utility_timer.callback.
      eapply bind_step; [done|]. rewrite Hts, Htm. eapply bind_step; [apply set_this_at|].
      eapply bind_step; [exact Hdrop|]. unfold mbind, M_bind. rewrite Hr. by destruct r as [[[] s3]|]. }
    pose proof (fkn_ok fkn s2 Hok2) as Hf. revert Hf. unfold wp.
    destruct (call_fkn fkn s2) as [[[] s3]|e] eqn:Hres; specialize (Hcall _ eq_refl).
    + intros [_ [_ Hk]]. pose proof (kept_leaked _ _ _ _ (Hk p Hlt2) _ Ho2 Hl2) as Ho3.
      destruct (timeout_returns call E call_ok _ _ _ _ _ _ _ _ _ Hok Ht Ho Hw Hcall Ho3) as [Hcb Hok'].
      eexists. split; [exact Hcb|]. rewrite lp_set, timers_apart. split_and!; [done..|].
      unfold let_go. rewrite at_slot_lookup. unfold leaked in Hl2.
      apply andb_true_iff in Hl2 as [[_ Hr2]%andb_true_iff _]. apply Nat.eqb_eq in Hr2. by rewrite Hr2.
    + intros _. unfold cb. cbn. by erewrite timer_handler_fails; [| |by rewrite Hw|].
  - assert (call (timer_cb t fkn) (expired p o l s) = Ok (false, expired p o l s)) as Hcall.
    { rewrite call_timer. unfold utility_timer.callback. eapply bind_step; [done|]. by rewrite Hts, Htm. }
    unfold private in Hpriv. rewrite Htm in Hpriv.
    destruct (timeout_returns call E call_ok _ _ _ _ _ _ _ _ _ Hok Ht Ho Hw Hcall (stopped_lookup _ _ _ _))
      as [Hcb Hok'].
    eexists. split; [exact Hcb|]. rewrite lp_set, timers_apart. split_and!; [done..|].
    unfold let_go. rewrite at_slot_lookup. change (ob_refs (stopped o)) with (ob_refs o). by rewrite Hpriv.
Qed.
End guard.

(** ** One timer with one timeout *)

Abbreviation TryState := (EventLoop (nat * unit) Ev * Timers)%type.
#[local] Instance try_loop : Lens TryState (EventLoop (nat * unit) Ev) := Lens_fst.
#[local] Instance try_timers : Lens TryState Timers := Lens_snd.

Definition try_timer_call (c : nat * unit) : M TryState bool :=
  utility_timer.callback (C := nat * unit) (L := Ev) (λ _, skip) c.1 c.2.

Lemma try_timer_call_ok c : handler_ok (C := nat * unit) (L := Ev) (λ _, True) (try_timer_call c).
Proof.
  intros [e ts] Hok. unfold try_timer_call, utility_timer.callback. apply wp_bind.
  eapply wp_eq; [reflexivity|]. cbn [view try_timers Lens_snd snd].
  destruct (ts !! c.1) as [tm|]; [|by apply wp_ret].
  apply wp_bind. eapply wp_eq; [reflexivity|]. apply wp_bind. unfold utility_timer.drop_token.
  destruct (m_tokenTimeout tm) as [q|]; [|by wp_steps]. apply wp_zoom. cbn [view try_loop Lens_fst].
  unfold event_loop.loop_of in *. cbn [view try_loop Lens_fst fst] in *.
  destruct (el_heap e !! q) as [o|] eqn:Ho.
  - eapply wp_mono; [by eapply release_api|done|]. intros [] e' Hg. by wp_steps.
  - unfold wp, release. by rewrite (bind_fail _ _ _ _ (object_gone _ _ Ho)).
Qed.

Definition try_started : TryState :=
  match (utility_timer.newTimer (S := TryState) 0 ;;
         utility_timer.makeTimeout (L := Ev) (λ t f, (t, f)) 0 0 ()) (newEventLoop empty_ev, ∅) with
  | Ok (_, s) => s
  | Fail _ => (newEventLoop empty_ev, ∅)
  end.

Lemma timer_callback_guarded_witness :
  ∃ s', event_loop.ev_callback (C := nat * unit) (L := Ev) try_timer_call (ev_timer 0) 0
      (event_loop.with_ev taken_ev try_started) = Ok ((), s') ∧
    el_heap s'.1 !! 0%nat = None ∧ s'.2 !! 0%nat = Some (mkUtilityTimer None).
Proof.
  set (o := mkObject (TimeoutWatcher (mkTimeoutData true (Some (0%nat, ())) true)) true 1).
  pose proof (timer_callback_guarded (C := nat * unit) (L := Ev) (S := TryState) (λ t f, (t, f))
    (λ _ _, eq_refl) (λ _ _, eq_refl) try_timer_call (λ _, skip) (λ _, True) try_timer_call_ok
    (λ _ s Hok, wp_skip _ (λ _ s', good s.1 s'.1) s (good_refl _ Hok)) (λ _ _, eq_refl)
    try_started 0 o 0 0 taken_ev ()) as H.
  destruct H as (s2 & Ht2 & s' & Hcb & Ht & _ & Hh).
  - assert (try_started.1 = started o (ev_timer 0) (newEventLoop empty_ev)) as He by reflexivity.
    unfold event_loop.loop_of. cbn [view try_loop Lens_fst]. rewrite He.
    apply (timeout_started _ _ (mkTimeoutData true (Some (0%nat, ())) true)); eauto.
    apply loop_ok_new. intros p. apply lookup_empty.
  - by split.
  - reflexivity.
  - reflexivity.
  - split; [reflexivity|]. intros q [= <-]. by eexists.
  - exists s'. split_and!; [exact Hcb|exact Hh|]. cbn [view try_timers Lens_snd] in Ht. by rewrite Ht.
Defined.
