(* ===== verification/Text.v ===== *)
(** * Numbers, words and lines as text

    What the format strings of the program print, that numbers read back from it, and
    how text is taken apart again at its separators. *)

From Stdlib Require Import Ascii.
From S2P Require Import Prelude.

Abbreviation Text := (list ascii).

(** ** Numbers as text *)

Section digits.
Context (base : Z) (base_ok : 2 ≤ base ≤ 16).

Definition digit (n : Z) : ascii := ascii_of_nat (Z.to_nat (if n <? 10 then 48 + n else 87 + n)).

Definition digit_value (c : ascii) : Z :=
  let n := Z.of_nat (nat_of_ascii c) in if n <? 58 then n - 48 else n - 87.

(** The digits of a number, at most [fuel] of them, put before [acc]. *)
Fixpoint digits (fuel : nat) (n : Z) (acc : Text) : Text :=
  match fuel with
  | O => acc
  | S fuel =>
      if n <? base then digit n :: acc
      else digits fuel (n / base) (digit (n mod base) :: acc)
  end.

(** A number has at most as many digits as bits. *)
Definition print (n : Z) : Text := digits (S (Z.to_nat (Z.log2 n))) n [].

(** Zeros on the left, as the formats %09d, %06x and %02x have it. *)
Definition pad (width : nat) (t : Text) : Text := replicate (width - length t) "0"%char ++ t.

Definition read_from (acc : Z) (t : Text) : Z := foldl (λ a c, a * base + digit_value c) acc t.
Definition read (t : Text) : Z := read_from 0 t.

Lemma digit_value_digit n : 0 ≤ n < 16 → digit_value (digit n) = n.
Proof using.
  intros Hn. assert (∀ k, (k < 16)%nat → digit_value (digit (Z.of_nat k)) = Z.of_nat k) as Hall.
  { intros k Hk. do 16 (destruct k as [|k]; [done|]). lia. }
  rewrite <-(Z2Nat.id n) by lia. apply Hall. lia.
Qed.

Lemma read_digits fuel n acc a :
  0 ≤ n → n < base ^ Z.of_nat fuel →
  read_from a (digits fuel n acc) = read_from (a * base ^ Z.of_nat (length (digits fuel n acc) - length acc) + n) acc.
Proof using base_ok.
  revert n acc a. induction fuel as [|fuel IH]; intros n acc a Hn Hlt.
  - simpl in Hlt. assert (n = 0) as -> by lia. simpl. rewrite Nat.sub_diag. f_equal. lia.
  - cbn [digits]. destruct (Z.ltb_spec n base) as [Hb|Hb].
    + cbn [length read_from foldl]. replace (S (length acc) - length acc)%nat with 1%nat by lia.
      rewrite digit_value_digit by lia. do 2 f_equal. lia.
    + assert (length acc < length (digits fuel (n / base) (digit (n mod base) :: acc)))%nat as Hlen.
      { clear. generalize (n / base), (digit (n mod base)). revert acc.
        induction fuel as [|fuel IH]; intros acc m d; cbn [digits]; [simpl; lia|].
        destruct (m <? base); [simpl; lia|]. specialize (IH (d :: acc) (m / base) (digit (m mod base))).
        simpl in *. lia. }
      rewrite IH; cycle 1.
      { apply Z.div_pos; lia. }
      { apply Z.div_lt_upper_bound; [lia|]. rewrite Nat2Z.inj_succ, Z.pow_succ_r in Hlt by lia. lia. }
      set (m := length (digits _ _ _)) in *. cbn [length] in *. unfold read_from at 1. cbn [foldl].
      fold (read_from ((a * base ^ Z.of_nat (m - S (length acc)) + n / base) * base
        + digit_value (digit (n mod base))) acc).
      rewrite digit_value_digit by (pose proof (Z.mod_pos_bound n base); lia).
      f_equal. replace (m - length acc)%nat with (S (m - S (length acc))) by lia.
      rewrite Nat2Z.inj_succ, Z.pow_succ_r by lia. pose proof (Z.div_mod n base). lia.
Qed.

Lemma log2_bound n : 0 ≤ n → n < base ^ Z.of_nat (S (Z.to_nat (Z.log2 n))).
Proof using base_ok.
  intros Hn. rewrite Nat2Z.inj_succ, Z2Nat.id by apply Z.log2_nonneg.
  destruct (decide (n = 0)) as [->|Hne]; [simpl; lia|].
  eapply Z.lt_le_trans; [apply Z.log2_spec; lia|].
  apply Z.pow_le_mono_l. lia.
Qed.

Lemma read_zeros k t : read (replicate k "0"%char ++ t) = read t.
Proof using.
  unfold read, read_from. rewrite foldl_app. f_equal. induction k as [|k IH]; [done|]. cbn. exact IH.
Qed.

Lemma read_print n : 0 ≤ n → read (print n) = n.
Proof using base_ok.
  intros Hn. unfold read, print. rewrite read_digits by (done || by apply log2_bound).
  cbn. lia.
Qed.

(** What is printed with zeros on the left reads back as the number. *)
Lemma read_pad width n : 0 ≤ n → read (pad width (print n)) = n.
Proof using base_ok. intros Hn. unfold pad. rewrite read_zeros. by apply read_print. Qed.
End digits.
#[global] Arguments read : simpl never.
#[global] Arguments print : simpl never.
#[global] Arguments pad : simpl never.

(** ** Words and lines *)

Definition space : ascii := " ".
Definition newline : ascii := ascii_of_nat 10.
Definition point : ascii := ".".

(** The parts between separators; one part more than separators. *)
Fixpoint split (c : ascii) (t : Text) : list Text :=
  match t with
  | [] => [[]]
  | x :: t' =>
      if decide (x = c) then [] :: split c t'
      else match split c t' with
           | w :: ws => (x :: w) :: ws
           | [] => [[x]]
           end
  end.

Definition without (c : ascii) (t : Text) : Prop := Forall (λ x, x ≠ c) t.

Lemma split_without c t : without c t → split c t = [t].
Proof.
  induction 1 as [|x t Hx Ht IH]; [done|]. cbn. by rewrite decide_False, IH.
Qed.

Lemma split_app c t1 t2 : without c t1 → split c (t1 ++ c :: t2) = t1 :: split c t2.
Proof.
  induction 1 as [|x t Hx Ht IH]; cbn; [by rewrite decide_True|].
  by rewrite decide_False, IH.
Qed.

(** Words with a separator before each but the first. *)
Lemma split_words c w ws :
  without c w → Forall (without c) ws → split c (w ++ concat (cons c <$> ws)) = w :: ws.
Proof.
  intros Hw Hws. revert w Hw. induction Hws as [|x ws Hx Hws IH]; intros w Hw; cbn.
  - rewrite app_nil_r. by apply split_without.
  - rewrite split_app by done. f_equal. by apply IH.
Qed.

(** Lines with a separator after each. *)
Lemma split_lines c ls :
  Forall (without c) ls → split c (concat ((λ l, l ++ [c]) <$> ls)) = ls ++ [[]].
Proof.
  induction 1 as [|l ls Hl Hls IH]; [done|]. cbn. rewrite <-app_assoc. cbn.
  by rewrite split_app, IH.
Qed.

(** ** Text without separators *)

(** The characters that are no digit of any base. *)
Definition no_digit (c : ascii) : bool :=
  forallb (λ k, bool_decide (digit (Z.of_nat k) ≠ c)) (seq 0 16).

Lemma digit_char c n : no_digit c = true → 0 ≤ n < 16 → digit n ≠ c.
Proof.
  intros Hc Hn. rewrite <-(Z2Nat.id n) by lia. unfold no_digit in Hc. rewrite forallb_forall in Hc.
  apply (bool_decide_unpack _). rewrite Hc; [done|]. apply in_seq. lia.
Qed.

Section no_digit.
Context (base : Z) (c : ascii) (Hbase : 2 ≤ base ≤ 16) (Hc : no_digit c = true).

Lemma without_digits fuel n acc : 0 ≤ n → without c acc → without c (digits base fuel n acc).
Proof using All.
  revert n acc. induction fuel as [|fuel IH]; intros n acc Hn Ha; [done|]. cbn.
  pose proof (Z.mod_pos_bound n base ltac:(lia)).
  destruct (Z.ltb_spec n base) as [Hlt|Hge].
  - constructor; [apply digit_char; [done|lia]|done].
  - apply IH; [apply Z.div_pos; lia|]. constructor; [apply digit_char; [done|lia]|done].
Qed.

Lemma without_print n : 0 ≤ n → without c (print base n).
Proof using All. intros Hn. apply without_digits; [done|constructor]. Qed.

Lemma without_pad width n : 0 ≤ n → without c (pad width (print base n)).
Proof using All.
  intros Hn. apply Forall_app. split; [|by apply without_print].
  apply Forall_replicate. change "0"%char with (digit 0). by apply digit_char.
Qed.
End no_digit.

(** Text without separators. *)
Definition plain (t : Text) : Prop := without space t ∧ without newline t.

Lemma plain_app t1 t2 : plain t1 → plain t2 → plain (t1 ++ t2).
Proof. intros [? ?] [? ?]. split; by apply Forall_app. Qed.

Lemma plain_pad base width n : 2 ≤ base ≤ 16 → 0 ≤ n → plain (pad width (print base n)).
Proof. intros Hb Hn. split; by apply without_pad. Qed.

Lemma plain_print base n : 2 ≤ base ≤ 16 → 0 ≤ n → plain (print base n).
Proof. intros Hb Hn. split; by apply without_print. Qed.

(** ** The clock *)

(** [clock_gettime] of the time of day, in nanoseconds. *)
Class Clock (S : Type) := clock_now : M S Z.
