(* ===== verification/WSDump.v ===== *)
(** * The packet dump (core/WSDump, utility/Utility)

    Packets are written as text for text2pcap, 16 bytes to a line: the time, the offset
    in the packet and the bytes, in hexadecimal. The text reads back as the packets. *)

From S2P Require Import Prelude Text.

(** ** utility/Utility *)

(** Times are counted in nanoseconds here, the unit of [clock_gettime]. *)
Module Utility.
(** [static_cast] of a double to [uint64_t] is undefined outside its range. *)
Definition timeStr {S} (time : Z) : M S Text :=
  let oneE9 := 1000000000 in
  if (time <? 0) || (size_t_modulus <=? time) then fail (Undefined "double out of range of uint64_t")
  else
    let sec := (time / oneE9) mod 2 ^ 32 in
    let nsec := time mod oneE9 in
    mret (print 10 sec ++ point :: pad 9 (print 10 nsec)).
End Utility.

(** ** core/WSDump *)

(** [ws_os] is what was written to the open file, or null; [ws_base] the time of the
    first line, in a static variable. *)
Record WSDump : Type := mkWSDump { ws_os : option Text; ws_base : option Z }.
#[export] Instance Eta_WSDump : Eta WSDump := λ d, mkWSDump (ws_os d) (ws_base d).

Module ws_dump.
(** The constructor: the file is opened if there is a name; [is_open] says if that works. *)
Definition newWSDump (fname : string) (is_open : bool) (base : option Z) : WSDump :=
  mkWSDump (if bool_decide (fname ≠ ""%string) && is_open then Some [] else None) base.

Definition cols : nat := 16.

Definition offset_str (index : nat) : Text := space :: pad 6 (print 16 (Z.of_nat index)).
Definition byte_str (b : byte) : Text := space :: pad 2 (print 16 b).

(** The inner loop, from [index] for at most [n] columns: the text and the new index. *)
Fixpoint row (n : nat) (packet : ByteVec) (index : nat) : Text * nat :=
  match n with
  | O => ([], index)
  | S n =>
      match packet !! index with
      | Some b => let '(t, i) := row n packet (S index) in (byte_str b ++ t, i)
      | None => ([], index)
      end
  end.

Section rxPacket.
Context {S : Type} `{!Lens S WSDump, !Clock S}.

Definition print_os (t : Text) : M S () :=
  zoom (modify (λ d, d <| ws_os ::= fmap (λ o, o ++ t) |>)).

(** The time of the line, from the first line on. *)
Definition relative_now : M S Z :=
  now ← clock_now;
  d ← load;
  let base := default now (ws_base d) in
  store (d <| ws_base := Some base |>) ;;
  mret (now - base).

Fixpoint rows (fuel : nat) (packet : ByteVec) (index : nat) : M S () :=
  if (index <? length packet)%nat then
    match fuel with
    | O => fail OutOfFuel
    | Datatypes.S fuel =>
        now ← relative_now;
        t ← Utility.timeStr now;
        print_os t ;;
        print_os (offset_str index) ;;
        let '(t, i) := row cols packet index in
        print_os t ;;
        print_os [newline] ;;
        rows fuel packet i
    end
  else skip.

Definition rxPacket (packet : ByteVec) : M S () :=
  d ← load;
  match ws_os d with
  | None => skip
  | Some _ => rows (length packet) packet 0
  end.
End rxPacket.
End ws_dump.

(** ** What is written *)

(** The rows of a packet: offset and bytes. *)
Fixpoint packet_rows (fuel : nat) (p : ByteVec) (i : nat) : list (nat * ByteVec) :=
  match fuel with
  | O => []
  | S fuel =>
      if (i <? length p)%nat
      then (i, take ws_dump.cols (drop i p)) :: packet_rows fuel p (i + ws_dump.cols)
      else []
  end.

Lemma row_spec n p i :
  ws_dump.row n p i
  = (concat (ws_dump.byte_str <$> take n (drop i p)), (i + (n `min` (length p - i)))%nat).
Proof.
  revert i. induction n as [|n IH]; intros i; [cbn; f_equal; lia|]. cbn [ws_dump.row].
  destruct (p !! i) as [b|] eqn:Hb.
  - rewrite IH, (drop_S _ _ _ Hb). apply lookup_lt_Some in Hb. f_equal. lia.
  - apply lookup_ge_None in Hb. rewrite drop_ge by done. f_equal. lia.
Qed.

(** A line of the text for a row, with some time. *)
Definition line_ok (r : nat * ByteVec) (l : Text) : Prop :=
  ∃ t, plain t ∧ l = t ++ ws_dump.offset_str r.1 ++ concat (ws_dump.byte_str <$> r.2).

Definition text_of (ls : list Text) : Text := concat ((λ l, l ++ [newline]) <$> ls).

Lemma timeStr_ok {S} time (s : S) E (Q : Text → S → Prop) :
  0 ≤ time < size_t_modulus → (∀ t, plain t → Q t s) → wp (Utility.timeStr time) E Q s.
Proof.
  intros Ht HQ. unfold Utility.timeStr. destruct (Z.ltb_spec time 0); [lia|].
  destruct (Z.leb_spec size_t_modulus time); [lia|]. cbn [orb]. wp_step. apply HQ.
  pose proof (Z.mod_pos_bound (time / 1000000000) (2 ^ 32) ltac:(lia)).
  pose proof (Z.mod_pos_bound time 1000000000 ltac:(lia)).
  apply plain_app; [apply plain_print; lia|].
  apply (plain_app [point]); [|apply plain_pad; lia].
  by split; repeat constructor.
Qed.

(** A clock that does not run backwards and does not touch the dump. *)
Class ClockLaws (S : Type) `{!Lens S WSDump, !Clock S} (time : S → Z) : Prop := {
  clock_runs s : ∃ s', clock_now s = Ok (time s', s') ∧ time s ≤ time s' ∧ view s' = view s :> WSDump;
  time_range s : 0 ≤ time s < size_t_modulus;
  time_apart (d : WSDump) s : time (set_view d s) = time s
}.

Section dump.
Context {S : Type} `{!Lens S WSDump, !Clock S} (time : S → Z) `{!ClockLaws S time}.
#[local] Set Default Proof Using "Type*".
Implicit Types (s : S) (p : ByteVec).
Abbreviation dump s := (view s : WSDump).

(** The dump is open with the text [o]; its first line is not in the future. *)
Definition open_with (o : Text) s : Prop :=
  ws_os (dump s) = Some o ∧ ∀ b, ws_base (dump s) = Some b → 0 ≤ b ≤ time s.

Lemma relative_now_ok s o E :
  open_with o s →
  wp ws_dump.relative_now E (λ t s', open_with o s' ∧ 0 ≤ t < size_t_modulus) s.
Proof.
  intros [Hos Hb]. destruct (clock_runs s) as (s1 & Hn & Hle & Hv).
  unfold ws_dump.relative_now. apply wp_bind. eapply wp_eq; [done|]. unfold load, store. wp_steps. pose proof (time_range s). pose proof (time_range s1). rewrite Hv. unfold open_with.
  rewrite view_set, time_apart. destruct (ws_base (dump s)) as [b|]; cbn.
  - specialize (Hb b eq_refl). split_and!; [done| |lia..]. intros ? [= <-]. lia.
  - split_and!; [done| |lia..]. intros ? [= <-]. lia.
Qed.

Lemma print_os_ok t s o E (Q : () → S → Prop) :
  open_with o s → (∀ s', open_with (o ++ t) s' → Q () s') → wp (ws_dump.print_os t) E Q s.
Proof.
  intros [Hos Hb] HQ. unfold ws_dump.print_os. do 2 wp_step. apply HQ.
  unfold open_with. rewrite view_set, time_apart. cbn. by rewrite Hos.
Qed.

Lemma packet_rows_end fuel p i : (length p ≤ i)%nat → packet_rows fuel p i = [].
Proof using.
  intros Hi. destruct fuel as [|fuel]; [done|]. cbn [packet_rows]. by destruct (Nat.ltb_spec i (length p)); [lia|].
Qed.

Lemma rows_ok fuel p i s o :
  (length p ≤ fuel + i)%nat → open_with o s →
  wp (ws_dump.rows fuel p i) never (λ _ s', ∃ ls,
    open_with (o ++ text_of ls) s' ∧ Forall2 line_ok (packet_rows fuel p i) ls) s.
Proof.
  revert i s o. induction fuel as [|fuel IH]; intros i s o Hf Ho; cbn [ws_dump.rows packet_rows].
  - destruct (Nat.ltb_spec i (length p)); [lia|]. wp_step. exists []. by rewrite app_nil_r.
  - destruct (Nat.ltb_spec i (length p)) as [Hi|Hi].
    2: { wp_step. exists []. by rewrite app_nil_r. }
    wp_step. eapply wp_mono; [by apply relative_now_ok|done|]. intros now s1 [Ho1 Hnow].
    wp_step. apply timeStr_ok; [done|]. intros t Ht.
    wp_step. eapply print_os_ok; [done|]. intros s2 Ho2.
    wp_step. eapply print_os_ok; [done|]. intros s3 Ho3. rewrite row_spec.
    wp_step. eapply print_os_ok; [done|]. intros s4 Ho4.
    wp_step. eapply print_os_ok; [done|]. intros s5 Ho5.
    set (l := t ++ ws_dump.offset_str i ++ concat (ws_dump.byte_str <$> take ws_dump.cols (drop i p))).
    set (j := (i + ws_dump.cols `min` (length p - i))%nat).
    assert (packet_rows fuel p (i + ws_dump.cols) = packet_rows fuel p j) as ->.
    { destruct (decide (ws_dump.cols ≤ length p - i)%nat) as [Hle|Hle].
      - f_equal. unfold j. lia.
      - rewrite !packet_rows_end; [done|unfold j; lia|lia]. }
    eapply wp_mono; [apply (IH j _ _ ltac:(unfold j, ws_dump.cols; lia) Ho5)|done|].
    intros [] s' (ls & Hos & Hls). exists (l :: ls). split.
    + revert Hos. unfold text_of, l. cbn [fmap list_fmap concat]. by rewrite <-!app_assoc.
    + constructor; [by exists t|done].
Qed.

Lemma rxPacket_ok p s o :
  open_with o s →
  wp (ws_dump.rxPacket p) never (λ _ s', ∃ ls,
    open_with (o ++ text_of ls) s' ∧ Forall2 line_ok (packet_rows (length p) p 0) ls) s.
Proof.
  intros Ho. unfold ws_dump.rxPacket, load. do 2 wp_step. destruct Ho as [Hos Hb]. rewrite Hos.
  apply rows_ok; [lia|done].
Qed.

Lemma rxPackets_ok ps s o :
  open_with o s →
  wp (for_each ws_dump.rxPacket ps) never (λ _ s', ∃ ls,
    open_with (o ++ text_of ls) s' ∧
    Forall2 line_ok (ps ≫= λ p, packet_rows (length p) p 0) ls) s.
Proof.
  revert s o. induction ps as [|p ps IH]; intros s o Ho; cbn [for_each].
  - wp_step. exists []. by rewrite app_nil_r.
  - wp_step. eapply wp_mono; [by apply rxPacket_ok|done|]. intros [] s1 (ls1 & Ho1 & Hl1).
    eapply wp_mono; [by apply IH|done|]. intros [] s2 (ls2 & Ho2 & Hl2).
    exists (ls1 ++ ls2). split; [|by apply Forall2_app].
    unfold text_of in *. by rewrite fmap_app, concat_app, app_assoc.
Qed.
End dump.

(** ** Reading it back *)

(** The offset and the bytes of a line, after the time. *)
Definition read_line (l : Text) : option (Z * ByteVec) :=
  match split space l with
  | _ :: off :: bs => Some (read 16 off, read 16 <$> bs)
  | _ => None
  end.

(** The offset 0 begins a packet; what follows it is in the accumulator. *)
Definition assemble_row (r : Z * ByteVec) (acc : ByteVec * list ByteVec) : ByteVec * list ByteVec :=
  if r.1 =? 0 then ([], (r.2 ++ acc.1) :: acc.2) else (r.2 ++ acc.1, acc.2).

Definition assemble (rs : list (Z * ByteVec)) : list ByteVec := (foldr assemble_row ([], []) rs).2.

Definition undump (t : Text) : list ByteVec := assemble (omap read_line (split newline t)).

Lemma pad_nonneg_plain width n : 0 ≤ n → plain (pad width (print 16 n)).
Proof. intros Hn. apply plain_pad; lia. Qed.

Lemma byte_words bs :
  bytes bs → Forall plain ((λ b, pad 2 (print 16 b)) <$> bs).
Proof.
  intros Hbs. apply Forall_fmap. eapply Forall_impl; [exact Hbs|]. intros b [Hb _].
  by apply pad_nonneg_plain.
Qed.

Lemma line_words t i bs :
  t ++ ws_dump.offset_str i ++ concat (ws_dump.byte_str <$> bs)
  = t ++ concat (cons space <$> (pad 6 (print 16 (Z.of_nat i)) :: ((λ b, pad 2 (print 16 b)) <$> bs))).
Proof. cbn. by rewrite <-list_fmap_compose. Qed.

Lemma read_line_ok i bs l :
  bytes bs → line_ok (i, bs) l → read_line l = Some (Z.of_nat i, bs).
Proof.
  intros Hbs (t & [Ht _] & ->). unfold read_line. rewrite line_words, split_words; [|done|].
  - cbn. rewrite read_pad by lia. do 2 f_equal. rewrite <-list_fmap_compose.
    induction Hbs as [|b bs [Hb _] Hbs IH]; [done|]. cbn. f_equal; [|done]. apply read_pad; lia.
  - constructor; [by apply pad_nonneg_plain, Zle_0_nat|].
    eapply Forall_impl; [by apply byte_words|]. by intros ? [].
Qed.

Lemma words_plain ws : Forall plain ws → without newline (concat (cons space <$> ws)).
Proof.
  induction 1 as [|w ws [_ Hw] Hws IH]; cbn; [constructor|].
  constructor; [done|]. by apply Forall_app.
Qed.

Lemma line_plain i bs l : bytes bs → line_ok (i, bs) l → without newline l.
Proof.
  intros Hbs (t & [_ Ht] & ->). rewrite line_words. apply Forall_app. split; [done|].
  apply words_plain. constructor; [by apply pad_nonneg_plain, Zle_0_nat|by apply byte_words].
Qed.

(** The rows of a packet are put together again. *)
Lemma assemble_rows fuel p i acc :
  (0 < i)%nat → (length p ≤ fuel + i)%nat →
  foldr assemble_row acc (prod_map Z.of_nat id <$> packet_rows fuel p i) = (drop i p ++ acc.1, acc.2).
Proof.
  revert i. induction fuel as [|fuel IH]; intros i Hi Hf; cbn [packet_rows].
  - rewrite drop_ge by lia. by destruct acc.
  - destruct (Nat.ltb_spec i (length p)) as [Hlt|Hge]; [|rewrite drop_ge by lia; by destruct acc].
    cbn [fmap list_fmap foldr]. rewrite IH by (unfold ws_dump.cols; lia).
    unfold assemble_row. cbn [fst snd prod_map id].
    destruct (Z.eqb_spec (Z.of_nat i) 0); [lia|]. cbn. f_equal.
    rewrite app_assoc. f_equal. rewrite <-drop_drop. apply take_drop.
Qed.

Lemma assemble_packet p acc :
  p ≠ [] → acc.1 = [] →
  foldr assemble_row acc (prod_map Z.of_nat id <$> packet_rows (length p) p 0) = ([], p :: acc.2).
Proof.
  intros Hp Hacc. destruct (length p) as [|n] eqn:Hn; [by destruct p|]. cbn [packet_rows].
  rewrite Hn. destruct (Nat.ltb_spec 0 (S n)); [|lia]. cbn [fmap list_fmap foldr].
  rewrite assemble_rows by (unfold ws_dump.cols; lia). unfold assemble_row.
  cbn [fst snd prod_map id Z.of_nat]. rewrite Hacc, app_nil_r.
  change (0 =? 0) with true. cbn. do 2 f_equal. apply take_drop.
Qed.

Lemma assemble_packets ps :
  assemble (prod_map Z.of_nat id <$> (ps ≫= λ p, packet_rows (length p) p 0))
  = filter (λ p, p ≠ []) ps.
Proof.
  unfold assemble. assert (∃ r, foldr assemble_row ([], [])
    (prod_map Z.of_nat id <$> (ps ≫= λ p, packet_rows (length p) p 0)) = ([], r) ∧ r = filter (λ p, p ≠ []) ps)
    as (r & -> & ->); [|done].
  induction ps as [|p ps (r & IH & ->)]; [by eexists|].
  rewrite bind_cons, fmap_app, foldr_app, filter_cons. destruct (decide (p ≠ [])) as [Hp|Hp].
  - eexists. split; [|done]. etrans; [apply assemble_packet; [done|]|]; by setoid_rewrite IH.
  - apply dec_stable in Hp as ->. eexists. split; [|done]. apply IH.
Qed.

Lemma rows_bytes fuel p i : bytes p → Forall (λ r, bytes r.2) (packet_rows fuel p i).
Proof.
  intros Hp. revert i. induction fuel as [|fuel IH]; intros i; cbn [packet_rows]; [constructor|].
  destruct (i <? length p)%nat; [|constructor]. constructor; [|done].
  by apply Forall_take, Forall_drop.
Qed.

(** The lines of a text are read one by one. *)
Lemma undump_lines rs ls :
  Forall (λ r, bytes r.2) rs → Forall2 line_ok rs ls →
  undump (text_of ls) = assemble (prod_map Z.of_nat id <$> rs).
Proof.
  intros Hrs Hls. unfold undump, text_of. rewrite split_lines.
  - f_equal. rewrite omap_app. cbn. rewrite app_nil_r.
    induction Hls as [|[i bs] l rs ls Hl Hls IH]; [done|].
    apply Forall_cons in Hrs as [Hbs Hrs]. cbn. rewrite (read_line_ok i bs l Hbs Hl). f_equal. by apply IH.
  - induction Hls as [|[i bs] l rs ls Hl Hls IH]; [constructor|].
    apply Forall_cons in Hrs as [Hbs Hrs]. constructor; [by eapply line_plain|by apply IH].
Qed.


(** A clock that ticks at each reading, up to some day. *)
Definition clamp (t : Z) : Z := Z.max 0 (Z.min t 1000000000000000).
#[local] Instance tick : Clock (WSDump * Z) := λ s,
  let t := clamp (s.2 + 1500000000) in Ok (t, (s.1, t)).
#[local] Instance tick_laws : ClockLaws (WSDump * Z) (λ s, clamp s.2).
Proof.
  split.
  - intros [d t]. exists (d, clamp (t + 1500000000)). unfold clock_now, tick, clamp. cbn.
    split_and!; [|lia|done]. do 2 f_equal. lia.
  - intros [d t]. unfold clamp, size_t_modulus. cbn. lia.
  - done.
Qed.

Definition two_packets : list ByteVec := [seqZ 0 20; []; [255]].


(** The text of a packet, without the end of the line. *)
Example dump_text :
  match ws_dump.rxPacket [222; 173] (ws_dump.newWSDump "dump" true None, 0) with
  | Ok (_, s) => String.string_of_list_ascii (take 25 (default [] (ws_os s.1)))
  | Fail _ => ""%string
  end = "0.000000000 000000 de ad"%string +:+ String newline "".
Proof. reflexivity. Qed.
