(* ===== verification/Log.v ===== *)
(** * The log (utility/Log)

    Lines at or above a level go to the standard error stream, each with the process
    and the time since the log was made. That time is right as long as nobody sets
    the clock back, and for 68 years; the buffer it is printed to is never too small. *)

From Stdlib Require Import Ascii.
From S2P Require Import Prelude Text.

(** The standard error stream. *)
Class ErrorStream (S : Type) := cerr : Text → M S ().

(** [static_cast] to [int], and the arithmetic of [uint64_t]. *)
Definition to_int (n : Z) : Z := (n + 2 ^ 31) mod 2 ^ 32 - 2 ^ 31.
Definition to_uint64 (n : Z) : Z := n mod 2 ^ 64.

(** The format %0[width]d of an [int]. *)
Definition format_int (width : nat) (n : Z) : Text :=
  if n <? 0 then "-"%char :: pad (width - 1) (print 10 (- n)) else pad width (print 10 n).

Module log.
Inductive Level : Type := trace | debug | info | warning | error.

Definition Level_value (l : Level) : Z :=
  match l with trace => 0 | debug => 1 | info => 2 | warning => 3 | error => 4 end.

(** The level is any [int] that the command line gives. *)
Record Log : Type := mkLog { m_timeBase : Z; m_level : Z; m_pid : Z }.

Section operations.
Context {S : Type} `{!Clock S}.

(** The time of day in microseconds. *)
Definition micros : M S Z :=
  ts ← clock_now;
  mret (to_uint64 (ts / 1000000000 * 1000000 + (ts mod 1000000000) / 1000)).

Definition newLog (pid : Z) : M S Log :=
  base ← micros;
  mret (mkLog base (Level_value debug) pid).

Definition header (l : Log) : M S Text :=
  now ← micros;
  let delta := to_uint64 (now - m_timeBase l) in
  let sec := to_int (delta / 1000000) in
  let usec := to_int (delta mod 1000000) in
  let t := format_int 5 (m_pid l) ++ space :: format_int 9 sec ++ point :: format_int 6 usec in
  if (length t <? 256)%nat then mret t else fail (Undefined "overflow of the buffer").

(** Also what the destructor of a [LogLine] does. *)
Definition writeLog `{!Lens S Log, !ErrorStream S} (line : Text) (level : Level) : M S () :=
  l ← load;
  if m_level l <=? Level_value level then
    h ← header l;
    cerr (h ++ space :: line ++ [newline])
  else skip.
End operations.
End log.

(** ** What is printed *)

Definition is_int (n : Z) : Prop := - 2 ^ 31 ≤ n < 2 ^ 31.

Lemma to_int_range n : is_int (to_int n).
Proof. unfold is_int, to_int. pose proof (Z.mod_pos_bound (n + 2 ^ 31) (2 ^ 32)). lia. Qed.

Lemma to_int_id n : is_int n → to_int n = n.
Proof. unfold is_int, to_int. intros Hn. rewrite Z.mod_small; lia. Qed.

Lemma length_digits base fuel n acc : (length (digits base fuel n acc) ≤ fuel + length acc)%nat.
Proof.
  revert n acc. induction fuel as [|fuel IH]; intros n acc; cbn [digits]; [lia|].
  destruct (n <? base); [cbn; lia|]. specialize (IH (n / base) (digit (n mod base) :: acc)).
  cbn in *. lia.
Qed.

Lemma length_pad width t : length (pad width t) = (width `max` length t)%nat.
Proof. unfold pad. rewrite length_app, length_replicate. lia. Qed.

Lemma length_format_int width n : is_int n → (width ≤ 33)%nat → (length (format_int width n) ≤ 34)%nat.
Proof.
  intros Hn Hw.
  assert (∀ m, 0 ≤ m ≤ 2 ^ 31 → (length (print 10 m) ≤ 32)%nat) as Hprint.
  { intros m Hm. unfold print. pose proof (length_digits 10 (S (Z.to_nat (Z.log2 m))) m []) as Hl.
    pose proof (Z.log2_le_mono m (2 ^ 31) ltac:(lia)) as Hlog. rewrite Z.log2_pow2 in Hlog by lia.
    cbn [length] in Hl. lia. }
  unfold is_int in Hn. unfold format_int. destruct (Z.ltb_spec n 0); cbn [length]; rewrite length_pad.
  - pose proof (Hprint (- n)). lia.
  - pose proof (Hprint n). lia.
Qed.

(** A field that is not negative reads back, and has only digits. *)
Lemma read_format width n : 0 ≤ n → read 10 (format_int width n) = n.
Proof. intros Hn. unfold format_int. destruct (Z.ltb_spec n 0); [lia|]. by apply read_pad. Qed.

Lemma without_format c width n : no_digit c = true → 0 ≤ n → without c (format_int width n).
Proof.
  intros Hc Hn. unfold format_int. destruct (Z.ltb_spec n 0); [lia|]. by apply without_pad.
Qed.

(** ** The header of a line *)

Section header.
Context {S : Type} `{!Clock S}.
Implicit Types (l : log.Log) (s : S).

Definition us (ts : Z) : Z := ts / 1000.

Lemma micros_us ts s s' :
  clock_now s = Ok (ts, s') → log.micros s = Ok (to_uint64 (us ts), s').
Proof.
  intros Hc. unfold log.micros. eapply bind_step; [exact Hc|]. unfold mret, M_ret. do 3 f_equal.
  unfold us. pose proof (Z.div_mod ts 1000000000). Z.to_euclidean_division_equations. lia.
Qed.

(** The fields of the header, of the time [d] in microseconds. *)
Definition header_text (pid d : Z) : Text :=
  format_int 5 pid ++ space :: format_int 9 (to_int (d / 1000000)) ++ point
    :: format_int 6 (to_int (d mod 1000000)).

(** Whatever the clock says, and for any process, the header fits into its buffer. *)
Theorem header_fits l ts s s' :
  clock_now s = Ok (ts, s') → is_int (log.m_pid l) →
  log.header l s
  = Ok (header_text (log.m_pid l) (to_uint64 (to_uint64 (us ts) - log.m_timeBase l)), s').
Proof.
  intros Hc Hp. unfold log.header. eapply bind_step; [by apply micros_us|].
  cbv zeta. fold (header_text (log.m_pid l) (to_uint64 (to_uint64 (us ts) - log.m_timeBase l))).
  destruct (Nat.ltb_spec (length (header_text (log.m_pid l)
    (to_uint64 (to_uint64 (us ts) - log.m_timeBase l)))) 256) as [|Hlong]; [done|].
  unfold header_text in Hlong. repeat (rewrite length_app in Hlong || cbn [length] in Hlong).
  pose proof (length_format_int 5 _ Hp).
  set (d := to_uint64 _) in *.
  pose proof (length_format_int 9 _ (to_int_range (d / 1000000))).
  pose proof (length_format_int 6 _ (to_int_range (d mod 1000000))). lia.
Qed.

(** A line is written exactly if its level is high enough, with the header before it. *)
Theorem writeLog_line `{!Lens S log.Log, !ErrorStream S} line level ts s s' :
  clock_now s = Ok (ts, s') → is_int (log.m_pid (view s)) →
  log.writeLog line level s =
    let l := view s in
    if log.m_level l <=? log.Level_value level then
      cerr (header_text (log.m_pid l) (to_uint64 (to_uint64 (us ts) - log.m_timeBase l))
        ++ space :: line ++ [newline]) s'
    else Ok ((), s).
Proof.
  intros Hc Hp. unfold log.writeLog. rewrite (bind_ok _ _ s (view s) s) by done. cbv zeta.
  destruct (_ <=? _); [|done]. by rewrite (bind_ok _ _ _ _ _ (header_fits _ _ _ _ Hc Hp)).
Qed.

(** The header of a log that was made at the time [ts0] reads back as the process and the
    time since then, unless the clock was set back before that, up to 2^31 seconds. *)
Theorem header_reads_back pid ts0 s0 s1 l ts s s' :
  clock_now s0 = Ok (ts0, s1) → log.newLog pid s0 = Ok (l, s1) → 0 ≤ pid < 2 ^ 31 →
  clock_now s = Ok (ts, s') → us ts0 ≤ us ts < us ts0 + 2 ^ 31 * 1000000 →
  ∃ t p f sec usec, log.header l s = Ok (t, s') ∧ split space t = [p; f] ∧
    split point f = [sec; usec] ∧ read 10 p = pid ∧
    read 10 sec * 1000000 + read 10 usec = us ts - us ts0.
Proof.
  intros Hc0 Hl Hpid Hc Helapsed.
  unfold log.newLog in Hl. rewrite (bind_ok _ _ _ _ _ (micros_us _ _ _ Hc0)) in Hl.
  injection Hl as <-.
  set (l := log.mkLog _ _ _).
  assert (to_uint64 (to_uint64 (us ts) - log.m_timeBase l) = us ts - us ts0) as Hd.
  { unfold to_uint64, l. cbn [log.m_timeBase]. unfold to_uint64. rewrite <-Zminus_mod.
    apply Z.mod_small. lia. }
  set (d := us ts - us ts0) in *.
  exists (header_text pid d), (format_int 5 pid),
    (format_int 9 (to_int (d / 1000000)) ++ point :: format_int 6 (to_int (d mod 1000000))),
    (format_int 9 (to_int (d / 1000000))), (format_int 6 (to_int (d mod 1000000))).
  split; [rewrite (header_fits _ _ _ _ Hc) by (unfold is_int, l; cbn [log.m_pid]; lia); by rewrite Hd|].
  assert (0 ≤ d / 1000000 < 2 ^ 31) as Hsec
    by (split; [apply Z.div_pos|apply Z.div_lt_upper_bound]; lia).
  pose proof (Z.mod_pos_bound d 1000000 ltac:(lia)) as Husec.
  unfold header_text. rewrite !to_int_id by (unfold is_int; lia). split_and!.
  - rewrite split_app by (apply without_format; [done|lia]). f_equal. apply split_without.
    apply Forall_app. split; [apply without_format; [done|lia]|].
    constructor; [done|]. apply without_format; [done|lia].
  - rewrite split_app by (apply without_format; [done|lia]). f_equal. apply split_without.
    apply without_format; [done|lia].
  - apply read_format. lia.
  - rewrite !read_format by lia. pose proof (Z.div_mod d 1000000). lia.
Qed.
End header.

(** ** A log at work *)

(** A process with a clock, in nanoseconds, and what it wrote to its error stream. *)
Record Process : Type := mkProcess { pr_clock : Z; pr_err : Text; pr_log : log.Log }.

#[export] Instance process_clock : Clock Process := gets pr_clock.
#[export] Instance process_err : ErrorStream Process :=
  λ t, modify (λ p, mkProcess (pr_clock p) (pr_err p ++ t) (pr_log p)).
#[export] Program Instance process_log : Lens Process log.Log :=
  {| view := pr_log; set_view l p := mkProcess (pr_clock p) (pr_err p) l |}.
Next Obligation. done. Qed.
Next Obligation. done. Qed.
Next Obligation. by intros []. Qed.

(** The log of the process 1234 is made after an hour; a line follows, at [ts]. *)
Definition logged (ts : Z) (level : log.Level) : string :=
  match (l ← log.newLog 1234;
         put (mkProcess ts [] l) ;;
         log.writeLog (String.list_ascii_of_string "ready") level)
          (mkProcess 3600000000000 [] (log.mkLog 0 0 0)) with
  | Ok (_, p) => String.string_of_list_ascii (pr_err p)
  | Fail _ => "failed"
  end.

Example log_lines :
  logged 3661000250000 log.info = ("01234 000000061.000250 ready" ++ String newline "")%string ∧
  logged 3661000250000 log.trace = ""%string.
Proof. by vm_compute. Qed.

(** The clock is set back by a second. *)
Example clock_set_back :
  logged 3599000000000 log.info = ("01234 -140462612.551616 ready" ++ String newline "")%string.
Proof. by vm_compute. Qed.
