(* ===== verification/SerialNet.v ===== *)
(** * The program (mains/serialnet/SerialNet, factories/RealPosixFactory, main)

    The main object with all its parts: the node of Node.v on the serial port driver, the
    host driver of the mode, the master on its node, the dump and the event loop, whose
    callbacks are the closures of the program. [start] makes and wires the parts as the
    configuration says; [call] is what the event loop calls. *)

From stdpp Require Import gmap.
From S2P Require Import Prelude SerialProtocol VecQueue StateChart RootChart Config.
From S2P Require Import TimeService MasterScheduler MasterState DynamicHandler MasterFSM Master.
From S2P Require Import NodeMaster.
From S2P Require Import FrameCodec Interfaces TxQueue AddressCache MsgToByteAdapter.
From S2P Require Import PacketTypeCodec Node Posix SerialDriver SerialProps FolderManager.
From S2P Require Import TunTapDriver TapDriver TunDriver RawDrivers SNConfig.
From S2P Require Import EventLoop Text WSDump.

#[export] Instance Eta_SNConfig : Eta SNConfig.SNConfig := λ c,
  SNConfig.mkSNConfig (SNConfig.sn_etherPath c) (SNConfig.sn_mode c) (SNConfig.sn_on_if_up c)
    (SNConfig.sn_on_if_down c) (SNConfig.sn_startMaster c) (SNConfig.sn_rtsOption c)
    (SNConfig.sn_wsDumpPath c) (SNConfig.sn_tapName c) (SNConfig.sn_staticAddr c)
    (SNConfig.sn_peerAddr c) (SNConfig.sn_masterTimeout c) (SNConfig.sn_user c)
    (SNConfig.sn_group c) (SNConfig.sn_rootPath c).

(** The host drivers, as the core knows them. *)
Inductive HostDriver : Type :=
  | StdioRaw | PtyRaw | SocatTun | SocatTap | TunHost | TapHost.
#[export] Instance HostDriver_eq_dec : EqDecision HostDriver.
Proof. solve_decision. Defined.

(** The closures that the program gives to the event loop. *)
Inductive closure : Type :=
  | OnSerial (c : serial.callback)
  | OnStdio (c : stdio.callback)
  | OnPty (c : pty.callback)
  | OnSocatTun (c : socat_tun.callback)
  | OnSocatTap (c : socat_tap.callback)
  | OnTun (c : tun_driver.callback)
  | OnTap (c : tap_driver.callback)
  | MasterTimeout
  | Interrupt.

Definition SIGINT : Z := 2.

(** The port driver and the operating system: what is below the node. *)
Abbreviation Port O := (SerialByteEther * O)%type.
Abbreviation TheNode O := (Node.Node () HostDriver (Port O)).

(** A [unique_ptr] is set or not; the object of a driver that is not made has the state
    that its constructor will give it. *)
Record SerialNet (L O Q : Type) : Type := mkSerialNet {
  sn_snConfig : SNConfig.SNConfig;
  sn_loop : EventLoop closure L;
  sn_fm : FolderManager;
  sn_node : TheNode O;
  sn_stdioRawDriver : StdioRawHostDriver;
  sn_ptyRawDriver : PtyRawHostDriver;
  sn_socatTunHostDriver : SocatTunHostDriver;
  sn_socatTapHostDriver : SocatTapHostDriver;
  sn_tunHostDriver : TunHostDriver;
  sn_tapHostDriver : TapHostDriver;
  sn_made : list HostDriver;
  sn_master : option (Fsm StateId Event * World (TheNode O) Q);
  sn_wsDump : option WSDump
}.
Arguments mkSerialNet {L O Q}.
Arguments sn_snConfig {L O Q} _.
Arguments sn_loop {L O Q} _.
Arguments sn_fm {L O Q} _.
Arguments sn_node {L O Q} _.
Arguments sn_stdioRawDriver {L O Q} _.
Arguments sn_ptyRawDriver {L O Q} _.
Arguments sn_socatTunHostDriver {L O Q} _.
Arguments sn_socatTapHostDriver {L O Q} _.
Arguments sn_tunHostDriver {L O Q} _.
Arguments sn_tapHostDriver {L O Q} _.
Arguments sn_made {L O Q} _.
Arguments sn_master {L O Q} _.
Arguments sn_wsDump {L O Q} _.
#[export] Instance Eta_SerialNet {L O Q} : Eta (SerialNet L O Q) := λ s,
  mkSerialNet (sn_snConfig s) (sn_loop s) (sn_fm s) (sn_node s) (sn_stdioRawDriver s)
    (sn_ptyRawDriver s) (sn_socatTunHostDriver s) (sn_socatTapHostDriver s)
    (sn_tunHostDriver s) (sn_tapHostDriver s) (sn_made s) (sn_master s) (sn_wsDump s).

(** ** The parts *)

Section lenses.
Context {L O Q : Type}.
Abbreviation SN := (SerialNet L O Q).

Ltac sn_lens := intros; repeat match goal with s : SN |- _ => destruct s end; done.
#[export] Program Instance sn_loop_lens : Lens SN (EventLoop closure L) :=
  {| view := sn_loop; set_view x s := s <| sn_loop := x |> |}.
Solve Obligations with sn_lens.
#[export] Program Instance sn_fm_lens : Lens SN FolderManager :=
  {| view := sn_fm; set_view x s := s <| sn_fm := x |> |}.
Solve Obligations with sn_lens.
#[export] Program Instance sn_node_lens : Lens SN (TheNode O) :=
  {| view := sn_node; set_view x s := s <| sn_node := x |> |}.
Solve Obligations with sn_lens.
#[export] Program Instance sn_stdio_lens : Lens SN StdioRawHostDriver :=
  {| view := sn_stdioRawDriver; set_view x s := s <| sn_stdioRawDriver := x |> |}.
Solve Obligations with sn_lens.
#[export] Program Instance sn_pty_lens : Lens SN PtyRawHostDriver :=
  {| view := sn_ptyRawDriver; set_view x s := s <| sn_ptyRawDriver := x |> |}.
Solve Obligations with sn_lens.
#[export] Program Instance sn_socat_tun_lens : Lens SN SocatTunHostDriver :=
  {| view := sn_socatTunHostDriver; set_view x s := s <| sn_socatTunHostDriver := x |> |}.
Solve Obligations with sn_lens.
#[export] Program Instance sn_socat_tap_lens : Lens SN SocatTapHostDriver :=
  {| view := sn_socatTapHostDriver; set_view x s := s <| sn_socatTapHostDriver := x |> |}.
Solve Obligations with sn_lens.
#[export] Program Instance sn_tun_lens : Lens SN TunHostDriver :=
  {| view := sn_tunHostDriver; set_view x s := s <| sn_tunHostDriver := x |> |}.
Solve Obligations with sn_lens.
#[export] Program Instance sn_tap_lens : Lens SN TapHostDriver :=
  {| view := sn_tapHostDriver; set_view x s := s <| sn_tapHostDriver := x |> |}.
Solve Obligations with sn_lens.

#[export] Instance sn_adapter_lens : Lens SN (MsgToByteAdapter ()) := lens_comp sn_node_lens adapter_of.
#[export] Instance sn_txQueue_lens : Lens SN (TxQueue HostDriver) := lens_comp sn_node_lens txQueue_of.
#[export] Instance sn_client_lens : Lens SN ClientAddress := lens_comp sn_node_lens client_of.
#[export] Instance sn_codec_lens : Lens SN PacketTypeCodec := lens_comp sn_node_lens codec_of.
#[export] Instance sn_cache_lens : Lens SN AddressCache := lens_comp sn_node_lens cache_of.
#[export] Instance sn_port_lens : Lens SN (Port O) := lens_comp sn_node_lens driver_of.
#[export] Instance sn_serial_lens : Lens SN SerialByteEther := lens_comp sn_port_lens Lens_fst.
#[program] Definition sn_os_lens : Lens SN O := lens_comp sn_port_lens Lens_snd.
End lenses.

(** ** The interfaces that the parts use *)

Section program.
Context {L O Q : Type} `{!LibEv L, !PriorityQueue Q, !Memory}.
Context `{!PosixFileIf O, !PosixSleepIf O, !PosixSerialIf O, !PosixTunTapIf O, !PtyIf O, !FolderIf O,
  !Clock O, !SerialPort O}.
Abbreviation SN := (SerialNet L O Q).

Definition sn_os {A} (m : M O A) : M SN A := zoom (Lens0 := sn_os_lens) m.

#[export] Instance sn_file : PosixFileIf SN := lift_file (O := O) (Lens0 := sn_os_lens).
#[export] Instance sn_sleep : PosixSleepIf SN := lift_sleep (O := O) (Lens0 := sn_os_lens).
#[export] Instance sn_serial : PosixSerialIf SN := lift_serial (O := O) (Lens0 := sn_os_lens).
#[export] Instance sn_tuntap : PosixTunTapIf SN := lift_tuntap (O := O) (Lens0 := sn_os_lens).
#[export] Instance sn_pty : PtyIf SN := {
  pty_openpt flags := sn_os (pty_openpt flags : M O Z);
  pty_grantpt fd := sn_os (pty_grantpt fd : M O Z);
  pty_unlockpt fd := sn_os (pty_unlockpt fd : M O Z);
  pty_tcgetattr fd := sn_os (pty_tcgetattr fd : M O (Z * Termios));
  pty_cfmakeraw t := sn_os (pty_cfmakeraw t : M O Termios);
  pty_tcsetattr fd a t := sn_os (pty_tcsetattr fd a t : M O Z);
  pty_ptsname fd := sn_os (pty_ptsname fd : M O (option string))
}.
#[export] Instance sn_folder : FolderIf SN := {
  folder_stat p := sn_os (folder_stat p : M O Z);
  folder_mkdir p mode := sn_os (folder_mkdir p mode : M O Z);
  folder_unlink p := sn_os (folder_unlink p : M O Z);
  folder_symlink t p := sn_os (folder_symlink t p : M O Z);
  folder_errno := sn_os (folder_errno : M O Z);
  folder_home := sn_os (folder_home : M O (option string));
  folder_pw_dir := sn_os (folder_pw_dir : M O (option (option string)))
}.

(** A driver's callback is one of the program's closures. The watcher that the loop
    returns is not kept. *)
Definition on_loop {X} (closure_of : X → closure) : EventLoopIf X SN := {|
  loop_onReadable fd c := zoom (loop_onReadable fd (closure_of c) : M (EventLoop closure L) ());
  loop_onAvailable c := zoom (loop_onAvailable (closure_of c) : M (EventLoop closure L) ())
|}.
#[export] Instance serial_loop : EventLoopIf serial.callback SN := on_loop OnSerial.
#[export] Instance stdio_loop : EventLoopIf stdio.callback SN := on_loop OnStdio.
#[export] Instance pty_loop : EventLoopIf pty.callback SN := on_loop OnPty.
#[export] Instance socat_tun_loop : EventLoopIf socat_tun.callback SN := on_loop OnSocatTun.
#[export] Instance socat_tap_loop : EventLoopIf socat_tap.callback SN := on_loop OnSocatTap.
#[export] Instance tun_loop : EventLoopIf tun_driver.callback SN := on_loop OnTun.
#[export] Instance tap_loop : EventLoopIf tap_driver.callback SN := on_loop OnTap.

(** What is below the node. *)
#[export] Instance sn_port_file : PosixFileIf (Port O) := lift_file (O := O).
#[export] Instance sn_bytes : ByteEtherIf () SN := {
  sendBytes b l := zoom (sendBytes b l : M (Port O) ());
  addClient b cb := zoom (addClient b cb : M (Port O) ())
}.
#[export] Instance sn_ether : MsgEtherIf SN := adapter.adapter_ether (B := ()).
#[export] Instance sn_host : MsgHostIf HostDriver SN := tx_queue.tx_queue_host.

(** The drivers, as virtual functions: only the interfaces listen to the address. *)
#[export] Instance sn_hosts : HostCallbacks HostDriver SN := {
  packetReceivedFromNet h data src dest chType :=
    match h with
    | StdioRaw => stdio.packetReceivedFromNet data src dest chType
    | PtyRaw => pty.packetReceivedFromNet data src dest chType
    | SocatTun => socat_tun.packetReceivedFromNet data src dest chType
    | SocatTap => socat_tap.packetReceivedFromNet data src dest chType
    | TunHost => tun_driver.packetReceivedFromNet data src dest chType
    | TapHost => tap_driver.packetReceivedFromNet data src dest chType
    end;
  msgHostRx_newAddr h addr :=
    match h with
    | TunHost => tun_driver.msgHostRx_newAddr addr
    | TapHost => tap_driver.msgHostRx_newAddr addr
    | _ => skip
    end
}.

(** ** The master *)

(** The master works on the node itself, and its time is that of the loop. *)
Definition on_master {A} (m : M (Fsm StateId Event * World (TheNode O) Q) A) : M SN A :=
  s ← get;
  '(f, w) ← deref "m_master is null" (sn_master s);
  '(a, (f, w)) ← lift_result (m (f, w <| w_env := sn_node s |>
    <| w_ts ::= λ t, t <| ts_now := ev_now (m_loop (sn_loop s)) |> |>));
  modify (λ s, s <| sn_master := Some (f, w) |> <| sn_node := w_env w |>) ;;
  mret a.

(** [std::make_unique<Master>]: the object, and its constructor, which also registers it
    with the packet layer. *)
Definition make_Master : M SN () :=
  s ← get;
  let w := newWorld (ev_now (m_loop (sn_loop s))) (sn_node s) in
  modify (λ s, s <| sn_master := Some (newFsm, w) |>) ;;
  zoom (Lens0 := sn_codec_lens) (modify (codec.regMasterRx true)) ;;
  on_master construct.

(** [m_master.reset()]: the destructor takes the master out of the packet layer. *)
Definition reset_Master : M SN () :=
  zoom (Lens0 := sn_codec_lens) (modify (codec.regMasterRx false)) ;;
  modify (λ s, s <| sn_master := None |>).

(** ** Starting *)

(** The users and groups of the system, whether the dump file can be opened, and memory
    that is read before it is written. *)
Context (getpwnam getgrnam : string → M O (option Z)) (dump_opens : bool).
Context (garbage_status : Z) (garbage_buffer : ByteVec) (garbage_request : SN → packet.AddressRequest).
Context (distr : nat → Z) (garbage_mac : MacAddr).

Definition node_part {A} (m : M (TheNode O) A) : M SN A := zoom m.
Definition made (h : HostDriver) : M SN () := modify (λ s, s <| sn_made ::= cons h |>).

(** Make the interface of the mode setup_tap persistent, for its user. *)
Definition setup_tap : M SN bool :=
  s ← get;
  let c := sn_snConfig s in
  '(fd, name) ← TunTap.tuntap_alloc (SNConfig.sn_tapName c) TunTap.tap;
  modify (λ s, s <| sn_snConfig ::= λ c, c <| SNConfig.sn_tapName := name |> |>) ;;
  fd ← posix_fd.set fd (posix_fd.newPosixFd true);
  TunTap.setUserGroup (λ u, sn_os (getpwnam u)) (λ g, sn_os (getgrnam g)) (posix_fd.get fd) (SNConfig.sn_user c) (SNConfig.sn_group c) ;;
  TunTap.persist (posix_fd.get fd) true ;;
  posix_fd.destroy fd ;;
  mret false.

Definition remove_tap : M SN bool :=
  s ← get;
  '(fd, name) ← TunTap.tuntap_alloc (SNConfig.sn_tapName (sn_snConfig s)) TunTap.tap;
  modify (λ s, s <| sn_snConfig ::= λ c, c <| SNConfig.sn_tapName := name |> |>) ;;
  fd ← posix_fd.set fd (posix_fd.newPosixFd true);
  TunTap.persist (posix_fd.get fd) false ;;
  posix_fd.destroy fd ;;
  mret false.

(** The parts below the host driver. *)
Definition start_core : M SN () :=
  s ← get;
  let c := sn_snConfig s in
  serial.construct (SNConfig.sn_etherPath c) ;;
  serial.setupRts garbage_status (SNConfig.sn_rtsOption c) ;;
  serial.registerReadCB ;;
  node_part (modify (λ n, n <| nd_adapter := adapter.newMsgToByteAdapter |>)) ;;
  adapter.setByteIf (Some ()) ;;
  node_part (modify (λ n, n <| nd_txQueue := tx_queue.newTxQueue (SNConfig.sn_staticAddr c) |>
    <| nd_client := client_address.newClientAddress distr |>
    <| nd_codec := codec.newPacketTypeCodec |>)) ;;
  adapter.addClient (B := ()) true.

Definition start_std_io : M SN () :=
  s ← get;
  made StdioRaw ;;
  modify (λ s, s <| sn_stdioRawDriver := stdio.newStdioRawHostDriver |>) ;;
  stdio.startStdout broadcast ;;
  stdio.startStdin (SNConfig.sn_peerAddr (sn_snConfig s)).

Definition start_raw_pty : M SN () :=
  s ← get;
  made PtyRaw ;;
  modify (λ s, s <| sn_ptyRawDriver := pty.setFM true pty.newPtyRawHostDriver |>) ;;
  pty.setupCallback PtyRaw (SNConfig.sn_peerAddr (sn_snConfig s)).

Definition start_socat_tun : M SN () :=
  made SocatTun ;;
  modify (λ s, s <| sn_socatTunHostDriver := socat_tun.newSocatTunHostDriver garbage_buffer |>) ;;
  socat_tun.startTransfer SocatTun.

(** The address cache is made before the driver, which gets a pointer to it. *)
Definition make_cache : M SN () :=
  node_part (modify (λ n, n <| nd_cache := cache.newAddressCache garbage_mac |>)).
Definition connect_cache : M SN () :=
  node_part (modify (λ n, n <| nd_codec ::= codec.setAddressCache true |>)).

Definition start_socat_tap : M SN () :=
  make_cache ;;
  made SocatTap ;;
  modify (λ s, s <| sn_socatTapHostDriver := socat_tap.newSocatTapHostDriver true |>) ;;
  connect_cache ;;
  socat_tap.startTransfer SocatTap.

Definition start_tun : M SN () :=
  s ← get;
  let c := sn_snConfig s in
  made TunHost ;;
  modify (λ s, s <| sn_tunHostDriver := tun_driver.setIfEventCommands (SNConfig.sn_on_if_up c)
    (SNConfig.sn_on_if_down c) (tun_driver.newTunHostDriver garbage_buffer) |>) ;;
  tun_driver.startTransfer TunHost.

Definition start_tap : M SN () :=
  s ← get;
  let c := sn_snConfig s in
  make_cache ;;
  made TapHost ;;
  modify (λ s, s <| sn_tapHostDriver := tap_driver.setIfEventCommands (SNConfig.sn_on_if_up c)
    (SNConfig.sn_on_if_down c) (tap_driver.newTapHostDriver true) |>) ;;
  connect_cache ;;
  tap_driver.startTransfer TapHost.

(** The driver of the mode; none for the modes that have none. *)
Definition start_host : M SN () :=
  s ← get;
  match SNConfig.sn_mode (sn_snConfig s) with
  | SNConfig.std_io => start_std_io
  | SNConfig.raw_pty => start_raw_pty
  | SNConfig.socat_tun => start_socat_tun
  | SNConfig.socat_tap => start_socat_tap
  | SNConfig.tun => start_tun
  | SNConfig.tap => start_tap
  | _ => skip
  end.

Definition setupMaster : M SN () :=
  make_Master ;;
  s ← get;
  let masterTimeout := SNConfig.sn_masterTimeout (sn_snConfig s) in
  if -1 <? masterTimeout then
    zoom (Lens0 := sn_loop_lens)
      (p ← event_loop.onTimeout (seconds masterTimeout) MasterTimeout; release p)
  else skip.

Definition open_dump : M SN () :=
  s ← get;
  let path := SNConfig.sn_wsDumpPath (sn_snConfig s) in
  if bool_decide (path = ""%string) then skip
  else modify (λ s, s <| sn_wsDump := Some (ws_dump.newWSDump path dump_opens None) |>).

Definition start_net : M SN () :=
  start_core ;;
  start_host ;;
  s ← get;
  node_part (modify (λ n, n <| nd_codec ::= codec.setWsDump (bool_decide (is_Some (sn_wsDump s))) |>
    <| nd_codec ::= codec.setMasterEndedCB true |>)) ;;
  if SNConfig.sn_startMaster (sn_snConfig s) then setupMaster else skip.

Definition start : M SN bool :=
  open_dump ;;
  s ← get;
  match SNConfig.sn_mode (sn_snConfig s) with
  | SNConfig.setup_tap => setup_tap
  | SNConfig.remove_tap => remove_tap
  | _ => start_net ;; mret true
  end.

(** ** What the event loop calls *)

(** [exit], and the closure that the packet layer calls when the master ends. *)
Definition exit : M SN () := zoom (Lens0 := sn_loop_lens) event_loop.stop.
Definition masterEnded : M SN () := exit.

#[local] Instance dump_clock : Clock (WSDump * O) := zoom (Lens0 := Lens_snd) (clock_now : M O Z).

Definition dump_rxPacket (bb : ByteVec) : M SN () :=
  s ← get;
  d ← deref "m_wsDump is null" (sn_wsDump s);
  '(_, (d, o)) ← lift_result (ws_dump.rxPacket (S := WSDump * O) bb (d, (nd_driver (sn_node s)).2));
  modify (λ s, s <| sn_wsDump := Some d |> <| sn_node ::= λ n, n <| nd_driver ::= λ p, (p.1, o) |> |>).

Definition rxRawPacket (bb : ByteVec) : M SN () :=
  codec.rxRawPacket (H := HostDriver) garbage_request dump_rxPacket masterEnded
    (λ type pkt, on_master (masterPacketReceived type pkt)) bb.

(** [m_rxCB->receiveBytes], which is the adapter's. *)
Definition receiveBytes (l : ByteVec) : M SN () :=
  n ← zoom (Lens0 := sn_loop_lens) event_loop.now;
  adapter.receiveBytes (B := ()) rxRawPacket n l.

Definition on_master_timeout : M SN bool :=
  on_master exitMaster ;;
  reset_Master ;;
  mret false.

Definition on_interrupt : M SN bool :=
  zoom (Lens0 := sn_loop_lens) event_loop.stop ;;
  mret false.

Definition call (c : closure) : M SN bool :=
  match c with
  | OnSerial serial.Readable => serial.on_readable receiveBytes
  | OnStdio stdio.Readable => stdio.on_readable
  | OnPty pty.Readable => pty.on_readable
  | OnPty pty.Available => pty.on_available
  | OnSocatTun socat_tun.Readable => socat_tun.on_readable
  | OnSocatTap socat_tap.Readable => socat_tap.on_readable
  | OnTun tun_driver.Readable => tun_driver.on_readable garbage_buffer
  | OnTap tap_driver.Readable => tap_driver.on_readable
  | MasterTimeout => on_master_timeout
  | Interrupt => on_interrupt
  end.

(** [mainLoop] registers the signal, and then the loop runs. *)
Definition mainLoop_begins : M SN () :=
  zoom (Lens0 := sn_loop_lens) (p ← event_loop.onSignal SIGINT Interrupt; release p).

(** The main loop runs: a step of the event loop, or a timer of the master that is due.
    These are watchers of the loop too; here they are the list of the master's time
    service, which they implement (TimerRefinement.v). *)
Inductive program_step (s : SN) : SN → Prop :=
  | loop_step s' : event_loop.step call s s' → program_step s s'
  | master_timer_step m i c s' :
      sn_master s = Some m →
      due ((w_ts m.2) <| ts_now := ev_now (m_loop (sn_loop s)) |>) i c →
      on_master (timer_fires i c) s = Ok ((), s') → program_step s s'.

(** It returns when it was told to stop, or when nothing is left to wait for. *)
Definition program_finished (s : SN) : Prop :=
  ev_broken (m_loop (sn_loop s)) = true ∨
  (∀ p, ev_active (m_loop (sn_loop s)) p = None) ∧
    ∀ m, sn_master s = Some m → ts_pending (w_ts m.2) = [].

Definition program_run (s s' : SN) : Prop := rtc program_step s s' ∧ program_finished s'.

Definition mainLoop (s s' : SN) : Prop :=
  ∃ s1, mainLoop_begins s = Ok ((), s1) ∧ program_run s1 s'.

(** ** [main] *)

(** What [main] is called in: the parts are not made yet. *)
Definition unmade (l : L) (o : O) : SN :=
  mkSerialNet SNConfig.newSNConfig (newEventLoop l) (mkFolderManager "")
    (node.newNode null_addr distr garbage_mac (serial.newSerialByteEther, o))
    stdio.newStdioRawHostDriver pty.newPtyRawHostDriver
    (socat_tun.newSocatTunHostDriver garbage_buffer) (socat_tap.newSocatTapHostDriver false)
    (tun_driver.newTunHostDriver garbage_buffer) (tap_driver.newTapHostDriver false)
    [] None None.

(** The constructor, of which the folder manager does something. *)
Definition construct_SerialNet : M SN () :=
  s ← get;
  fm ← folder.newFolderManager (Some (SNConfig.sn_rootPath (sn_snConfig s)));
  modify (λ s, s <| sn_fm := fm |>).

Definition configure (vm : SNConfig.Options) : M SN () :=
  s ← get;
  c ← lift_result (SNConfig.setupSNConfig vm (sn_snConfig s));
  modify (λ s, s <| sn_snConfig := c |>).

(** The command line as [boost::program_options] parses it: the options that [main]
    looks at itself, and those of the configuration. *)
Record CommandLine : Type := mkCommandLine {
  vm_help : bool;
  vm_usage : bool;
  vm_version : bool;
  vm_options : SNConfig.Options
}.

(** Up to the main loop: the exit code, if it does not get there. *)
Definition main_begins (argc : Z) (parse : result CommandLine) : M SN (option Z) :=
  if argc =? 1 then mret (Some 0)
  else
    vm ← lift_result parse;
    if vm_help vm then mret (Some 1)
    else if vm_usage vm then mret (Some 1)
    else if vm_version vm then mret (Some 1)
    else if bool_decide (SNConfig.vm_mode (vm_options vm) = None) then mret (Some 1)
    else
      construct_SerialNet ;;
      configure (vm_options vm) ;;
      b ← start;
      if b : bool then mainLoop_begins ;; mret None else mret (Some 0).

Inductive main (argc : Z) (parse : result CommandLine) (s : SN) : Z → SN → Prop :=
  | main_exits code s' : main_begins argc parse s = Ok (Some code, s') → main argc parse s code s'
  | main_loops s1 s' :
      main_begins argc parse s = Ok (None, s1) → program_run s1 s' → main argc parse s 0 s'.
End program.
