(* ===== verification/ProgramRules.v ===== *)
(** * What the parts of the program may do

    The relation of a program that uses its event loop by its operations only, and the
    tactics of Keeping.v for the parts of the program. *)

From stdpp Require Import gmap.
From S2P Require Import Prelude Keeping SerialProtocol VecQueue StateChart RootChart Config.
From S2P Require Import TimeService MasterScheduler MasterState DynamicHandler MasterFSM Master.
From S2P Require Import NodeMaster.
From S2P Require Import FrameCodec Interfaces TxQueue AddressCache MsgToByteAdapter.
From S2P Require Import PacketTypeCodec Node Posix SerialDriver SerialProps FolderManager.
From S2P Require Import TunTapDriver TapDriver TunDriver RawDrivers SNConfig.
From S2P Require Import EventLoop EventLoopProps EventRuns Text WSDump SerialNet.

Section calm.
Context {L O Q : Type} `{!LibEv L, !LibEvLaws L, !PriorityQueue Q, !Memory}.
Context `{!PosixFileIf O, !PosixSleepIf O, !PosixSerialIf O, !PosixTunTapIf O, !PtyIf O, !FolderIf O,
  !Clock O, !SerialPort O}.
Abbreviation SN := (SerialNet L O Q).
#[local] Set Default Proof Using "Type LibEvLaws0".
Implicit Types (s : SN).

Abbreviation lp s := (event_loop.loop_of (C := closure) (L := L) s).

(** What the program does to its loop: it keeps no watcher, and never takes back that
    the loop is to stop. *)
Definition ruled (e e' : EventLoop closure L) : Prop :=
  good e e' ∧ (unkept e → unkept e') ∧
  (ev_broken (m_loop e) = true → ev_broken (m_loop e') = true).

Definition by_rules s s' : Prop := loop_ok (lp s) → ruled (lp s) (lp s').

#[export] Instance by_rules_preorder : PreOrder by_rules.
Proof using.
  split; [done|]. intros s1 s2 s3 H12 H23 Hok.
  destruct (H12 Hok) as (Hg & Hu & Hb), (H23 (proj1 Hg)) as (Hg' & Hu' & Hb').
  split_and!; [by eapply good_trans|auto..].
Qed.

Lemma same_loop_rules s s' : sn_loop s' = sn_loop s → by_rules s s'.
Proof using. unfold by_rules, event_loop.loop_of. cbn. intros -> Hok. done. Qed.

(** A computation that uses the loop by its operations. *)
Definition obeys {A} : M SN A → Prop := keeping by_rules.

Lemma obeys_handler {A} (m : M SN A) : obeys m → handler_ok (C := closure) (L := L) (λ _, True) m.
Proof using. intros Hm s Hok. eapply wp_mono; [apply Hm|done|]. intros a s' Hr. by apply Hr. Qed.

Lemma obeys_run {A} (m : M SN A) a s s' :
  obeys m → loop_ok (lp s) → m s = Ok (a, s') → ruled (lp s) (lp s').
Proof using. intros Hm Hok Hr. by apply (keeping_run by_rules _ _ _ _ Hm Hr). Qed.

Lemma obeys_loop {A} (m : M (EventLoop closure L) A) :
  (∀ e, loop_ok e → wp m (λ _, True) (λ _ e', ruled e e') e) →
  obeys (zoom (Lens0 := sn_loop_lens) m).
Proof.
  intros Hm s. unfold wp, zoom. destruct (m (view s)) as [[a t]|e] eqn:Hr; [|done].
  intros Hok. unfold event_loop.loop_of. rewrite view_set.
  by apply (wp_run _ _ _ _ _ _ (Hm (view s) Hok) Hr).
Qed.

(** Watchers of the program are let go of at once. *)
Lemma obeys_watcher (m : M (EventLoop closure L) nat) o w :
  (∀ e, m e = Ok (el_next e, started o (w e) e)) → ob_refs o = 1%nat → ob_self o = true →
  (∀ d, ob_watcher o ≠ TimeWatcher d) → (∀ e, loop_ok e → api m e) →
  obeys (zoom (Lens0 := sn_loop_lens) (p ← m; release p)).
Proof.
  intros Hm Hr Hself Hw Hapi. apply obeys_loop. intros e Hok. apply wp_bind.
  specialize (Hapi e Hok). unfold api, wp in Hapi |- *. rewrite Hm in Hapi |- *.
  assert (el_heap (started o (w e) e) !! el_next e = Some o) as Ho by apply lookup_insert_eq.
  pose proof (release_api _ _ o (proj1 Hapi) Ho) as Hrel. unfold api, wp in Hrel.
  rewrite (release_armed _ _ _ Ho Hself) in Hrel |- *.
  split_and!; [by eapply good_trans| |change (m_loop (started o (w e) e)) with (ev_start (el_next e) (w e) (m_loop e)); by rewrite at_slot_loop, broken_start].
  intros Hu q o' Ho'. destruct (decide (q = el_next e)) as [->|Hq].
  - rewrite at_slot_lookup in Ho'. injection Ho' as <-. cbn. by rewrite Hr.
  - rewrite at_slot_lookup_ne in Ho' by done. unfold started, new_slot in Ho'. cbn in Ho'.
    rewrite lookup_insert_ne in Ho' by done. by apply (Hu q).
Qed.

Lemma obeys_onReadable fd c :
  obeys (zoom (loop_onReadable fd c : M (EventLoop closure L) ())).
Proof.
  apply (obeys_watcher _ (io_object fd c) (λ _, ev_io fd)); [apply onReadable_at|done..|].
  intros e. apply onReadable_api.
Qed.

Lemma obeys_onAvailable c : obeys (zoom (loop_onAvailable c : M (EventLoop closure L) ())).
Proof.
  apply (obeys_watcher _ (timeout_object c) (λ _, ev_timer 0)); [apply onTimeout_at|done..|].
  intros e. apply onTimeout_api.
Qed.

Lemma obeys_onTimeout span c :
  obeys (zoom (Lens0 := sn_loop_lens) (p ← event_loop.onTimeout span c; release p)).
Proof.
  apply (obeys_watcher _ (timeout_object c) (λ _, ev_timer span)); [apply onTimeout_at|done..|].
  intros e. apply onTimeout_api.
Qed.

Lemma obeys_onSignal n c :
  obeys (zoom (Lens0 := sn_loop_lens) (p ← event_loop.onSignal n c; release p)).
Proof.
  apply (obeys_watcher _ (signal_object n c) (λ _, ev_signal n)); [apply onSignal_at|done..|].
  intros e. apply onSignal_api.
Qed.

Lemma obeys_same (m : M (EventLoop closure L) ()) (f : L → L) :
  (∀ e, m e = Ok ((), e <| m_loop ::= f |>)) →
  (∀ l p, ev_active (f l) p = ev_active l p) →
  (∀ l, ev_broken l = true → ev_broken (f l) = true) → obeys (zoom (Lens0 := sn_loop_lens) m).
Proof.
  intros Hm Hf Hb. apply obeys_loop. intros e Hok. unfold wp. rewrite Hm. split_and!; [|done|apply Hb].
  apply (same_active_good _ (f (m_loop e))); [done|]. intros p. apply Hf.
Qed.

Lemma obeys_stop : obeys (zoom (Lens0 := sn_loop_lens) (event_loop.stop : M (EventLoop closure L) ())).
Proof.
  apply (obeys_same _ ev_break); [done|..]; intros l *; [by rewrite active_break|].
  intros _. apply broken_break.
Qed.

Lemma obeys_now : obeys (zoom (Lens0 := sn_loop_lens) (event_loop.now : M (EventLoop closure L) Time)).
Proof. apply obeys_loop. intros e Hok. by apply (wp_eq _ _ _ _ (ev_now (m_loop e)) e). Qed.

Lemma obeys_on_loop {X} (f : X → closure) fd c :
  obeys (@loop_onReadable _ _ (on_loop (O := O) (Q := Q) f) fd c).
Proof. apply obeys_onReadable. Qed.
Lemma obeys_on_loop_available {X} (f : X → closure) c :
  obeys (@loop_onAvailable _ _ (on_loop (O := O) (Q := Q) f) c).
Proof. apply obeys_onAvailable. Qed.
End calm.

(** ** Tactics *)

(** What the relation has its own rules for, and what it keeps by computation. *)
Ltac rule ::=
  lazymatch goal with
  | |- keeping by_rules (zoom (loop_onReadable _ _)) => apply obeys_onReadable
  | |- keeping by_rules (zoom (loop_onAvailable _)) => apply obeys_onAvailable
  | |- keeping by_rules (zoom (mbind _ (event_loop.onTimeout _ _))) => apply obeys_onTimeout
  | |- keeping by_rules (zoom (mbind _ (event_loop.onSignal _ _))) => apply obeys_onSignal
  | |- keeping by_rules (zoom event_loop.stop) => apply obeys_stop
  | |- keeping by_rules (zoom event_loop.now) => apply obeys_now
  | |- keeping _ (loop_onReadable _ _) => apply obeys_on_loop
  | |- keeping _ (loop_onAvailable _) => apply obeys_on_loop_available
  | |- obeys _ => unfold obeys
  end.
Ltac leaf ::= intros;
  lazymatch goal with
  | |- by_rules _ _ => apply same_loop_rules; reflexivity
  | _ => reflexivity
  end.
(** A function of an interface, as the program implements it. *)
Ltac class_step ::=
  progress cbn [posix_open posix_open_mode posix_read posix_write posix_close posix_system posix_errno
    posix_usleep posix_sleep posix_cfsetospeed posix_cfsetispeed posix_tcsetattr ioctl_TIOCMGET
    ioctl_TIOCMSET ioctl_TIOCGRS485 ioctl_TIOCSRS485 ioctl_TUNSETIFF ioctl_TUNSETOWNER
    ioctl_TUNSETGROUP ioctl_SIOCSIFFLAGS ioctl_SIOCGIFFLAGS ioctl_TUNSETPERSIST posix_socket
    pty_openpt pty_grantpt pty_unlockpt pty_tcgetattr pty_cfmakeraw pty_tcsetattr pty_ptsname
    folder_stat folder_mkdir folder_unlink folder_symlink folder_errno folder_home folder_pw_dir
    sendBytes Interfaces.addClient ether_sendMsg ether_packetRxInProgress
    host_sendPacket host_sendMacUpdate host_clientAddress host_setRxHandler host_setAddrUpdateHandler
    packetReceivedFromNet msgHostRx_newAddr
    sn_file lift_file sn_sleep lift_sleep sn_serial lift_serial sn_tuntap lift_tuntap sn_pty sn_folder
    serial_loop stdio_loop pty_loop socat_tun_loop socat_tap_loop tun_loop tap_loop on_loop
    sn_bytes sn_ether adapter.adapter_ether sn_host tx_queue.tx_queue_host sn_hosts].
