(* ===== verification/SerialNetProps.v ===== *)
(** * The program on its event loop

    Every closure of the program uses the loop by its operations only. So what is shown
    of runs of the loop holds of the program. *)

From stdpp Require Import gmap.
From S2P Require Import Prelude Keeping SerialProtocol VecQueue StateChart RootChart Config.
From S2P Require Import TimeService MasterScheduler MasterState DynamicHandler MasterFSM Master.
From S2P Require Import NodeMaster.
From S2P Require Import FrameCodec Interfaces TxQueue AddressCache MsgToByteAdapter.
From S2P Require Import PacketTypeCodec Node Posix SerialDriver SerialProps FolderManager.
From S2P Require Import TunTapDriver TapDriver TunDriver RawDrivers SNConfig.
From S2P Require Import EventLoop EventLoopProps EventRuns Text WSDump SerialNet.
From S2P Require Import ProgramRules.

Section program.
Context {L O Q : Type} `{!LibEv L, !LibEvLaws L, !PriorityQueue Q, !Memory}.
Context `{!PosixFileIf O, !PosixSleepIf O, !PosixSerialIf O, !PosixTunTapIf O, !PtyIf O, !FolderIf O,
  !Clock O, !SerialPort O}.
Abbreviation SN := (SerialNet L O Q).
#[local] Set Default Proof Using "Type LibEvLaws0".
Implicit Types (s : SN).

Abbreviation lp s := (event_loop.loop_of (C := closure) (L := L) s).
Abbreviation uses m := (obeys (m : M SN _)).

Context (getpwnam getgrnam : string → M O (option Z)) (dump_opens : bool).
Context (garbage_status : Z) (garbage_buffer : ByteVec) (garbage_request : SN → packet.AddressRequest).
Context (distr : nat → Z) (garbage_mac : MacAddr).

Lemma stdio_uses : uses stdio.on_readable.
Proof. calm. Qed.

Lemma pty_uses c : uses (match c with pty.Readable => pty.on_readable | pty.Available => pty.on_available end).
Proof. calm. Qed.

Lemma socat_tun_uses : uses socat_tun.on_readable.
Proof. calm. Qed.

Lemma socat_tap_uses : uses socat_tap.on_readable.
Proof. calm. Qed.

Lemma tun_uses : uses (tun_driver.on_readable garbage_buffer).
Proof. calm. Qed.

Lemma tap_uses : uses tap_driver.on_readable.
Proof. calm. Qed.

Lemma on_master_uses {A} (m : M (Fsm StateId Event * World (TheNode O) Q) A) : uses (on_master m).
Proof. unfold on_master. calm. Qed.

Lemma dump_uses bb : uses (dump_rxPacket bb).
Proof. calm. Qed.

Lemma host_uses h data src dest chType :
  uses (packetReceivedFromNet (h : HostDriver) data src dest chType).
Proof. destruct h; calm. Qed.

Lemma newAddr_uses h addr : uses (msgHostRx_newAddr (h : HostDriver) addr).
Proof. destruct h; calm. Qed.

Lemma rxRawPacket_uses bb : uses (rxRawPacket garbage_request bb).
Proof. calm. Qed.

Lemma call_uses c : uses (call garbage_buffer garbage_request c).
Proof. destruct c as [[]|[]|[]|[]|[]|[]|[]| |]; calm. Qed.

Lemma start_uses :
  uses (start getpwnam getgrnam dump_opens garbage_status garbage_buffer distr garbage_mac).
Proof. calm. Qed.

Lemma mainLoop_begins_uses : uses mainLoop_begins.
Proof. calm. Qed.

(** ** The program runs *)

Abbreviation called_by := (call garbage_buffer garbage_request).
Abbreviation taken s p w l := (ev_take (m_loop (lp s)) p w l).
Abbreviation returns s w p l := (event_loop.ev_callback called_by w p (event_loop.with_ev l s)).
Abbreviation starts := (main_begins getpwnam getgrnam dump_opens garbage_status garbage_buffer distr garbage_mac).
Abbreviation nothing l o := (unmade garbage_buffer distr garbage_mac l o : SN).
Abbreviation started_by := (start getpwnam getgrnam dump_opens garbage_status garbage_buffer distr garbage_mac).

Lemma call_handler c : handler_ok (C := closure) (L := L) (λ _, True) (called_by c).
Proof. apply obeys_handler, call_uses. Qed.

Abbreviation steps := (rtc (program_step garbage_buffer garbage_request)).

Lemma on_master_loop {A} (m : M (Fsm StateId Event * World (TheNode O) Q) A) s a s' :
  on_master m s = Ok (a, s') → sn_loop s' = sn_loop s.
Proof using.
  intros Hm. symmetry. revert Hm. apply (keeping_run (λ s s', sn_loop s = sn_loop s')).
  assert (PreOrder (λ s s' : SN, sn_loop s = sn_loop s')) as HR.
  { split; [done|]. intros ? ? ?. congruence. }
  calm.
Qed.

(** A step is one of the event loop, or does not touch it. *)
Lemma program_step_loop s s' :
  program_step garbage_buffer garbage_request s s' →
  event_loop.step called_by s s' ∨ sn_loop s' = sn_loop s.
Proof using. intros [s1 Hs|m i c s1 _ _ Hs]; [by left|right]. by eapply on_master_loop. Qed.

Lemma runs_unkept s s' :
  loop_ok (lp s) → unkept (lp s) → steps s s' →
  loop_ok (lp s') ∧ unkept (lp s') ∧ lasting (lp s) (lp s').
Proof.
  intros Hok Hu Hsteps. induction Hsteps as [s|s1 s2 s3 Hstep _ IH]; [done|].
  assert (loop_ok (lp s2) ∧ unkept (lp s2) ∧ lasting (lp s1) (lp s2)) as (Hok2 & Hu2 & Hl).
  { apply program_step_loop in Hstep as [Hstep|Hsame].
    - destruct (step_ok _ _ call_handler _ _ Hok Hstep). split_and!; [done| |done].
      apply (step_unkept _ _ call_handler) with (s := s1); [|done..].
      intros c s Hok1 Hu1. eapply wp_mono; [by apply call_uses|done|]. intros b s' Hr. by apply Hr.
    - unfold event_loop.loop_of in *. cbn [view sn_loop_lens] in *. by rewrite Hsame. }
  destruct (IH Hok2 Hu2) as (? & ? & ?). split_and!; [done..|by etrans].
Qed.

Lemma main_uses argc parse : uses (starts argc parse).
Proof. calm. Qed.

Lemma unmade_ok l o :
  (∀ p, ev_active l p = None) → loop_ok (lp (nothing l o)) ∧ unkept (lp (nothing l o)).
Proof using.
  intros Hl. split; [by apply (loop_ok_new (C := closure) l)|].
  intros p ob Ho. cbn in Ho. by rewrite lookup_empty in Ho.
Qed.

(** The program in its main loop. *)
Lemma main_runs argc parse l o r s s' :
  (∀ p, ev_active l p = None) → starts argc parse (nothing l o) = Ok (r, s) →
  steps s s' → loop_ok (lp s') ∧ unkept (lp s').
Proof.
  intros Hl Hmain. destruct (unmade_ok l o Hl) as [Hok Hu].
  destruct (obeys_run _ _ _ _ (main_uses argc parse) Hok Hmain) as ([Hok1 _] & Hu1 & _).
  intros Hsteps. destruct (runs_unkept s s' Hok1 (Hu1 Hu) Hsteps) as (? & ? & _). done.
Qed.


(** ** The signal *)

Definition interrupt_at p s : Prop :=
  ∃ o, el_heap (lp s) !! p = Some o ∧ pinned o = true ∧ ob_watcher o = SignalWatcher SIGINT Interrupt.

Lemma interrupt_active p s :
  loop_ok (lp s) → interrupt_at p s → ev_active (m_loop (lp s)) p = Some (ev_signal SIGINT).
Proof using.
  intros Hok (o & Ho & Hpin & Hw). destruct (Hok p) as [Hs _]. rewrite Ho in Hs.
  destruct Hs as [_ Hs]. unfold watcher_ok, pinned in *. rewrite Hw in *. by destruct (ob_self o).
Qed.

Lemma interrupt_callback s p w l :
  loop_ok (lp s) → unkept (lp s) → interrupt_at p s → taken s p w l →
  ∃ s', returns s w p l = Ok ((), s') ∧ loop_ok (lp s') ∧ unkept (lp s') ∧
    ev_broken (m_loop (lp s')) = true ∧ ev_active (m_loop (lp s')) p = None ∧
    (p < el_next (lp s'))%nat.
Proof.
  intros Hok Hu Hi Ht. pose proof (take_active _ _ _ _ Ht) as Ha.
  rewrite (interrupt_active _ _ Hok Hi) in Ha. injection Ha as <-. destruct Hi as (o & Ho & _ & Hw).
  destruct (unkept_callback _ _ call_handler s p _ l Hok Hu Ht) as (o' & c & Ho' & _ & Hc & Hr).
  simplify_eq. unfold code_of in Hc. rewrite Hw in Hc. injection Hc as <-.
  destruct (returns s (ev_signal SIGINT) p l) as [[[] s']|] eqn:Hcb; [|done].
  exists s'. split; [done|].
  destruct (runs_unkept s s') as (Hok' & Hu' & _); [done..| |].
  { apply rtc_once, loop_step. by eapply event_loop.step_event. }
  destruct (callback_ok _ _ call_handler s p _ l Hok Ht) as (o' & c & Ho' & _ & _ & Hc & Hwp).
  simplify_eq. unfold code_of in Hc. rewrite Hw in Hc. injection Hc as <-.
  destruct (wp_run _ _ _ _ _ _ Hwp Hcb) as (_ & [Hn _] & res & s1 & Hres & Hact & [_ Hb _]).
  cbn in Hres. injection Hres as <- <-. split_and!; [done..| |done|].
  - rewrite Hb. unfold event_loop.loop_of. apply broken_break.
  - pose proof (loop_ok_alloc _ _ _ Hok Ho). lia.
Qed.

Lemma begins_interrupt s s1 :
  mainLoop_begins s = Ok ((), s1) → interrupt_at (el_next (lp s)) s1.
Proof.
  intros Hb. exists (mkObject (SignalWatcher SIGINT Interrupt) true 0).
  split; [|done]. revert Hb. unfold mainLoop_begins, event_loop.loop_of.
  pose proof (onSignal_at SIGINT Interrupt (view s)) as Hon.
  assert (el_heap (started (signal_object SIGINT Interrupt) (ev_signal SIGINT) (view s))
    !! el_next (view s) = Some (signal_object SIGINT Interrupt)) as Ho by apply lookup_insert_eq.
  intros Hb. erewrite (zoom_at (S := SN)) in Hb;
    [|eapply bind_step; [exact Hon|by apply (release_armed _ _ _ Ho)]].
  injection Hb as <-. apply at_slot_lookup.
Qed.

(** While the loop is not told to stop, the signal stays registered. *)
Lemma interruptible s s' p :
  loop_ok (lp s) → unkept (lp s) → interrupt_at p s → steps s s' →
  ev_broken (m_loop (lp s')) = true ∨ interrupt_at p s'.
Proof.
  intros Hok Hu Hi Hsteps.
  cut (∀ t, steps s t → ev_broken (m_loop (lp t)) = true ∨ interrupt_at p t);
    [by auto|].
  clear s' Hsteps. apply rtc_ind_r; [by right|].
  intros t t' Hst Hstep IH. destruct (runs_unkept s t) as (Hokt & Hut & _); [done..|].
  apply program_step_loop in Hstep as [Hstep|Hsame]; last first.
  { unfold interrupt_at, event_loop.loop_of in *. cbn [view sn_loop_lens] in *. by rewrite Hsame. }
  destruct IH as [Hb|Hit].
  { left. eapply (step_broken _ _ call_handler); [|done..]. intros c s1 res s2 Hok1 Hres.
    by destruct (obeys_run _ _ _ _ (call_uses c) Hok1 Hres) as (_ & _ & ?). }
  pose proof Hit as (o & Ho & Hpin & Hw).
  destruct (step_pinned _ _ call_handler t t' p o Hokt Hstep Ho Hpin) as [(o' & Ho' & Hpin' & Hc)|].
  - right. exists o'. rewrite Hw in Hc. done.
  - left. destruct select (∃ _, _) as (w & l & Ht & Hcb).
    destruct (interrupt_callback _ _ _ _ Hokt Hut Hit Ht) as (s2 & Hcb2 & _ & _ & Hb & _). congruence.
Qed.

Lemma main_interrupt argc parse l o s :
  (∀ p, ev_active l p = None) → starts argc parse (nothing l o) = Ok (None, s) →
  ∃ p, interrupt_at p s.
Proof.
  intros _. unfold main_begins. destruct (argc =? 1); [done|].
  intros (vm & s1 & _ & Hrest)%bind_inv. revert Hrest.
  destruct (vm_help vm), (vm_usage vm), (vm_version vm), (decide (SNConfig.vm_mode (vm_options vm) = None));
    rewrite ?bool_decide_eq_true_2, ?bool_decide_eq_false_2 by done; try done.
  intros (_ & s2 & _ & (_ & s3 & _ & ([] & s4 & _ & Hrest)%bind_inv)%bind_inv)%bind_inv; [|done].
  apply bind_inv in Hrest as ([] & s5 & Hbegin & [= <-]). eexists. by eapply begins_interrupt.
Qed.

(** C14. Control-C. All the time that the program runs, until its loop is told to stop,
    the handler of the signal is registered; when the signal is taken, the callback
    returns, the loop ends, and the handler is never called again. *)
Theorem interrupt_ends_loop argc parse l o s :
  (∀ p, ev_active l p = None) → starts argc parse (nothing l o) = Ok (None, s) →
  ∃ p, ∀ s2, steps s s2 →
    ev_broken (m_loop (lp s2)) = true
    ∨ ev_active (m_loop (lp s2)) p = Some (ev_signal SIGINT) ∧
      ∀ w l', taken s2 p w l' → ∃ s3, returns s2 w p l' = Ok ((), s3) ∧ program_finished s3 ∧
        ∀ s4 w' l'', steps s3 s4 → ¬ taken s4 p w' l''.
Proof.
  intros Hl Hmain. destruct (main_interrupt _ _ _ _ _ Hl Hmain) as [p Hp]. exists p.
  intros s2 Hsteps. destruct (main_runs _ _ _ _ _ s s Hl Hmain) as [Hok Hu]; [done|].
  destruct (main_runs _ _ _ _ _ _ _ Hl Hmain Hsteps) as [Hok2 Hu2].
  destruct (interruptible s s2 p Hok Hu Hp Hsteps) as [?|Hi2]; [by left|right].
  split; [by apply interrupt_active|]. intros w l' Ht.
  destruct (interrupt_callback _ _ _ _ Hok2 Hu2 Hi2 Ht) as (s3 & Hcb & Hok3 & Hu3 & Hb3 & Ha & Hlt).
  exists s3. split_and!; [done|by left|]. intros s4 w' l'' Hst Ht4.
  destruct (runs_unkept s3 s4) as (_ & _ & _ & Hlast); [done|done|done|].
  pose proof (lasting_inactive _ _ _ _ (Hlast p Hlt) Ha). by rewrite (take_active _ _ _ _ Ht4) in *.
Qed.

(** ** What is started *)

(** The parts that are made, and what the packet layer is connected to. *)
Definition wiring s :=
  (sn_snConfig s, sn_made s, sn_wsDump s, sn_master s, nd_codec (sn_node s)).
Definition rewires_none s s' : Prop := wiring s' = wiring s.
#[local] Instance rewires_preorder : PreOrder rewires_none.
Proof using. split; [done|]. unfold rewires_none. intros s1 s2 s3. congruence. Qed.

(** Nothing is registered, and no part is made. *)
Definition unstarted s := (sn_loop s, sn_made s, sn_wsDump s, sn_master s).
Definition starts_none s s' : Prop := unstarted s' = unstarted s.
#[local] Instance unstarted_preorder : PreOrder starts_none.
Proof using. split; [done|]. unfold starts_none. intros s1 s2 s3. congruence. Qed.

Lemma wp_last {A B} (m : M SN A) (f : A → M SN B) (P : B → Prop) s :
  (∀ a s', wp (f a) (λ _, True) (λ b _, P b) s') → wp (m ≫= f) (λ _, True) (λ b _, P b) s.
Proof using. intros Hf. apply wp_bind. unfold wp at 1. by destruct (m s) as [[a s']|e]. Qed.

Ltac returns_false := repeat first
  [ apply wp_ret; done | apply wp_last; intros ? ? | progress cbv zeta
  | match goal with |- wp (match ?x with _ => _ end) _ _ _ => destruct x end ].

Lemma wp_both {A} (m : M SN A) (P : A → Prop) (R : SN → SN → Prop) s :
  wp m (λ _, True) (λ a _, P a) s → keeping R m → wp m (λ _, True) (λ a s', P a ∧ R s s') s.
Proof using. intros Hp Hk. specialize (Hk s). unfold wp in *. by destruct (m s) as [[a s']|e]. Qed.

Lemma setup_tap_wires s :
  wp (setup_tap getpwnam getgrnam) (λ _, True) (λ b s', b = false ∧ starts_none s s') s.
Proof using. apply wp_both; [unfold setup_tap; returns_false|calm]. Qed.

Lemma remove_tap_wires s : wp remove_tap (λ _, True) (λ b s', b = false ∧ starts_none s s') s.
Proof using. apply wp_both; [unfold remove_tap; returns_false|calm]. Qed.

Lemma wp_wires {A} (m : M SN A) s :
  keeping rewires_none m → wp m (λ _, True) (λ _ s', wiring s' = wiring s) s.
Proof using. intros Hm. apply Hm. Qed.

Definition host_of (mode : SNConfig.Mode) : list HostDriver :=
  match mode with
  | SNConfig.std_io => [StdioRaw]
  | SNConfig.raw_pty => [PtyRaw]
  | SNConfig.socat_tun => [SocatTun]
  | SNConfig.socat_tap => [SocatTap]
  | SNConfig.tun => [TunHost]
  | SNConfig.tap => [TapHost]
  | _ => []
  end.
Definition has_cache (mode : SNConfig.Mode) : bool :=
  bool_decide (mode = SNConfig.socat_tap ∨ mode = SNConfig.tap).

Ltac wire s' H :=
  first [ wp_step; eapply wp_mono; [apply wp_wires; calm|done|]
        | eapply wp_mono; [apply wp_wires; calm|done|] ]; intros ? s' H.

Lemma start_core_wires s :
  wp (start_core garbage_status distr) (λ _, True)
    (λ _ s', wiring s' = (sn_snConfig s, sn_made s, sn_wsDump s, sn_master s, codec.newPacketTypeCodec)) s.
Proof using.
  unfold start_core, node_part. wp_step. apply wp_get. cbv zeta.
  wire s1 H1. wire s2 H2. wire s3 H3. wire s4 H4. wire s5 H5.
  do 3 wp_step. wire s6 H6. rewrite H6. unfold wiring in *. cbn. congruence.
Qed.

Lemma start_host_wires s :
  wp (start_host garbage_buffer garbage_mac) (λ _, True)
    (λ _ s', wiring s' = (sn_snConfig s, host_of (SNConfig.sn_mode (sn_snConfig s)) ++ sn_made s,
       sn_wsDump s, sn_master s,
       if has_cache (SNConfig.sn_mode (sn_snConfig s))
       then codec.setAddressCache true (nd_codec (sn_node s)) else nd_codec (sn_node s))) s.
Proof using.
  unfold start_host. wp_step. apply wp_get.
  destruct (SNConfig.sn_mode (sn_snConfig s)); cbn [host_of has_cache app]; try done.
  - unfold start_std_io, made. wp_step. apply wp_get. do 4 wp_step.
    wire s1 H1. wire s2 H2. rewrite H2, H1. done.
  - unfold start_raw_pty, made. wp_step. apply wp_get. do 4 wp_step.
    wire s1 H1. rewrite H1. done.
  - unfold start_socat_tun, made. do 4 wp_step.
    wire s1 H1. rewrite H1. done.
  - unfold start_socat_tap, made, make_cache, connect_cache, node_part. do 10 wp_step.
    wire s1 H1. rewrite H1. done.
  - unfold start_tun, made. wp_step. apply wp_get. do 4 wp_step.
    wire s1 H1. rewrite H1. done.
  - unfold start_tap, made, make_cache, connect_cache, node_part. wp_step. apply wp_get. do 10 wp_step.
    wire s1 H1. rewrite H1. done.
Qed.

(** The master that is made is the one of [newMaster], on the node as it is then. *)
Lemma make_Master_wires s :
  wp make_Master (λ _, True)
    (λ _ s', ∃ f w, newMaster (ev_now (m_loop (sn_loop s)))
         ((sn_node s) <| nd_codec ::= codec.regMasterRx true |>) = Ok (f, w) ∧
       sn_loop s' = sn_loop s ∧ sn_node s' = w_env w ∧
       wiring s' = (sn_snConfig s, sn_made s, sn_wsDump s, Some (f, w), nd_codec (w_env w))) s.
Proof using.
  unfold make_Master. wp_step. apply wp_get. do 5 wp_step.
  unfold on_master. wp_step. apply wp_get. wp_step. apply wp_deref.
  set (n := (sn_node s) <| nd_codec ::= codec.regMasterRx true |>).
  unfold newMaster. unfold wp, mbind, M_bind, lift_result.
  lazymatch goal with |- context [construct ?a] =>
    change a with (newFsm : Fsm StateId Event, newWorld (ev_now (m_loop (sn_loop s))) n : World (TheNode O) Q) end.
  destruct (construct _) as [[[] [f w]]|e]; [|done]. cbn. exists f, w. done.
Qed.

Lemma setupMaster_wires s :
  wp setupMaster (λ _, True)
    (λ _ s', ∃ f w, newMaster (ev_now (m_loop (sn_loop s)))
         ((sn_node s) <| nd_codec ::= codec.regMasterRx true |>) = Ok (f, w) ∧
       sn_node s' = w_env w ∧
       wiring s' = (sn_snConfig s, sn_made s, sn_wsDump s, Some (f, w), nd_codec (w_env w))) s.
Proof using.
  unfold setupMaster. wp_step. eapply wp_mono; [apply make_Master_wires|done|].
  intros [] s1 (f & w & Hm & _ & Hn & Hw). wp_step. apply wp_get.
  assert (keeping (λ s s', wiring s' = wiring s ∧ sn_node s' = sn_node s) (zoom (Lens0 := sn_loop_lens)
    (p ← event_loop.onTimeout (seconds (SNConfig.sn_masterTimeout (sn_snConfig s1))) MasterTimeout;
     release p) : M SN ())) as Hk by (apply keeping_zoom; intros t s2; split; reflexivity).
  destruct (-1 <? _).
  - eapply wp_mono; [apply Hk|done|]. cbn. intros _ s' [-> ->]. eauto.
  - apply wp_skip. eauto.
Qed.

Lemma start_net_wires s :
  sn_made s = [] → sn_master s = None →
  let c := sn_snConfig s in
  let mode := SNConfig.sn_mode c in
  let codec_with master :=
    mkPacketTypeCodec master (bool_decide (is_Some (sn_wsDump s))) [] true (has_cache mode) in
  wp (start_net garbage_status garbage_buffer distr garbage_mac) (λ _, True)
    (λ _ s', sn_wsDump s' = sn_wsDump s ∧ sn_made s' = host_of mode ∧
      if SNConfig.sn_startMaster c
      then ∃ now_ n m, nd_codec n = codec_with true ∧ newMaster now_ n = Ok m ∧
        sn_master s' = Some m ∧ sn_node s' = w_env m.2
      else sn_master s' = None ∧ nd_codec (sn_node s') = codec_with false) s.
Proof using.
  intros Hmade Hmaster c mode codec_with. unfold start_net, node_part.
  wp_step. eapply wp_mono; [apply start_core_wires|done|]. intros [] s1 [= Hc1 Hm1 Hd1 Hma1 Hn1].
  wp_step. eapply wp_mono; [apply start_host_wires|done|]. intros [] s2 [= Hc2 Hm2 Hd2 Hma2 Hn2].
  wp_step. apply wp_get. do 3 wp_step. cbn [view set_view sn_node_lens].
  rewrite Hc1, Hn1 in *. fold c mode in Hc2, Hm2, Hn2 |- *.
  assert (codec.setMasterEndedCB true (codec.setWsDump (bool_decide (is_Some (sn_wsDump s2)))
    (nd_codec (sn_node s2))) = codec_with false) as Hcodec.
  { rewrite Hn2, Hd2, Hd1. by destruct (has_cache mode). }
  destruct (SNConfig.sn_startMaster (sn_snConfig s2)) eqn:Hst; rewrite Hc2 in Hst; fold c in Hst; rewrite Hst.
  - eapply wp_mono; [apply setupMaster_wires|done|].
    intros [] s' (f & w & Hm & Hn & [= _ Hmade' Hd' Hma' _]).
    rewrite Hd', Hmade'. cbn. rewrite Hd2, Hd1, Hm2, Hm1, Hmade, app_nil_r.
    split_and!; [done..|]. eexists _, _, (f, w). split_and!; [|exact Hm|done..].
    cbn. rewrite Hcodec. done.
  - apply wp_skip. split_and!; [cbn; congruence| |cbn; congruence|exact Hcodec].
    cbn. by rewrite Hm2, Hm1, Hmade, app_nil_r.
Qed.

(** C15. What is started. Only the modes that set an interface up or take it away stop
    there, with nothing registered and no part made. Any other has the host driver of
    its mode and no other, the dump exactly when there is a path, the address cache
    exactly in the TAP modes, and a master exactly if asked for one: the fresh one, on
    the node that the packet layer gives it. *)
Theorem start_wires s b s' :
  started_by s = Ok (b, s') → sn_made s = [] → sn_wsDump s = None → sn_master s = None →
  let c := sn_snConfig s in
  let mode := SNConfig.sn_mode c in
  let dumps := bool_decide (SNConfig.sn_wsDumpPath c ≠ ""%string) in
  let codec_with master := mkPacketTypeCodec master dumps [] true (has_cache mode) in
  bool_decide (is_Some (sn_wsDump s')) = dumps ∧
  if bool_decide (mode = SNConfig.setup_tap ∨ mode = SNConfig.remove_tap)
  then b = false ∧ sn_loop s' = sn_loop s ∧ sn_made s' = [] ∧ sn_master s' = None
  else b = true ∧ sn_made s' = host_of mode ∧
    if SNConfig.sn_startMaster c
    then ∃ now_ n m, nd_codec n = codec_with true ∧ newMaster now_ n = Ok m ∧
      sn_master s' = Some m ∧ sn_node s' = w_env m.2
    else sn_master s' = None ∧ nd_codec (sn_node s') = codec_with false.
Proof.
  intros Hs Hmade Hd Hmaster c mode dumps codec_with.
  assert (∃ s1, (open_dump dump_opens : M SN ()) s = Ok ((), s1) ∧ sn_loop s1 = sn_loop s ∧
    sn_snConfig s1 = c ∧ sn_made s1 = [] ∧ sn_master s1 = None ∧
    bool_decide (is_Some (sn_wsDump s1)) = dumps) as (s1 & Ho & Hl1 & Hc1 & Hm1 & Hma1 & Hd1).
  { unfold open_dump. rewrite (bind_ok _ _ _ _ _ (eq_refl : get s = Ok (s, s))). fold c.
    unfold dumps. destruct (decide (SNConfig.sn_wsDumpPath c = ""%string)) as [Hp|Hp].
    - exists s. rewrite (bool_decide_eq_true_2 _ Hp), Hd. split_and!; try done.
      by rewrite !bool_decide_eq_false_2; [|auto|intros [? ?]].
    - rewrite (bool_decide_eq_false_2 _ Hp). eexists. split_and!; try done.
      by rewrite !bool_decide_eq_true_2. }
  unfold start in Hs. rewrite (bind_ok _ _ _ _ _ Ho) in Hs.
  rewrite (bind_ok _ _ _ _ _ (eq_refl : get s1 = Ok (s1, s1))) in Hs.
  rewrite Hc1 in Hs. fold mode in Hs.
  assert (mode = SNConfig.setup_tap ∨ mode = SNConfig.remove_tap →
    b = false ∧ unstarted s' = unstarted s1) as Hoff.
  { intros [Hm|Hm]; rewrite Hm in Hs.
    - exact (wp_run _ _ _ _ _ _ (setup_tap_wires s1) Hs).
    - exact (wp_run _ _ _ _ _ _ (remove_tap_wires s1) Hs). }
  destruct (decide (mode = SNConfig.setup_tap ∨ mode = SNConfig.remove_tap)) as [Hmode|Hmode];
    [rewrite (bool_decide_eq_true_2 (mode = _ ∨ _) Hmode)|rewrite (bool_decide_eq_false_2 (mode = _ ∨ _) Hmode)].
  - destruct (Hoff Hmode) as [-> [= Hl Hm Hd' Hma]].
    rewrite Hl, Hd', Hm, Hma. by rewrite Hl1, Hm1, Hma1.
  - assert ((start_net garbage_status garbage_buffer distr garbage_mac ;; mret true) s1 = Ok (b, s')) as Hnet.
    { destruct mode; try done; destruct Hmode; auto. }
    apply bind_inv in Hnet as ([] & s2 & Hnet & [= <- <-]).
    destruct (wp_run _ _ _ _ _ _ (start_net_wires s1 Hm1 Hma1) Hnet) as (Hd2 & Hm2 & Hrest).
    rewrite Hd2, Hd1, Hc1 in *. done.
Qed.
End program.

(** ** A system to try it on: every call succeeds, and what is written is kept *)

#[export] Instance quiet_sleep : PosixSleepIf ByteVec := {
  posix_usleep _ := mret 0;
  posix_sleep _ := mret 0
}.
#[export] Instance quiet_serial : PosixSerialIf ByteVec := {
  posix_cfsetospeed t _ := mret (0, t);
  posix_cfsetispeed t _ := mret (0, t);
  posix_tcsetattr _ _ _ := mret 0;
  ioctl_TIOCMGET _ l := mret (0, l);
  ioctl_TIOCMSET _ l := mret (0, l);
  ioctl_TIOCGRS485 _ f := mret (0, f);
  ioctl_TIOCSRS485 _ f := mret (0, f)
}.
#[export] Instance quiet_tuntap : PosixTunTapIf ByteVec := {
  ioctl_TUNSETIFF _ r := mret (0, r);
  ioctl_TUNSETOWNER _ _ := mret 0;
  ioctl_TUNSETGROUP _ _ := mret 0;
  ioctl_SIOCSIFFLAGS _ r := mret (0, r);
  ioctl_SIOCGIFFLAGS _ r := mret (0, r);
  ioctl_TUNSETPERSIST _ _ := mret 0;
  posix_socket _ _ _ := mret 4
}.
#[export] Instance quiet_pty : PtyIf ByteVec := {
  pty_openpt _ := mret 5;
  pty_grantpt _ := mret 0;
  pty_unlockpt _ := mret 0;
  pty_tcgetattr _ := mret (0, mkTermios 0 0 0 0 0 0 0 0);
  pty_cfmakeraw t := mret t;
  pty_tcsetattr _ _ _ := mret 0;
  pty_ptsname _ := mret (Some "/dev/pts/0"%string)
}.
#[export] Instance quiet_folder : FolderIf ByteVec := {
  folder_stat _ := mret 0;
  folder_mkdir _ _ := mret 0;
  folder_unlink _ := mret 0;
  folder_symlink _ _ := mret 0;
  folder_errno := mret 0;
  folder_home := mret (Some "/root"%string);
  folder_pw_dir := mret None
}.
#[export] Instance quiet_clock : Clock ByteVec := mret 0.

Abbreviation TryNet := (SerialNet Ev ByteVec (list QueueEl)).

(** A node on the standard streams with a master, and its main loop. *)
Definition stdio_options : SNConfig.Options :=
  SNConfig.mkOptions (Some "/dev/ttyUSB0"%string) (Some "std_io"%string) "" "" true "" "" ""
    "tap0" (Some "dump"%string) 0 (Some 2) 60.
Definition stdio_line : CommandLine := mkCommandLine false false false stdio_options.
Definition no_ids : string → M ByteVec (option Z) := λ _, mret None.
Definition later_ev : Ev := mkEv ∅ (seconds 1) false.
Definition no_request (_ : TryNet) : packet.AddressRequest := readHeader [].
Definition try_main : result (option Z * TryNet) :=
  main_begins no_ids no_ids true 0 [] (λ _, 0) [] 2 (Ok stdio_line)
    (unmade [] (λ _, 0) [] later_ev []).
Definition try_running : TryNet :=
  match try_main with Ok (_, s) => s | Fail _ => unmade [] (λ _, 0) [] later_ev [] end.

Lemma later_inactive p : ev_active later_ev p = None.
Proof. apply lookup_empty. Qed.


Abbreviation try_loop s := (event_loop.loop_of (C := closure) (L := Ev) s).
Lemma interrupt_ends_loop_witness :
  ∃ p, ev_active (m_loop (try_loop try_running)) p = Some (ev_signal SIGINT) ∧
    ∀ w l', ev_take (m_loop (try_loop try_running)) p w l' →
      ∃ s3, event_loop.ev_callback (call [] no_request) w p (event_loop.with_ev l' try_running)
        = Ok ((), s3) ∧ program_finished s3.
Proof.
  destruct (interrupt_ends_loop no_ids no_ids true 0 [] no_request (λ _, 0) [] 2 (Ok stdio_line)
    later_ev [] try_running later_inactive) as [p Hp].
  - vm_compute. reflexivity.
  - exists p. destruct (Hp try_running) as [Hb|[Ha Ht]]; [reflexivity|by vm_compute in Hb|].
    split; [exact Ha|]. intros w l' Htake. destruct (Ht w l' Htake) as (s3 & Hs3 & Hf & _).
    exists s3. split; [exact Hs3|exact Hf].
Defined.

(** The same node, from the point where [main] starts it. *)
Definition try_config : SNConfig.SNConfig := Eval vm_compute in
  match SNConfig.setupSNConfig stdio_options SNConfig.newSNConfig with
  | Ok c => c
  | Fail _ => SNConfig.newSNConfig
  end.
Definition try_configured : TryNet :=
  (unmade [] (λ _, 0) [] later_ev []) <| sn_snConfig := try_config |>.
Abbreviation try_start := (start no_ids no_ids true 0 [] (λ _, 0) [] try_configured).

Lemma start_wires_witness :
  ∃ s', try_start = Ok (true, s') ∧ sn_made s' = [StdioRaw] ∧ is_Some (sn_master s').
Proof.
  assert (is_ok try_start = true) as Hok by (vm_compute; reflexivity).
  destruct try_start as [[b s']|e] eqn:Hs; [|discriminate Hok].
  pose proof (start_wires no_ids no_ids true 0 [] (λ _, 0) [] try_configured b s' Hs
    eq_refl eq_refl eq_refl) as (_ & -> & Hmade & now_ & n & m & _ & _ & Hm & _).
  exists s'. rewrite Hm. by split_and!.
Defined.
