(* ===== verification/MasterProgram.v ===== *)
(** * The master in the program

    Whatever happens in the program, the master in it is in one of the states that
    Master.v calls reachable, so that everything that is shown of those holds of the
    master of the program. For this: what the parts of the program may do to the node
    and the master, and how the program is started. *)

From stdpp Require Import gmap.
From S2P Require Import Prelude Keeping SerialProtocol VecQueue StateChart RootChart Config.
From S2P Require Import TimeService MasterScheduler MasterState DynamicHandler MasterFSM Master.
From S2P Require Import MasterInvariant MasterSafety MasterEvents MasterRuns MasterProps NodeMaster.
From S2P Require Import FrameCodec Interfaces TxQueue AddressCache MsgToByteAdapter.
From S2P Require Import PacketTypeCodec Node Posix SerialDriver SerialProps FolderManager.
From S2P Require Import TunTapDriver TapDriver TunDriver RawDrivers SNConfig.
From S2P Require Import EventLoop EventLoopProps EventRuns Text WSDump SerialNet.
From S2P Require Import ProgramRules SerialNetProps MasterFrame.

(** ** What the program does to the node and the master *)

Section program.
Context {L O Q : Type} `{!LibEv L, !LibEvLaws L, !PriorityQueue Q, !Memory}.
Context `{!PosixFileIf O, !PosixFileLaws O, !PosixSleepIf O, !PosixSerialIf O, !PosixTunTapIf O,
  !PtyIf O, !FolderIf O, !Clock O, !SerialPort O}.
Abbreviation SN := (SerialNet L O Q).
#[local] Set Default Proof Using "Type".
Implicit Types (s : SN) (n : TheNode O).

(** The node is on a port that is open, and has bytes where it decodes a frame. *)
Record node_good n : Prop := {
  ng_beIf : mb_beIf (nd_adapter n) = Some ();
  ng_open : 0 < posix_fd.get (sb_fd (nd_driver n).1);
  ng_bytes : bytes (fc_decodePacket (mb_codec (nd_adapter n)))
}.
Definition node_kept n n' : Prop := node_good n → node_good n'.

#[export] Instance node_kept_preorder : PreOrder node_kept.
Proof. split; unfold node_kept; [by intros n|by intros n1 n2 n3 ?; auto]. Qed.

Lemma same_node_kept n n' :
  nd_adapter n' = nd_adapter n → (nd_driver n').1 = (nd_driver n).1 → node_kept n n'.
Proof. intros Ha Hd []. by split; rewrite ?Ha, ?Hd. Qed.

(** Sending uses the port and leaves the driver. *)
Lemma port_sends b l : keeping (λ d d' : Port O, d'.1 = d.1) (sendBytes b l).
Proof.
  assert (PreOrder (λ d d' : Port O, d'.1 = d.1)) as HR.
  { split; [done|]. intros ? ? ? Ha Hb. by rewrite Hb. }
  cbn [sendBytes serial_bytes]. unfold serial.sendBytes. intros d.
  unfold load. wp_step. wp_step. wp_step. apply wp_zoom. unfold wp.
  destruct (posix_write _ _ _) as [[res o]|]; [|done]. by destruct (_ =? _).
Qed.

Lemma node_sends_kept b l :
  keeping node_kept (zoom (Lens0 := lens_comp Lens_id driver_of) (sendBytes b l : M (Port O) ())).
Proof.
  intros n. apply wp_zoom. eapply wp_mono; [apply port_sends|done|]. intros [] d Hd.
  by apply same_node_kept.
Qed.

Lemma checkTimeout_packet {B} now_ (a : MsgToByteAdapter B) :
  fc_decodePacket (mb_codec (adapter.checkTimeout now_ a)) = fc_decodePacket (mb_codec a).
Proof. unfold adapter.checkTimeout. destruct (rxInProgress _); [|done]. by destruct (decide _). Qed.

Lemma checkTimeout_kept now_ n : node_kept n (n <| nd_adapter ::= adapter.checkTimeout now_ |>).
Proof.
  intros [Hb Ho Hc]. split; cbn; [by rewrite checkTimeout_beIf|done|by rewrite checkTimeout_packet].
Qed.

#[local] Ltac node_rule :=
  lazymatch goal with
  | |- keeping node_kept (zoom (sendBytes _ _)) => apply node_sends_kept
  | |- keeping node_kept (ether_sendMsg _) => cbn [ether_sendMsg node.node_ether adapter.adapter_ether]
  | |- keeping node_kept (sendBytes _ _) => cbn [sendBytes node.node_bytes]
  end.
#[local] Ltac leaf ::= intros; apply same_node_kept; reflexivity.

Lemma sendMasterPacket_kept p : keeping node_kept (sendMasterPacket (E := TheNode O) p).
Proof.
  cbn [sendMasterPacket node_env]. unfold node.sendMasterPacket.
  repeat first [node_rule|calm_step|unfold_step].
Qed.

Lemma sendClientPacket_kept : keeping node_kept (sendClientPacket (E := TheNode O)).
Proof.
  cbn [sendClientPacket node_env]. unfold node.sendClientPacket.
  repeat first [node_rule|calm_step|unfold_step].
Qed.

Lemma packetRxInProgress_kept now_ :
  keeping node_kept (packetRxInProgress (E := TheNode O) now_).
Proof.
  intros n. unfold wp. rewrite packetRxInProgress_node. apply checkTimeout_kept.
Qed.

(** What the master's work does to the node and the time. *)
Abbreviation node_frame := (frame_world (Q := Q) node_kept).

#[export] Instance node_master_frame : MasterFrame node_frame.
Proof.
  apply clock_frame; [apply _|apply sendMasterPacket_kept|apply sendClientPacket_kept|apply packetRxInProgress_kept].
Qed.

Lemma node_request aReq : keeping node_frame (receivedAddressRequest aReq).
Proof using Type PriorityQueue0. apply clock_request; [apply _|apply sendMasterPacket_kept|apply sendClientPacket_kept|apply packetRxInProgress_kept]. Qed.

(** A port that is open takes what is written to it, and nobody sets the clock back. *)
Context (port_steady : ∀ (o : O) fd, 0 < fd → port_takes o fd).
Context (clock_runs : ∀ l l' : L, ev_wait l l' → ev_now l ≤ ev_now l').

Lemma good_connected n : node_good n → connected n.
Proof using port_steady. intros []. split; [by eexists|]. by apply port_steady. Qed.

Abbreviation TheMaster := (Master (E := TheNode O) (Q := Q)).
Abbreviation time s := (ev_now (m_loop (sn_loop s))).

(** The master of the program, if there is one, has been reached, not after now. *)
Record tracked s : Prop := {
  tr_node : node_good (sn_node s);
  tr_time : seconds 1 ≤ time s;
  tr_master m : sn_master s = Some m → reachable (m : TheMaster) ∧ ts_now (w_ts m.2) ≤ time s
}.
Definition tracks s s' : Prop := tracked s → tracked s'.

#[export] Instance tracks_preorder : PreOrder tracks.
Proof. split; unfold tracks; [by intros s|by intros s1 s2 s3 ?; auto]. Qed.

Lemma same_tracks s s' :
  sn_master s' = sn_master s → m_loop (sn_loop s') = m_loop (sn_loop s) →
  nd_adapter (sn_node s') = nd_adapter (sn_node s) →
  (nd_driver (sn_node s')).1 = (nd_driver (sn_node s)).1 → tracks s s'.
Proof.
  intros Hm Hl Ha Hd [Hn Ht Hr]. split; rewrite ?Hl, ?Hm; [|done..].
  by apply (same_node_kept (sn_node s)).
Qed.

(** The master as it is now: on the node of the program, at the time of the loop. *)
Definition present s (m : TheMaster) : TheMaster :=
  (m.1, m.2 <| w_env := sn_node s |> <| w_ts ::= λ t, t <| ts_now := time s |> |>).

Lemma present_reachable s m : tracked s → sn_master s = Some m → reachable (present s m).
Proof using port_steady.
  intros [Hn _ Hr] Hm. destruct (Hr m Hm) as [Hreach Hle].
  apply (reach_input m (Passes (time s - ts_now (w_ts m.2)) (sn_node s))); [done|..].
  - split; [lia|]. by apply good_connected.
  - unfold present. destruct m as [f [[t nx p] env ah dh fsm]]. cbn.
    assert (time s = time s - t + t) as Ht by lia. revert Ht. generalize (time s - t).
    intros delta ->. reflexivity.
Qed.

Lemma on_master_inv {A} (m : M TheMaster A) s a s' :
  on_master m s = Ok (a, s') →
  ∃ t t', sn_master s = Some t ∧ m (present s t) = Ok (a, t') ∧
    s' = s <| sn_master := Some t' |> <| sn_node := w_env t'.2 |>.
Proof.
  unfold on_master. intros (s0 & s1 & [= <- <-] & ([f w] & s2 & Hd & Hrest)%bind_inv)%bind_inv.
  unfold deref in Hd. destruct (sn_master s) as [t|] eqn:Hs; [|done]. injection Hd as -> <-.
  apply bind_inv in Hrest as ([b [f' w']] & s3 & Hl & Hrest). unfold lift_result in Hl.
  exists (f, w), (f', w'). change (m (f, _)) with (m (present s (f, w))) in Hl.
  destruct (m (present s (f, w))) as [[b' t']|]; [|done]. injection Hl as -> -> <-.
  apply bind_inv in Hrest as ([] & s4 & [= <-] & [= <- <-]). done.
Qed.

(** What is done to the master keeps it reachable when it is the master's own work. *)
Lemma on_master_tracks {A} (m : M TheMaster A) :
  keeping (on_view node_frame) m →
  (∀ t, reachable t → wp m (λ _, True) (λ _ t, reachable t) t) →
  keeping tracks (on_master m).
Proof using port_steady.
  intros Hf Hm s. unfold wp. destruct (on_master m s) as [[a s']|] eqn:Hrun; [|done].
  intros Htr. apply on_master_inv in Hrun as (t & t' & Hs & Hr & ->).
  destruct (keeping_run _ _ _ _ _ Hf Hr) as [Ht Hn]. cbn [view Lens_snd] in Ht.
  pose proof (wp_run _ _ _ _ _ _ (Hm _ (present_reachable _ _ Htr Hs)) Hr) as Hreach.
  destruct Htr as [Hgood Htime _]. split; cbn; [by apply Hn|done|]. intros m' [= <-].
  split; [done|]. rewrite Ht. cbn. done.
Qed.

Lemma handles_reachable i (t : TheMaster) :
  enabled i t → reachable t → wp (handle i) (λ _, True) (λ _ t, reachable t) t.
Proof. intros Hi Hr. unfold wp. destruct (handle i t) as [[[] t']|] eqn:Ht; [|done]. by eapply reach_input. Qed.

Lemma receives_tracks type pkt :
  bytes pkt → keeping tracks (on_master (masterPacketReceived type pkt)).
Proof using port_steady.
  intros Hb. apply on_master_tracks; [by apply (frame_receives node_frame node_request)|].
  intros t Hr. by apply (handles_reachable (Received type pkt)).
Qed.

(** The destructor's last packet is for the node; the master is gone then. *)
Lemma exits_tracks : keeping tracks (on_master exitMaster).
Proof using port_steady.
  apply on_master_tracks; [by apply (frame_exits node_frame node_request)|]. intros [f w] Hr.
  pose proof (reachable_settled _ Hr) as (k & act & _ & _ & Hok & _).
  destruct (sendMaster_ok (packet.mkMasterEnded master_ended) (w_env w)) as (e & Hs & He);
    [by apply (wo_env _ _ _ Hok)|done|cbn; lia|].
  unfold exitMaster, on_world. apply wp_zoom, wp_on_part. eapply wp_eq; [exact Hs|].
  apply (reach_input (f, w) (Passes 0 e)); [done|by split|]. by destruct w as [[] ????].
Qed.

Lemma makes_tracks : keeping tracks make_Master.
Proof using port_steady.
  intros s. unfold wp. destruct (make_Master s) as [[[] s']|] eqn:Hrun; [|done]. intros [Hn Ht _].
  revert Hrun. unfold make_Master. intros (s0 & s1 & [= <- <-] & ([] & s2 & [= <-] &
    ([] & s3 & [= <-] & (t & t' & [= <-] & Hr & ->)%on_master_inv)%bind_inv)%bind_inv)%bind_inv.
  set (n := (sn_node s) <| nd_codec ::= codec.regMasterRx true |>).
  assert (node_good n) as Hgood by (by apply (same_node_kept (sn_node s))).
  change (construct (newFsm, newWorld (time s) n) = Ok ((), t')) in Hr.
  destruct (keeping_run _ _ _ _ _ (frame_constructs node_frame node_request (clock_scheduler _ _)
    (clock_starts _)) Hr) as [Hnow Hnode]. cbn [view Lens_snd] in Hnow.
  split; [by apply Hnode|done|]. intros m [= <-]. split; [|by rewrite Hnow].
  apply (reach_start (time s) n); [done|by apply good_connected|]. unfold newMaster. by rewrite Hr.
Qed.

(** The loop's clock does not go back. *)
Definition later (e e' : EventLoop closure L) : Prop := ev_now (m_loop e) ≤ ev_now (m_loop e').
#[export] Instance later_preorder : PreOrder later.
Proof. split; unfold later; [intros e; lia|intros e1 e2 e3; lia]. Qed.

Lemma loop_tracks {A} (m : M (EventLoop closure L) A) :
  keeping later m → keeping tracks (zoom (Lens0 := sn_loop_lens) m).
Proof.
  intros Hm s. apply wp_zoom. eapply wp_mono; [apply Hm|done|]. intros a e He [Hn Ht Hr].
  unfold later in He. cbn in He. split; cbn; [done|lia|]. intros t Hs.
  destruct (Hr t Hs). split; [done|lia].
Qed.

Lemma sends_tracks b l : keeping tracks (zoom (Lens0 := sn_port_lens) (sendBytes b l : M (Port O) ())).
Proof.
  intros s. apply wp_zoom. eapply wp_mono; [apply port_sends|done|]. intros [] d Hd.
  by apply same_tracks.
Qed.

#[local] Ltac leaf ::= intros;
  lazymatch goal with
  | |- tracks _ _ => apply same_tracks; reflexivity
  | |- later _ _ => unfold later; cbn; rewrite ?now_start, ?now_stop, ?now_break; lia
  end.
#[local] Set Default Proof Using "Type LibEvLaws0 port_steady".
#[local] Ltac later := repeat first [calm_step|class_step|unfold_step].

Lemma onReadable_tracks {X} (f : X → closure) fd c :
  keeping tracks (@loop_onReadable _ _ (on_loop (O := O) (Q := Q) f) fd c).
Proof. apply loop_tracks. cbn [loop_onReadable event_loop_if]. later. Qed.

Lemma onTimeout_later span c :
  keeping later (p ← event_loop.onTimeout span c; release p : M (EventLoop closure L) ()).
Proof. later. Qed.

Lemma onSignal_later signal c :
  keeping later (p ← event_loop.onSignal signal c; release p : M (EventLoop closure L) ()).
Proof. later. Qed.

Lemma onAvailable_tracks {X} (f : X → closure) c :
  keeping tracks (@loop_onAvailable _ _ (on_loop (O := O) (Q := Q) f) c).
Proof. apply loop_tracks. cbn [loop_onAvailable event_loop_if]. later. Qed.

#[local] Ltac rule ::=
  match goal with
  | H : ∀ _, keeping _ (?f _) |- keeping _ (?f _) => apply H
  | |- keeping tracks (loop_onReadable _ _) => apply onReadable_tracks
  | |- keeping tracks (loop_onAvailable _) => apply onAvailable_tracks
  | |- keeping tracks (zoom _) => apply loop_tracks
  | |- keeping tracks (zoom (sendBytes _ _)) => apply sends_tracks
  | |- keeping tracks (on_master exitMaster) => apply exits_tracks
  | |- keeping tracks make_Master => apply makes_tracks
  end.

Context (getpwnam getgrnam : string → M O (option Z)) (dump_opens : bool).
Context (garbage_status : Z) (garbage_buffer : ByteVec) (garbage_request : SN → packet.AddressRequest).
Context (distr : nat → Z) (garbage_mac : MacAddr).

Lemma stdio_tracks : keeping tracks stdio.on_readable.
Proof. calm. Qed.

Lemma pty_tracks c :
  keeping tracks (match c with pty.Readable => pty.on_readable | pty.Available => pty.on_available end).
Proof. calm. Qed.

Lemma socat_tun_tracks : keeping tracks socat_tun.on_readable.
Proof. calm. Qed.

Lemma socat_tap_tracks : keeping tracks socat_tap.on_readable.
Proof. calm. Qed.

Lemma tun_tracks : keeping tracks (tun_driver.on_readable garbage_buffer).
Proof. calm. Qed.

Lemma tap_tracks : keeping tracks tap_driver.on_readable.
Proof. calm. Qed.

Lemma host_tracks h data src dest chType :
  keeping tracks (packetReceivedFromNet (h : HostDriver) data src dest chType).
Proof. destruct h; calm. Qed.

Lemma newAddr_tracks h addr : keeping tracks (msgHostRx_newAddr (h : HostDriver) addr).
Proof. destruct h; calm. Qed.

Lemma dump_tracks bb : keeping tracks (dump_rxPacket bb).
Proof. calm. Qed.

Lemma rxRawPacket_tracks bb : bytes bb → keeping tracks (rxRawPacket garbage_request bb).
Proof.
  intros Hbb. pose proof (λ type, receives_tracks type bb Hbb). pose proof host_tracks.
  pose proof newAddr_tracks. pose proof dump_tracks.
  calm.
Qed.

(** *** What comes from the port *)

Lemma tracking {A} (m : M SN A) :
  (∀ s, tracked s → wp m (λ _, True) (λ _, tracked) s) → keeping tracks m.
Proof using.
  intros Hm s. unfold wp. destruct (m s) as [[a s']|] eqn:Hr; [|done]. intros Ht.
  exact (wp_run _ _ _ _ _ _ (Hm s Ht) Hr).
Qed.

Lemma tracking_run {A} (m : M SN A) s :
  keeping tracks m → tracked s → wp m (λ _, True) (λ _, tracked) s.
Proof using. intros Hm Ht. eapply wp_mono; [apply Hm|done|]. intros a s' Hs. by apply Hs. Qed.

Lemma set_adapter_tracked (a : MsgToByteAdapter ()) s :
  mb_beIf a = Some () → bytes (fc_decodePacket (mb_codec a)) → tracked s →
  tracked (set_view a s).
Proof using. intros Ha Hc [[_ Ho _] Ht Hm]. split; [by split|exact Ht|exact Hm]. Qed.

Lemma set_codec_tracked (c : FrameCodec) s :
  bytes (fc_decodePacket c) → tracked s →
  tracked (set_view (Lens := lens_comp sn_adapter_lens Lens_codec) c s).
Proof using. intros Hc Ht. apply set_adapter_tracked; [apply Ht|done|done]. Qed.

Abbreviation decodes := (decodeByte (Lens0 := lens_comp sn_adapter_lens Lens_codec) (rxRawPacket garbage_request)).

Lemma decodeByte_tracks b : is_byte b → keeping tracks (decodes b).
Proof.
  intros Hb. apply tracking. intros s Ht. unfold decodeByte, load, store. wp_step. wp_step.
  set (c := view s). assert (bytes (fc_decodePacket c)) as Hc by apply Ht.
  destruct (fc_state c).
  - destruct (b =? keyword); wp_step; [|done]. by apply set_codec_tracked.
  - destruct (negb _); [wp_step; by apply set_codec_tracked|].
    destruct (_ <=? _); [|done]. wp_step. apply set_codec_tracked; [|done].
    by apply Forall_resize.
  - destruct (_ <? _); [|done]. wp_step. apply set_codec_tracked; [|done].
    destruct (_ =? _); by apply Forall_insert.
  - wp_step. by apply set_codec_tracked.
  - wp_step. apply (wp_mono _ (λ _, True) _ (λ _, tracked)).
    + destruct (_ && _); [|by wp_step]. apply tracking_run; [|done].
      apply rxRawPacket_tracks. by apply Forall_take.
    + done.
    + intros [] s1 Ht1. wp_step. wp_step. wp_step. by apply set_codec_tracked; [apply Ht1|].
Qed.

Lemma receiveBytes_tracks l : bytes l → keeping tracks (receiveBytes garbage_request l).
Proof.
  intros Hl. unfold receiveBytes. apply (keeping_bind _); [calm|intros n].
  unfold adapter.receiveBytes. apply tracking. intros s Ht. unfold load, store.
  wp_step. wp_step. wp_step. wp_step.
  apply tracking_run.
  - induction Hl as [|b l Hb _ IH]; cbn [for_each]; [apply (keeping_ret _)|].
    apply (keeping_bind _); [by apply decodeByte_tracks|done].
  - apply set_adapter_tracked; [..|done]; cbn.
    + rewrite checkTimeout_beIf. apply Ht.
    + rewrite checkTimeout_packet. apply Ht.
Qed.

Lemma serial_tracks : keeping tracks (serial.on_readable (receiveBytes garbage_request)).
Proof using All.
  unfold serial.on_readable, serial.readSerial. apply (keeping_bind _); [|intros _; calm].
  apply tracking. intros s Ht. unfold load. wp_step. wp_step. wp_step.
  apply wp_zoom.
  destruct (posix_read_ok (posix_fd.get (sb_fd (view s))) 2048 (view (Lens := sn_os_lens) s))
    as (n & l & o & Hread & _ & _ & Hl).
  eapply wp_eq; [exact Hread|]. cbn beta iota. apply tracking_run; [|by apply (same_tracks s)].
  apply (keeping_bind _); [calm|intros d]. destruct (_ && _).
  - apply (keeping_bind _); [by apply receiveBytes_tracks, Forall_take|intros _; calm].
  - calm.
Qed.

Lemma resets_tracks : keeping tracks reset_Master.
Proof using.
  intros s. unfold reset_Master. wp_step. wp_step. wp_step. wp_step. intros [Hn Ht Hm]. split; cbn; [|done..].
  by apply (same_node_kept (sn_node s)).
Qed.

Lemma call_tracks c : keeping tracks (call garbage_buffer garbage_request c).
Proof using All.
  destruct c as [[]|[]|[]|[]|[]|[]|[]| |]; cbn [call];
    [apply serial_tracks|apply stdio_tracks|apply (pty_tracks pty.Readable)
    |apply (pty_tracks pty.Available)|apply socat_tun_tracks|apply socat_tap_tracks
    |apply tun_tracks|apply tap_tracks| |]; [|calm].
  unfold on_master_timeout. apply (keeping_bind _); [apply exits_tracks|intros _].
  apply (keeping_bind _); [apply resets_tracks|intros _; calm].
Qed.

(** *** The main loop *)

Lemma callback_tracks w p :
  keeping tracks (event_loop.ev_callback (call garbage_buffer garbage_request) w p).
Proof using All. pose proof call_tracks. destruct w; calm. Qed.

Lemma with_ev_tracked s l : ev_now (m_loop (sn_loop s)) ≤ ev_now l → tracked s →
  tracked (event_loop.with_ev l s).
Proof using.
  intros Hl [Hn Ht Hm]. split; cbn; [done|lia|]. intros m Hs. destruct (Hm m Hs). split; [done|lia].
Qed.

Lemma step_tracks s s' : program_step garbage_buffer garbage_request s s' → tracks s s'.
Proof using All.
  intros [s1 [p w l s2 Htake Hcb|l Hwait]|m i c s1 Hs Hdue Hrun] Htr.
  - apply (keeping_run _ _ _ _ _ (callback_tracks w p) Hcb). apply with_ev_tracked; [|done].
    by rewrite (now_take _ _ _ _ Htake).
  - apply with_ev_tracked; [|done]. by apply clock_runs.
  - apply on_master_inv in Hrun as (t & t' & Ht & Hr & ->). simplify_eq.
    destruct (keeping_run _ _ _ _ _ (frame_fires node_frame node_request i c) Hr) as [Hnow Hnode]. cbn [view Lens_snd] in Hnow.
    pose proof (present_reachable _ _ Htr Hs) as Hreach. destruct Htr as [Hn Ht' _].
    split; cbn; [by apply Hnode|done|]. intros m' [= <-]. split; [|by rewrite Hnow].
    by apply (reach_input _ (Fires i c)) in Hr.
Qed.

(** *** Before the master is made *)

(** There is none yet, and the port is open from a point on. *)
Definition early (port : bool) s : Prop :=
  sn_master s = None ∧ seconds 1 ≤ time s ∧
  (port = true → 0 < posix_fd.get (sb_fd (nd_driver (sn_node s)).1)).
Definition starts_by port s s' : Prop := early port s → early port s'.

#[export] Instance starts_by_preorder port : PreOrder (starts_by port).
Proof using. split; unfold starts_by; [by intros s|by intros s1 s2 s3 ?; auto]. Qed.

Lemma same_starts port s s' :
  sn_master s' = sn_master s → m_loop (sn_loop s') = m_loop (sn_loop s) →
  (nd_driver (sn_node s')).1 = (nd_driver (sn_node s)).1 → starts_by port s s'.
Proof using. intros Hm Hl Hd. unfold starts_by, early. by rewrite Hm, Hl, Hd. Qed.

Lemma loop_starts {A} port (m : M (EventLoop closure L) A) :
  keeping later m → keeping (starts_by port) (zoom (Lens0 := sn_loop_lens) m).
Proof using.
  intros Hm s. apply wp_zoom. eapply wp_mono; [apply Hm|done|]. intros a e He (Hs & Ht & Hp).
  unfold later in He. cbn in He. split_and!; [done|cbn; lia|done].
Qed.

Lemma onReadable_starts port fd :
  keeping (starts_by port) (loop_onReadable (S := SN) fd serial.Readable).
Proof. apply loop_starts. cbn [loop_onReadable event_loop_if]. later. Qed.

#[local] Ltac leaf ::= intros;
  lazymatch goal with
  | |- starts_by _ _ _ => apply same_starts; reflexivity
  | |- tracks _ _ => apply same_tracks; reflexivity
  end.
#[local] Ltac rule ::=
  match goal with
  | |- keeping (starts_by _) (loop_onReadable _ _) => apply onReadable_starts
  | |- keeping (starts_by _) (zoom _) => apply loop_starts
  end.

Lemma constructs_early : keeping (starts_by false) (construct_SerialNet (L := L) (O := O) (Q := Q)).
Proof using. calm. Qed.

Lemma configures_early vm : keeping (starts_by false) (configure vm : M SN ()).
Proof using. calm. Qed.

Lemma dumps_early : keeping (starts_by false) (open_dump dump_opens : M SN ()).
Proof using. calm. Qed.

Lemma starts_run {A} port (m : M SN A) s :
  keeping (starts_by port) m → early port s → wp m (λ _, True) (λ _, early port) s.
Proof using. intros Hm Hs. eapply wp_mono; [apply Hm|done|]. intros a s' Hr. by apply Hr. Qed.

(** The constructor of the driver throws when the port can not be opened. *)
Lemma port_opens device s :
  early false s → wp (serial.construct device) (λ _, True) (λ _, early true) s.
Proof using.
  intros Hs. unfold serial.construct, serial.setup.
  apply wp_bind, (wp_mono _ (λ _, True) _ (λ _, early false)); [apply starts_run; [calm|done]|done|].
  intros d s1 Hs1.
  apply wp_bind, (wp_mono _ (λ _, True) _ (λ _, early false)); [apply starts_run; [calm|done]|done|].
  intros fd s2 Hs2.
  apply wp_bind, (wp_mono _ (λ _, True) _ (λ _, early false)); [apply starts_run; [calm|done]|done|].
  intros m_fd s3 (Hm & Ht & _). unfold load, store. wp_step. wp_step. wp_step. wp_step.
  destruct (Z.leb_spec (posix_fd.get m_fd) 0) as [Hfd|Hfd]; [done|].
  apply starts_run; [calm|]. by split_and!.
Qed.

Lemma core_starts s :
  early false s → wp (start_core garbage_status distr) (λ _, True) (λ _, tracked) s.
Proof.
  intros Hs. unfold start_core. wp_step. apply wp_get. wp_step.
  eapply wp_mono; [by apply port_opens|done|]. intros [] s1 Hs1.
  wp_step. eapply wp_mono; [apply (starts_run true); [calm|done]|done|]. intros [] s2 Hs2.
  wp_step. eapply wp_mono; [apply (starts_run true); [calm|done]|done|]. intros [] s3 (Hm & Ht & Hp).
  unfold wp. cbn. split; cbn; [|done|by rewrite Hm]. split; [done|by apply Hp|by apply Forall_nil_2].
Qed.

#[local] Ltac rule ::=
  match goal with
  | |- keeping tracks (loop_onReadable _ _) => apply onReadable_tracks
  | |- keeping tracks (loop_onAvailable _) => apply onAvailable_tracks
  | |- keeping tracks (zoom (mbind _ (event_loop.onTimeout _ _))) =>
      apply loop_tracks; exact (onTimeout_later _ _)
  | |- keeping tracks (zoom (sendBytes _ _)) => apply sends_tracks
  | |- keeping tracks make_Master => apply makes_tracks
  end.

Lemma host_starts : keeping tracks (start_host garbage_buffer garbage_mac).
Proof. calm. Qed.

Lemma master_set_up : keeping tracks setupMaster.
Proof. calm. Qed.

Abbreviation starts := (main_begins getpwnam getgrnam dump_opens garbage_status garbage_buffer distr garbage_mac).
Abbreviation nothing l o := (unmade garbage_buffer distr garbage_mac l o : SN).
Abbreviation started_by := (start getpwnam getgrnam dump_opens garbage_status garbage_buffer distr garbage_mac).
Abbreviation steps := (rtc (program_step garbage_buffer garbage_request)).

Lemma net_starts s :
  early false s → wp (start_net garbage_status garbage_buffer distr garbage_mac)
    (λ _, True) (λ _, tracked) s.
Proof.
  intros Hs. unfold start_net. wp_step. eapply wp_mono; [by apply core_starts|done|].
  intros [] s1 Hs1. pose proof host_starts. pose proof master_set_up.
  apply tracking_run; [|done]. apply (keeping_bind _); [done|intros _].
  repeat first [calm_step|unfold node_part]; done.
Qed.

Lemma wp_after {A B} (m : M SN A) (f : A → M SN B) P s :
  (∀ a s', wp (f a) (λ _, True) P s') → wp (m ≫= f) (λ _, True) P s.
Proof using. intros Hf. apply wp_bind. unfold wp at 1. destruct (m s) as [[a s']|]; [apply Hf|done]. Qed.

Lemma starts_tracked s :
  early false s → wp started_by (λ _, True) (λ b s', b = true → tracked s') s.
Proof.
  intros Hs. unfold start.
  wp_step. eapply wp_mono; [apply (starts_run false); [apply dumps_early|done]|done|]. intros [] s1 Hs1.
  wp_step. apply wp_get.
  destruct (SNConfig.sn_mode _);
    try (wp_step; eapply wp_mono; [by apply net_starts|done|]; intros [] s2 Hs2; by wp_step);
    repeat (apply wp_after; intros [] ?); by wp_step.
Qed.

Lemma main_tracked argc parse l o s :
  seconds 1 ≤ ev_now l → starts argc parse (nothing l o) = Ok (None, s) → tracked s.
Proof.
  intros Hl. unfold main_begins. destruct (argc =? 1); [done|].
  intros (vm & s1 & Hp & Hrest)%bind_inv. unfold lift_result in Hp.
  destruct parse; [|done]. injection Hp as -> <-.
  destruct (vm_help vm), (vm_usage vm), (vm_version vm),
    (bool_decide (SNConfig.vm_mode (vm_options vm) = None)); try done.
  apply bind_inv in Hrest as ([] & s2 & Hc & ([] & s3 & Hconf & (b & s4 & Hst & Hrest)%bind_inv)%bind_inv).
  assert (early false (nothing l o)) as H1 by done.
  pose proof (keeping_run _ _ _ _ _ constructs_early Hc H1) as H2.
  pose proof (keeping_run _ _ _ _ _ (configures_early _) Hconf H2) as H3.
  pose proof (wp_run _ _ _ _ _ _ (starts_tracked s3 H3) Hst) as H4.
  destruct b; [|done]. apply bind_inv in Hrest as ([] & s5 & Hb & [= <-]).
  refine (keeping_run tracks _ _ _ _ _ Hb (H4 eq_refl)).
  apply loop_tracks, onSignal_later.
Qed.

Lemma runs_tracked s s' : steps s s' → tracks s s'.
Proof using All. induction 1 as [s|s1 s2 s3 Hstep _ IH]; [done|]. by etrans; [apply step_tracks|]. Qed.

Lemma on_master_does {A} (m : M TheMaster A) s t :
  sn_master s = Some t →
  on_master m s = match m (present s t) with
    | Ok (a, t') => Ok (a, s <| sn_master := Some t' |> <| sn_node := w_env t'.2 |>)
    | Fail e => Fail e
    end.
Proof using.
  intros Hs. destruct t as [f w]. unfold on_master, mbind, M_bind, get, gets, deref, lift_result, mret, M_ret.
  rewrite Hs. change (m (f, _)) with (m (present s (f, w))).
  by destruct (m (present s (f, w))) as [[a [f' w']]|].
Qed.

End program.

(** ** The node on the standard streams *)

Definition try_master_started : ByteVec := fromHeader (packet.mkMasterStarted master_started).

