(* ===== verification/HwTests.v ===== *)
(** * The hardware test (mains/hw_tests)

    A program of its own that sets the RTS line of a port and holds it there for some
    time, so that it can be measured; and what it makes of its arguments. *)

From S2P Require Import Prelude Interfaces Posix SerialDriver SerialProps.

(** A call returns, or stays in the loop [while (1)] that nothing leaves. *)
Inductive Outcome (A : Type) : Type := Returns (a : A) | Spins.
Arguments Returns {A} a.
Arguments Spins {A}.

(** The argument of [sleep] is unsigned. *)
Definition to_unsigned (x : Z) : Z := x mod 2 ^ 32.

Module hw_tests.
Section hw_tests.
Context {S : Type} `{!PosixFileIf S, !PosixSerialIf S, !PosixSleepIf S} (garbage : Z).

Definition level_of (value : Z) : PosixSerialUtils.IOState :=
  if negb (value =? 0) then PosixSerialUtils.asserted else PosixSerialUtils.negated.

Definition hold (fd timeout : Z) : M S (Outcome ()) :=
  if timeout =? -1 then mret Spins
  else
    posix_sleep (to_unsigned timeout) ;;
    posix_close fd ;;
    mret (Returns ()).

Definition doSetRTS (device : string) (value timeout : Z) : M S (Outcome ()) :=
  let val := level_of value in
  fd ← posix_open device O_RDWR;
  if fd <? 0 then mret (Returns ())
  else
    PosixSerialUtils.setRTS garbage fd val ;;
    hold fd timeout.

(** The arguments as [boost::program_options] parses them. *)
Record Line : Type := mkLine {
  hw_usage : bool;
  hw_version : bool;
  hw_cmd : option string;
  hw_device : string;
  hw_arg : Z;
  hw_timeout : Z
}.

Definition main (argc : Z) (parse : result Line) : M S (Outcome Z) :=
  if argc =? 1 then mret (Returns 0)
  else
    vm ← lift_result parse;
    if hw_usage vm then mret (Returns 1)
    else if hw_version vm then mret (Returns 1)
    else
      match hw_cmd vm with
      | None => mret (Returns 1)
      | Some cmd =>
          if bool_decide (cmd = "setRTS"%string) then
            if bool_decide (hw_device vm = ""%string) then mret (Returns 1)
            else
              r ← doSetRTS (hw_device vm) (hw_arg vm) (hw_timeout vm);
              mret (match r with Returns _ => Returns 0 | Spins => Spins end)
          else mret (Returns 0)
      end.
End hw_tests.
End hw_tests.

Section props.
Context {S : Type} `{!PosixFileIf S, !PosixSerialIf S, !PosixSleepIf S} (garbage : Z).
Implicit Types (s : S).

(** On a port that opens and can be read, the test sets the RTS line to the level that
    is asked for, leaves the other lines as they are, and holds that; whether the line
    could be set, it does not say. *)
Lemma test_sets_line device value timeout s fd s1 res status s2 :
  posix_open device O_RDWR s = Ok (fd, s1) → 0 ≤ fd →
  ioctl_TIOCMGET fd garbage s1 = Ok ((res, status), s2) → res ≠ -1 →
  ∃ lines,
    (∀ i, 0 ≤ i → Z.testbit lines i = if decide (i = 2) then negb (value =? 0)
                                       else Z.testbit status i) ∧
    ∀ r st s3, ioctl_TIOCMSET fd lines s2 = Ok ((r, st), s3) →
      hw_tests.doSetRTS garbage device value timeout s = hw_tests.hold fd timeout s3.
Proof.
  intros Hopen Hfd Hget Hres.
  pose proof (setRTS_changes_one_line garbage fd (hw_tests.level_of value) s1 s2 res status Hget) as Hset.
  rewrite decide_False in Hset by done. destruct Hset as (lines & Hlines & Hset). exists lines. split.
  - intros i Hi. rewrite (Hlines i Hi). unfold hw_tests.level_of. by destruct (decide _), (value =? 0).
  - intros r st s3 Hr. unfold hw_tests.doSetRTS. rewrite (bind_ok _ _ _ _ _ Hopen).
    destruct (Z.ltb_spec fd 0); [lia|]. by rewrite (bind_ok _ _ _ _ _ (Hset _ _ _ Hr)).
Qed.

(** Without a time-out the test never ends: the default is to hold the line for ever,
    once the port is open and its lines have been dealt with. *)
Lemma test_without_timeout fd s : hw_tests.hold fd (-1) s = Ok (Spins, s).
Proof. done. Qed.

(** A port that can not be opened is reported to nobody but the log: the exit code is
    that of success. *)
Lemma test_cannot_open argc vm s fd s1 :
  argc ≠ 1 → hw_tests.hw_usage vm = false → hw_tests.hw_version vm = false →
  hw_tests.hw_cmd vm = Some "setRTS"%string → hw_tests.hw_device vm ≠ ""%string →
  posix_open (hw_tests.hw_device vm) O_RDWR s = Ok (fd, s1) → fd < 0 →
  hw_tests.main garbage argc (Ok vm) s = Ok (Returns 0, s1).
Proof.
  intros Hargc Hu Hv Hcmd Hdev Hopen Hfd.
  assert (hw_tests.doSetRTS garbage (hw_tests.hw_device vm) (hw_tests.hw_arg vm) (hw_tests.hw_timeout vm) s
    = Ok (Returns (), s1)) as Hd.
  { unfold hw_tests.doSetRTS. rewrite (bind_ok _ _ _ _ _ Hopen). by destruct (Z.ltb_spec fd 0); [|lia]. }
  unfold hw_tests.main.
  destruct (Z.eqb_spec argc 1); [done|]. rewrite (bind_ok _ _ s vm s) by done.
  rewrite Hu, Hv, Hcmd, bool_decide_eq_true_2, bool_decide_eq_false_2 by done.
  by rewrite (bind_ok _ _ _ _ _ Hd).
Qed.
End props.
