(* ===== verification/MQTTDriver.v ===== *)
(** * The MQTT driver (drivers/mqtt/)

    A client of an MQTT broker, over the mosquitto library, which is a class. The
    library is initialised once, by the first user. *)

From S2P Require Import Prelude.

(** The functions of the library that are called; a client is a pointer or null. *)
Class Mosquitto (S : Type) := {
  mosquitto_lib_init : M S Z;
  mosquitto_new (id : string) (clean_session : bool) : M S (option nat);
  mosquitto_destroy (client : nat) : M S ();
  mosquitto_connect (client : nat) (host : string) (port keepalive : Z) : M S Z;
  mosquitto_disconnect (client : nat) : M S Z
}.
#[export] Hint Mode Mosquitto ! : typeclass_instances.

Definition MOSQ_ERR_SUCCESS : Z := 0.

Record MQTTDriverClient : Type := mkMQTTDriverClient {
  m_client : nat;
  m_connected : bool
}.
#[export] Instance Eta_MQTTDriverClient : Eta MQTTDriverClient := λ c,
  mkMQTTDriverClient (m_client c) (m_connected c).

Module mqtt_client.
Section mqtt_client.
Context {S : Type} `{!Mosquitto S}.

Definition newMQTTDriverClient (id : string) : M S MQTTDriverClient :=
  client ← mosquitto_new id true;
  match client with
  | Some c => mret (mkMQTTDriverClient c false)
  | None => fail (Exception "Failed to create mqtt client.")
  end.

Definition destroy (c : MQTTDriverClient) : M S () := mosquitto_destroy (m_client c).

Definition disconnect (c : MQTTDriverClient) : M S MQTTDriverClient :=
  mosquitto_disconnect (m_client c) ;;
  mret (c <| m_connected := false |>).

Definition connect (host : string) (c : MQTTDriverClient) : M S MQTTDriverClient :=
  c ← (if m_connected c then disconnect c else mret c);
  res ← mosquitto_connect (m_client c) host 1883 60;
  if negb (res =? MOSQ_ERR_SUCCESS) then fail (Exception "Failed connect")
  else mret (c <| m_connected := true |>).
End mqtt_client.
End mqtt_client.

(** [MQTTDriver]: the flag says that the static object of [initLibrary] exists. *)
Module mqtt_driver.
Section mqtt_driver.
Context {S : Type} `{!Mosquitto S, !Lens S bool}.

Definition initLibrary : M S () :=
  b ← load;
  if b : bool then skip else mosquitto_lib_init ;; store true.

Definition getClient (id : string) : M S MQTTDriverClient :=
  initLibrary ;;
  mqtt_client.newMQTTDriverClient id.
End mqtt_driver.
End mqtt_driver.

(** ** The client and the broker *)

(** What the library promises: a client that is made is not connected; connecting works
    for a client that is not, or reports an error and leaves it so. *)
Class MosquittoLaws (S : Type) `{!Mosquitto S} := {
  session : S → nat → option bool;
  new_session id b s :
    wp (mosquitto_new id b) never (λ c s', ∀ p, c = Some p → session s' p = Some false) s;
  connect_session p host port k s :
    session s p = Some false →
    wp (mosquitto_connect p host port k) never
      (λ r s', session s' p = Some (bool_decide (r = MOSQ_ERR_SUCCESS))) s;
  disconnect_session p s :
    is_Some (session s p) →
    wp (mosquitto_disconnect p) never (λ _ s', session s' p = Some false) s
}.

Section props.
Context {S : Type} `{!Mosquitto S, !MosquittoLaws S}.
Implicit Types (c : MQTTDriverClient) (s : S).

(** The member says whether the client is connected. *)
Definition agrees c s : Prop := session s (m_client c) = Some (m_connected c).

Lemma new_agrees id s :
  wp (mqtt_client.newMQTTDriverClient id) (λ e, e = Exception "Failed to create mqtt client.")
    (λ c s', agrees c s' ∧ m_connected c = false) s.
Proof.
  unfold mqtt_client.newMQTTDriverClient. wp_step.
  eapply wp_mono; [apply new_session|done|]. intros [p|] s' Hp; [|done].
  wp_step. split; [by apply Hp|done].
Qed.

Lemma disconnect_agrees c s :
  agrees c s → wp (mqtt_client.disconnect c) never (λ c' s', agrees c' s' ∧
    m_client c' = m_client c ∧ m_connected c' = false) s.
Proof.
  intros Hc. unfold mqtt_client.disconnect. wp_step.
  eapply wp_mono; [by apply disconnect_session; eexists|done|]. intros r s' Hr. by wp_step.
Qed.

(** Connecting, again or for the first time, connects or throws; a client that was
    connected is first disconnected. *)
Lemma connect_agrees host c s :
  agrees c s → wp (mqtt_client.connect host c) (λ e, e = Exception "Failed connect")
    (λ c' s', agrees c' s' ∧ m_client c' = m_client c ∧ m_connected c' = true) s.
Proof.
  intros Hc. unfold mqtt_client.connect. wp_step.
  apply (wp_mono _ never _ (λ c' s', agrees c' s' ∧ m_client c' = m_client c ∧ m_connected c' = false)).
  - destruct (m_connected c) eqn:Hm; [by apply disconnect_agrees|by wp_step].
  - done.
  - intros c1 s1 (Hc1 & Hp & Hm). unfold agrees in Hc1. rewrite Hm in Hc1. wp_step.
    eapply wp_mono; [by apply connect_session|done|]. intros r s2 Hr.
    destruct (Z.eqb_spec r MOSQ_ERR_SUCCESS) as [->|]; [|done]. cbn [negb]. apply wp_ret.
    split_and!; [|done..]. by rewrite (bool_decide_eq_true_2 _ eq_refl) in Hr.
Qed.
End props.

(** ** A library to try it on: a broker that is there, or not *)

Record Broker : Type := mkBroker { br_sessions : list bool; br_there : bool }.

#[export] Instance broker_mosquitto : Mosquitto Broker := {
  mosquitto_lib_init := mret 0;
  mosquitto_new _ _ :=
    b ← get;
    put (mkBroker (br_sessions b ++ [false]) (br_there b)) ;;
    mret (Some (length (br_sessions b)));
  mosquitto_destroy _ := skip;
  mosquitto_connect p _ _ _ :=
    b ← get;
    if br_there b then put (mkBroker (<[p := true]> (br_sessions b)) true) ;; mret 0
    else mret 14;
  mosquitto_disconnect p :=
    modify (λ b, mkBroker (<[p := false]> (br_sessions b)) (br_there b)) ;; mret 0
}.
#[export] Program Instance broker_laws : MosquittoLaws Broker :=
  {| session b p := br_sessions b !! p |}.
Next Obligation.
  intros id b s. unfold wp. cbn. intros p [= <-]. cbn. by apply list_lookup_middle.
Qed.
Next Obligation.
  intros p host port k [l []]; unfold wp; cbn; [|done]. intros Hs.
  apply list_lookup_insert_eq. by apply lookup_lt_Some in Hs.
Qed.
Next Obligation.
  intros p [l b] [x Hs]. unfold wp. cbn. apply list_lookup_insert_eq. by apply lookup_lt_Some in Hs.
Qed.

Example broker_connects :
  (c ← mqtt_client.newMQTTDriverClient "1234"; mqtt_client.connect "127.0.0.1" c) (mkBroker [] true)
  = Ok (mkMQTTDriverClient 0 true, mkBroker [true] true).
Proof. reflexivity. Qed.
